(** * Knowledge-base ingestion and vector-embedding synchronisation

    A shallow embedding of the document-ingestion pipeline of the platform:

    - [apps/api/src/vector-store/lib/sync/sync-utils.ts]
      ([needsUpdate], [deleteOldEmbeddings], [createChunkItems],
      [upsertChunks], [initSyncStats]);
    - the background task [processKnowledgeBaseDocumentTask]
      (with [createS3Client] and [extractContentFromKnowledgeBaseDocument]);
    - the two variants of [extractS3KeyFromUrl] / [isValidS3Host]
      (the API one and the web-app one).

    JavaScript strings are modelled as Rocq strings, read as sequences of
    code units below 256 (the Latin-1 range); objects used as string maps
    are [gmap string string]; asynchronous code that talks to the database,
    the object store and the vector index is written in a state-and-exception
    monad over an explicit [World]. *)

From Stdlib Require Import Ascii String DecimalString.
From Stdlib Require DecimalNat.
From stdpp Require Import gmap strings list fin_maps.

Open Scope string_scope.

(** ** JavaScript string primitives *)

Module Js.

(** [p] is what [s] begins with. *)
Fixpoint isPrefix (p s : string) : bool :=
  match p, s with
  | EmptyString, _ => true
  | String _ _, EmptyString => false
  | String a p', String b s' => Ascii.eqb a b && isPrefix p' s'
  end.

(** [s.includes(needle)] *)
Fixpoint includes (s needle : string) : bool :=
  isPrefix needle s ||
  match s with
  | EmptyString => false
  | String _ rest => includes rest needle
  end.

(** [s.startsWith(p)] *)
Definition startsWith (s p : string) : bool := isPrefix p s.

(** [s.endsWith(suffix)] *)
Definition endsWith (s suffix : string) : bool :=
  (String.length suffix <=? String.length s)%nat &&
  String.eqb
    (String.substring (String.length s - String.length suffix)
                      (String.length suffix) s)
    suffix.

(** [s.substring(1)] *)
Definition substring1 (s : string) : string :=
  match s with
  | EmptyString => EmptyString
  | String _ rest => rest
  end.

(** [!s] for a string: only the empty string is falsy. *)
Definition falsy (s : string) : bool :=
  match s with
  | EmptyString => true
  | String _ _ => false
  end.

(** [!v] for a value that is a string or [undefined]. *)
Definition falsy_opt (v : option string) : bool :=
  match v with
  | None => true
  | Some s => falsy s
  end.

(** White space and line terminators removed by [trim], among the code
    units below 256: TAB, LF, VT, FF, CR, SPACE and NBSP. *)
Definition isWhiteSpace (c : ascii) : bool :=
  let n := nat_of_ascii c in
  ((9 <=? n) && (n <=? 13))%nat || (n =? 32)%nat || (n =? 160)%nat.

Fixpoint trimStart (s : string) : string :=
  match s with
  | EmptyString => EmptyString
  | String c rest => if isWhiteSpace c then trimStart rest else s
  end.

(** Removes trailing white space: a character is kept when it is not
    white space or when something is kept after it. *)
Fixpoint trimEnd (s : string) : string :=
  match s with
  | EmptyString => EmptyString
  | String c rest =>
      match trimEnd rest with
      | EmptyString => if isWhiteSpace c then EmptyString
                       else String c EmptyString
      | kept => String c kept
      end
  end.

(** [s.trim()] *)
Definition trim (s : string) : string := trimEnd (trimStart s).

(** [s.toLowerCase()] on code units below 256: A-Z, and the Latin-1
    capitals U+00C0..U+00DE except the multiplication sign U+00D7. *)
Definition lowerChar (c : ascii) : ascii :=
  let n := nat_of_ascii c in
  if ((65 <=? n) && (n <=? 90))%nat then ascii_of_nat (n + 32)
  else if ((192 <=? n) && (n <=? 222) && negb (n =? 215))%nat
       then ascii_of_nat (n + 32)
  else c.

Fixpoint toLowerCase (s : string) : string :=
  match s with
  | EmptyString => EmptyString
  | String c rest => String (lowerChar c) (toLowerCase rest)
  end.

(** [a < b] on strings: lexicographic order on code units. *)
Definition lt (a b : string) : bool := String.ltb a b.

(** Template-literal rendering of a non-negative integer. *)
Definition numberToString (n : nat) : string :=
  NilEmpty.string_of_uint (Nat.to_uint n).

(** Thrown values: an [Error] object carrying its message, or anything
    else. *)
Inductive exn : Type :=
| Error (message : string)
| Thrown (description : string).

(** [error instanceof Error ? error.message : 'Unknown error'] *)
Definition errorMessage (e : exn) : string :=
  match e with
  | Error m => m
  | Thrown _ => "Unknown error"
  end.

End Js.

(** ** Data model of [sync-utils.ts] *)

Inductive SourceType : Type :=
| policy
| context
| manual_answer
| knowledge_base_document.

(** The string each member of the union type [SourceType] stands for. *)
Definition sourceTypeString (t : SourceType) : string :=
  match t with
  | policy => "policy"
  | context => "context"
  | manual_answer => "manual_answer"
  | knowledge_base_document => "knowledge_base_document"
  end.

(** Modelled from the spec: the type [ExistingEmbedding] is declared in
    [core/find-existing-embeddings], outside the sources at hand.  The
    data model gives it an identifier and a recorded [updatedAt]; the code
    reads [e.id] and [e.updatedAt] and guards against a missing
    [updatedAt], hence the option. *)
Record ExistingEmbedding : Type := mkExisting {
  ee_id : string;
  ee_updatedAt : option string
}.

(** [ChunkItem]: the [metadata] object is a string-keyed map. *)
Record ChunkItem : Type := mkChunkItem {
  ci_id : string;
  ci_text : string;
  ci_metadata : gmap string string
}.

(** The counters of one sync run. *)
Module Stats.

Record SyncStats : Type := mkSyncStats {
  created : nat;
  updated : nat;
  skipped : nat;
  failed : nat;
  total : nat
}.

Definition initSyncStats (total : nat) : SyncStats :=
  {| created := 0; updated := 0; skipped := 0; failed := 0;
     total := total |}.

End Stats.

(** ** Staleness check *)

(** [existingEmbeddings.length === 0 ||
     existingEmbeddings.some((e) => !e.updatedAt || e.updatedAt < updatedAt)] *)
Definition isStale (updatedAt : string) (e : ExistingEmbedding) : bool :=
  Js.falsy_opt (ee_updatedAt e) ||
  match ee_updatedAt e with
  | Some u => Js.lt u updatedAt
  | None => false
  end.

Definition needsUpdate (existingEmbeddings : list ExistingEmbedding)
    (updatedAt : string) : bool :=
  (length existingEmbeddings =? 0)%nat ||
  existsb (isStale updatedAt) existingEmbeddings.

(** ** Chunk items *)

(** [text && text.trim().length > 0] *)
Definition nonBlank (text : string) : bool :=
  negb (Js.falsy text) && (0 <? String.length (Js.trim text))%nat.

(** The filter [(item) => item.text && item.text.trim().length > 0]. *)
Definition hasText (item : ChunkItem) : bool := nonBlank (ci_text item).

(** The template literal [`${idPrefix}_${sourceId}_chunk${chunkIndex}`]. *)
Definition chunkId (idPrefix sourceId : string) (chunkIndex : nat) : string :=
  idPrefix +:+ "_" +:+ sourceId +:+ "_chunk" +:+ Js.numberToString chunkIndex.

(** The object literal
    [{ organizationId, sourceType, sourceId, content: chunk, updatedAt,
       ...extraMetadata }]: the spread comes last, so an own key of
    [extraMetadata] wins over the key written before it. *)
Definition chunkMetadata (organizationId : string) (sourceType : SourceType)
    (sourceId chunk updatedAt : string) (extraMetadata : gmap string string)
    : gmap string string :=
  extraMetadata ∪
  <["updatedAt" := updatedAt]>
  (<["content" := chunk]>
  (<["sourceId" := sourceId]>
  (<["sourceType" := sourceTypeString sourceType]>
  (<["organizationId" := organizationId]> ∅)))).

(** [createChunkItems]; [chunkText] lives in [utils/chunk-text], outside
    the sources at hand, and is taken as an argument.  The defaults of the
    last three parameters are [{}], 500 and 50. *)
Definition createChunkItems (chunkText : string → nat → nat → list string)
    (text sourceId : string) (sourceType : SourceType)
    (organizationId updatedAt idPrefix : string)
    (extraMetadata : gmap string string) (chunkSize overlap : nat)
    : list ChunkItem :=
  let chunks := chunkText text chunkSize overlap in
  List.filter hasText
    (imap (fun chunkIndex chunk =>
             {| ci_id := chunkId idPrefix sourceId chunkIndex;
                ci_text := chunk;
                ci_metadata :=
                  chunkMetadata organizationId sourceType sourceId chunk
                                updatedAt extraMetadata |})
          chunks).

Definition createChunkItems_defaults
    (chunkText : string → nat → nat → list string)
    (text sourceId : string) (sourceType : SourceType)
    (organizationId updatedAt idPrefix : string) : list ChunkItem :=
  createChunkItems chunkText text sourceId sourceType organizationId
                   updatedAt idPrefix ∅ 500 50.

(** ** The world the pipeline runs in *)

Inductive ProcessingStatus : Type :=
| pending
| processing
| completed
| failed.

(** A [Date] is its number of milliseconds since the epoch. *)
Definition Date : Type := Z.

(** A row of the [knowledgeBaseDocument] table, with the columns the task
    reads or writes. *)
Record KnowledgeBaseDocument : Type := mkDocument {
  doc_id : string;
  doc_organizationId : string;
  doc_name : string;
  doc_s3Key : string;
  doc_fileType : string;
  doc_updatedAt : Date;
  doc_processingStatus : ProcessingStatus;
  doc_processedAt : option Date
}.

Inductive LogLevel : Type := info | warn | error.

(** What a run does to its collaborators, in the order it does it. *)
Inductive Event : Type :=
| DbFindUnique (id organizationId : string)
| DbUpdate (id : string) (status : ProcessingStatus) (processedAt : option Date)
| StorageGet (bucket key : string)
| IndexQuery (sourceId : string) (sourceType : SourceType)
             (organizationId : string)
| IndexDelete (ids : list string)
| IndexUpsert (items : list ChunkItem)
| Log (level : LogLevel) (message : string).

Record World : Type := mkWorld {
  db : gmap string KnowledgeBaseDocument;
  index : gmap string ChunkItem;
  clock : Date;
  trace : list Event
}.

(** The response of a [GetObjectCommand]. *)
Record S3Response : Type := mkS3Response {
  Body : option string;
  ContentType : option string
}.

Definition isDbCall (e : Event) : bool :=
  match e with
  | DbFindUnique _ _ | DbUpdate _ _ _ => true
  | _ => false
  end.

(** The calls of the database among some events. *)
Definition dbCalls (evs : list Event) : list Event :=
  List.filter isDbCall evs.

(** The collaborators of the task that are not part of the sources at hand:
    the process environment, the object store, the content extractor, the
    chunker, the vector-index client and the failures of its calls, the
    failures of the calls of the database, and the built-ins
    [Buffer#toString('base64')] and [Date#toISOString]. *)
Record Env : Type := mkEnv {
  APP_AWS_ACCESS_KEY_ID : option string;
  APP_AWS_SECRET_ACCESS_KEY : option string;
  APP_AWS_KNOWLEDGE_BASE_BUCKET : option string;
  s3_send : string → string → Js.exn + S3Response;
  toBase64 : string → string;
  extractContentFromFile : string → string → Js.exn + string;
  chunkText : string → nat → nat → list string;
  toISOString : Date → string;
  (** [vectorIndex] is [null] when the index is not configured *)
  vectorIndex : bool;
  findEmbeddingsForSource :
    gmap string ChunkItem → string → SourceType → string →
    Js.exn + list ExistingEmbedding;
  (** [Some e]: the call throws [e] *)
  deleteFailure : list string → option Js.exn;
  upsertFailure : list ChunkItem → option Js.exn;
  (** which of the items a call that throws has stored before it throws *)
  upsertedBeforeFailure : list ChunkItem → ChunkItem → bool;
  (** [Some e]: the call of the database throws [e]; the first argument
      is the list of the calls made to the database so far *)
  findUniqueFailure : list Event → string → string → option Js.exn;
  updateFailure :
    list Event → string → ProcessingStatus → option Date → option Js.exn
}.

(** ** A state-and-exception monad for [async] code *)

Definition M (A : Type) : Type := World → World * (Js.exn + A).

Definition ret {A} (a : A) : M A := fun w => (w, inr a).

Definition throw {A} (e : Js.exn) : M A := fun w => (w, inl e).

Definition bind {A B} (m : M A) (k : A → M B) : M B :=
  fun w =>
    match m w with
    | (w', inl e) => (w', inl e)
    | (w', inr a) => k a w'
    end.

(** [try { body } catch (error) { handler }] *)
Definition tryCatch {A} (body : M A) (handler : Js.exn → M A) : M A :=
  fun w =>
    match body w with
    | (w', inl e) => handler e w'
    | (w', inr a) => (w', inr a)
    end.

#[export] Instance M_ret : MRet M := @ret.
#[export] Instance M_bind : MBind M := fun A B k m => bind m k.

Definition get : M World := fun w => (w, inr w).

Definition put (w : World) : M unit := fun _ => (w, inr tt).

(** The world with more events at the end of its trace, with another
    table, with another index. *)
Definition addEvents (w : World) (evs : list Event) : World :=
  {| db := db w; index := index w; clock := clock w;
     trace := trace w ++ evs |}.

Definition withDb (w : World) (db' : gmap string KnowledgeBaseDocument)
    : World :=
  {| db := db'; index := index w; clock := clock w; trace := trace w |}.

Definition withIndex (w : World) (index' : gmap string ChunkItem) : World :=
  {| db := db w; index := index'; clock := clock w; trace := trace w |}.

Definition emit (e : Event) : M unit :=
  w ← get; put (addEvents w [e]).

Definition logger (level : LogLevel) (message : string) : M unit :=
  emit (Log level message).

(** [new Date()] *)
Definition newDate : M Date := w ← get; mret (clock w).

(** Lifts the outcome of a call that has no effect on the world. *)
Definition liftOutcome {A} (r : Js.exn + A) : M A := fun w => (w, r).

(** [db.knowledgeBaseDocument.findUnique({ where: { id, organizationId } })].
    The table is a map from ids to rows; the call throws when the
    database fails, as [findUniqueFailure] tells. *)
Definition findUnique (E : Env) (id organizationId : string)
    : M (option KnowledgeBaseDocument) :=
  w ← get;
  emit (DbFindUnique id organizationId);;
  match findUniqueFailure E (dbCalls (trace w)) id organizationId with
  | Some e => throw e
  | None =>
      mret (match db w !! id with
            | Some d => if decide (doc_organizationId d = organizationId)
                        then Some d else None
            | None => None
            end)
  end.

Definition setStatus (status : ProcessingStatus) (processedAt : option Date)
    (d : KnowledgeBaseDocument) : KnowledgeBaseDocument :=
  {| doc_id := doc_id d;
     doc_organizationId := doc_organizationId d;
     doc_name := doc_name d;
     doc_s3Key := doc_s3Key d;
     doc_fileType := doc_fileType d;
     doc_updatedAt := doc_updatedAt d;
     doc_processingStatus := status;
     doc_processedAt := match processedAt with
                        | Some t => Some t
                        | None => doc_processedAt d
                        end |}.

(** [db.knowledgeBaseDocument.update({ where: { id }, data })], where [data]
    gives [processingStatus] and, when [processedAt] is [Some], that
    column too.  The call throws, and writes nothing, when the database
    fails, as [updateFailure] tells, and when no row has the id. *)
Definition update (E : Env) (id : string) (status : ProcessingStatus)
    (processedAt : option Date) : M unit :=
  w ← get;
  emit (DbUpdate id status processedAt);;
  match updateFailure E (dbCalls (trace w)) id status processedAt with
  | Some e => throw e
  | None =>
      w ← get;
      match db w !! id with
      | Some d =>
          put (withDb w (<[id := setStatus status processedAt d]> (db w)))
      | None => throw (Js.Error "Record to update not found.")
      end
  end.

(** ** The vector index *)

(** Modelled from the spec: [vectorIndex.delete(ids)] belongs to the
    vector-store SDK.  "delete-by-id": the entries under the given ids are
    removed; a call that throws leaves the index as it was. *)
Definition vectorIndex_delete (E : Env) (ids : list string) : M unit :=
  emit (IndexDelete ids);;
  match deleteFailure E ids with
  | Some e => throw e
  | None =>
      w ← get; put (withIndex w (foldr delete (index w) ids))
  end.

(** Modelled from the spec: "upsert-by-id", each item is stored under its
    id, overwriting what was there; nothing is stored when the index is
    not configured. *)
Definition upsertInto (E : Env) (idx : gmap string ChunkItem)
    (items : list ChunkItem) : gmap string ChunkItem :=
  if vectorIndex E
  then foldl (fun idx item => <[ci_id item := item]> idx) idx items
  else idx.

(** Modelled from the spec: [batchUpsertEmbeddings] lives in
    [core/upsert-embedding], outside the sources at hand.  The items are
    upserted by id in "a single call (or internally-batched calls)": a
    call that throws may have stored some of the items before it throws,
    the "partial-new chunks" of the spec, those that
    [upsertedBeforeFailure] picks. *)
Definition batchUpsertEmbeddings (E : Env) (items : list ChunkItem) : M unit :=
  emit (IndexUpsert items);;
  w ← get;
  match upsertFailure E items with
  | Some e =>
      put (withIndex w
             (upsertInto E (index w)
                (List.filter (upsertedBeforeFailure E items) items)));;
      throw e
  | None => put (withIndex w (upsertInto E (index w) items))
  end.

(** The call of [findEmbeddingsForSource] ([core/find-existing-embeddings],
    outside the sources at hand): what it answers is up to [E]. *)
Definition findEmbeddings (E : Env) (sourceId : string)
    (sourceType : SourceType) (organizationId : string)
    : M (list ExistingEmbedding) :=
  emit (IndexQuery sourceId sourceType organizationId);;
  w ← get;
  liftOutcome (findEmbeddingsForSource E (index w) sourceId sourceType
                                       organizationId).

(** ** [sync-utils.ts]: deleting and upserting *)

Definition deleteOldEmbeddings (E : Env) (embeddings : list ExistingEmbedding)
    (logContext : gmap string string) : M unit :=
  if (length embeddings =? 0)%nat || negb (vectorIndex E) then mret tt
  else
    let idsToDelete := map ee_id embeddings in
    tryCatch (vectorIndex_delete E idsToDelete)
             (fun error => logger warn "Failed to delete old embeddings").

Definition upsertChunks (E : Env) (chunkItems : list ChunkItem) : M unit :=
  if (0 <? length chunkItems)%nat then batchUpsertEmbeddings E chunkItems
  else mret tt.

(** ** The knowledge-base document task *)

(** [a || b] on values that are a string or [undefined]. *)
Definition orElse (a : option string) (b : string) : string :=
  match a with
  | Some s => if Js.falsy s then b else s
  | None => b
  end.

(** [createS3Client]: the endpoint and the region only configure the
    client, whose answers are those of [s3_send]. *)
Definition createS3Client (E : Env) : M unit :=
  if Js.falsy_opt (APP_AWS_ACCESS_KEY_ID E) ||
     Js.falsy_opt (APP_AWS_SECRET_ACCESS_KEY E)
  then throw (Js.Error "AWS S3 credentials are missing. Please set APP_AWS_ACCESS_KEY_ID and APP_AWS_SECRET_ACCESS_KEY environment variables in Trigger.dev.")
  else mret tt.

(** The [GetObjectCommand] is sent and the body stream read to its end;
    [s3_send] gives the outcome of both. *)
Definition extractContentFromKnowledgeBaseDocument (E : Env)
    (s3Key fileType : string) : M string :=
  if Js.falsy_opt (APP_AWS_KNOWLEDGE_BASE_BUCKET E)
  then throw (Js.Error "Knowledge base bucket is not configured. Please set APP_AWS_KNOWLEDGE_BASE_BUCKET environment variable in Trigger.dev.")
  else
    let knowledgeBaseBucket := default "" (APP_AWS_KNOWLEDGE_BASE_BUCKET E) in
    createS3Client E;;
    emit (StorageGet knowledgeBaseBucket s3Key);;
    response ← liftOutcome (s3_send E knowledgeBaseBucket s3Key);
    match Body response with
    | None => throw (Js.Error "Failed to retrieve file from S3")
    | Some buffer =>
        let base64Data := toBase64 E buffer in
        let detectedFileType :=
          orElse (ContentType response)
                 (orElse (Some fileType) "application/octet-stream") in
        liftOutcome (extractContentFromFile E base64Data detectedFileType)
    end.

Record Payload : Type := mkPayload {
  documentId : string;
  organizationId : string
}.

(** What [run] returns: [{ success: true, documentId, chunkCount }] or
    [{ success: false, documentId, error }]. *)
Inductive TaskResult : Type :=
| Succeeded (documentId : string) (chunkCount : nat)
| Failed (documentId : string) (error : string).

(** The chunk items of the task: those of [createChunkItems] with the
    prefix and source type "knowledge_base_document", and the key
    [documentName] written among the fixed ones. *)
Definition documentChunkItems (organizationId : string)
    (document : KnowledgeBaseDocument) (updatedAt : string)
    (chunks : list string) : list ChunkItem :=
  List.filter hasText
    (imap (fun chunkIndex chunk =>
             {| ci_id := "knowledge_base_document_" +:+ doc_id document +:+
                         "_chunk" +:+ Js.numberToString chunkIndex;
                ci_text := chunk;
                ci_metadata :=
                  <["updatedAt" := updatedAt]>
                  (<["documentName" := doc_name document]>
                  (<["content" := chunk]>
                  (<["sourceId" := doc_id document]>
                  (<["sourceType" := "knowledge_base_document"]>
                  (<["organizationId" := organizationId]> ∅))))) |})
          chunks).

(** The block [if (existingEmbeddings.length > 0) { if (vectorIndex) { ... } }]
    of [run]: the old embeddings are deleted by id, and a failure of the
    deletion is caught and logged. *)
Definition deleteExisting (E : Env) (existingEmbeddings : list ExistingEmbedding)
    : M unit :=
  if (0 <? length existingEmbeddings)%nat then
    if vectorIndex E then
      let idsToDelete := map ee_id existingEmbeddings in
      tryCatch (vectorIndex_delete E idsToDelete;;
                logger info "Deleted existing embeddings")
               (fun error =>
                  logger warn "Failed to delete existing embeddings")
    else mret tt
  else mret tt.

(** The rest of the [try] block of [run], from chunking to the result. *)
Definition embedChunks (E : Env) (payload : Payload)
    (document : KnowledgeBaseDocument) (content : string) : M TaskResult :=
  let chunks := chunkText E content 500 50 in
  if (length chunks =? 0)%nat then
    logger warn "No chunks created from content";;
    now ← newDate;
    update E (doc_id document) failed (Some now);;
    mret (Failed (doc_id document) "No chunks created from content")
  else
    logger info "Created chunks for embedding";;
    let updatedAt := toISOString E (doc_updatedAt document) in
    let chunkItems :=
      documentChunkItems (organizationId payload) document updatedAt chunks in
    (if (0 <? length chunkItems)%nat then
       batchUpsertEmbeddings E chunkItems;;
       logger info "Successfully created embeddings"
     else mret tt);;
    now ← newDate;
    update E (doc_id document) completed (Some now);;
    logger info "Successfully processed Knowledge Base document";;
    mret (Succeeded (doc_id document) (length chunkItems)).

(** The [try] block of [run], once the document has been found. *)
Definition processDocument (E : Env) (payload : Payload)
    (document : KnowledgeBaseDocument) : M TaskResult :=
  update E (doc_id document) processing None;;
  logger info "Extracting content from file";;
  content ← extractContentFromKnowledgeBaseDocument E (doc_s3Key document)
                                                    (doc_fileType document);
  if Js.falsy content || (String.length (Js.trim content) =? 0)%nat then
    logger warn "No content extracted from document";;
    now ← newDate;
    update E (doc_id document) failed (Some now);;
    mret (Failed (doc_id document) "No content extracted from document")
  else
    logger info "Content extracted successfully";;
    existingEmbeddings ← findEmbeddings E (doc_id document)
                           knowledge_base_document (organizationId payload);
    deleteExisting E existingEmbeddings;;
    embedChunks E payload document content.

(** The [try] block of [run]. *)
Definition runTry (E : Env) (payload : Payload) : M TaskResult :=
  document ← findUnique E (documentId payload) (organizationId payload);
  match document with
  | None =>
      logger error "Document not found";;
      mret (Failed (documentId payload) "Document not found")
  | Some document => processDocument E payload document
  end.

(** The [catch] block of [run]. *)
Definition runCatch (E : Env) (payload : Payload) (err : Js.exn)
    : M TaskResult :=
  logger error "Error processing Knowledge Base document";;
  tryCatch
    (now ← newDate;
     update E (documentId payload) failed (Some now))
    (fun updateError =>
       logger error "Failed to update document status to failed");;
  mret (Failed (documentId payload) (Js.errorMessage err)).

(** The [run] function of [processKnowledgeBaseDocumentTask]. *)
Definition run (E : Env) (payload : Payload) : M TaskResult :=
  logger info "Processing Knowledge Base document";;
  tryCatch (runTry E payload) (runCatch E payload).

(** The declared retry policy of the task. *)
Definition maxAttempts : nat := 3.

(** ** Regular expressions *)

(** The patterns of the source use literals, character classes, grouping,
    alternation, [?], [*], [+] and [{2,}] between the anchors [^] and [$];
    [test] on such a pattern is membership in a regular language, decided
    here with derivatives. *)
Module Regex.

Inductive regex : Type :=
| Void
| Eps
| Class (member : ascii → bool)
| Seq (r1 r2 : regex)
| Alt (r1 r2 : regex)
| Star (r : regex).

Fixpoint nullable (r : regex) : bool :=
  match r with
  | Void => false
  | Eps => true
  | Class _ => false
  | Seq r1 r2 => nullable r1 && nullable r2
  | Alt r1 r2 => nullable r1 || nullable r2
  | Star _ => true
  end.

Definition seq (r1 r2 : regex) : regex :=
  match r1, r2 with
  | Void, _ => Void
  | _, Void => Void
  | Eps, _ => r2
  | _, _ => Seq r1 r2
  end.

Definition alt (r1 r2 : regex) : regex :=
  match r1, r2 with
  | Void, _ => r2
  | _, Void => r1
  | _, _ => Alt r1 r2
  end.

Fixpoint deriv (c : ascii) (r : regex) : regex :=
  match r with
  | Void => Void
  | Eps => Void
  | Class member => if member c then Eps else Void
  | Seq r1 r2 =>
      if nullable r1 then alt (seq (deriv c r1) r2) (deriv c r2)
      else seq (deriv c r1) r2
  | Alt r1 r2 => alt (deriv c r1) (deriv c r2)
  | Star r1 => seq (deriv c r1) (Star r1)
  end.

(** [/^r$/.test(s)] *)
Fixpoint test (r : regex) (s : string) : bool :=
  match s with
  | EmptyString => nullable r
  | String c rest => test (deriv c r) rest
  end.

Definition char (c : ascii) : regex := Class (Ascii.eqb c).

Fixpoint lit (s : string) : regex :=
  match s with
  | EmptyString => Eps
  | String c rest => Seq (char c) (lit rest)
  end.

Definition opt (r : regex) : regex := Alt r Eps.
Definition plus (r : regex) : regex := Seq r (Star r).
Definition any : regex := Class (fun _ => true).

Definition between (lo hi : nat) (c : ascii) : bool :=
  let n := nat_of_ascii c in ((lo <=? n) && (n <=? hi))%nat.

Definition isLower : ascii → bool := between 97 122.
Definition isUpper : ascii → bool := between 65 90.
Definition isDigit : ascii → bool := between 48 57.

(** [\w] *)
Definition isWord (c : ascii) : bool :=
  isLower c || isUpper c || isDigit c || Ascii.eqb c "_".

End Regex.

(** ** S3 keys from URLs *)

(** The part of a parsed [URL] the code reads. *)
Record URL : Type := mkURL {
  host : string;
  pathname : string
}.

(** The built-ins of the runtime: [new URL(url)], which throws on what is
    not an absolute URL ([None] here), and [decodeURIComponent], which
    throws on a malformed escape sequence. *)
Record Runtime : Type := mkRuntime {
  newURL : string → option URL;
  decodeURIComponent : string → Js.exn + string
}.

(** [/^([\w.-]+\.)?(s3|s3-[\w-]+|s3-website[\w.-]+|s3-accesspoint|s3-control)(\.[\w-]+)?\.amazonaws\.com$/] *)
Definition s3HostPattern : Regex.regex :=
  let wordDotDash c := Regex.isWord c || Ascii.eqb c "." || Ascii.eqb c "-" in
  let wordDash c := Regex.isWord c || Ascii.eqb c "-" in
  Regex.Seq
    (Regex.opt (Regex.Seq (Regex.plus (Regex.Class wordDotDash))
                          (Regex.char ".")))
    (Regex.Seq
       (Regex.Alt (Regex.lit "s3")
       (Regex.Alt (Regex.Seq (Regex.lit "s3-")
                             (Regex.plus (Regex.Class wordDash)))
       (Regex.Alt (Regex.Seq (Regex.lit "s3-website")
                             (Regex.plus (Regex.Class wordDotDash)))
       (Regex.Alt (Regex.lit "s3-accesspoint")
                  (Regex.lit "s3-control")))))
       (Regex.Seq
          (Regex.opt (Regex.Seq (Regex.char ".")
                                (Regex.plus (Regex.Class wordDash))))
          (Regex.lit ".amazonaws.com"))).

(** [isValidS3Host], the same in both files. *)
Definition isValidS3Host (host : string) : bool :=
  let normalizedHost := Js.toLowerCase host in
  if negb (Js.endsWith normalizedHost ".amazonaws.com") then false
  else Regex.test s3HostPattern normalizedHost.

(** [key.includes('../') || key.includes('..\\')] *)
Definition hasTraversal (key : string) : bool :=
  Js.includes key "../" || Js.includes key "..\".

(** The branch taken when [new URL(url)] succeeds, the same in both files. *)
Definition keyOfParsedUrl (R : Runtime) (parsedUrl : URL) : Js.exn + string :=
  if negb (isValidS3Host (host parsedUrl))
  then inl (Js.Error "Invalid URL: Not a valid S3 endpoint")
  else
    match decodeURIComponent R (Js.substring1 (pathname parsedUrl)) with
    | inl e => inl e
    | inr key =>
        if hasTraversal key
        then inl (Js.Error "Invalid S3 key: Path traversal detected")
        else if Js.falsy key
        then inl (Js.Error "Invalid S3 key: Key cannot be empty")
        else inr key
    end.

(** The API server's variant. *)
Module ApiS3.

(** [/^[a-z0-9]([a-z0-9-]*[a-z0-9])?(\.[a-z0-9]([a-z0-9-]*[a-z0-9])?)*\.[a-z]{2,}(\/|$)/i];
    without a closing anchor the pattern matches a prefix that is
    followed by a slash or by the end of the input. *)
Definition domainPattern : Regex.regex :=
  let alpha c := Regex.isLower c || Regex.isUpper c in
  let alnum c := alpha c || Regex.isDigit c in
  let alnumDash c := alnum c || Ascii.eqb c "-" in
  let label :=
    Regex.Seq (Regex.Class alnum)
              (Regex.opt (Regex.Seq (Regex.Star (Regex.Class alnumDash))
                                    (Regex.Class alnum))) in
  Regex.Seq label
    (Regex.Seq (Regex.Star (Regex.Seq (Regex.char ".") label))
    (Regex.Seq (Regex.char ".")
    (Regex.Seq (Regex.Class alpha)
    (Regex.Seq (Regex.Class alpha)
    (Regex.Seq (Regex.Star (Regex.Class alpha))
               (Regex.Alt (Regex.Seq (Regex.char "/")
                                     (Regex.Star Regex.any))
                          Regex.Eps)))))).

Definition extractS3KeyFromUrl (R : Runtime) (url : string)
    : Js.exn + string :=
  if Js.falsy url
  then inl (Js.Error "Invalid input: URL must be a non-empty string")
  else
    match newURL R url with
    | Some parsedUrl => keyOfParsedUrl R parsedUrl
    | None =>
        let lowerInput := Js.toLowerCase url in
        if Js.includes lowerInput "://"
        then inl (Js.Error "Invalid input: Malformed URL detected")
        else if Regex.test domainPattern url
        then inl (Js.Error "Invalid input: Domain-like pattern detected in S3 key")
        else if hasTraversal url
        then inl (Js.Error "Invalid S3 key: Path traversal detected")
        else
          let key := if Js.startsWith url "/" then Js.substring1 url
                     else url in
          if Js.falsy key
          then inl (Js.Error "Invalid S3 key: Key cannot be empty")
          else inr key
    end.

End ApiS3.

(** The web application's variant. *)
Module AppS3.

Definition extractS3KeyFromUrl (R : Runtime) (url : string)
    : Js.exn + string :=
  if Js.falsy url
  then inl (Js.Error "Invalid input: URL must be a non-empty string")
  else
    match newURL R url with
    | Some parsedUrl => keyOfParsedUrl R parsedUrl
    | None =>
        let lowerInput := Js.toLowerCase url in
        if Js.includes lowerInput "://" ||
           Js.includes lowerInput "amazonaws.com"
        then inl (Js.Error "Invalid input: Malformed URL detected")
        else if hasTraversal url
        then inl (Js.Error "Invalid S3 key: Path traversal detected")
        else
          let key := if Js.startsWith url "/" then Js.substring1 url
                     else url in
          if Js.falsy key
          then inl (Js.Error "Invalid S3 key: Key cannot be empty")
          else inr key
    end.

End AppS3.


(** The key the input stands for, before it is validated: the decoded
    path of a URL without its leading slash, or the input itself without
    its leading slash. *)
Definition derivedKey (R : Runtime) (url : string) : option string :=
  match newURL R url with
  | Some parsedUrl =>
      match decodeURIComponent R (Js.substring1 (pathname parsedUrl)) with
      | inr key => Some key
      | inl _ => None
      end
  | None => Some (if Js.startsWith url "/" then Js.substring1 url else url)
  end.

(** ** Observations on runs *)

(** A row with that id exists and belongs to that organization. *)
Definition owned (w : World) (id organizationId : string)
    (d : KnowledgeBaseDocument) : Prop :=
  db w !! id = Some d ∧ doc_id d = id ∧ doc_organizationId d = organizationId.

(** Content extraction yields [content] for the document: the bucket and
    the credentials are configured, the object store answers with a body,
    and the extractor turns it into [content]. *)
Definition extractionYields (E : Env) (d : KnowledgeBaseDocument)
    (bucket content : string) : Prop :=
  APP_AWS_KNOWLEDGE_BASE_BUCKET E = Some bucket ∧ bucket ≠ "" ∧
  Js.falsy_opt (APP_AWS_ACCESS_KEY_ID E) = false ∧
  Js.falsy_opt (APP_AWS_SECRET_ACCESS_KEY E) = false ∧
  ∃ response buffer,
    s3_send E bucket (doc_s3Key d) = inr response ∧
    Body response = Some buffer ∧
    extractContentFromFile E (toBase64 E buffer)
      (orElse (ContentType response)
              (orElse (Some (doc_fileType d)) "application/octet-stream"))
    = inr content.

(** The fetch from the object store fails with [e]. *)
Definition fetchFails (E : Env) (d : KnowledgeBaseDocument)
    (bucket : string) (e : Js.exn) : Prop :=
  APP_AWS_KNOWLEDGE_BASE_BUCKET E = Some bucket ∧ bucket ≠ "" ∧
  Js.falsy_opt (APP_AWS_ACCESS_KEY_ID E) = false ∧
  Js.falsy_opt (APP_AWS_SECRET_ACCESS_KEY E) = false ∧
  s3_send E bucket (doc_s3Key d) = inl e.

Definition isIndexCall (e : Event) : bool :=
  match e with
  | IndexQuery _ _ _ | IndexDelete _ | IndexUpsert _ => true
  | _ => false
  end.

(** Calls that write to the vector index. *)
Definition isIndexMutation (e : Event) : bool :=
  match e with
  | IndexDelete _ | IndexUpsert _ => true
  | _ => false
  end.

Definition isStorageRead (e : Event) : bool :=
  match e with
  | StorageGet _ _ => true
  | _ => false
  end.

(** The events a run added to the trace it started from. *)
Definition eventsSince (w w' : World) : list Event :=
  drop (length (trace w)) (trace w').

(** The writes to the vector index among some events. *)
Definition mutations (evs : list Event) : list Event :=
  List.filter isIndexMutation evs.

(** The delete call the block [deleteExisting] issues, if any. *)
Definition deleteCalls (E : Env) (existingEmbeddings : list ExistingEmbedding)
    : list Event :=
  if (0 <? length existingEmbeddings)%nat && vectorIndex E
  then [IndexDelete (map ee_id existingEmbeddings)]
  else [].

(** The chunk items [run] builds from the extracted content. *)
Definition itemsOf (E : Env) (payload : Payload)
    (document : KnowledgeBaseDocument) (content : string) : list ChunkItem :=
  documentChunkItems (organizationId payload) document
    (toISOString E (doc_updatedAt document)) (chunkText E content 500 50).

(** The upsert call [embedChunks] issues, if any. *)
Definition upsertCalls (E : Env) (payload : Payload)
    (document : KnowledgeBaseDocument) (content : string) : list Event :=
  if (0 <? length (itemsOf E payload document content))%nat
  then [IndexUpsert (itemsOf E payload document content)]
  else [].

(** The calls of the vector index among some events. *)
Definition indexCalls (evs : list Event) : list Event :=
  List.filter isIndexCall evs.

(** Two worlds with the same table, the same clock and the same calls of
    the index and of the database so far; the content of the index and
    the log may differ. *)
Definition similar (w w' : World) : Prop :=
  db w = db w' ∧ clock w = clock w' ∧
  indexCalls (trace w) = indexCalls (trace w') ∧
  dbCalls (trace w) = dbCalls (trace w').

(** Two outcomes with the same result, in similar worlds. *)
Definition sameOutcome {A} (x y : World * (Js.exn + A)) : Prop :=
  snd x = snd y ∧ similar (fst x) (fst y).

(** A computation that does the same in similar worlds. *)
Definition respectful {A} (m : M A) : Prop :=
  ∀ w w', similar w w' → sameOutcome (m w) (m w').

(** Every delete call comes before every upsert call. *)
Definition deleteBeforeUpsert (evs : list Event) : Prop :=
  ∀ i j ids items,
    evs !! i = Some (IndexDelete ids) →
    evs !! j = Some (IndexUpsert items) →
    i < j.

(** The index after the ids have been deleted and the items upserted. *)
Definition reindexed (idx : gmap string ChunkItem) (ids : list string)
    (items : list ChunkItem) : gmap string ChunkItem :=
  foldl (fun idx item => <[ci_id item := item]> idx) (foldr delete idx ids)
        items.

(** [E] with another plan for the failures of [vectorIndex.delete]. *)
Definition withDeleteFailure (E : Env) (f : list string → option Js.exn)
    : Env :=
  {| APP_AWS_ACCESS_KEY_ID := APP_AWS_ACCESS_KEY_ID E;
     APP_AWS_SECRET_ACCESS_KEY := APP_AWS_SECRET_ACCESS_KEY E;
     APP_AWS_KNOWLEDGE_BASE_BUCKET := APP_AWS_KNOWLEDGE_BASE_BUCKET E;
     s3_send := s3_send E;
     toBase64 := toBase64 E;
     extractContentFromFile := extractContentFromFile E;
     chunkText := chunkText E;
     toISOString := toISOString E;
     vectorIndex := vectorIndex E;
     findEmbeddingsForSource := findEmbeddingsForSource E;
     deleteFailure := f;
     upsertFailure := upsertFailure E;
     upsertedBeforeFailure := upsertedBeforeFailure E;
     findUniqueFailure := findUniqueFailure E;
     updateFailure := updateFailure E |}.

(** [E] with another plan for the failures of the database. *)
Definition withDatabase (E : Env)
    (findFails : list Event → string → string → option Js.exn)
    (updateFails : list Event → string → ProcessingStatus → option Date →
                   option Js.exn) : Env :=
  {| APP_AWS_ACCESS_KEY_ID := APP_AWS_ACCESS_KEY_ID E;
     APP_AWS_SECRET_ACCESS_KEY := APP_AWS_SECRET_ACCESS_KEY E;
     APP_AWS_KNOWLEDGE_BASE_BUCKET := APP_AWS_KNOWLEDGE_BASE_BUCKET E;
     s3_send := s3_send E;
     toBase64 := toBase64 E;
     extractContentFromFile := extractContentFromFile E;
     chunkText := chunkText E;
     toISOString := toISOString E;
     vectorIndex := vectorIndex E;
     findEmbeddingsForSource := findEmbeddingsForSource E;
     deleteFailure := deleteFailure E;
     upsertFailure := upsertFailure E;
     upsertedBeforeFailure := upsertedBeforeFailure E;
     findUniqueFailure := findFails;
     updateFailure := updateFails |}.

(** [E] with another choice of what a failing upsert has stored. *)
Definition withPartialUpsert (E : Env)
    (stored : list ChunkItem → ChunkItem → bool) : Env :=
  {| APP_AWS_ACCESS_KEY_ID := APP_AWS_ACCESS_KEY_ID E;
     APP_AWS_SECRET_ACCESS_KEY := APP_AWS_SECRET_ACCESS_KEY E;
     APP_AWS_KNOWLEDGE_BASE_BUCKET := APP_AWS_KNOWLEDGE_BASE_BUCKET E;
     s3_send := s3_send E;
     toBase64 := toBase64 E;
     extractContentFromFile := extractContentFromFile E;
     chunkText := chunkText E;
     toISOString := toISOString E;
     vectorIndex := vectorIndex E;
     findEmbeddingsForSource := findEmbeddingsForSource E;
     deleteFailure := deleteFailure E;
     upsertFailure := upsertFailure E;
     upsertedBeforeFailure := stored;
     findUniqueFailure := findUniqueFailure E;
     updateFailure := updateFailure E |}.

(** The database answers the lookup of the run, whenever it is made. *)
Definition lookupAnswers (E : Env) (p : Payload) : Prop :=
  ∀ calls,
    findUniqueFailure E calls (documentId p) (organizationId p) = None.

(** The database accepts the writes of a status to a row, whenever they
    are made. *)
Definition writeAccepted (E : Env) (id : string) (status : ProcessingStatus)
    : Prop :=
  ∀ calls processedAt, updateFailure E calls id status processedAt = None.

(** The database answers the lookup of the run and accepts its writes. *)
Definition dbAvailable (E : Env) (p : Payload) : Prop :=
  lookupAnswers E p ∧ ∀ status, writeAccepted E (documentId p) status.

(** The log line of the [catch (updateError)] block. *)
Definition updateFailureLogged (evs : list Event) : Prop :=
  Log error "Failed to update document status to failed" ∈ evs.

(** ** A concrete environment *)

Module Demo.

(** Modelled from the spec: [chunkText] is missing from the sources at
    hand.  "Overlapping fixed-size windows": a text no longer than
    [chunkSize] is one chunk; otherwise the first [chunkSize] units are a
    chunk and the next window starts [chunkSize - overlap] further on. *)
Fixpoint windows (fuel : nat) (text : string) (chunkSize step : nat)
    : list string :=
  match fuel with
  | O => []
  | S fuel' =>
      if (String.length text <=? chunkSize)%nat then [text]
      else String.substring 0 chunkSize text ::
           windows fuel' (String.substring step (String.length text - step)
                                           text)
                   chunkSize step
  end.

Definition chunkText (text : string) (chunkSize overlap : nat)
    : list string :=
  windows (S (String.length text)) text chunkSize (chunkSize - overlap).

(** Modelled from the spec: [findEmbeddingsForSource] is missing from the
    sources at hand.  "Query existing embeddings for (sourceId,
    sourceType, organizationId)", answering with the id and the recorded
    [updatedAt] of each. *)
Definition findEmbeddingsForSource (idx : gmap string ChunkItem)
    (sourceId : string) (sourceType : SourceType) (organizationId : string)
    : Js.exn + list ExistingEmbedding :=
  inr (map (fun entry : string * ChunkItem =>
              {| ee_id := entry.1;
                 ee_updatedAt := ci_metadata entry.2 !! "updatedAt" |})
           (List.filter
              (fun entry : string * ChunkItem =>
                 bool_decide
                   (ci_metadata entry.2 !! "sourceId" = Some sourceId ∧
                    ci_metadata entry.2 !! "sourceType"
                      = Some (sourceTypeString sourceType) ∧
                    ci_metadata entry.2 !! "organizationId"
                      = Some organizationId))
              (map_to_list idx))).

(** [Date#toISOString] on the two dates used below. *)
Definition toISOString (d : Date) : string :=
  if (d =? 1704067200000)%Z then "2024-01-01T00:00:00.000Z"
  else if (d =? 1706745600000)%Z then "2024-02-01T00:00:00.000Z"
  else "1970-01-01T00:00:00.000Z".

(** An environment where the object under every key is a plain-text file
    with the given content, the calls of the index fail as told, a call
    of the index that fails stores nothing, and the database answers
    every call. *)
Definition env (content : string) (deleteFails upsertFails : option Js.exn)
    : Env :=
  mkEnv
    (* APP_AWS_ACCESS_KEY_ID *) (Some "AKIAEXAMPLE")
    (* APP_AWS_SECRET_ACCESS_KEY *) (Some "secret")
    (* APP_AWS_KNOWLEDGE_BASE_BUCKET *) (Some "knowledge-base")
    (* s3_send *)
    (fun _ _ => inr {| Body := Some content;
                       ContentType := Some "text/plain" |})
    (* toBase64 *) (fun bytes => bytes)
    (* extractContentFromFile *) (fun data _ => inr data)
    chunkText
    toISOString
    (* vectorIndex *) true
    findEmbeddingsForSource
    (* deleteFailure *) (fun _ => deleteFails)
    (* upsertFailure *) (fun _ => upsertFails)
    (* upsertedBeforeFailure *) (fun _ _ => false)
    (* findUniqueFailure *) (fun _ _ _ => None)
    (* updateFailure *) (fun _ _ _ _ => None).

Fixpoint repeatString (s : string) (n : nat) : string :=
  match n with
  | O => EmptyString
  | S n' => s +:+ repeatString s n'
  end.

Definition doc1 : KnowledgeBaseDocument :=
  {| doc_id := "doc-1";
     doc_organizationId := "org-1";
     doc_name := "handbook.txt";
     doc_s3Key := "org-1/handbook.txt";
     doc_fileType := "text/plain";
     doc_updatedAt := 1704067200000%Z;
     doc_processingStatus := pending;
     doc_processedAt := None |}.

Definition world0 : World :=
  {| db := {[ "doc-1" := doc1 ]};
     index := ∅;
     clock := 1706745600000%Z;
     trace := [] |}.

Definition payload1 : Payload :=
  {| documentId := "doc-1"; organizationId := "org-1" |}.

(** The same document requested by another organization. *)
Definition payload2 : Payload :=
  {| documentId := "doc-1"; organizationId := "org-2" |}.

(** Up to the first occurrence of a character, and from it on. *)
Fixpoint splitAt (c : ascii) (s : string) : string * string :=
  match s with
  | EmptyString => (EmptyString, EmptyString)
  | String x rest =>
      if Ascii.eqb x c then (EmptyString, s)
      else let '(before, after) := splitAt c rest in (String x before, after)
  end.

(** What the runtime answers on [https://host/path] without port, query,
    fragment, dot segment or escape sequence, and on what has no scheme at
    all. *)
Definition runtime : Runtime :=
  {| newURL := fun url =>
       if Js.startsWith url "https://" then
         let '(host, path) :=
           splitAt "/" (String.substring 8 (String.length url - 8) url) in
         Some {| host := Js.toLowerCase host;
                 pathname := if Js.falsy path then "/" else path |}
       else None;
     decodeURIComponent := inr |}.

End Demo.


(** ** Observations on results *)

(** The status a result of [run] stands for, and the document it names. *)
Definition statusOf (r : TaskResult) : ProcessingStatus :=
  match r with
  | Succeeded _ _ => completed
  | Failed _ _ => failed
  end.

Definition documentOf (r : TaskResult) : string :=
  match r with
  | Succeeded id _ => id
  | Failed id _ => id
  end.

(** Every row of the table is stored under its own id. *)
Definition wellKeyed (w : World) : Prop :=
  ∀ id d, db w !! id = Some d → doc_id d = id.

(** Calls that leave the process: reads of the object store and calls of
    the vector index. *)
Definition isExternalCall (e : Event) : bool :=
  isStorageRead e || isIndexCall e.

Definition externalCalls (evs : list Event) : list Event :=
  List.filter isExternalCall evs.

(** [E] with another value of [APP_AWS_KNOWLEDGE_BASE_BUCKET]. *)
Definition withBucket (E : Env) (bucket : option string) : Env :=
  {| APP_AWS_ACCESS_KEY_ID := APP_AWS_ACCESS_KEY_ID E;
     APP_AWS_SECRET_ACCESS_KEY := APP_AWS_SECRET_ACCESS_KEY E;
     APP_AWS_KNOWLEDGE_BASE_BUCKET := bucket;
     s3_send := s3_send E;
     toBase64 := toBase64 E;
     extractContentFromFile := extractContentFromFile E;
     chunkText := chunkText E;
     toISOString := toISOString E;
     vectorIndex := vectorIndex E;
     findEmbeddingsForSource := findEmbeddingsForSource E;
     deleteFailure := deleteFailure E;
     upsertFailure := upsertFailure E;
     upsertedBeforeFailure := upsertedBeforeFailure E;
     findUniqueFailure := findUniqueFailure E;
     updateFailure := updateFailure E |}.

(** [E] with another answer to the query of the existing embeddings. *)
Definition withQuery (E : Env)
    (f : gmap string ChunkItem → string → SourceType → string →
         Js.exn + list ExistingEmbedding) : Env :=
  {| APP_AWS_ACCESS_KEY_ID := APP_AWS_ACCESS_KEY_ID E;
     APP_AWS_SECRET_ACCESS_KEY := APP_AWS_SECRET_ACCESS_KEY E;
     APP_AWS_KNOWLEDGE_BASE_BUCKET := APP_AWS_KNOWLEDGE_BASE_BUCKET E;
     s3_send := s3_send E;
     toBase64 := toBase64 E;
     extractContentFromFile := extractContentFromFile E;
     chunkText := chunkText E;
     toISOString := toISOString E;
     vectorIndex := vectorIndex E;
     findEmbeddingsForSource := f;
     deleteFailure := deleteFailure E;
     upsertFailure := upsertFailure E;
     upsertedBeforeFailure := upsertedBeforeFailure E;
     findUniqueFailure := findUniqueFailure E;
     updateFailure := updateFailure E |}.

(** Modelled from the spec: how a stored chunk item reads as an existing
    embedding.  [findEmbeddingsForSource] is missing from the sources at
    hand; the data model gives an existing embedding the id of the entry
    and the [updatedAt] recorded in its metadata. *)
Definition embeddingOf (item : ChunkItem) : ExistingEmbedding :=
  {| ee_id := ci_id item; ee_updatedAt := ci_metadata item !! "updatedAt" |}.


(** ** [sync-utils.ts]: reading a document from the object store *)

(** [createKnowledgeBaseS3Client]: the endpoint and the region, with their
    defaults, only configure the client. *)
Definition createKnowledgeBaseS3Client (E : Env) : M unit :=
  if Js.falsy_opt (APP_AWS_ACCESS_KEY_ID E) ||
     Js.falsy_opt (APP_AWS_SECRET_ACCESS_KEY E)
  then throw (Js.Error "AWS S3 credentials are missing. Please set APP_AWS_ACCESS_KEY_ID and APP_AWS_SECRET_ACCESS_KEY environment variables.")
  else mret tt.

Definition extractContentFromS3Document (E : Env) (s3Key fileType : string)
    : M string :=
  if Js.falsy_opt (APP_AWS_KNOWLEDGE_BASE_BUCKET E)
  then throw (Js.Error "Knowledge base bucket is not configured. Please set APP_AWS_KNOWLEDGE_BASE_BUCKET environment variable.")
  else
    let knowledgeBaseBucket := default "" (APP_AWS_KNOWLEDGE_BASE_BUCKET E) in
    createKnowledgeBaseS3Client E;;
    emit (StorageGet knowledgeBaseBucket s3Key);;
    response ← liftOutcome (s3_send E knowledgeBaseBucket s3Key);
    match Body response with
    | None => throw (Js.Error "Failed to retrieve file from S3")
    | Some buffer =>
        let base64Data := toBase64 E buffer in
        let detectedFileType :=
          orElse (ContentType response)
                 (orElse (Some fileType) "application/octet-stream") in
        liftOutcome (extractContentFromFile E base64Data detectedFileType)
    end.


(** ** The language of a pattern *)

(** The strings a pattern matches from its first to its last character:
    the usual meaning of concatenation, alternation and repetition, which
    [Regex.test] decides. *)
Inductive matches : Regex.regex → string → Prop :=
| matches_eps : matches Regex.Eps ""
| matches_class (member : ascii → bool) (c : ascii) :
    member c = true → matches (Regex.Class member) (String c "")
| matches_seq (r1 r2 : Regex.regex) (s1 s2 : string) :
    matches r1 s1 → matches r2 s2 → matches (Regex.Seq r1 r2) (s1 +:+ s2)
| matches_alt_l (r1 r2 : Regex.regex) (s : string) :
    matches r1 s → matches (Regex.Alt r1 r2) s
| matches_alt_r (r1 r2 : Regex.regex) (s : string) :
    matches r2 s → matches (Regex.Alt r1 r2) s
| matches_star_nil (r : Regex.regex) : matches (Regex.Star r) ""
| matches_star_cons (r : Regex.regex) (s1 s2 : string) :
    matches r s1 → matches (Regex.Star r) s2 →
    matches (Regex.Star r) (s1 +:+ s2).

(** Every character of a string is in a class. *)
Fixpoint allChars (member : ascii → bool) (s : string) : bool :=
  match s with
  | EmptyString => true
  | String c rest => member c && allChars member rest
  end.

(** Character classes of the patterns: ASCII letters, letters and digits,
    and the characters of a lower-case host label. *)
Definition isAlpha (c : ascii) : bool := Regex.isLower c || Regex.isUpper c.

Definition isAlnum (c : ascii) : bool := isAlpha c || Regex.isDigit c.

Definition isLabelChar (c : ascii) : bool :=
  Regex.isLower c || Regex.isDigit c || Ascii.eqb c "-".

Definition isLabelOrDot (c : ascii) : bool :=
  isLabelChar c || Ascii.eqb c ".".

(** Every character class of a pattern is within a class. *)
Fixpoint within (p : ascii → bool) (r : Regex.regex) : Prop :=
  match r with
  | Regex.Class member => ∀ c, member c = true → p c = true
  | Regex.Seq r1 r2 | Regex.Alt r1 r2 => within p r1 ∧ within p r2
  | Regex.Star r1 => within p r1
  | Regex.Void | Regex.Eps => True
  end.

(** [[\w.-]] *)
Definition isHostChar (c : ascii) : bool :=
  Regex.isWord c || Ascii.eqb c "." || Ascii.eqb c "-".

(** What [trimStart] gives: a string that is empty or begins with a
    character that is not white space. *)
Definition trimmedStart (s : string) : Prop :=
  match s with
  | EmptyString => True
  | String c _ => Js.isWhiteSpace c = false
  end.


(** ** Attachments and questionnaires *)

(** [apps/api/src/attachments/attachments.service.ts] and
    [apps/api/src/trigger/questionnaire/parse-questionnaire.ts]: the
    service that stores attachments in the object store, and the task that
    reads an attachment back, through [extractS3KeyFromUrl], to parse a
    questionnaire.  Both run in one world: the tables [attachment] and
    [questionnaire], a clock, and the trace of what was called. *)
Module Api.

(** *** Strings *)

(** [s.split(sep)] for a separator of one character: the segments between
    the separators, never an empty array. *)
Fixpoint split (sep : ascii) (s : string) : list string :=
  match s with
  | EmptyString => [EmptyString]
  | String c rest =>
      if Ascii.eqb c sep then EmptyString :: split sep rest
      else match split sep rest with
           | segment :: more => String c segment :: more
           | [] => [String c EmptyString]
           end
  end.

(** [parts.pop()] and [parts[0]] on the result of [split]. *)
Definition pop (parts : list string) : string := List.last parts EmptyString.

Definition first (parts : list string) : string := hd EmptyString parts.

(** [s.replace(/[^...]/g, by)]: every character outside the class is
    replaced. *)
Fixpoint replaceOutside (keep : ascii → bool) (by_ : ascii) (s : string)
    : string :=
  match s with
  | EmptyString => EmptyString
  | String c rest =>
      String (if keep c then c else by_) (replaceOutside keep by_ rest)
  end.

(** [s.replace(/[...]/g, '')]: every character of the class is removed. *)
Fixpoint removeAll (drop : ascii → bool) (s : string) : string :=
  match s with
  | EmptyString => EmptyString
  | String c rest =>
      if drop c then removeAll drop rest else String c (removeAll drop rest)
  end.

(** Template-literal rendering of a non-negative integer. *)
Definition numberToString (n : N) : string :=
  NilEmpty.string_of_uint (N.to_uint n).

(** [[a-zA-Z0-9.-]] *)
Definition isFileNameChar (c : ascii) : bool :=
  isAlnum c || Ascii.eqb c "." || Ascii.eqb c "-".

(** [[\x00-\x1F\x7F]] and [[\x20-\x7E]] *)
Definition isControl (c : ascii) : bool :=
  let n := nat_of_ascii c in (n <=? 31)%nat || (n =? 127)%nat.

Definition isPrintable (c : ascii) : bool :=
  let n := nat_of_ascii c in ((32 <=? n) && (n <=? 126))%nat.

(** [fileName.replace(/[^a-zA-Z0-9.-]/g, '_')] *)
Definition sanitizeFileName (fileName : string) : string :=
  replaceOutside isFileNameChar "_" fileName.

Definition sanitizeHeaderValue (value : string) : string :=
  let withoutControls := removeAll isControl value in
  let asciiOnly := replaceOutside isPrintable "_" withoutControls in
  Js.trim asciiOnly.

(** *** Data *)

Inductive AttachmentType : Type := image | video | audio | document | other.

Definition mapFileTypeToAttachmentType (fileType : string) : AttachmentType :=
  let type := first (split "/" fileType) in
  if String.eqb type "image" then image
  else if String.eqb type "video" then video
  else if String.eqb type "audio" then audio
  else if String.eqb type "application" then document
  else if String.eqb type "text" then document
  else other.

(** A row of the [attachment] table; [url] holds the key of the object. *)
Record Attachment : Type := mkAttachment {
  att_id : string;
  att_name : string;
  att_url : string;
  att_type : AttachmentType;
  att_entityId : string;
  att_entityType : string;
  att_organizationId : string;
  att_createdAt : N
}.

Record UploadAttachmentDto : Type := mkUpload {
  up_fileName : string;
  up_fileType : string;
  up_fileData : string
}.

Record AttachmentResponseDto : Type := mkResponse {
  res_id : string;
  res_name : string;
  res_type : AttachmentType;
  res_downloadUrl : string;
  res_createdAt : N;
  res_size : N
}.

(** Modelled from the spec: [QuestionAnswer] is declared in
    [questionnaire/utils/question-parser], outside the sources at hand.
    The task reads [qa.question] and [qa.answer], and takes a missing or
    empty answer for no answer. *)
Record QuestionAnswer : Type := mkQuestionAnswer {
  qa_question : string;
  qa_answer : option string
}.

Inductive QuestionStatus : Type := generated | untouched.

(** What [questions: { create: [...] }] creates for one parsed question. *)
Record QuestionRecord : Type := mkQuestionRecord {
  qr_question : string;
  qr_answer : option string;
  qr_questionIndex : nat;
  qr_status : QuestionStatus
}.

(** A row of the [questionnaire] table with its questions. *)
Record Questionnaire : Type := mkQuestionnaire {
  qn_id : string;
  qn_filename : string;
  qn_s3Key : string;
  qn_fileType : string;
  qn_fileSize : N;
  qn_organizationId : string;
  qn_status : string;
  qn_parsedAt : N;
  qn_totalQuestions : nat;
  qn_answeredQuestions : nat;
  qn_questions : list QuestionRecord
}.

(** What is thrown: the two HTTP exceptions of the service, both of them
    [Error] objects, or any other value. *)
Inductive exn : Type :=
| Raised (e : Js.exn)
| BadRequestException (message : string)
| InternalServerErrorException (message : string).

(** [error instanceof Error] *)
Definition instanceOfError (e : exn) : bool :=
  match e with
  | Raised (Js.Thrown _) => false
  | _ => true
  end.

(** What a call does to its collaborators, in the order it does it. *)
Inductive Event : Type :=
| FindAttachment (id organizationId : string)
| CreateAttachment (row : Attachment)
| DeleteAttachment (id organizationId : string)
| PutObject (bucket key body contentType : string)
            (metadata : gmap string string)
| GetObject (bucket key : string)
| DeleteObject (bucket key : string)
| SignUrl (bucket key : string) (expiresIn : nat)
| Fetch (url : string)
| CreateQuestionnaire (row : Questionnaire)
| Console (message : string)
| Log (level : LogLevel) (message : string).

Record World : Type := mkWorld {
  attachments : list Attachment;
  questionnaires : list Questionnaire;
  clock : N;
  trace : list Event
}.

(** The collaborators that are not part of the sources at hand: the
    process environment, the runtime, the object store and the failures of
    its calls, the presigner, the failures of the database, the source of
    random bytes and of new ids, the content extractor, the question
    parser, and the extraction service behind [extractContentFromUrl]. *)
Record Env : Type := mkEnv {
  APP_AWS_BUCKET_NAME : option string;
  APP_AWS_QUESTIONNAIRE_UPLOAD_BUCKET : option string;
  APP_AWS_ACCESS_KEY_ID : option string;
  APP_AWS_SECRET_ACCESS_KEY : option string;
  FIRECRAWL_API_KEY : option string;
  runtime : Runtime;
  (** [Buffer.from(data, 'base64')] and [buffer.toString('base64')] *)
  fromBase64 : string → string;
  toBase64 : string → string;
  (** [randomBytes(16).toString('hex')] *)
  randomHex : World → string;
  newId : World → string;
  putObjectFailure : string → string → option Js.exn;
  getObject : string → string → Js.exn + S3Response;
  deleteObjectFailure : string → string → option Js.exn;
  getSignedUrl : string → string → nat → Js.exn + string;
  createAttachmentFailure : option Js.exn;
  deleteAttachmentFailure : option Js.exn;
  createQuestionnaireFailure : option Js.exn;
  extractContentFromFile : string → string → Js.exn + string;
  parseQuestionsAndAnswers : string → Js.exn + list QuestionAnswer;
  (** the outcome of the extraction job of [extractContentFromUrl], from
      its start to the end of the polling *)
  firecrawl : string → Js.exn + string
}.

(** *** The monad of [async] code *)

Definition M (A : Type) : Type := World → World * (exn + A).

Definition ret {A} (a : A) : M A := fun w => (w, inr a).

Definition throw {A} (e : exn) : M A := fun w => (w, inl e).

Definition bind {A B} (m : M A) (k : A → M B) : M B :=
  fun w =>
    match m w with
    | (w', inl e) => (w', inl e)
    | (w', inr a) => k a w'
    end.

Definition tryCatch {A} (body : M A) (handler : exn → M A) : M A :=
  fun w =>
    match body w with
    | (w', inl e) => handler e w'
    | (w', inr a) => (w', inr a)
    end.

#[global] Instance M_ret : MRet M := @ret.
#[global] Instance M_bind : MBind M := fun A B k m => bind m k.

Definition get : M World := fun w => (w, inr w).

Definition put (w : World) : M unit := fun _ => (w, inr tt).

Definition addEvents (w : World) (evs : list Event) : World :=
  {| attachments := attachments w; questionnaires := questionnaires w;
     clock := clock w; trace := trace w ++ evs |}.

Definition emit (e : Event) : M unit :=
  w ← get; put (addEvents w [e]).

Definition console_error (message : string) : M unit :=
  emit (Console message).

Definition logger (level : LogLevel) (message : string) : M unit :=
  emit (Log level message).

(** [throw new Error(message)] *)
Definition throwError {A} (message : string) : M A :=
  throw (Raised (Js.Error message)).

(** Lifts the outcome of a call that has no effect on the world. *)
Definition liftOutcome {A} (r : Js.exn + A) : M A :=
  fun w => (w, match r with
               | inl e => inl (Raised e)
               | inr a => inr a
               end).

(** [Date.now()] and [new Date()] *)
Definition dateNow : M N := w ← get; mret (clock w).

(** *** The database *)

Definition isRow (id organizationId : string) (a : Attachment) : bool :=
  String.eqb (att_id a) id && String.eqb (att_organizationId a) organizationId.

(** [db.attachment.findFirst] and [db.attachment.findUnique] with
    [where: { id, organizationId }]. *)
Definition findAttachment (id organizationId : string)
    : M (option Attachment) :=
  emit (FindAttachment id organizationId);;
  w ← get;
  mret (List.find (isRow id organizationId) (attachments w)).

(** [db.attachment.create({ data })]: the database gives the row its id
    and its creation date. *)
Definition createAttachment (E : Env) (name url : string)
    (type : AttachmentType) (entityId entityType organizationId : string)
    : M Attachment :=
  w ← get;
  let row := {| att_id := newId E w; att_name := name; att_url := url;
                att_type := type; att_entityId := entityId;
                att_entityType := entityType;
                att_organizationId := organizationId;
                att_createdAt := clock w |} in
  emit (CreateAttachment row);;
  match createAttachmentFailure E with
  | Some e => throw (Raised e)
  | None =>
      w' ← get;
      put {| attachments := attachments w' ++ [row];
             questionnaires := questionnaires w';
             clock := clock w'; trace := trace w' |};;
      mret row
  end.

(** [db.attachment.delete({ where: { id, organizationId } })]: deleting a
    row that does not exist throws. *)
Definition deleteAttachmentRow (E : Env) (id organizationId : string)
    : M unit :=
  emit (DeleteAttachment id organizationId);;
  match deleteAttachmentFailure E with
  | Some e => throw (Raised e)
  | None =>
      w ← get;
      if existsb (isRow id organizationId) (attachments w) then
        put {| attachments :=
                 List.filter (fun a => negb (isRow id organizationId a))
                             (attachments w);
               questionnaires := questionnaires w;
               clock := clock w; trace := trace w |}
      else throwError "Record to delete does not exist."
  end.

(** *** The object store *)

Definition s3_put (E : Env) (bucket key body contentType : string)
    (metadata : gmap string string) : M unit :=
  emit (PutObject bucket key body contentType metadata);;
  match putObjectFailure E bucket key with
  | Some e => throw (Raised e)
  | None => mret tt
  end.

Definition s3_get (E : Env) (bucket key : string) : M S3Response :=
  emit (GetObject bucket key);;
  liftOutcome (getObject E bucket key).

Definition s3_delete (E : Env) (bucket key : string) : M unit :=
  emit (DeleteObject bucket key);;
  match deleteObjectFailure E bucket key with
  | Some e => throw (Raised e)
  | None => mret tt
  end.

(** *** [AttachmentsService] *)

Definition BLOCKED_EXTENSIONS : list string :=
  ["exe"; "bat"; "cmd"; "com"; "scr"; "msi"; "js"; "vbs"; "vbe"; "wsf";
   "wsh"; "ps1"; "sh"; "bash"; "zsh"; "dll"; "sys"; "drv"; "app"; "deb";
   "rpm"; "jar"; "pif"; "lnk"; "cpl"; "hta"; "reg"].

Definition BLOCKED_MIME_TYPES : list string :=
  ["application/x-msdownload"; "application/x-msdos-program";
   "application/x-executable"; "application/x-sh"; "application/x-bat";
   "text/x-sh"; "text/x-python"; "text/x-perl"; "text/x-ruby";
   "application/x-httpd-php"; "application/x-javascript";
   "application/javascript"; "text/javascript"].

Definition MAX_FILE_SIZE_BYTES : N := 10 * 1024 * 1024.

Definition SIGNED_URL_EXPIRY : nat := 900.

(** [array.includes(s)] *)
Definition includes (array : list string) (s : string) : bool :=
  existsb (String.eqb s) array.

(** [this.bucketName], read from [APP_AWS_BUCKET_NAME] by the constructor;
    the configuration is validated at startup. *)
Definition bucketName (E : Env) : string :=
  default EmptyString (APP_AWS_BUCKET_NAME E).

Definition byteLength (buffer : string) : N := N.of_nat (String.length buffer).

(** The template literal
    [`${organizationId}/attachments/${entityType}/${entityId}/${timestamp}-${fileId}-${sanitizedFileName}`]. *)
Definition objectKey (organizationId entityType entityId : string)
    (timestamp : N) (fileId sanitizedFileName : string) : string :=
  organizationId +:+ "/attachments/" +:+ entityType +:+ "/" +:+ entityId +:+
  "/" +:+ numberToString timestamp +:+ "-" +:+ fileId +:+ "-" +:+
  sanitizedFileName.

Definition generateSignedUrl (E : Env) (s3Key : string) : M string :=
  emit (SignUrl (bucketName E) s3Key SIGNED_URL_EXPIRY);;
  liftOutcome (getSignedUrl E (bucketName E) s3Key SIGNED_URL_EXPIRY).

(** The [Metadata] of the [PutObjectCommand] of [uploadAttachment]; the
    spread [...(userId && { uploadedBy: userId })] adds its key only for a
    user id that is there and not empty. *)
Definition uploadMetadata (fileName organizationId entityId entityType : string)
    (userId : option string) : gmap string string :=
  let fixed : gmap string string :=
    <["entityType" := entityType]>
    (<["entityId" := entityId]>
    (<["organizationId" := organizationId]>
    (<["originalFileName" := sanitizeHeaderValue fileName]> ∅))) in
  match userId with
  | Some u => if Js.falsy u then fixed else <["uploadedBy" := u]> fixed
  | None => fixed
  end.

Definition uploadAttachment (E : Env)
    (organizationId entityId entityType : string)
    (uploadDto : UploadAttachmentDto) (userId : option string)
    : M AttachmentResponseDto :=
  tryCatch
    (let fileExt :=
       Js.toLowerCase (pop (split "." (up_fileName uploadDto))) in
     if negb (Js.falsy fileExt) && includes BLOCKED_EXTENSIONS fileExt then
       throw (BadRequestException
                ("File extension '." +:+ fileExt +:+
                 "' is not allowed for security reasons"))
     else if includes BLOCKED_MIME_TYPES
               (Js.toLowerCase (up_fileType uploadDto)) then
       throw (BadRequestException
                ("File type '" +:+ up_fileType uploadDto +:+
                 "' is not allowed for security reasons"))
     else
       let fileBuffer := fromBase64 E (up_fileData uploadDto) in
       if (MAX_FILE_SIZE_BYTES <? byteLength fileBuffer)%N then
         throw (BadRequestException
                  "File size exceeds maximum allowed size of 10MB")
       else
         w ← get;
         let fileId := randomHex E w in
         let sanitizedFileName := sanitizeFileName (up_fileName uploadDto) in
         timestamp ← dateNow;
         let s3Key := objectKey organizationId entityType entityId timestamp
                                fileId sanitizedFileName in
         s3_put E (bucketName E) s3Key fileBuffer (up_fileType uploadDto)
                (uploadMetadata (up_fileName uploadDto) organizationId
                                entityId entityType userId);;
         attachment ← createAttachment E (up_fileName uploadDto) s3Key
                        (mapFileTypeToAttachmentType (up_fileType uploadDto))
                        entityId entityType organizationId;
         downloadUrl ← generateSignedUrl E s3Key;
         mret {| res_id := att_id attachment;
                 res_name := att_name attachment;
                 res_type := att_type attachment;
                 res_downloadUrl := downloadUrl;
                 res_createdAt := att_createdAt attachment;
                 res_size := byteLength fileBuffer |})
    (fun error =>
       console_error "Error uploading attachment:";;
       match error with
       | BadRequestException _ => throw error
       | _ => throw (InternalServerErrorException
                       "Failed to upload attachment")
       end).

Definition getAttachmentDownloadUrl (E : Env)
    (organizationId attachmentId : string) : M (string * nat) :=
  tryCatch
    (attachment ← findAttachment attachmentId organizationId;
     match attachment with
     | None => throw (BadRequestException "Attachment not found")
     | Some attachment =>
         downloadUrl ← generateSignedUrl E (att_url attachment);
         mret (downloadUrl, SIGNED_URL_EXPIRY)
     end)
    (fun error =>
       console_error "Error generating download URL:";;
       match error with
       | BadRequestException _ => throw error
       | _ => throw (InternalServerErrorException
                       "Failed to generate download URL")
       end).

Definition deleteAttachment (E : Env) (organizationId attachmentId : string)
    : M unit :=
  tryCatch
    (attachment ← findAttachment attachmentId organizationId;
     match attachment with
     | None => throw (BadRequestException "Attachment not found")
     | Some attachment =>
         s3_delete E (bucketName E) (att_url attachment);;
         deleteAttachmentRow E attachmentId organizationId
     end)
    (fun error =>
       console_error "Error deleting attachment:";;
       match error with
       | BadRequestException _ => throw error
       | _ => throw (InternalServerErrorException
                       "Failed to delete attachment")
       end).

(** *** [parse-questionnaire.ts] *)

(** [error instanceof Error ? error : new Error(message)] *)
Definition asError (error : exn) (message : string) : exn :=
  if instanceOfError error then error else Raised (Js.Error message).


(** [extractContentFromUrl]: the key is checked first; the requests to the
    extraction service and the polling of its job are [firecrawl]'s. *)
Definition extractContentFromUrl (E : Env) (url : string) : M string :=
  if Js.falsy_opt (FIRECRAWL_API_KEY E)
  then throwError "Firecrawl API key is not configured"
  else
    tryCatch
      (emit (Fetch url);; liftOutcome (firecrawl E url))
      (fun error =>
         throw (asError error "Failed to extract content from URL")).

Definition createS3Client (E : Env) : M unit :=
  if Js.falsy_opt (APP_AWS_ACCESS_KEY_ID E) ||
     Js.falsy_opt (APP_AWS_SECRET_ACCESS_KEY E)
  then throwError "AWS S3 credentials are missing. Please set APP_AWS_ACCESS_KEY_ID and APP_AWS_SECRET_ACCESS_KEY environment variables in Trigger.dev."
  else mret tt.

Definition extractContentFromAttachment (E : Env)
    (attachmentId organizationId : string) : M (string * string) :=
  attachment ← findAttachment attachmentId organizationId;
  match attachment with
  | None => throwError "Attachment not found"
  | Some attachment =>
      if Js.falsy_opt (APP_AWS_BUCKET_NAME E)
      then throwError "APP_AWS_BUCKET_NAME environment variable is not set in Trigger.dev."
      else
        let bucketName := default EmptyString (APP_AWS_BUCKET_NAME E) in
        key ← liftOutcome
                (ApiS3.extractS3KeyFromUrl (runtime E) (att_url attachment));
        createS3Client E;;
        response ← s3_get E bucketName key;
        match Body response with
        | None => throwError "Failed to retrieve attachment from S3"
        | Some buffer =>
            let base64Data := toBase64 E buffer in
            let fileType :=
              orElse (ContentType response)
                     (match att_type attachment with
                      | image => "image/png"
                      | _ => "application/pdf"
                      end) in
            content ← liftOutcome
                        (extractContentFromFile E base64Data fileType);
            mret (content, fileType)
        end
  end.

Definition extractContentFromS3Key (E : Env) (s3Key fileType : string)
    : M (string * string) :=
  if Js.falsy_opt (APP_AWS_QUESTIONNAIRE_UPLOAD_BUCKET E)
  then throwError "Questionnaire upload bucket is not configured. Please set APP_AWS_QUESTIONNAIRE_UPLOAD_BUCKET environment variable in Trigger.dev."
  else
    let questionnaireBucket :=
      default EmptyString (APP_AWS_QUESTIONNAIRE_UPLOAD_BUCKET E) in
    createS3Client E;;
    response ← s3_get E questionnaireBucket s3Key;
    match Body response with
    | None => throwError "Failed to retrieve file from S3"
    | Some buffer =>
        let base64Data := toBase64 E buffer in
        let detectedFileType :=
          orElse (ContentType response)
                 (orElse (Some fileType) "application/octet-stream") in
        content ← liftOutcome
                    (extractContentFromFile E base64Data detectedFileType);
        mret (content, detectedFileType)
    end.

Inductive InputType : Type :=
| InputFile
| InputUrl
| InputAttachment
| InputS3
| InputOther (name : string).

Record Payload : Type := mkPayload {
  p_inputType : InputType;
  p_organizationId : string;
  p_fileData : option string;
  p_fileName : option string;
  p_fileType : option string;
  p_url : option string;
  p_attachmentId : option string;
  p_s3Key : option string
}.

(** What the task returns. *)
Record ParseResult : Type := mkParseResult {
  success : bool;
  questionnaireId : string;
  questionsAndAnswers : list QuestionAnswer;
  extractedContent : string
}.

(** [a || b] where both may be missing. *)
Definition orOption (a b : option string) : option string :=
  if Js.falsy_opt a then b else a.

(** The rows of [questions: { create: questionsAndAnswers.map(...) }]. *)
Definition questionRecords (questionsAndAnswers : list QuestionAnswer)
    : list QuestionRecord :=
  imap (fun index qa =>
          {| qr_question := qa_question qa;
             qr_answer := orOption (qa_answer qa) None;
             qr_questionIndex := index;
             qr_status := if Js.falsy_opt (qa_answer qa) then untouched
                          else generated |})
       questionsAndAnswers.

(** The [data] of [db.questionnaire.create({ data })]; the database gives
    the row its id. *)
Definition questionnaireData (E : Env) (payload : Payload)
    (questionsAndAnswers : list QuestionAnswer) (parsedAt : N) (id : string)
    : Questionnaire :=
  let fileName :=
    orElse (orOption (p_fileName payload)
                     (orOption (p_url payload) (p_attachmentId payload)))
           "questionnaire" in
  let s3Key := orElse (p_s3Key payload) "" in
  let fileType := orElse (p_fileType payload) "application/octet-stream" in
  let fileSize :=
    match p_fileData payload with
    | Some data => if Js.falsy data then 0%N
                   else byteLength (fromBase64 E data)
    | None => 0%N
    end in
  {| qn_id := id;
     qn_filename := fileName;
     qn_s3Key := orElse (Some s3Key) "";
     qn_fileType := fileType;
     qn_fileSize := fileSize;
     qn_organizationId := p_organizationId payload;
     qn_status := "completed";
     qn_parsedAt := parsedAt;
     qn_totalQuestions := length questionsAndAnswers;
     qn_answeredQuestions := 0;
     qn_questions := questionRecords questionsAndAnswers |}.

Definition createQuestionnaire (E : Env) (payload : Payload)
    (questionsAndAnswers : list QuestionAnswer) : M Questionnaire :=
  parsedAt ← dateNow;
  w ← get;
  let row := questionnaireData E payload questionsAndAnswers parsedAt
                               (newId E w) in
  emit (CreateQuestionnaire row);;
  match createQuestionnaireFailure E with
  | Some e => throw (Raised e)
  | None =>
      w' ← get;
      put {| attachments := attachments w';
             questionnaires := questionnaires w' ++ [row];
             clock := clock w'; trace := trace w' |};;
      mret row
  end.

(** The [switch] on the input type. *)
Definition extractContent (E : Env) (payload : Payload) : M string :=
  match p_inputType payload with
  | InputFile =>
      if Js.falsy_opt (p_fileData payload) ||
         Js.falsy_opt (p_fileType payload)
      then throwError "File data and file type are required for file input"
      else liftOutcome
             (extractContentFromFile E
                (default EmptyString (p_fileData payload))
                (default EmptyString (p_fileType payload)))
  | InputUrl =>
      if Js.falsy_opt (p_url payload)
      then throwError "URL is required for URL input"
      else extractContentFromUrl E (default EmptyString (p_url payload))
  | InputAttachment =>
      if Js.falsy_opt (p_attachmentId payload)
      then throwError "Attachment ID is required for attachment input"
      else
        result ← extractContentFromAttachment E
                   (default EmptyString (p_attachmentId payload))
                   (p_organizationId payload);
        mret result.1
  | InputS3 =>
      if Js.falsy_opt (p_s3Key payload) || Js.falsy_opt (p_fileType payload)
      then throwError "S3 key and file type are required for S3 input"
      else
        result ← extractContentFromS3Key E
                   (default EmptyString (p_s3Key payload))
                   (default EmptyString (p_fileType payload));
        mret result.1
  | InputOther name => throwError ("Unsupported input type: " +:+ name)
  end.

(** The [run] function of [parseQuestionnaireTask]. *)
Definition run (E : Env) (payload : Payload) : M ParseResult :=
  logger info "Starting parse questionnaire task";;
  tryCatch
    (extractedContent ← extractContent E payload;
     logger info "Content extracted successfully";;
     questionsAndAnswers ← liftOutcome
                             (parseQuestionsAndAnswers E extractedContent);
     logger info "Questions and answers parsed";;
     questionnaireId ←
       tryCatch
         (questionnaire ← createQuestionnaire E payload questionsAndAnswers;
          logger info "Questionnaire record created";;
          mret (qn_id questionnaire))
         (fun createError =>
            logger error "Failed to create questionnaire record";;
            mret EmptyString);
     mret {| success := true;
             questionnaireId := questionnaireId;
             questionsAndAnswers := questionsAndAnswers;
             extractedContent := String.substring 0 1000 extractedContent |})
    (fun err =>
       logger error "Failed to parse questionnaire";;
       throw (asError err "Failed to parse questionnaire")).

(** The declared retry policy of the task. *)
Definition maxAttempts : nat := 2.

(** *** Observations *)

(** The events a call added to the trace it started from. *)
Definition eventsSince (w w' : World) : list Event :=
  drop (length (trace w)) (trace w').

Definition withAttachments (w : World) (rows : list Attachment) : World :=
  {| attachments := rows; questionnaires := questionnaires w;
     clock := clock w; trace := trace w |}.

Definition withQuestionnaires (w : World) (rows : list Questionnaire)
    : World :=
  {| attachments := attachments w; questionnaires := rows;
     clock := clock w; trace := trace w |}.

(** The three checks of [uploadAttachment]: the extension, the MIME type
    and the size. *)
Definition blockedExtension (uploadDto : UploadAttachmentDto) : bool :=
  let fileExt := Js.toLowerCase (pop (split "." (up_fileName uploadDto))) in
  negb (Js.falsy fileExt) && includes BLOCKED_EXTENSIONS fileExt.

Definition blockedMimeType (uploadDto : UploadAttachmentDto) : bool :=
  includes BLOCKED_MIME_TYPES (Js.toLowerCase (up_fileType uploadDto)).

Definition tooLarge (E : Env) (uploadDto : UploadAttachmentDto) : bool :=
  (MAX_FILE_SIZE_BYTES <? byteLength (fromBase64 E (up_fileData uploadDto)))%N.

Definition passesChecks (E : Env) (uploadDto : UploadAttachmentDto) : bool :=
  negb (blockedExtension uploadDto) && negb (blockedMimeType uploadDto) &&
  negb (tooLarge E uploadDto).

(** The key, the put call and the row of an upload that starts in [w]. *)
Definition uploadKey (E : Env) (w : World)
    (organizationId entityId entityType : string)
    (uploadDto : UploadAttachmentDto) : string :=
  objectKey organizationId entityType entityId (clock w) (randomHex E w)
            (sanitizeFileName (up_fileName uploadDto)).

Definition uploadPut (E : Env) (w : World)
    (organizationId entityId entityType : string)
    (uploadDto : UploadAttachmentDto) (userId : option string) : Event :=
  PutObject (bucketName E)
            (uploadKey E w organizationId entityId entityType uploadDto)
            (fromBase64 E (up_fileData uploadDto)) (up_fileType uploadDto)
            (uploadMetadata (up_fileName uploadDto) organizationId entityId
                            entityType userId).

Definition uploadRow (E : Env) (w : World)
    (organizationId entityId entityType : string)
    (uploadDto : UploadAttachmentDto) (userId : option string) : Attachment :=
  {| att_id := newId E (addEvents w [uploadPut E w organizationId entityId
                                               entityType uploadDto userId]);
     att_name := up_fileName uploadDto;
     att_url := uploadKey E w organizationId entityId entityType uploadDto;
     att_type := mapFileTypeToAttachmentType (up_fileType uploadDto);
     att_entityId := entityId;
     att_entityType := entityType;
     att_organizationId := organizationId;
     att_createdAt := clock w |}.

(** The characters of an identifier: word characters and dashes. *)
Definition isIdChar (c : ascii) : bool :=
  Regex.isWord c || Ascii.eqb c "-".

(** The characters of an object key: those of identifiers and of
    sanitised file names, and the slash. *)
Definition isKeyChar (c : ascii) : bool :=
  isIdChar c || Ascii.eqb c "." || Ascii.eqb c "/".

Definition isCreateQuestionnaire (e : Event) : bool :=
  match e with
  | CreateQuestionnaire _ => true
  | _ => false
  end.

Definition isDeleteObject (e : Event) : bool :=
  match e with
  | DeleteObject _ _ => true
  | _ => false
  end.

Definition isGetObject (e : Event) : bool :=
  match e with
  | GetObject _ _ => true
  | _ => false
  end.

End Api.


(** ** A concrete service *)

Module ApiDemo.

(** An environment where every call succeeds: the object under every key
    is a plain-text file with the given content, base64 is left out, and
    the question parser finds the two questions below in every content
    that is not empty. *)
Definition env (content : string) : Api.Env :=
  Api.mkEnv
    (* APP_AWS_BUCKET_NAME *) (Some "attachments")
    (* APP_AWS_QUESTIONNAIRE_UPLOAD_BUCKET *) (Some "questionnaires")
    (* APP_AWS_ACCESS_KEY_ID *) (Some "AKIAEXAMPLE")
    (* APP_AWS_SECRET_ACCESS_KEY *) (Some "secret")
    (* FIRECRAWL_API_KEY *) None
    Demo.runtime
    (* fromBase64 *) (fun data => data)
    (* toBase64 *) (fun bytes => bytes)
    (* randomHex *) (fun _ => "00112233445566778899aabbccddeeff")
    (* newId *)
    (fun w => "id_" +:+ Js.numberToString
                          (length (Api.attachments w) +
                           length (Api.questionnaires w)))
    (* putObjectFailure *) (fun _ _ => None)
    (* getObject *)
    (fun _ _ => inr {| Body := Some content;
                       ContentType := Some "text/plain" |})
    (* deleteObjectFailure *) (fun _ _ => None)
    (* getSignedUrl *)
    (fun bucket key _ => inr ("https://signed.example/" +:+ bucket +:+ "/"
                              +:+ key))
    (* createAttachmentFailure *) None
    (* deleteAttachmentFailure *) None
    (* createQuestionnaireFailure *) None
    (* extractContentFromFile *) (fun data _ => inr data)
    (* parseQuestionsAndAnswers *)
    (fun text =>
       if Js.falsy text then inr []
       else inr [ {| Api.qa_question := "Do you encrypt data at rest?";
                     Api.qa_answer := Some "Yes." |};
                  {| Api.qa_question := "Do you have a SOC 2 report?";
                     Api.qa_answer := None |} ])
    (* firecrawl *) (fun _ => inl (Js.Error "Firecrawl extraction failed")).

Definition world0 : Api.World :=
  {| Api.attachments := []; Api.questionnaires := [];
     Api.clock := 1706745600000; Api.trace := [] |}.

Definition upload1 : Api.UploadAttachmentDto :=
  {| Api.up_fileName := "Security questionnaire (v2).txt";
     Api.up_fileType := "text/plain";
     Api.up_fileData := "Do you encrypt data at rest? Yes." |}.

(** The world after [upload1] has been uploaded for a task of org_1. *)
Definition world1 : Api.World :=
  fst (Api.uploadAttachment (env "") "org_1" "tsk_1" "task" upload1
                            (Some "usr_1") world0).

End ApiDemo.


(** * Properties *)

(** ** Strings *)

(** [Js.lt] is the lexicographic order on code units. *)
Lemma lt_lexicographic :
  (∀ b, Js.lt "" b = negb (Js.falsy b)) ∧
  (∀ a, Js.lt a "" = false) ∧
  (∀ x a y b,
     Js.lt (String x a) (String y b) =
     match Ascii.compare x y with
     | Lt => true
     | Eq => Js.lt a b
     | Gt => false
     end).
Proof.
  unfold Js.lt, String.ltb. repeat split.
  - intros [|y b]; reflexivity.
  - intros [|x a]; reflexivity.
  - intros x a y b. simpl. destruct (Ascii.compare x y); reflexivity.
Qed.

Lemma isPrefix_cons (a b : ascii) (p s : string) :
  Js.isPrefix (String a p) (String b s) = Ascii.eqb a b && Js.isPrefix p s.
Proof. reflexivity. Qed.

Lemma includes_cons (c : ascii) (s needle : string) :
  Js.includes (String c s) needle =
  Js.isPrefix needle (String c s) || Js.includes s needle.
Proof. reflexivity. Qed.

Lemma falsy_true (s : string) : Js.falsy s = true ↔ s = "".
Proof. destruct s; simpl; split; congruence. Qed.

Lemma falsy_false (s : string) : Js.falsy s = false ↔ s ≠ "".
Proof. destruct s; simpl; split; congruence. Qed.

(** ** The staleness check *)

Lemma isStale_iff (t : string) (e : ExistingEmbedding) :
  isStale t e = true ↔
  ee_updatedAt e = None ∨ ee_updatedAt e = Some "" ∨
  ∃ u, ee_updatedAt e = Some u ∧ Js.lt u t = true.
Proof.
  unfold isStale. destruct (ee_updatedAt e) as [u|]; simpl.
  - rewrite orb_true_iff, falsy_true. split.
    + intros [->|H]; [by right; left | right; right; eauto].
    + intros [H|[H|(u' & H & Hlt)]]; [done | left; congruence |].
      right. congruence.
  - split; [by left | done].
Qed.

(** C2, as amended: [needsUpdate] answers true exactly when there is no
    existing embedding, or some existing embedding has no recorded
    [updatedAt] (missing or empty), or some recorded [updatedAt] is below
    the source's in the lexicographic order of strings.  It answers true on
    the empty list for every timestamp, true on a record of "2024-01-01"
    against "2024-02-01", and false on a record of "2024-03-01" against
    "2024-02-01". *)
Theorem needsUpdate_characterised :
  ∀ (existingEmbeddings : list ExistingEmbedding) (sourceUpdatedAt : string),
    (needsUpdate existingEmbeddings sourceUpdatedAt = true ↔
     existingEmbeddings = [] ∨
     ∃ e, e ∈ existingEmbeddings ∧
          (ee_updatedAt e = None ∨ ee_updatedAt e = Some "" ∨
           ∃ u, ee_updatedAt e = Some u ∧ Js.lt u sourceUpdatedAt = true)) ∧
    needsUpdate [] sourceUpdatedAt = true ∧
    (∀ id, needsUpdate [{| ee_id := id; ee_updatedAt := Some "2024-01-01" |}]
                       "2024-02-01" = true) ∧
    (∀ id, needsUpdate [{| ee_id := id; ee_updatedAt := Some "2024-03-01" |}]
                       "2024-02-01" = false).
Proof.
  intros es t. split; [|by repeat split].
  unfold needsUpdate. rewrite orb_true_iff, Nat.eqb_eq, existsb_exists.
  split.
  - intros [Hlen|(e & Hin & Hst)].
    + left. by destruct es.
    + right. exists e. split; [by apply list_elem_of_In|].
      by apply isStale_iff.
  - intros [->|(e & Hin & Hst)]; [by left|].
    right. exists e. split; [by apply list_elem_of_In|].
    by apply isStale_iff.
Qed.

(** C2, as stated, fails on an embedding without a recorded [updatedAt]:
    [needsUpdate] answers true although the list is not empty and no
    recorded [updatedAt] is below the source's. *)
Lemma needsUpdate_missing_updatedAt :
  let existing := [{| ee_id := "policy_p-1_chunk0"; ee_updatedAt := None |}] in
  ¬ (needsUpdate existing "2024-02-01" = true ↔
     existing = [] ∨
     ∃ e u, e ∈ existing ∧ ee_updatedAt e = Some u ∧
            Js.lt u "2024-02-01" = true).
Proof.
  intros existing [Hcode _].
  destruct (Hcode eq_refl) as [Hnil|(e & u & Hin & Hu & _)]; [done|].
  apply list_elem_of_singleton in Hin. subst e. discriminate Hu.
Qed.

(** The same happens with a recorded [updatedAt] that is the empty string,
    when the source's timestamp is empty too. *)
Lemma needsUpdate_empty_updatedAt :
  needsUpdate [{| ee_id := "e"; ee_updatedAt := Some "" |}] "" = true ∧
  Js.lt "" "" = false.
Proof. by split. Qed.

(** ** Chunk items *)

Section ChunkItems.

Context {A : Type} (mk : nat → string → A).

(** What [chunks.map(mk).filter(keep)] contains: the images of the chunks
    that pass the filter, each built with the index of its chunk. *)
Lemma elem_of_filter_imap (keep : A → bool) (chunks : list string) (x : A) :
  x ∈ List.filter keep (imap mk chunks) ↔
  ∃ i chunk, chunks !! i = Some chunk ∧ x = mk i chunk ∧ keep x = true.
Proof.
  rewrite list_elem_of_In, filter_In, <- list_elem_of_In, elem_of_lookup_imap.
  split.
  - intros ((i & chunk & -> & Hi) & Hk). eauto.
  - intros (i & chunk & Hi & -> & Hk). eauto.
Qed.

(** Without a chunk for the filter to drop, positions are chunk indices. *)
Lemma filter_imap_all (keep : A → bool) (chunks : list string) :
  (∀ i chunk, chunks !! i = Some chunk → keep (mk i chunk) = true) →
  List.filter keep (imap mk chunks) = imap mk chunks.
Proof.
  intros Hall. apply forallb_filter_id, forallb_forall.
  intros x Hx. apply list_elem_of_In, elem_of_lookup_imap in Hx.
  destruct Hx as (i & chunk & -> & Hi). eauto.
Qed.

End ChunkItems.

(** The ids of filtered, indexed items do not depend on anything but the
    id function, as long as the filter looks at the chunk only. *)
Lemma filter_imap_ids {A B : Type} (f : nat → string → A)
    (g : nat → string → B) (idA : A → string) (idB : B → string)
    (keepA : A → bool) (keepB : B → bool) (chunks : list string) :
  (∀ i chunk, idA (f i chunk) = idB (g i chunk)) →
  (∀ i chunk, keepA (f i chunk) = keepB (g i chunk)) →
  map idA (List.filter keepA (imap f chunks)) =
  map idB (List.filter keepB (imap g chunks)).
Proof.
  revert f g. induction chunks as [|c chunks IH]; intros f g Hid Hkeep.
  - reflexivity.
  - rewrite !imap_cons. simpl. rewrite Hkeep.
    destruct (keepB (g 0 c)); simpl; [rewrite Hid; f_equal|];
      apply IH; intros; apply Hid || apply Hkeep.
Qed.

(** C3, as amended: the id of a chunk item is [idPrefix_sourceId_chunk<i>],
    with [i] the index of its chunk in the output of the chunker, given
    before the blank chunks are dropped: every item [createChunkItems] produces carries
    the id of the index of its chunk, every chunk that is not blank has its
    item under that id, the list of ids is the same whatever the source
    type, organization, timestamp and extra metadata are, and where no
    chunk is blank the item at position [i] has the id of index [i].  The
    items of the knowledge-base task have the ids
    [knowledge_base_document_<documentId>_chunk<i>]; a document "doc-1"
    with two chunks gets [knowledge_base_document_doc-1_chunk0] and
    [knowledge_base_document_doc-1_chunk1]. *)
Theorem chunk_ids_deterministic :
  ∀ (chunkText : string → nat → nat → list string)
    (text sourceId : string) (sourceType : SourceType)
    (organizationId updatedAt idPrefix : string)
    (extraMetadata : gmap string string) (chunkSize overlap : nat),
    let chunks := chunkText text chunkSize overlap in
    let items := createChunkItems chunkText text sourceId sourceType
                   organizationId updatedAt idPrefix extraMetadata
                   chunkSize overlap in
    (∀ item, item ∈ items →
       ∃ i, chunks !! i = Some (ci_text item) ∧
            ci_id item = idPrefix +:+ "_" +:+ sourceId +:+ "_chunk" +:+
                         Js.numberToString i) ∧
    (∀ i chunk, chunks !! i = Some chunk → nonBlank chunk = true →
       ∃ item, item ∈ items ∧ ci_text item = chunk ∧
               ci_id item = idPrefix +:+ "_" +:+ sourceId +:+ "_chunk" +:+
                            Js.numberToString i) ∧
    (∀ sourceType' organizationId' updatedAt' extraMetadata',
       map ci_id (createChunkItems chunkText text sourceId sourceType'
                    organizationId' updatedAt' idPrefix extraMetadata'
                    chunkSize overlap) = map ci_id items) ∧
    ((∀ chunk, chunk ∈ chunks → nonBlank chunk = true) →
     ∀ i item, items !! i = Some item →
       ci_id item = idPrefix +:+ "_" +:+ sourceId +:+ "_chunk" +:+
                    Js.numberToString i) ∧
    (∀ organizationId' document updatedAt' chunks' item,
       item ∈ documentChunkItems organizationId' document updatedAt' chunks' →
       ∃ i, chunks' !! i = Some (ci_text item) ∧
            ci_id item = "knowledge_base_document_" +:+ doc_id document +:+
                         "_chunk" +:+ Js.numberToString i) ∧
    (∀ organizationId' document updatedAt' chunk0 chunk1,
       doc_id document = "doc-1" →
       nonBlank chunk0 = true → nonBlank chunk1 = true →
       map ci_id (documentChunkItems organizationId' document updatedAt'
                                     [chunk0; chunk1]) =
       ["knowledge_base_document_doc-1_chunk0";
        "knowledge_base_document_doc-1_chunk1"]).
Proof.
  intros chunkText text sourceId sourceType org updatedAt idPrefix extra
         chunkSize overlap chunks items.
  subst items. unfold createChunkItems. fold chunks.
  split; [|split; [|split; [|split; [|split]]]].
  - intros item Hin. apply elem_of_filter_imap in Hin.
    destruct Hin as (i & chunk & Hi & -> & _). exists i. by split.
  - intros i chunk Hi Hnb. eexists. split; [|split].
    + apply elem_of_filter_imap. exists i, chunk.
      split; [exact Hi|split; [reflexivity|exact Hnb]].
    + reflexivity.
    + reflexivity.
  - intros sourceType' org' updatedAt' extra'.
    by apply filter_imap_ids.
  - intros Hall i item Hi. rewrite filter_imap_all in Hi.
    + apply list_lookup_imap_Some in Hi. by destruct Hi as (chunk & _ & ->).
    + intros j chunk Hj. apply Hall. by eapply list_elem_of_lookup_2.
  - intros org' document updatedAt' chunks' item Hin.
    unfold documentChunkItems in Hin. apply elem_of_filter_imap in Hin.
    destruct Hin as (i & chunk & Hi & -> & _). exists i. by split.
  - intros org' document updatedAt' chunk0 chunk1 Hid H0 H1.
    unfold documentChunkItems. simpl. unfold hasText at 1. simpl.
    rewrite H0. simpl. unfold hasText at 1. simpl. rewrite H1. simpl.
    by rewrite Hid.
Qed.

(** C3 at the document "doc-1" of the concrete environment, whose text of
    1300 characters makes three windows. *)
Lemma chunk_ids_deterministic_witness :
  map ci_id
      (createChunkItems Demo.chunkText
         (Demo.repeatString "Hello world. " 100) "doc-1"
         knowledge_base_document "org-1" "2024-01-01T00:00:00.000Z"
         "knowledge_base_document" ∅ 500 50) =
  map ci_id
      (createChunkItems Demo.chunkText
         (Demo.repeatString "Hello world. " 100) "doc-1"
         policy "org-2" "2024-02-01T00:00:00.000Z"
         "knowledge_base_document" {[ "documentName" := "handbook" ]} 500 50).
Proof.
  symmetry.
  apply (chunk_ids_deterministic Demo.chunkText
           (Demo.repeatString "Hello world. " 100) "doc-1"
           knowledge_base_document "org-1" "2024-01-01T00:00:00.000Z"
           "knowledge_base_document" ∅ 500 50).
Defined.

(** C3, as stated, fails when a chunk is blank: the ids keep the index of
    the chunk when a blank chunk in between is dropped by the filter, so
    the item at position 1 has the id of index 2, not of index 1. *)
Lemma chunk_ids_skip_blank :
  let items :=
    createChunkItems (fun _ _ _ => ["a"; "  "; "b"]) "a    b" "p-1"
      policy "org-1" "2024-01-01" "policy" ∅ 500 50 in
  map ci_id items = ["policy_p-1_chunk0"; "policy_p-1_chunk2"] ∧
  (ci_id <$> items !! 1%nat) = Some "policy_p-1_chunk2" ∧
  (ci_id <$> items !! 1%nat)
    ≠ Some ("policy" +:+ "_" +:+ "p-1" +:+ "_chunk" +:+ Js.numberToString 1).
Proof.
  cbv zeta. split; [reflexivity|]. split; [reflexivity|].
  vm_compute. discriminate.
Qed.

(** ** Metadata of chunk items *)

(** A fixed key of the object literal is read back unless [extraMetadata]
    has a key of the same name. *)
Lemma chunkMetadata_lookup (organizationId : string) (sourceType : SourceType)
    (sourceId chunk updatedAt : string) (extraMetadata : gmap string string)
    (key : string) :
  extraMetadata !! key = None →
  chunkMetadata organizationId sourceType sourceId chunk updatedAt
                extraMetadata !! key =
  (<["updatedAt" := updatedAt]>
   (<["content" := chunk]>
   (<["sourceId" := sourceId]>
   (<["sourceType" := sourceTypeString sourceType]>
   (<["organizationId" := organizationId]> (∅ : gmap string string)))))) !! key.
Proof.
  intros Hnone. unfold chunkMetadata.
  destruct (_ !! key) as [v|] eqn:Hfix at 2.
  - by apply lookup_union_Some_raw; right.
  - by apply lookup_union_None_2.
Qed.

(** C9, as amended: every item [createChunkItems] produces carries the
    organization id of the call under [organizationId] when
    [extraMetadata] has no key of that name, the source id under
    [sourceId] when [extraMetadata] has no key of that name, and the
    source's [updatedAt] under [updatedAt] when [extraMetadata] has no key
    of that name; the items the knowledge-base task builds, which take no
    extra metadata, always carry the organization id of the payload, the
    id of the document and the timestamp given. *)
Theorem chunk_items_tagged :
  ∀ (chunkText : string → nat → nat → list string)
    (text sourceId : string) (sourceType : SourceType)
    (organizationId updatedAt idPrefix : string)
    (extraMetadata : gmap string string) (chunkSize overlap : nat)
    (item : ChunkItem),
    item ∈ createChunkItems chunkText text sourceId sourceType organizationId
             updatedAt idPrefix extraMetadata chunkSize overlap →
    (extraMetadata !! "organizationId" = None →
     ci_metadata item !! "organizationId" = Some organizationId) ∧
    (extraMetadata !! "sourceId" = None →
     ci_metadata item !! "sourceId" = Some sourceId) ∧
    (extraMetadata !! "updatedAt" = None →
     ci_metadata item !! "updatedAt" = Some updatedAt) ∧
    (∀ document chunks item',
       item' ∈ documentChunkItems organizationId document updatedAt chunks →
       ci_metadata item' !! "organizationId" = Some organizationId ∧
       ci_metadata item' !! "sourceId" = Some (doc_id document) ∧
       ci_metadata item' !! "updatedAt" = Some updatedAt).
Proof.
  intros chunkText text sourceId sourceType org updatedAt idPrefix extra
         chunkSize overlap item Hin.
  unfold createChunkItems in Hin.
  apply elem_of_filter_imap in Hin.
  destruct Hin as (i & chunk & _ & -> & _). simpl.
  split; [|split; [|split]].
  - intros Hnone. by rewrite chunkMetadata_lookup.
  - intros Hnone. by rewrite chunkMetadata_lookup.
  - intros Hnone. by rewrite chunkMetadata_lookup.
  - intros document chunks item' Hin'. unfold documentChunkItems in Hin'.
    apply elem_of_filter_imap in Hin'.
    destruct Hin' as (j & chunk' & _ & -> & _). simpl.
    by repeat split.
Qed.

(** C9 at a policy text with the name of the policy as extra metadata. *)
Lemma chunk_items_tagged_witness :
  let item :=
    {| ci_id := "policy_p-1_chunk0";
       ci_text := "Access is reviewed quarterly.";
       ci_metadata :=
         chunkMetadata "org-1" policy "p-1" "Access is reviewed quarterly."
                       "2024-01-01T00:00:00.000Z"
                       {[ "policyName" := "Access control" ]} |} in
  ci_metadata item !! "organizationId" = Some "org-1" ∧
  ci_metadata item !! "sourceId" = Some "p-1" ∧
  ci_metadata item !! "updatedAt" = Some "2024-01-01T00:00:00.000Z".
Proof.
  intros item.
  assert (Hin : item ∈ createChunkItems Demo.chunkText
                  "Access is reviewed quarterly." "p-1" policy "org-1"
                  "2024-01-01T00:00:00.000Z" "policy"
                  {[ "policyName" := "Access control" ]} 500 50).
  { vm_compute. left. }
  destruct (chunk_items_tagged _ _ _ _ _ _ _ _ _ _ _ Hin)
    as (Horg & Hsrc & Hupd & _).
  split; [|split]; [apply Horg | apply Hsrc | apply Hupd]; reflexivity.
Defined.

(** C9, as stated, fails when [extraMetadata] has a key [organizationId]:
    the spread comes last in the object literal, so the item is tagged
    with the value from [extraMetadata], not with the argument. *)
Lemma extraMetadata_overrides_organizationId :
  let items :=
    createChunkItems Demo.chunkText "Access is reviewed quarterly." "p-1"
      policy "org-1" "2024-01-01T00:00:00.000Z" "policy"
      {[ "organizationId" := "org-2" ]} 500 50 in
  map ci_id items = ["policy_p-1_chunk0"] ∧
  map (fun item => ci_metadata item !! "organizationId") items
    = [Some "org-2"] ∧
  ¬ (∀ item, item ∈ items →
       ci_metadata item !! "organizationId" = Some "org-1").
Proof.
  intros items.
  assert (Hids : map ci_id items = ["policy_p-1_chunk0"]) by reflexivity.
  assert (Horg : map (fun item => ci_metadata item !! "organizationId") items
                 = [Some "org-2"]) by (vm_compute; reflexivity).
  split; [done|split; [done|]].
  intros Hall. destruct items as [|item rest]; [discriminate|].
  specialize (Hall item ltac:(left)). simpl in Horg.
  rewrite Hall in Horg. discriminate.
Qed.

(** ** S3 keys *)

Lemma hasTraversal_false (key : string) :
  hasTraversal key = false ↔
  Js.includes key "../" = false ∧ Js.includes key "..\" = false.
Proof. unfold hasTraversal. apply orb_false_iff. Qed.

(** Dropping a leading slash neither adds nor removes a traversal. *)
Lemma hasTraversal_leading_slash (url : string) :
  Js.startsWith url "/" = true →
  hasTraversal (Js.substring1 url) = hasTraversal url.
Proof.
  destruct url as [|c rest]; [discriminate|].
  unfold Js.startsWith. rewrite isPrefix_cons.
  destruct (Ascii.eqb_spec "/"%char c) as [<-|Hne]; [|discriminate].
  intros _. unfold hasTraversal. by rewrite !includes_cons.
Qed.

Lemma keyOfParsedUrl_safe (R : Runtime) (parsedUrl : URL) (key : string) :
  keyOfParsedUrl R parsedUrl = inr key →
  decodeURIComponent R (Js.substring1 (pathname parsedUrl)) = inr key ∧
  key ≠ "" ∧ hasTraversal key = false.
Proof.
  unfold keyOfParsedUrl.
  destruct (negb _); [discriminate|].
  destruct (decodeURIComponent R _) as [e|key']; [discriminate|].
  destruct (hasTraversal key') eqn:Htr; [discriminate|].
  destruct (Js.falsy key') eqn:Hf; [discriminate|].
  intros [= <-]. by apply falsy_false in Hf.
Qed.

Section PlainKeys.

Variables (url key : string).

(** The last steps of both variants, on an input that is not a URL. *)
Lemma plain_key_safe :
  (if hasTraversal url
   then inl (Js.Error "Invalid S3 key: Path traversal detected")
   else
     let key := if Js.startsWith url "/" then Js.substring1 url else url in
     if Js.falsy key
     then inl (Js.Error "Invalid S3 key: Key cannot be empty")
     else inr key) = (inr key : Js.exn + string) →
  key = (if Js.startsWith url "/" then Js.substring1 url else url) ∧
  key ≠ "" ∧ hasTraversal key = false.
Proof.
  destruct (hasTraversal url) eqn:Htr; [discriminate|]. cbv zeta.
  destruct (Js.startsWith url "/") eqn:Hslash.
  - destruct (Js.falsy (Js.substring1 url)) eqn:Hf; [discriminate|].
    intros [= <-]. apply falsy_false in Hf.
    by rewrite hasTraversal_leading_slash.
  - destruct (Js.falsy url) eqn:Hf; [discriminate|].
    intros [= <-]. by apply falsy_false in Hf.
Qed.

End PlainKeys.

Lemma api_key_safe (R : Runtime) (url key : string) :
  ApiS3.extractS3KeyFromUrl R url = inr key →
  derivedKey R url = Some key ∧ key ≠ "" ∧ hasTraversal key = false.
Proof.
  unfold ApiS3.extractS3KeyFromUrl, derivedKey.
  destruct (Js.falsy url); [discriminate|].
  destruct (newURL R url) as [parsedUrl|].
  - intros Hk. apply keyOfParsedUrl_safe in Hk as (-> & ? & ?). done.
  - simpl. destruct (Js.includes _ "://"); [discriminate|].
    destruct (Regex.test _ url); [discriminate|].
    intros Hk. apply plain_key_safe in Hk as (-> & ? & ?). done.
Qed.

Lemma app_key_safe (R : Runtime) (url key : string) :
  AppS3.extractS3KeyFromUrl R url = inr key →
  derivedKey R url = Some key ∧ key ≠ "" ∧ hasTraversal key = false.
Proof.
  unfold AppS3.extractS3KeyFromUrl, derivedKey.
  destruct (Js.falsy url); [discriminate|].
  destruct (newURL R url) as [parsedUrl|].
  - intros Hk. apply keyOfParsedUrl_safe in Hk as (-> & ? & ?). done.
  - simpl. destruct (_ || _); [discriminate|].
    intros Hk. apply plain_key_safe in Hk as (-> & ? & ?). done.
Qed.

(** C10: in both variants, a key [extractS3KeyFromUrl] returns is not
    empty and contains neither [../] nor [..\]; on the empty string, and
    on every input whose derived key contains [../] or [..\], the function
    throws. *)
Theorem extractS3KeyFromUrl_no_traversal :
  ∀ (R : Runtime) (url : string),
    (∀ key, ApiS3.extractS3KeyFromUrl R url = inr key →
       key ≠ "" ∧ Js.includes key "../" = false ∧
       Js.includes key "..\" = false) ∧
    (∀ key, AppS3.extractS3KeyFromUrl R url = inr key →
       key ≠ "" ∧ Js.includes key "../" = false ∧
       Js.includes key "..\" = false) ∧
    (∃ e, ApiS3.extractS3KeyFromUrl R "" = inl e) ∧
    (∃ e, AppS3.extractS3KeyFromUrl R "" = inl e) ∧
    (∀ key, derivedKey R url = Some key →
       Js.includes key "../" = true ∨ Js.includes key "..\" = true →
       (∃ e, ApiS3.extractS3KeyFromUrl R url = inl e) ∧
       (∃ e, AppS3.extractS3KeyFromUrl R url = inl e)).
Proof.
  intros R url. split; [|split; [|split; [|split]]].
  - intros key Hk. apply api_key_safe in Hk as (_ & ? & Htr).
    by apply hasTraversal_false in Htr as [? ?].
  - intros key Hk. apply app_key_safe in Hk as (_ & ? & Htr).
    by apply hasTraversal_false in Htr as [? ?].
  - by eexists.
  - by eexists.
  - intros key Hd Hbad.
    assert (Htr : hasTraversal key = true).
    { unfold hasTraversal. apply orb_true_iff. exact Hbad. }
    split.
    + destruct (ApiS3.extractS3KeyFromUrl R url) as [e|key'] eqn:Hr;
        [by eexists|].
      apply api_key_safe in Hr as (Hd' & _ & Hsafe). congruence.
    + destruct (AppS3.extractS3KeyFromUrl R url) as [e|key'] eqn:Hr;
        [by eexists|].
      apply app_key_safe in Hr as (Hd' & _ & Hsafe). congruence.
Qed.

(** C10 at a plain key with a leading slash, at a URL of a bucket, and at
    a plain key that climbs out of its folder. *)
Lemma extractS3KeyFromUrl_no_traversal_witness :
  ApiS3.extractS3KeyFromUrl Demo.runtime "/org_1/handbook.pdf"
    = inr "org_1/handbook.pdf" ∧
  AppS3.extractS3KeyFromUrl Demo.runtime
    "https://kb.s3.us-east-1.amazonaws.com/org_1/handbook.pdf"
    = inr "org_1/handbook.pdf" ∧
  Js.includes "org_1/handbook.pdf" "../" = false ∧
  (∃ e, ApiS3.extractS3KeyFromUrl Demo.runtime "/org_1/../org_2/x.pdf"
        = inl e).
Proof.
  split; [reflexivity|split; [reflexivity|split]].
  - destruct (extractS3KeyFromUrl_no_traversal Demo.runtime
                "/org_1/handbook.pdf") as (Hapi & _).
    apply (Hapi "org_1/handbook.pdf" eq_refl).
  - destruct (extractS3KeyFromUrl_no_traversal Demo.runtime
                "/org_1/../org_2/x.pdf") as (_ & _ & _ & _ & Hthrows).
    apply (Hthrows "org_1/../org_2/x.pdf" eq_refl). by left.
Defined.

(** ** Running the monad *)

Lemma bind_inr {A B} (m : M A) (k : A → M B) (w w' : World) (a : A) :
  m w = (w', inr a) → (m ≫= k) w = k a w'.
Proof. intros H. unfold mbind, M_bind, bind. by rewrite H. Qed.

Lemma bind_inl {A B} (m : M A) (k : A → M B) (w w' : World) (e : Js.exn) :
  m w = (w', inl e) → (m ≫= k) w = (w', inl e).
Proof. intros H. unfold mbind, M_bind, bind. by rewrite H. Qed.

Lemma tryCatch_inr {A} (m : M A) (h : Js.exn → M A) (w w' : World) (a : A) :
  m w = (w', inr a) → tryCatch m h w = (w', inr a).
Proof. intros H. unfold tryCatch. by rewrite H. Qed.

Lemma tryCatch_inl {A} (m : M A) (h : Js.exn → M A) (w w' : World)
    (e : Js.exn) :
  m w = (w', inl e) → tryCatch m h w = h e w'.
Proof. intros H. unfold tryCatch. by rewrite H. Qed.

Lemma emit_eq (e : Event) (w : World) : emit e w = (addEvents w [e], inr tt).
Proof. reflexivity. Qed.

Lemma logger_eq (level : LogLevel) (message : string) (w : World) :
  logger level message w = (addEvents w [Log level message], inr tt).
Proof. reflexivity. Qed.

Lemma newDate_eq (w : World) : newDate w = (w, inr (clock w)).
Proof. reflexivity. Qed.

Lemma findUnique_eq (E : Env) (id org : string) (w : World) :
  findUniqueFailure E (dbCalls (trace w)) id org = None →
  findUnique E id org w =
  (addEvents w [DbFindUnique id org],
   inr (match db w !! id with
        | Some d => if decide (doc_organizationId d = org) then Some d
                    else None
        | None => None
        end)).
Proof.
  intros H. unfold findUnique, emit. unfold mbind, M_bind, bind, get, put. cbn.
  by rewrite H.
Qed.

Lemma findUnique_throws (E : Env) (id org : string) (w : World)
    (e : Js.exn) :
  findUniqueFailure E (dbCalls (trace w)) id org = Some e →
  findUnique E id org w = (addEvents w [DbFindUnique id org], inl e).
Proof.
  intros H. unfold findUnique, emit. unfold mbind, M_bind, bind, get, put. cbn.
  by rewrite H.
Qed.

Lemma findEmbeddings_eq (E : Env) (id : string) (st : SourceType)
    (org : string) (w : World) :
  findEmbeddings E id st org w =
  (addEvents w [IndexQuery id st org],
   findEmbeddingsForSource E (index w) id st org).
Proof. reflexivity. Qed.

Lemma update_written (E : Env) (id : string) (st : ProcessingStatus)
    (pa : option Date) (w : World) (d : KnowledgeBaseDocument) :
  updateFailure E (dbCalls (trace w)) id st pa = None →
  db w !! id = Some d →
  update E id st pa w =
  (withDb (addEvents w [DbUpdate id st pa])
          (<[id := setStatus st pa d]> (db w)),
   inr tt).
Proof.
  intros Hok H. unfold update, emit. unfold mbind, M_bind, bind, get, put. cbn.
  rewrite Hok. cbn. by rewrite H.
Qed.

Lemma update_refused (E : Env) (id : string) (st : ProcessingStatus)
    (pa : option Date) (w : World) (e : Js.exn) :
  updateFailure E (dbCalls (trace w)) id st pa = Some e →
  update E id st pa w = (addEvents w [DbUpdate id st pa], inl e).
Proof.
  intros Hfail. unfold update, emit. unfold mbind, M_bind, bind, get, put. cbn.
  by rewrite Hfail.
Qed.

Lemma update_absent (E : Env) (id : string) (st : ProcessingStatus)
    (pa : option Date) (w : World) :
  updateFailure E (dbCalls (trace w)) id st pa = None →
  db w !! id = None →
  update E id st pa w =
  (addEvents w [DbUpdate id st pa],
   inl (Js.Error "Record to update not found.")).
Proof.
  intros Hok H. unfold update, emit. unfold mbind, M_bind, bind, get, put. cbn.
  rewrite Hok. cbn. by rewrite H.
Qed.

Lemma update_found (E : Env) (id : string) (st : ProcessingStatus)
    (pa : option Date) (w : World) (d : KnowledgeBaseDocument) :
  writeAccepted E id st →
  db w !! id = Some d →
  update E id st pa w =
  (withDb (addEvents w [DbUpdate id st pa])
          (<[id := setStatus st pa d]> (db w)),
   inr tt).
Proof. intros Hok. by apply update_written. Qed.

Lemma update_missing (E : Env) (id : string) (st : ProcessingStatus)
    (pa : option Date) (w : World) :
  db w !! id = None →
  ∃ e, update E id st pa w = (addEvents w [DbUpdate id st pa], inl e).
Proof.
  intros H. unfold update, emit. unfold mbind, M_bind, bind, get, put. cbn.
  destruct (updateFailure E _ id st pa); [by eexists|].
  cbn. rewrite H. by eexists.
Qed.

(** The database of the concrete environment answers every call. *)
Lemma demo_dbAvailable (content : string) (deleteFails upsertFails : option Js.exn)
    (p : Payload) :
  dbAvailable (Demo.env content deleteFails upsertFails) p.
Proof. by split. Qed.

(** A write to a row that is there is made or refused; refused, it
    leaves the world as it was but for the record of the call. *)
Lemma update_cases (E : Env) (id : string) (st : ProcessingStatus)
    (pa : option Date) (w : World) (d : KnowledgeBaseDocument) :
  db w !! id = Some d →
  update E id st pa w =
    (withDb (addEvents w [DbUpdate id st pa])
            (<[id := setStatus st pa d]> (db w)),
     inr tt) ∨
  ∃ e, update E id st pa w = (addEvents w [DbUpdate id st pa], inl e).
Proof.
  intros H.
  destruct (updateFailure E (dbCalls (trace w)) id st pa) as [e|] eqn:Hf.
  - right. exists e. by apply update_refused.
  - left. by apply update_written.
Qed.

Lemma vectorIndex_delete_ok (E : Env) (ids : list string) (w : World) :
  deleteFailure E ids = None →
  vectorIndex_delete E ids w =
  (withIndex (addEvents w [IndexDelete ids]) (foldr delete (index w) ids),
   inr tt).
Proof.
  intros H. unfold vectorIndex_delete.
  rewrite (bind_inr _ _ _ _ _ (emit_eq _ _)). by rewrite H.
Qed.

Lemma vectorIndex_delete_throws (E : Env) (ids : list string) (w : World)
    (e : Js.exn) :
  deleteFailure E ids = Some e →
  vectorIndex_delete E ids w = (addEvents w [IndexDelete ids], inl e).
Proof.
  intros H. unfold vectorIndex_delete.
  rewrite (bind_inr _ _ _ _ _ (emit_eq _ _)). by rewrite H.
Qed.

Lemma batchUpsert_ok (E : Env) (items : list ChunkItem) (w : World) :
  upsertFailure E items = None →
  batchUpsertEmbeddings E items w =
  (withIndex (addEvents w [IndexUpsert items])
     (if vectorIndex E
      then foldl (fun idx item => <[ci_id item := item]> idx) (index w) items
      else index w),
   inr tt).
Proof.
  intros H. unfold batchUpsertEmbeddings, upsertInto.
  rewrite (bind_inr _ _ _ _ _ (emit_eq _ _)).
  unfold mbind, M_bind, bind, get. by rewrite H.
Qed.

Lemma batchUpsert_throws (E : Env) (items : list ChunkItem) (w : World)
    (e : Js.exn) :
  upsertFailure E items = Some e →
  batchUpsertEmbeddings E items w =
  (withIndex (addEvents w [IndexUpsert items])
     (upsertInto E (index w)
        (List.filter (upsertedBeforeFailure E items) items)),
   inl e).
Proof.
  intros H. unfold batchUpsertEmbeddings.
  rewrite (bind_inr _ _ _ _ _ (emit_eq _ _)).
  unfold mbind, M_bind, bind, get. by rewrite H.
Qed.

(** Worlds in normal form: events, then table, then index. *)
Lemma addEvents_addEvents (w : World) (a b : list Event) :
  addEvents (addEvents w a) b = addEvents w (a ++ b).
Proof. unfold addEvents. simpl. by rewrite <- app_assoc. Qed.

Lemma addEvents_withDb (w : World) (d : gmap string KnowledgeBaseDocument)
    (a : list Event) :
  addEvents (withDb w d) a = withDb (addEvents w a) d.
Proof. reflexivity. Qed.

Lemma addEvents_withIndex (w : World) (i : gmap string ChunkItem)
    (a : list Event) :
  addEvents (withIndex w i) a = withIndex (addEvents w a) i.
Proof. reflexivity. Qed.

Lemma withDb_withIndex (w : World) (i : gmap string ChunkItem)
    (d : gmap string KnowledgeBaseDocument) :
  withDb (withIndex w i) d = withIndex (withDb w d) i.
Proof. reflexivity. Qed.

Lemma withDb_withDb (w : World) (d d' : gmap string KnowledgeBaseDocument) :
  withDb (withDb w d) d' = withDb w d'.
Proof. reflexivity. Qed.

Lemma withIndex_withIndex (w : World) (i i' : gmap string ChunkItem) :
  withIndex (withIndex w i) i' = withIndex w i'.
Proof. reflexivity. Qed.

Create Rewrite HintDb world.
#[local] Hint Rewrite addEvents_addEvents addEvents_withDb addEvents_withIndex
  withDb_withIndex withDb_withDb withIndex_withIndex : world.

Lemma eventsSince_app (w w' : World) (evs : list Event) :
  trace w' = (trace w ++ evs)%list → eventsSince w w' = evs.
Proof. intros H. unfold eventsSince. rewrite H. apply drop_app_length. Qed.

Lemma eventsSince_addEvents (w : World) (evs : list Event) :
  eventsSince w (addEvents w evs) = evs.
Proof. by apply eventsSince_app. Qed.

Lemma eventsSince_withDb (w w' : World)
    (d : gmap string KnowledgeBaseDocument) :
  eventsSince w (withDb w' d) = eventsSince w w'.
Proof. reflexivity. Qed.

Lemma eventsSince_withIndex (w w' : World) (i : gmap string ChunkItem) :
  eventsSince w (withIndex w' i) = eventsSince w w'.
Proof. reflexivity. Qed.

#[local] Hint Rewrite eventsSince_withDb eventsSince_withIndex
  eventsSince_addEvents : world.

Lemma setStatus_setStatus (st st' : ProcessingStatus) (t : Date)
    (pa : option Date) (d : KnowledgeBaseDocument) :
  setStatus st (Some t) (setStatus st' pa d) = setStatus st (Some t) d.
Proof. reflexivity. Qed.

Lemma blank_nonBlank (content : string) :
  Js.falsy content || (String.length (Js.trim content) =? 0)%nat
  = negb (nonBlank content).
Proof.
  unfold nonBlank. destruct (Js.falsy content); simpl; [done|].
  by destruct (String.length (Js.trim content)).
Qed.

(** ** The steps of the task *)

Lemma extract_yields (E : Env) (d : KnowledgeBaseDocument)
    (bucket content : string) (w : World) :
  extractionYields E d bucket content →
  extractContentFromKnowledgeBaseDocument E (doc_s3Key d) (doc_fileType d) w =
  (addEvents w [StorageGet bucket (doc_s3Key d)], inr content).
Proof.
  intros (Hb & Hne & Hk & Hs & response & buffer & Hsend & Hbody & Hext).
  unfold extractContentFromKnowledgeBaseDocument, createS3Client.
  rewrite Hb, Hk, Hs. cbn -[orElse]. apply falsy_false in Hne. rewrite Hne.
  unfold mbind, M_bind, bind, emit, liftOutcome, get, put, mret, M_ret, ret.
  cbn -[orElse]. rewrite Hsend, Hbody. cbn -[orElse]. by rewrite Hext.
Qed.

Lemma extract_fetch_fails (E : Env) (d : KnowledgeBaseDocument)
    (bucket : string) (e : Js.exn) (w : World) :
  fetchFails E d bucket e →
  extractContentFromKnowledgeBaseDocument E (doc_s3Key d) (doc_fileType d) w =
  (addEvents w [StorageGet bucket (doc_s3Key d)], inl e).
Proof.
  intros (Hb & Hne & Hk & Hs & Hsend).
  unfold extractContentFromKnowledgeBaseDocument, createS3Client.
  rewrite Hb, Hk, Hs. cbn -[orElse]. apply falsy_false in Hne. rewrite Hne.
  unfold mbind, M_bind, bind, emit, liftOutcome, get, put, mret, M_ret, ret.
  cbn -[orElse]. by rewrite Hsend.
Qed.

(** Whatever the environment, extraction touches neither the table nor
    the index, and reads the object store at most once. *)
Lemma extract_frame (E : Env) (s3Key fileType : string) (w : World) :
  ∃ evs r,
    extractContentFromKnowledgeBaseDocument E s3Key fileType w
      = (addEvents w evs, r) ∧
    mutations evs = [] ∧ List.filter isIndexCall evs = [].
Proof.
  unfold extractContentFromKnowledgeBaseDocument, createS3Client.
  destruct (Js.falsy_opt (APP_AWS_KNOWLEDGE_BASE_BUCKET E)).
  { exists [], (inl (Js.Error "Knowledge base bucket is not configured. Please set APP_AWS_KNOWLEDGE_BASE_BUCKET environment variable in Trigger.dev.")).
    split; [|done]. unfold throw, addEvents. destruct w. simpl.
    by rewrite app_nil_r. }
  destruct (_ || _).
  { eexists [], _. split; [|done].
    unfold mbind, M_bind, bind, throw, addEvents. destruct w. simpl.
    by rewrite app_nil_r. }
  unfold mbind, M_bind, bind, emit, liftOutcome, get, put, mret, M_ret, ret,
    throw.
  cbn -[orElse].
  destruct (s3_send E _ s3Key) as [e|response];
    [by eexists [_], _|].
  destruct (Body response) as [buffer|]; by eexists [_], _.
Qed.

Section DeleteExisting.

Variables (E : Env) (existing : list ExistingEmbedding) (w : World).

Let ids : list string := map ee_id existing.

Lemma deleteExisting_nothing :
  existing = [] ∨ vectorIndex E = false →
  deleteExisting E existing w = (w, inr tt).
Proof.
  unfold deleteExisting. intros [->|Hv]; [done|].
  rewrite Hv. by destruct (0 <? length existing)%nat.
Qed.

Lemma deleteExisting_deleted :
  existing ≠ [] → vectorIndex E = true → deleteFailure E ids = None →
  deleteExisting E existing w =
  (withIndex
     (addEvents w [IndexDelete ids; Log info "Deleted existing embeddings"])
     (foldr delete (index w) ids),
   inr tt).
Proof.
  intros Hne Hv Hok. unfold deleteExisting. rewrite Hv.
  destruct existing as [|e0 rest]; [done|]. cbn [length Nat.ltb Nat.leb].
  erewrite tryCatch_inr; [reflexivity|].
  erewrite bind_inr; [|by apply vectorIndex_delete_ok].
  rewrite logger_eq. by autorewrite with world.
Qed.

Lemma deleteExisting_swallowed (e : Js.exn) :
  existing ≠ [] → vectorIndex E = true → deleteFailure E ids = Some e →
  deleteExisting E existing w =
  (addEvents w [IndexDelete ids;
                Log warn "Failed to delete existing embeddings"],
   inr tt).
Proof.
  intros Hne Hv Hfail. unfold deleteExisting. rewrite Hv.
  destruct existing as [|e0 rest]; [done|]. cbn [length Nat.ltb Nat.leb].
  erewrite tryCatch_inl;
    [|erewrite bind_inl; [reflexivity|by apply vectorIndex_delete_throws]].
  rewrite logger_eq. by autorewrite with world.
Qed.

(** The block never throws, leaves the table and the clock alone, and
    writes to the index with exactly the calls [deleteCalls] lists. *)
Lemma deleteExisting_frame :
  ∃ w1 evs,
    deleteExisting E existing w = (w1, inr tt) ∧
    trace w1 = (trace w ++ evs)%list ∧
    mutations evs = deleteCalls E existing ∧
    db w1 = db w ∧ clock w1 = clock w.
Proof.
  unfold deleteCalls.
  assert (Hcases : existing = [] ∨ existing ≠ [])
    by (destruct existing; [by left | by right]).
  destruct Hcases as [Hnil|Hne].
  { exists w, []. rewrite deleteExisting_nothing by (by left).
    rewrite Hnil. by rewrite app_nil_r. }
  replace (0 <? length existing)%nat with true by (by destruct existing).
  destruct (vectorIndex E) eqn:Hv.
  - destruct (deleteFailure E ids) as [e|] eqn:Hf.
    + eexists _, _. rewrite (deleteExisting_swallowed e) by done.
      by repeat split.
    + eexists _, _. rewrite deleteExisting_deleted by done.
      by repeat split.
  - exists w, []. rewrite deleteExisting_nothing by (by right).
    by rewrite app_nil_r.
Qed.

End DeleteExisting.

Lemma update_frame (E : Env) (id : string) (st : ProcessingStatus)
    (pa : option Date) (w : World) :
  ∃ w' r, update E id st pa w = (w', r) ∧
          trace w' = (trace w ++ [DbUpdate id st pa])%list ∧
          index w' = index w ∧ clock w' = clock w.
Proof.
  destruct (db w !! id) as [d|] eqn:Hd.
  - destruct (update_cases E id st pa w d Hd) as [H|[e H]];
      rewrite H; by eexists _, _.
  - destruct (update_missing E id st pa w Hd) as [e H].
    rewrite H. by eexists _, _.
Qed.

Lemma itemsOf_no_chunks (E : Env) (p : Payload) (d : KnowledgeBaseDocument)
    (content : string) :
  chunkText E content 500 50 = [] → itemsOf E p d content = [].
Proof. unfold itemsOf, documentChunkItems. by intros ->. Qed.

Section EmbedChunks.

Variables (E : Env) (p : Payload) (d d0 : KnowledgeBaseDocument)
          (content : string) (w : World).

Let items : list ChunkItem := itemsOf E p d content.

Hypothesis row : db w !! doc_id d = Some d0.

Lemma embed_upserted :
  writeAccepted E (doc_id d) completed →
  items ≠ [] → upsertFailure E items = None →
  embedChunks E p d content w =
  (withIndex
     (withDb
        (addEvents w
           [Log info "Created chunks for embedding";
            IndexUpsert items;
            Log info "Successfully created embeddings";
            DbUpdate (doc_id d) completed (Some (clock w));
            Log info "Successfully processed Knowledge Base document"])
        (<[doc_id d := setStatus completed (Some (clock w)) d0]> (db w)))
     (if vectorIndex E
      then foldl (fun idx item => <[ci_id item := item]> idx) (index w) items
      else index w),
   inr (Succeeded (doc_id d) (length items))).
Proof.
  intros Hacc Hi Hok. unfold embedChunks.
  replace (length (chunkText E content 500 50) =? 0)%nat with false.
  2: { destruct (chunkText E content 500 50) eqn:Hc; [|done].
       by apply (itemsOf_no_chunks E p d) in Hc. }
  rewrite (bind_inr _ _ _ _ _ (logger_eq _ _ _)).
  fold (itemsOf E p d content). fold items.
  replace (0 <? length items)%nat with true by (by destruct items).
  erewrite bind_inr;
    [|erewrite bind_inr; [apply logger_eq|by apply batchUpsert_ok]].
  rewrite (bind_inr _ _ _ _ _ (newDate_eq _)).
  erewrite bind_inr; [|by apply update_found].
  rewrite (bind_inr _ _ _ _ _ (logger_eq _ _ _)).
  unfold mret, M_ret, ret. by autorewrite with world.
Qed.

End EmbedChunks.

Lemma embed_upsert_throws (E : Env) (p : Payload) (d : KnowledgeBaseDocument)
    (content : string) (w : World) (e : Js.exn) :
  itemsOf E p d content ≠ [] →
  upsertFailure E (itemsOf E p d content) = Some e →
  embedChunks E p d content w =
  (withIndex
     (addEvents w [Log info "Created chunks for embedding";
                   IndexUpsert (itemsOf E p d content)])
     (upsertInto E (index w)
        (List.filter (upsertedBeforeFailure E (itemsOf E p d content))
                     (itemsOf E p d content))),
   inl e).
Proof.
  intros Hi Hfail. unfold embedChunks.
  replace (length (chunkText E content 500 50) =? 0)%nat with false.
  2: { destruct (chunkText E content 500 50) eqn:Hc; [|done].
       by apply (itemsOf_no_chunks E p d) in Hc. }
  rewrite (bind_inr _ _ _ _ _ (logger_eq _ _ _)).
  fold (itemsOf E p d content).
  replace (0 <? length (itemsOf E p d content))%nat with true
    by (by destruct (itemsOf E p d content)).
  erewrite bind_inl;
    [|erewrite bind_inl; [reflexivity|by apply batchUpsert_throws]].
  by autorewrite with world.
Qed.

Lemma runCatch_written (E : Env) (p : Payload) (e : Js.exn) (w : World)
    (d0 : KnowledgeBaseDocument) :
  updateFailure E (dbCalls (trace w ++
                     [Log error "Error processing Knowledge Base document"]))
    (documentId p) failed (Some (clock w)) = None →
  db w !! documentId p = Some d0 →
  runCatch E p e w =
  (withDb
     (addEvents w [Log error "Error processing Knowledge Base document";
                   DbUpdate (documentId p) failed (Some (clock w))])
     (<[documentId p := setStatus failed (Some (clock w)) d0]> (db w)),
   inr (Failed (documentId p) (Js.errorMessage e))).
Proof.
  intros Hok Hrow. unfold runCatch.
  rewrite (bind_inr _ _ _ _ _ (logger_eq _ _ _)).
  erewrite bind_inr;
    [|erewrite tryCatch_inr; [reflexivity|];
      rewrite (bind_inr _ _ _ _ _ (newDate_eq _)); by apply update_written].
  unfold mret, M_ret, ret. by autorewrite with world.
Qed.

Lemma runCatch_refused (E : Env) (p : Payload) (e e' : Js.exn) (w : World) :
  update E (documentId p) failed (Some (clock w))
    (addEvents w [Log error "Error processing Knowledge Base document"])
  = (addEvents
       (addEvents w [Log error "Error processing Knowledge Base document"])
       [DbUpdate (documentId p) failed (Some (clock w))],
     inl e') →
  runCatch E p e w =
  (addEvents w [Log error "Error processing Knowledge Base document";
                DbUpdate (documentId p) failed (Some (clock w));
                Log error "Failed to update document status to failed"],
   inr (Failed (documentId p) (Js.errorMessage e))).
Proof.
  intros Hrefused. unfold runCatch.
  rewrite (bind_inr _ _ _ _ _ (logger_eq _ _ _)).
  erewrite bind_inr;
    [|erewrite tryCatch_inl; [apply logger_eq|];
      rewrite (bind_inr _ _ _ _ _ (newDate_eq _)); exact Hrefused].
  unfold mret, M_ret, ret. by autorewrite with world.
Qed.

Lemma runCatch_found (E : Env) (p : Payload) (e : Js.exn) (w : World)
    (d0 : KnowledgeBaseDocument) :
  writeAccepted E (documentId p) failed →
  db w !! documentId p = Some d0 →
  runCatch E p e w =
  (withDb
     (addEvents w [Log error "Error processing Knowledge Base document";
                   DbUpdate (documentId p) failed (Some (clock w))])
     (<[documentId p := setStatus failed (Some (clock w)) d0]> (db w)),
   inr (Failed (documentId p) (Js.errorMessage e))).
Proof.
  intros Hok Hrow. by apply runCatch_written.
Qed.

(** The [catch] block on a row that is there: the write of 'failed' is
    made, or it is refused, which is logged and nothing more. *)
Lemma runCatch_cases (E : Env) (p : Payload) (e : Js.exn) (w : World)
    (d0 : KnowledgeBaseDocument) :
  db w !! documentId p = Some d0 →
  runCatch E p e w =
    (withDb
       (addEvents w [Log error "Error processing Knowledge Base document";
                     DbUpdate (documentId p) failed (Some (clock w))])
       (<[documentId p := setStatus failed (Some (clock w)) d0]> (db w)),
     inr (Failed (documentId p) (Js.errorMessage e))) ∨
  runCatch E p e w =
    (addEvents w [Log error "Error processing Knowledge Base document";
                  DbUpdate (documentId p) failed (Some (clock w));
                  Log error "Failed to update document status to failed"],
     inr (Failed (documentId p) (Js.errorMessage e))).
Proof.
  intros Hrow.
  destruct (update_cases E (documentId p) failed (Some (clock w))
              (addEvents w
                 [Log error "Error processing Knowledge Base document"])
              d0 Hrow) as [Hw|[e' Hr]].
  - left. unfold runCatch.
    rewrite (bind_inr _ _ _ _ _ (logger_eq _ _ _)).
    erewrite bind_inr;
      [|erewrite tryCatch_inr; [reflexivity|];
        rewrite (bind_inr _ _ _ _ _ (newDate_eq _)); exact Hw].
    unfold mret, M_ret, ret. by autorewrite with world.
  - right. by apply (runCatch_refused E p e e').
Qed.

Lemma runCatch_missing (E : Env) (p : Payload) (e : Js.exn) (w : World) :
  db w !! documentId p = None →
  runCatch E p e w =
  (addEvents w [Log error "Error processing Knowledge Base document";
                DbUpdate (documentId p) failed (Some (clock w));
                Log error "Failed to update document status to failed"],
   inr (Failed (documentId p) (Js.errorMessage e))).
Proof.
  intros Hrow.
  destruct (update_missing E (documentId p) failed (Some (clock w))
              (addEvents w
                 [Log error "Error processing Knowledge Base document"])
              Hrow) as [e' Hr].
  by apply (runCatch_refused E p e e').
Qed.

(** The [catch] block never throws and does not call the index. *)
Lemma runCatch_frame (E : Env) (p : Payload) (e : Js.exn) (w : World) :
  ∃ w' evs,
    runCatch E p e w
      = (w', inr (Failed (documentId p) (Js.errorMessage e))) ∧
    trace w' = (trace w ++ evs)%list ∧ mutations evs = [] ∧
    index w' = index w.
Proof.
  destruct (db w !! documentId p) as [d0|] eqn:Hrow.
  - destruct (runCatch_cases E p e w d0 Hrow) as [H|H];
      rewrite H; by eexists _, _.
  - eexists _, _. by rewrite runCatch_missing.
Qed.

Ltac logged :=
  unfold updateFailureLogged; cbn [app]; repeat constructor.

Lemma updateFailureLogged_app (before evs : list Event) :
  updateFailureLogged evs → updateFailureLogged (before ++ evs).
Proof. unfold updateFailureLogged. rewrite elem_of_app. by right. Qed.

(** What the [catch] block leaves of a row that is there: the row as
    'failed', or, when its write is refused, the row as it was and a line
    in the log. *)
Lemma runCatch_status (E : Env) (p : Payload) (e : Js.exn) (w : World)
    (d0 : KnowledgeBaseDocument) :
  db w !! documentId p = Some d0 →
  ∃ w' evs,
    runCatch E p e w
      = (w', inr (Failed (documentId p) (Js.errorMessage e))) ∧
    trace w' = (trace w ++ evs)%list ∧
    (db w' = <[documentId p := setStatus failed (Some (clock w)) d0]> (db w)
     ∨ (db w' = db w ∧ updateFailureLogged evs)) ∧
    (writeAccepted E (documentId p) failed →
     db w' = <[documentId p := setStatus failed (Some (clock w)) d0]> (db w)).
Proof.
  intros Hrow.
  destruct (runCatch_cases E p e w d0 Hrow) as [H|H].
  - rewrite H. eexists _, _. split; [reflexivity|]. split; [reflexivity|].
    split; [by left|done].
  - eexists _, _. split; [exact H|]. split; [reflexivity|].
    split; [right; split; [done|logged]|].
    intros Hacc. rewrite (runCatch_found E p e w d0 Hacc Hrow) in H.
    apply (f_equal (fun x => length (trace (fst x)))) in H.
    cbn in H. rewrite !length_app in H. cbn in H. lia.
Qed.

Lemma runCatch_clock (E : Env) (p : Payload) (e : Js.exn) (w : World) :
  clock (fst (runCatch E p e w)) = clock w ∧
  index (fst (runCatch E p e w)) = index w.
Proof.
  destruct (db w !! documentId p) as [d0|] eqn:Hrow.
  - by destruct (runCatch_cases E p e w d0 Hrow) as [-> | ->].
  - by rewrite runCatch_missing.
Qed.

(** The first steps of [run] when the document is found. *)
Lemma run_found (E : Env) (p : Payload) (w : World)
    (d : KnowledgeBaseDocument) :
  lookupAnswers E p →
  owned w (documentId p) (organizationId p) d →
  run E p w =
  tryCatch (processDocument E p d) (runCatch E p)
    (addEvents w [Log info "Processing Knowledge Base document";
                  DbFindUnique (documentId p) (organizationId p)]).
Proof.
  intros Hlookup (Hrow & Hid & Horg). unfold run.
  rewrite (bind_inr _ _ _ _ _ (logger_eq _ _ _)).
  unfold tryCatch, runTry.
  rewrite (bind_inr _ _ _ _ _ (findUnique_eq _ _ _ _ (Hlookup _))).
  cbn [db addEvents]. rewrite Hrow, decide_True by done.
  by autorewrite with world.
Qed.

(** ** Documents that are not found *)

Lemma dbCalls_app (a b : list Event) :
  dbCalls (a ++ b) = (dbCalls a ++ dbCalls b)%list.
Proof. apply List.filter_app. Qed.

(** The lookup of a run is the first call it makes to the database. *)
Lemma run_lookup_answered (E : Env) (p : Payload) (w : World) :
  findUniqueFailure E (dbCalls (trace w)) (documentId p) (organizationId p)
    = None →
  run E p w =
  tryCatch
    (match (match db w !! documentId p with
            | Some d => if decide (doc_organizationId d = organizationId p)
                        then Some d else None
            | None => None
            end) with
     | None =>
         logger error "Document not found";;
         mret (Failed (documentId p) "Document not found")
     | Some document => processDocument E p document
     end)
    (runCatch E p)
    (addEvents w [Log info "Processing Knowledge Base document";
                  DbFindUnique (documentId p) (organizationId p)]).
Proof.
  intros Hok. unfold run.
  rewrite (bind_inr _ _ _ _ _ (logger_eq _ _ _)).
  unfold tryCatch, runTry.
  erewrite bind_inr.
  2: { apply findUnique_eq. cbn [trace addEvents].
       rewrite dbCalls_app. cbn. by rewrite app_nil_r. }
  cbn [db addEvents]. by autorewrite with world.
Qed.

Lemma run_lookup_throws (E : Env) (p : Payload) (w : World) (e : Js.exn) :
  findUniqueFailure E (dbCalls (trace w)) (documentId p) (organizationId p)
    = Some e →
  run E p w =
  runCatch E p e
    (addEvents w [Log info "Processing Knowledge Base document";
                  DbFindUnique (documentId p) (organizationId p)]).
Proof.
  intros Hfail. unfold run.
  rewrite (bind_inr _ _ _ _ _ (logger_eq _ _ _)).
  erewrite tryCatch_inl.
  2: { unfold runTry. erewrite bind_inl; [reflexivity|].
       apply findUnique_throws. cbn [trace addEvents].
       rewrite dbCalls_app. cbn. rewrite app_nil_r. exact Hfail. }
  by autorewrite with world.
Qed.

Lemma run_not_found (E : Env) (p : Payload) (w : World) :
  findUniqueFailure E (dbCalls (trace w)) (documentId p) (organizationId p)
    = None →
  (∀ d, db w !! documentId p = Some d →
        doc_organizationId d ≠ organizationId p) →
  run E p w =
  (addEvents w [Log info "Processing Knowledge Base document";
                DbFindUnique (documentId p) (organizationId p);
                Log error "Document not found"],
   inr (Failed (documentId p) "Document not found")).
Proof.
  intros Hok Hno. rewrite run_lookup_answered by done.
  erewrite tryCatch_inr; [reflexivity|].
  destruct (db w !! documentId p) as [d|] eqn:Hrow.
  - rewrite decide_False by (by apply Hno).
    rewrite (bind_inr _ _ _ _ _ (logger_eq _ _ _)).
    unfold mret, M_ret, ret. by autorewrite with world.
  - rewrite (bind_inr _ _ _ _ _ (logger_eq _ _ _)).
    unfold mret, M_ret, ret. by autorewrite with world.
Qed.

(** What the run does when its lookup throws: the [catch] block writes
    to the row that has the id of the payload. *)
Lemma run_lookup_failure (E : Env) (p : Payload) (w : World) (e : Js.exn) :
  findUniqueFailure E (dbCalls (trace w)) (documentId p) (organizationId p)
    = Some e →
  ∃ w' evs,
    run E p w = (w', inr (Failed (documentId p) (Js.errorMessage e))) ∧
    trace w' = (trace w ++ evs)%list ∧
    List.filter isStorageRead evs = [] ∧
    List.filter isIndexCall evs = [] ∧
    index w' = index w ∧ clock w' = clock w ∧
    match db w !! documentId p with
    | Some d =>
        db w' = <[documentId p := setStatus failed (Some (clock w)) d]> (db w)
        ∨ (db w' = db w ∧ updateFailureLogged evs)
    | None => db w' = db w ∧ updateFailureLogged evs
    end ∧
    (writeAccepted E (documentId p) failed →
     ∀ d, db w !! documentId p = Some d →
          db w' = <[documentId p := setStatus failed (Some (clock w)) d]>
                    (db w)).
Proof.
  intros Hfail. rewrite (run_lookup_throws E p w e Hfail).
  set (w1 := addEvents w _).
  destruct (db w !! documentId p) as [d|] eqn:Hrow.
  - destruct (runCatch_cases E p e w1 d Hrow) as [H|H]; rewrite H.
    + eexists _, _. subst w1. autorewrite with world.
      split; [reflexivity|]. split; [reflexivity|].
      repeat split; try done; [by left|]. by intros _ d' [= <-].
    + assert (Hrefused : ¬ writeAccepted E (documentId p) failed).
      { intros Hacc. rewrite (runCatch_found E p e w1 d Hacc Hrow) in H.
        apply (f_equal (fun x => length (trace (fst x)))) in H.
        cbn in H. rewrite !length_app in H. cbn in H. lia. }
      eexists _, _. subst w1. autorewrite with world.
      split; [reflexivity|]. split; [reflexivity|].
      split; [done|]. split; [done|]. split; [done|]. split; [done|].
      split; [right; split; [done|logged]|].
      intros Hacc. by destruct Hrefused.
  - rewrite (runCatch_missing E p e w1 Hrow).
    eexists _, _. subst w1. autorewrite with world.
    split; [reflexivity|]. split; [reflexivity|].
    repeat split; try done. logged.
Qed.

(** C4, as amended: when no row with the requested id belongs to the
    requesting organization, whether no row has that id or the row with
    that id belongs to another organization, the run reads nothing from
    the object store, calls the index not at all and returns a failure.
    When the lookup answers, the failure is 'Document not found', after
    one lookup in the table and two log lines, the table is as it was, and
    the result and the events are the same in both cases.  When the lookup
    throws, the failure carries the message of the error, and the [catch]
    block writes 'failed' to the row that has the requested id, whatever
    its organization, unless that write is refused, which is logged. *)
Theorem run_document_not_found :
  ∀ (E : Env) (p : Payload) (w : World),
    (∀ d, db w !! documentId p = Some d →
          doc_organizationId d ≠ organizationId p) →
    (∃ message, snd (run E p w) = inr (Failed (documentId p) message)) ∧
    List.filter isStorageRead (eventsSince w (fst (run E p w))) = [] ∧
    List.filter isIndexCall (eventsSince w (fst (run E p w))) = [] ∧
    index (fst (run E p w)) = index w ∧
    (lookupAnswers E p →
     run E p w =
       (addEvents w [Log info "Processing Knowledge Base document";
                     DbFindUnique (documentId p) (organizationId p);
                     Log error "Document not found"],
        inr (Failed (documentId p) "Document not found")) ∧
     db (fst (run E p w)) = db w ∧
     (∀ w', (∀ d, db w' !! documentId p = Some d →
                  doc_organizationId d ≠ organizationId p) →
            snd (run E p w') = snd (run E p w) ∧
            eventsSince w' (fst (run E p w'))
              = eventsSince w (fst (run E p w)))) ∧
    (∀ e,
       findUniqueFailure E (dbCalls (trace w)) (documentId p)
                         (organizationId p) = Some e →
       snd (run E p w) = inr (Failed (documentId p) (Js.errorMessage e)) ∧
       ∀ d, db w !! documentId p = Some d →
            (db (fst (run E p w))
               = <[documentId p := setStatus failed (Some (clock w)) d]> (db w)
             ∨ (db (fst (run E p w)) = db w ∧
                updateFailureLogged (eventsSince w (fst (run E p w))))) ∧
            (writeAccepted E (documentId p) failed →
             db (fst (run E p w))
               = <[documentId p := setStatus failed (Some (clock w)) d]>
                   (db w))).
Proof.
  intros E p w Hno.
  assert (Hgeneral :
    (∃ message, snd (run E p w) = inr (Failed (documentId p) message)) ∧
    List.filter isStorageRead (eventsSince w (fst (run E p w))) = [] ∧
    List.filter isIndexCall (eventsSince w (fst (run E p w))) = [] ∧
    index (fst (run E p w)) = index w).
  { destruct (findUniqueFailure E (dbCalls (trace w)) (documentId p)
                (organizationId p)) as [e|] eqn:Hlookup.
    - destruct (run_lookup_failure E p w e Hlookup)
        as (w' & evs & Hrun & Htrace & Hreads & Hcalls & Hindex & _).
      rewrite Hrun. cbn [fst snd]. rewrite (eventsSince_app _ _ _ Htrace).
      split; [by eexists|done].
    - rewrite (run_not_found E p w Hlookup Hno). cbn [fst snd].
      rewrite eventsSince_addEvents. split; [by eexists|done]. }
  destruct Hgeneral as (Hresult & Hreads & Hcalls & Hindex).
  split; [exact Hresult|]. split; [exact Hreads|]. split; [exact Hcalls|].
  split; [exact Hindex|]. split.
  - intros Hlookup. rewrite (run_not_found E p w (Hlookup _) Hno).
    cbn [fst snd]. split; [done|]. split; [done|].
    intros w' Hno'. rewrite (run_not_found E p w' (Hlookup _) Hno').
    cbn [fst snd]. by rewrite !eventsSince_addEvents.
  - intros e Hlookup.
    destruct (run_lookup_failure E p w e Hlookup)
      as (w' & evs & Hrun & Htrace & _ & _ & _ & _ & Hrow & Haccepted).
    rewrite Hrun. cbn [fst snd]. split; [done|].
    intros d Hd. rewrite Hd in Hrow.
    rewrite (eventsSince_app _ _ _ Htrace). split; [exact Hrow|].
    intros Hacc. by apply Haccepted.
Qed.

(** C4 in the concrete world, where "doc-1" belongs to "org-1": requested
    by "org-2", and requested under an id that no row has. *)
Lemma run_document_not_found_witness :
  snd (run (Demo.env "Hello world" None None) Demo.payload2 Demo.world0)
    = inr (Failed "doc-1" "Document not found") ∧
  snd (run (Demo.env "Hello world" None None)
           {| documentId := "doc-9"; organizationId := "org-1" |} Demo.world0)
    = inr (Failed "doc-9" "Document not found").
Proof.
  assert (Hlookup : ∀ p, lookupAnswers (Demo.env "Hello world" None None) p)
    by done.
  split.
  - assert (Hno : ∀ d, db Demo.world0 !! documentId Demo.payload2 = Some d →
                       doc_organizationId d ≠ organizationId Demo.payload2).
    { intros d Hd. vm_compute in Hd. injection Hd as <-. discriminate. }
    destruct (run_document_not_found (Demo.env "Hello world" None None)
                Demo.payload2 Demo.world0 Hno) as (_ & _ & _ & _ & Hrun & _).
    destruct (Hrun (Hlookup _)) as [-> _]. reflexivity.
  - assert (Hno : ∀ d, db Demo.world0 !! "doc-9" = Some d →
                       doc_organizationId d ≠ "org-1").
    { intros d Hd. vm_compute in Hd. discriminate. }
    destruct (run_document_not_found (Demo.env "Hello world" None None)
                {| documentId := "doc-9"; organizationId := "org-1" |}
                Demo.world0 Hno) as (_ & _ & _ & _ & Hrun & _).
    destruct (Hrun (Hlookup _)) as [-> _]. reflexivity.
Defined.

(** C4, as stated, fails when the lookup throws: requested by "org-2",
    the run does not answer 'Document not found' but with the error of
    the database, and its [catch] block, which writes by id alone, marks
    the document of "org-1" as failed. *)
Lemma lookup_failure_marks_foreign_row :
  let E := withDatabase (Demo.env "Hello world" None None)
             (fun _ _ _ => Some (Js.Error "database unavailable"))
             (fun _ _ _ _ => None) in
  let outcome := run E Demo.payload2 Demo.world0 in
  (∀ d, db Demo.world0 !! documentId Demo.payload2 = Some d →
        doc_organizationId d ≠ organizationId Demo.payload2) ∧
  snd outcome = inr (Failed "doc-1" "database unavailable") ∧
  snd outcome ≠ inr (Failed "doc-1" "Document not found") ∧
  (doc_organizationId <$> db (fst outcome) !! "doc-1") = Some "org-1" ∧
  (doc_processingStatus <$> db Demo.world0 !! "doc-1") = Some pending ∧
  (doc_processingStatus <$> db (fst outcome) !! "doc-1") = Some failed.
Proof.
  cbv zeta. split.
  { intros d Hd. vm_compute in Hd. injection Hd as <-. discriminate. }
  split; [vm_compute; reflexivity|].
  split; [vm_compute; discriminate|].
  split; [vm_compute; reflexivity|].
  split; vm_compute; reflexivity.
Qed.

(** ** Documents without content *)

Lemma nonBlank_false (content : string) :
  nonBlank content = false ↔ Js.trim content = "".
Proof.
  unfold nonBlank. destruct content as [|c rest]; [done|].
  cbn [Js.falsy negb andb].
  destruct (Js.trim (String c rest)); cbn; split; congruence.
Qed.

(** The first steps of [processDocument]: the status is set to
    'processing' and the content is fetched and extracted. *)
Lemma processDocument_extracted (E : Env) (p : Payload) (w : World)
    (d d0 : KnowledgeBaseDocument) (bucket content : string) :
  writeAccepted E (doc_id d) processing →
  db w !! doc_id d = Some d0 →
  extractionYields E d bucket content →
  processDocument E p d w =
  (if negb (nonBlank content) then
     logger warn "No content extracted from document";;
     now ← newDate;
     update E (doc_id d) failed (Some now);;
     mret (Failed (doc_id d) "No content extracted from document")
   else
     logger info "Content extracted successfully";;
     existingEmbeddings ← findEmbeddings E (doc_id d) knowledge_base_document
                            (organizationId p);
     deleteExisting E existingEmbeddings;;
     embedChunks E p d content)
    (withDb
       (addEvents w [DbUpdate (doc_id d) processing None;
                     Log info "Extracting content from file";
                     StorageGet bucket (doc_s3Key d)])
       (<[doc_id d := setStatus processing None d0]> (db w))).
Proof.
  intros Hacc Hrow Hx. unfold processDocument.
  erewrite bind_inr; [|by apply update_found].
  rewrite (bind_inr _ _ _ _ _ (logger_eq _ _ _)).
  erewrite bind_inr; [|by apply extract_yields].
  rewrite blank_nonBlank. by autorewrite with world.
Qed.

(** The steps of a run on blank content, up to the write of 'failed'. *)
Lemma run_blank (E : Env) (p : Payload) (w : World)
    (d : KnowledgeBaseDocument) (bucket content : string) :
  lookupAnswers E p →
  writeAccepted E (documentId p) processing →
  owned w (documentId p) (organizationId p) d →
  extractionYields E d bucket content →
  Js.trim content = "" →
  run E p w =
  tryCatch
    (update E (doc_id d) failed (Some (clock w));;
     mret (Failed (doc_id d) "No content extracted from document"))
    (runCatch E p)
    (withDb
       (addEvents w [Log info "Processing Knowledge Base document";
                     DbFindUnique (documentId p) (organizationId p);
                     DbUpdate (doc_id d) processing None;
                     Log info "Extracting content from file";
                     StorageGet bucket (doc_s3Key d);
                     Log warn "No content extracted from document"])
       (<[doc_id d := setStatus processing None d]> (db w))).
Proof.
  intros Hlookup Hacc Hown Hx Hblank.
  rewrite (run_found E p w d Hlookup Hown).
  destruct Hown as (Hrow & Hid & Horg).
  unfold tryCatch.
  erewrite processDocument_extracted;
    [|by rewrite Hid|cbn [db addEvents]; rewrite Hid; exact Hrow|exact Hx].
  apply nonBlank_false in Hblank. rewrite Hblank. cbn [negb].
  rewrite (bind_inr _ _ _ _ _ (logger_eq _ _ _)).
  rewrite (bind_inr _ _ _ _ _ (newDate_eq _)).
  by autorewrite with world.
Qed.

(** C5, as amended: when extraction yields an empty or whitespace-only
    string, the run never calls the vector index (no query, no delete, no
    upsert) and returns a failure as a value instead of throwing.  It
    writes the status 'failed' with the current date as [processedAt]:
    when the database accepts that write, the failure is 'No content
    extracted from document' and the row is left so.  When the write
    throws, the [catch] block attempts it again; the row ends 'failed' or,
    when that write is refused too, which is logged, it stays in
    'processing'. *)
Theorem run_no_content :
  ∀ (E : Env) (p : Payload) (w : World) (d : KnowledgeBaseDocument)
    (bucket content : string),
    owned w (documentId p) (organizationId p) d →
    lookupAnswers E p →
    writeAccepted E (documentId p) processing →
    extractionYields E d bucket content →
    Js.trim content = "" →
    (∃ message, snd (run E p w) = inr (Failed (doc_id d) message)) ∧
    List.filter isIndexCall (eventsSince w (fst (run E p w))) = [] ∧
    index (fst (run E p w)) = index w ∧
    (db (fst (run E p w)) =
       <[doc_id d := setStatus failed (Some (clock w)) d]> (db w) ∨
     (db (fst (run E p w)) =
        <[doc_id d := setStatus processing None d]> (db w) ∧
      updateFailureLogged (eventsSince w (fst (run E p w))))) ∧
    (writeAccepted E (documentId p) failed →
     snd (run E p w)
       = inr (Failed (doc_id d) "No content extracted from document") ∧
     db (fst (run E p w)) =
       <[doc_id d := setStatus failed (Some (clock w)) d]> (db w) ∧
     ∃ d', db (fst (run E p w)) !! doc_id d = Some d' ∧
           doc_processingStatus d' = failed ∧
           doc_processedAt d' = Some (clock w)).
Proof.
  intros E p w d bucket content Hown Hlookup Hprocessing Hx Hblank.
  rewrite (run_blank E p w d bucket content) by done.
  destruct Hown as (Hrow & Hid & Horg).
  set (w2 := withDb _ _).
  assert (Hrow2 : db w2 !! doc_id d = Some (setStatus processing None d))
    by apply lookup_insert_eq.
  assert (Hwritten :
    update E (doc_id d) failed (Some (clock w)) w2 =
      (withDb (addEvents w2 [DbUpdate (doc_id d) failed (Some (clock w))])
         (<[doc_id d := setStatus failed (Some (clock w))
                          (setStatus processing None d)]> (db w2)),
       inr tt) →
    tryCatch
      (update E (doc_id d) failed (Some (clock w));;
       mret (Failed (doc_id d) "No content extracted from document"))
      (runCatch E p) w2 =
    (withDb (addEvents w2 [DbUpdate (doc_id d) failed (Some (clock w))])
       (<[doc_id d := setStatus failed (Some (clock w)) d]> (db w)),
     inr (Failed (doc_id d) "No content extracted from document"))).
  { intros Hw. erewrite tryCatch_inr; [reflexivity|].
    rewrite (bind_inr _ _ _ _ _ Hw). unfold mret, M_ret, ret.
    subst w2. cbn [db withDb]. by rewrite insert_insert_eq. }
  destruct (update_cases E (doc_id d) failed (Some (clock w)) w2 _ Hrow2)
    as [Hw|[e Hr]].
  - rewrite (Hwritten Hw). subst w2. cbn [fst snd].
    autorewrite with world. cbn [db withDb index addEvents].
    split; [by eexists|]. split; [done|]. split; [done|].
    split; [by left|]. intros _. split; [done|]. split; [done|].
    eexists. by rewrite lookup_insert_eq.
  - assert (Hnot : ¬ writeAccepted E (doc_id d) failed).
    { intros Hacc.
      by rewrite (update_found E _ _ _ _ _ Hacc Hrow2) in Hr. }
    erewrite tryCatch_inl; [|erewrite bind_inl; [reflexivity|exact Hr]].
    assert (Hrow3 : db (addEvents w2
                          [DbUpdate (doc_id d) failed (Some (clock w))])
                    !! documentId p
                  = Some (setStatus processing None d))
      by (by rewrite <- Hid).
    destruct (runCatch_cases E p e _ _ Hrow3) as [Hc|Hc]; rewrite Hc;
      subst w2; cbn [fst snd]; autorewrite with world;
      cbn [db withDb index addEvents clock]; rewrite <- !Hid.
    + split; [by eexists|]. split; [done|]. split; [done|].
      split; [left; by rewrite insert_insert_eq|].
      intros Hacc. by destruct Hnot.
    + split; [by eexists|]. split; [done|]. split; [done|].
      split; [right; split; [done|logged]|].
      intros Hacc. by destruct Hnot.
Qed.

(** C5 in the concrete world, for a file of blank lines. *)
Lemma run_no_content_witness :
  snd (run (Demo.env "   " None None) Demo.payload1 Demo.world0)
    = inr (Failed "doc-1" "No content extracted from document").
Proof.
  assert (Hown : owned Demo.world0 (documentId Demo.payload1)
                   (organizationId Demo.payload1) Demo.doc1) by done.
  assert (Hx : extractionYields (Demo.env "   " None None) Demo.doc1
                 "knowledge-base" "   ").
  { repeat split; try done. by eexists _, _. }
  assert (Hlookup : lookupAnswers (Demo.env "   " None None) Demo.payload1)
    by done.
  assert (Hwrites : ∀ status,
            writeAccepted (Demo.env "   " None None)
                          (documentId Demo.payload1) status) by done.
  destruct (run_no_content (Demo.env "   " None None) Demo.payload1
              Demo.world0 Demo.doc1 "knowledge-base" "   " Hown Hlookup
              (Hwrites processing) Hx eq_refl)
    as (_ & _ & _ & _ & Hres).
  by destruct (Hres (Hwrites failed)) as [-> _].
Defined.

(** C5, as stated, fails when the database refuses the writes of
    'failed': the document has only blank lines, the run returns the
    error of the database, and the row stays in 'processing' without a
    [processedAt]. *)
Lemma blank_document_left_processing :
  let E := withDatabase (Demo.env "   " None None)
             (fun _ _ _ => None)
             (fun _ _ status _ =>
                match status with
                | failed => Some (Js.Error "database unavailable")
                | _ => None
                end) in
  let outcome := run E Demo.payload1 Demo.world0 in
  extractContentFromKnowledgeBaseDocument E (doc_s3Key Demo.doc1)
    (doc_fileType Demo.doc1) Demo.world0
    = (addEvents Demo.world0
         [StorageGet "knowledge-base" (doc_s3Key Demo.doc1)],
       inr "   ") ∧
  snd outcome = inr (Failed "doc-1" "database unavailable") ∧
  (doc_processingStatus <$> db (fst outcome) !! "doc-1")
    = Some processing ∧
  (doc_processedAt <$> db (fst outcome) !! "doc-1") = Some None ∧
  List.filter isDbCall (eventsSince Demo.world0 (fst outcome))
    = [DbFindUnique "doc-1" "org-1";
       DbUpdate "doc-1" processing None;
       DbUpdate "doc-1" failed (Some (clock Demo.world0));
       DbUpdate "doc-1" failed (Some (clock Demo.world0))].
Proof.
  cbv zeta. split; [vm_compute; reflexivity|].
  split; [vm_compute; reflexivity|].
  split; [vm_compute; reflexivity|].
  split; vm_compute; reflexivity.
Qed.

(** ** Which writes to the index a run can issue *)

Lemma mutations_app (a b : list Event) :
  mutations (a ++ b) = (mutations a ++ mutations b)%list.
Proof. apply List.filter_app. Qed.

Lemma upsertCalls_no_chunks (E : Env) (p : Payload)
    (d : KnowledgeBaseDocument) (content : string) :
  chunkText E content 500 50 = [] → upsertCalls E p d content = [].
Proof.
  intros Hc. unfold upsertCalls. by rewrite (itemsOf_no_chunks E p d).
Qed.

(** A write to the table followed by steps that do not write to the
    index does not write to the index. *)
Lemma update_then_quiet {A} (f : Event → bool) (E : Env) (id : string)
    (st : ProcessingStatus) (pa : option Date) (k : M A) (w : World) :
  f (DbUpdate id st pa) = false →
  (∀ w1, ∃ w2 r evs, k w1 = (w2, r) ∧ trace w2 = (trace w1 ++ evs)%list ∧
                     List.filter f evs = [] ∧ index w2 = index w1) →
  ∃ w' r evs,
    (update E id st pa;; k) w = (w', r) ∧
    trace w' = (trace w ++ evs)%list ∧ List.filter f evs = [] ∧
    index w' = index w.
Proof.
  intros Hf Hk.
  destruct (update_frame E id st pa w) as (w1 & r1 & Hu & Ht1 & Hi1 & _).
  destruct r1 as [e|[]].
  - rewrite (bind_inl _ _ _ _ _ Hu). eexists _, _, _.
    split; [done|]. split; [exact Ht1|]. cbn. by rewrite Hf.
  - rewrite (bind_inr _ _ _ _ _ Hu).
    destruct (Hk w1) as (w2 & r & evs & Hrun & Ht2 & Hq & Hi2).
    rewrite Hrun. eexists _, _, _. split; [done|]. split.
    + rewrite Ht2, Ht1, <- app_assoc. reflexivity.
    + cbn. rewrite Hf. split; [exact Hq|]. by rewrite Hi2.
Qed.

Lemma ret_quiet {A} (f : Event → bool) (a : A) (w : World) :
  ∃ w2 r evs, (mret a : M A) w = (w2, r) ∧
              trace w2 = (trace w ++ evs)%list ∧
              List.filter f evs = [] ∧ index w2 = index w.
Proof. exists w, (inr a), []. by rewrite app_nil_r. Qed.

Lemma log_ret_quiet {A} (f : Event → bool) (level : LogLevel)
    (message : string) (a : A) (w : World) :
  f (Log level message) = false →
  ∃ w2 r evs, (logger level message;; (mret a : M A)) w = (w2, r) ∧
              trace w2 = (trace w ++ evs)%list ∧
              List.filter f evs = [] ∧ index w2 = index w.
Proof.
  intros Hf. rewrite (bind_inr _ _ _ _ _ (logger_eq _ _ _)).
  eexists _, _, [_]. split; [reflexivity|]. cbn. by rewrite Hf.
Qed.

(** Among the events of [embedChunks], those of a kind that includes the
    upserts and excludes the log and the writes to the table are the
    upsert call, if there are items to upsert, whatever the database
    does. *)
Lemma embedChunks_filtered (f : Event → bool) (E : Env) (p : Payload)
    (d : KnowledgeBaseDocument) (content : string) (w : World) :
  (∀ level message, f (Log level message) = false) →
  (∀ id status processedAt, f (DbUpdate id status processedAt) = false) →
  (∀ items, f (IndexUpsert items) = true) →
  ∃ w' r evs,
    embedChunks E p d content w = (w', r) ∧
    trace w' = (trace w ++ evs)%list ∧
    List.filter f evs = upsertCalls E p d content.
Proof.
  intros HfLog HfUpdate HfUpsert.
  unfold embedChunks, upsertCalls. fold (itemsOf E p d content).
  destruct (chunkText E content 500 50) as [|c0 cs] eqn:Hc.
  { cbn [length Nat.eqb].
    rewrite (bind_inr _ _ _ _ _ (logger_eq _ _ _)).
    rewrite (bind_inr _ _ _ _ _ (newDate_eq _)). cbv beta.
    rewrite (itemsOf_no_chunks E p d) by done. cbn [length Nat.ltb Nat.leb].
    match goal with
    | |- context [(update E ?id ?st ?pa ≫= ?k) ?w0] =>
        destruct (update_then_quiet f E id st pa (k tt) w0
                    (HfUpdate _ _ _) (ret_quiet _ _))
          as (w1 & r & evs & Hrun & Ht & Hq & _)
    end.
    eexists _, _, _. split; [exact Hrun|]. rewrite Ht. cbn [trace addEvents].
    rewrite <- app_assoc. split; [reflexivity|].
    cbn [app List.filter]. by rewrite HfLog. }
  cbn [length Nat.eqb].
  rewrite (bind_inr _ _ _ _ _ (logger_eq _ _ _)).
  assert (Htail : ∀ w0,
    ∃ w1 r evs,
      (now ← newDate;
       update E (doc_id d) completed (Some now);;
       logger info "Successfully processed Knowledge Base document";;
       mret (Succeeded (doc_id d) (length (itemsOf E p d content)))) w0
        = (w1, r) ∧
      trace w1 = (trace w0 ++ evs)%list ∧ List.filter f evs = []).
  { intros w0. rewrite (bind_inr _ _ _ _ _ (newDate_eq _)). cbv beta.
    destruct (update_then_quiet f E (doc_id d) completed
                (Some (clock w0))
                (logger info "Successfully processed Knowledge Base document";;
                 mret (Succeeded (doc_id d)
                         (length (itemsOf E p d content))))
                w0 (HfUpdate _ _ _)
                (fun w1 => log_ret_quiet _ _ _ _ w1 (HfLog _ _)))
      as (w1 & r & evs & Hrun & Ht & Hq & _).
    by eexists _, _, _. }
  destruct (itemsOf E p d content) as [|i0 more] eqn:Hi.
  { cbn [length Nat.ltb Nat.leb].
    unfold mret at 1, M_ret at 1.
    rewrite (bind_inr _ _ _ _ tt eq_refl).
    destruct (Htail (addEvents w [Log info "Created chunks for embedding"]))
      as (w1 & r & evs & Hrun & Ht & Hq).
    eexists _, _, _. split; [exact Hrun|]. rewrite Ht. cbn [trace addEvents].
    rewrite <- app_assoc. split; [reflexivity|].
    cbn [app List.filter]. by rewrite HfLog. }
  cbn [length Nat.ltb Nat.leb].
  destruct (upsertFailure E (i0 :: more)) as [e|] eqn:Hf.
  + erewrite bind_inl;
      [|erewrite bind_inl; [reflexivity|by apply batchUpsert_throws]].
    eexists _, _, _. split; [done|].
    autorewrite with world. cbn [trace withIndex addEvents].
    split; [reflexivity|]. cbn [app List.filter].
    by rewrite HfLog, HfUpsert.
  + erewrite bind_inr;
      [|erewrite bind_inr; [apply logger_eq|by apply batchUpsert_ok]].
    match goal with
    | |- context [_ ?w0 = _] =>
        destruct (Htail w0) as (w1 & r & evs & Hrun & Ht & Hq)
    end.
    eexists _, _, _. split; [exact Hrun|]. rewrite Ht. autorewrite with world.
    cbn [trace addEvents withIndex]. rewrite <- app_assoc.
    split; [reflexivity|]. rewrite !List.filter_app, Hq.
    cbn [app List.filter]. by rewrite !HfLog, HfUpsert.
Qed.

(** [embedChunks] writes to the index with the calls [upsertCalls] lists,
    whatever the database does. *)
Lemma embedChunks_frame (E : Env) (p : Payload) (d : KnowledgeBaseDocument)
    (content : string) (w : World) :
  ∃ w' r evs,
    embedChunks E p d content w = (w', r) ∧
    trace w' = (trace w ++ evs)%list ∧
    mutations evs = upsertCalls E p d content.
Proof. by apply embedChunks_filtered. Qed.

(** The writes of the [try] block once the document is found: none, or
    the delete call for what the query answered followed by the upsert
    call for the chunk items of the content. *)
Lemma processDocument_frame (E : Env) (p : Payload)
    (d : KnowledgeBaseDocument) (w : World) :
  ∃ w' r evs,
    processDocument E p d w = (w', r) ∧
    trace w' = (trace w ++ evs)%list ∧
    (mutations evs = [] ∨
     ∃ existing content,
       findEmbeddingsForSource E (index w) (doc_id d) knowledge_base_document
                               (organizationId p) = inr existing ∧
       mutations evs = (deleteCalls E existing ++
                        upsertCalls E p d content)%list).
Proof.
  unfold processDocument.
  destruct (update_frame E (doc_id d) processing None w)
    as (w1 & r1 & Hu & Ht1 & Hi1 & Hc1).
  destruct r1 as [e|[]].
  { rewrite (bind_inl _ _ _ _ _ Hu). eexists _, _, _.
    split; [done|]. split; [exact Ht1|]. by left. }
  rewrite (bind_inr _ _ _ _ _ Hu).
  rewrite (bind_inr _ _ _ _ _ (logger_eq _ _ _)).
  destruct (extract_frame E (doc_s3Key d) (doc_fileType d)
              (addEvents w1 [Log info "Extracting content from file"]))
    as (evs2 & r2 & Hx & Hm2 & _).
  destruct r2 as [e|content].
  { rewrite (bind_inl _ _ _ _ _ Hx). eexists _, _, _.
    split; [done|]. split.
    - cbn [trace addEvents]. rewrite Ht1, <- !app_assoc. reflexivity.
    - left. by rewrite !mutations_app, Hm2. }
  rewrite (bind_inr _ _ _ _ _ Hx). rewrite blank_nonBlank.
  destruct (nonBlank content); cbn [negb].
  2: { rewrite (bind_inr _ _ _ _ _ (logger_eq _ _ _)).
       rewrite (bind_inr _ _ _ _ _ (newDate_eq _)). cbv beta.
       match goal with
       | |- context [(update E ?id ?st ?pa ≫= _) ?w0] =>
           destruct (update_frame E id st pa w0)
             as (w3 & r3 & Hu3 & Ht3 & _ & _)
       end.
       destruct r3 as [e|[]].
       - rewrite (bind_inl _ _ _ _ _ Hu3). eexists _, _, _.
         split; [done|]. split.
         + rewrite Ht3. cbn [trace addEvents].
           rewrite Ht1, <- !app_assoc. reflexivity.
         + left. by rewrite !mutations_app, Hm2.
       - rewrite (bind_inr _ _ _ _ _ Hu3). eexists _, _, _.
         split; [done|]. split.
         + rewrite Ht3. cbn [trace addEvents].
           rewrite Ht1, <- !app_assoc. reflexivity.
         + left. by rewrite !mutations_app, Hm2. }
  rewrite (bind_inr _ _ _ _ _ (logger_eq _ _ _)).
  destruct (findEmbeddingsForSource E (index w) (doc_id d)
              knowledge_base_document (organizationId p))
    as [e|existing] eqn:Hq.
  { erewrite bind_inl;
      [|rewrite findEmbeddings_eq; cbn [index addEvents];
        rewrite Hi1, Hq; reflexivity].
    eexists _, _, _. split; [done|]. split.
    - cbn [trace addEvents]. rewrite Ht1, <- !app_assoc. reflexivity.
    - left. by rewrite !mutations_app, Hm2. }
  erewrite bind_inr;
    [|rewrite findEmbeddings_eq; cbn [index addEvents];
      rewrite Hi1, Hq; reflexivity].
  match goal with
  | |- context [(deleteExisting E existing ≫= _) ?w0] =>
      destruct (deleteExisting_frame E existing w0)
        as (w4 & evs4 & Hd4 & Ht4 & Hm4 & _ & _)
  end.
  rewrite (bind_inr _ _ _ _ _ Hd4).
  destruct (embedChunks_frame E p d content w4)
    as (w5 & r5 & evs5 & He5 & Ht5 & Hm5).
  rewrite He5. eexists _, _, _. split; [done|]. split.
  - rewrite Ht5, Ht4. cbn [trace addEvents].
    rewrite Ht1, <- !app_assoc. reflexivity.
  - right. exists existing, content. split; [done|].
    by rewrite !mutations_app, Hm2, Hm4, Hm5.
Qed.

(** The same for the whole run. *)
Lemma run_frame (E : Env) (p : Payload) (w : World) :
  ∃ w' r evs,
    run E p w = (w', inr r) ∧
    trace w' = (trace w ++ evs)%list ∧
    (mutations evs = [] ∨
     ∃ d existing content,
       db w !! documentId p = Some d ∧
       findEmbeddingsForSource E (index w) (doc_id d) knowledge_base_document
                               (organizationId p) = inr existing ∧
       mutations evs = (deleteCalls E existing ++
                        upsertCalls E p d content)%list).
Proof.
  destruct (findUniqueFailure E (dbCalls (trace w)) (documentId p)
              (organizationId p)) as [e0|] eqn:Hlookup.
  { rewrite (run_lookup_throws E p w e0 Hlookup).
    destruct (runCatch_frame E p e0
                (addEvents w [Log info "Processing Knowledge Base document";
                              DbFindUnique (documentId p) (organizationId p)]))
      as (w3 & evs3 & Hc & Ht3 & Hm3 & _).
    rewrite Hc. eexists _, _, _. split; [done|]. split.
    - rewrite Ht3. cbn [trace addEvents]. rewrite <- app_assoc. reflexivity.
    - left. by rewrite mutations_app, Hm3. }
  rewrite (run_lookup_answered E p w Hlookup). unfold tryCatch.
  set (w1 := addEvents w _).
  assert (Ht1 : trace w1 =
                (trace w ++ [Log info "Processing Knowledge Base document";
                             DbFindUnique (documentId p) (organizationId p)])%list).
  { subst w1. reflexivity. }
  assert (Hnone : ∀ w' r evs,
            trace w' = (trace w1 ++ evs)%list → mutations evs = [] →
            ∃ w'' r' evs',
              (w', inr r) = (w'', inr r' : Js.exn + TaskResult) ∧
              trace w'' = (trace w ++ evs')%list ∧
              (mutations evs' = [] ∨
               ∃ d existing content,
                 db w !! documentId p = Some d ∧
                 findEmbeddingsForSource E (index w) (doc_id d)
                   knowledge_base_document (organizationId p) = inr existing ∧
                 mutations evs' = (deleteCalls E existing ++
                                   upsertCalls E p d content)%list)).
  { intros w' r evs Ht Hm. eexists _, _, _. split; [done|]. split.
    - rewrite Ht, Ht1, <- app_assoc. reflexivity.
    - left. by rewrite mutations_app, Hm. }
  destruct (db w !! documentId p) as [d|] eqn:Hrow.
  2: { rewrite (bind_inr _ _ _ _ _ (logger_eq _ _ _)).
       unfold mret, M_ret, ret.
       by apply (Hnone _ _ [Log error "Document not found"]). }
  destruct (decide (doc_organizationId d = organizationId p)) as [Horg|Horg].
  2: { rewrite (bind_inr _ _ _ _ _ (logger_eq _ _ _)).
       unfold mret, M_ret, ret.
       by apply (Hnone _ _ [Log error "Document not found"]). }
  destruct (processDocument_frame E p d w1)
    as (w2 & r2 & evs2 & Hpd & Ht2 & Hm2).
  rewrite Hpd.
  assert (Hshape :
            mutations evs2 = [] ∨
            ∃ d0 existing content,
              db w !! documentId p = Some d0 ∧
              findEmbeddingsForSource E (index w) (doc_id d0)
                knowledge_base_document (organizationId p) = inr existing ∧
              mutations evs2 = (deleteCalls E existing ++
                                upsertCalls E p d0 content)%list).
  { destruct Hm2 as [Hm2|(existing & content & Hq & Hm2)]; [by left|].
    right. by exists d, existing, content. }
  rewrite Hrow in Hshape.
  destruct r2 as [e|r].
  - destruct (runCatch_frame E p e w2) as (w3 & evs3 & Hc & Ht3 & Hm3 & _).
    rewrite Hc. eexists _, _, _. split; [done|]. split.
    + rewrite Ht3, Ht2, Ht1, <- !app_assoc. reflexivity.
    + match goal with
      | |- mutations ?l = [] ∨ _ =>
          assert (Hm : mutations l = mutations evs2)
            by (by rewrite !mutations_app, Hm3, app_nil_r)
      end.
      rewrite Hm. exact Hshape.
  - eexists _, _, _. split; [done|]. split.
    + rewrite Ht2, Ht1, <- !app_assoc. reflexivity.
    + match goal with
      | |- mutations ?l = [] ∨ _ =>
          assert (Hm : mutations l = mutations evs2)
            by (by rewrite !mutations_app)
      end.
      rewrite Hm. exact Hshape.
Qed.

(** ** The index stage *)

(** The steps of [run] up to the query of the existing embeddings, when
    the document is found and has content. *)
Lemma run_indexed (E : Env) (p : Payload) (w : World)
    (d : KnowledgeBaseDocument) (bucket content : string)
    (existing : list ExistingEmbedding) :
  lookupAnswers E p →
  writeAccepted E (documentId p) processing →
  owned w (documentId p) (organizationId p) d →
  extractionYields E d bucket content →
  nonBlank content = true →
  findEmbeddingsForSource E (index w) (doc_id d) knowledge_base_document
                          (organizationId p) = inr existing →
  run E p w =
  tryCatch (deleteExisting E existing;; embedChunks E p d content)
           (runCatch E p)
    (withDb
       (addEvents w
          [Log info "Processing Knowledge Base document";
           DbFindUnique (documentId p) (organizationId p);
           DbUpdate (doc_id d) processing None;
           Log info "Extracting content from file";
           StorageGet bucket (doc_s3Key d);
           Log info "Content extracted successfully";
           IndexQuery (doc_id d) knowledge_base_document (organizationId p)])
       (<[doc_id d := setStatus processing None d]> (db w))).
Proof.
  intros Hlookup Hacc Hown Hx Hnb Hq. rewrite (run_found E p w d Hlookup Hown).
  destruct Hown as (Hrow & Hid & Horg).
  unfold tryCatch at 1.
  erewrite processDocument_extracted;
    [|by rewrite Hid|cbn [db addEvents]; rewrite Hid; exact Hrow|exact Hx].
  rewrite Hnb. cbn [negb].
  rewrite (bind_inr _ _ _ _ _ (logger_eq _ _ _)).
  erewrite bind_inr;
    [|rewrite findEmbeddings_eq; cbn [index addEvents withDb];
      rewrite Hq; reflexivity].
  by autorewrite with world.
Qed.

Section IndexStage.

Variables (E : Env) (p : Payload) (d d1 : KnowledgeBaseDocument)
          (content : string) (existing : list ExistingEmbedding)
          (w0 : World).

Let items : list ChunkItem := itemsOf E p d content.
Let ids : list string := map ee_id existing.

Hypothesis row : db w0 !! doc_id d = Some d1.
Hypothesis some_items : items ≠ [].
Hypothesis accepted : writeAccepted E (doc_id d) completed.

(** Delete, then upsert: the run completes. *)
Lemma index_stage_completed :
  upsertFailure E items = None →
  ∃ w2 evs,
    (deleteExisting E existing;; embedChunks E p d content) w0
      = (w2, inr (Succeeded (doc_id d) (length items))) ∧
    trace w2 = (trace w0 ++ evs)%list ∧
    mutations evs = (deleteCalls E existing ++ [IndexUpsert items])%list ∧
    db w2 = <[doc_id d := setStatus completed (Some (clock w0)) d1]> (db w0).
Proof.
  intros Hok.
  destruct (deleteExisting_frame E existing w0)
    as (w1 & evs1 & Hdel & Ht1 & Hm1 & Hdb1 & Hc1).
  rewrite (bind_inr _ _ _ _ _ Hdel).
  rewrite (embed_upserted E p d d1) by (done || by rewrite Hdb1).
  eexists _, _. split; [reflexivity|]. split; [|split].
  - cbn [trace withIndex withDb addEvents]. rewrite Ht1, <- app_assoc.
    reflexivity.
  - by rewrite mutations_app, Hm1.
  - cbn [db withIndex withDb]. by rewrite Hdb1, Hc1.
Qed.

(** Delete, then an upsert that throws: the error leaves the block, with
    the table as it was. *)
Lemma index_stage_upsert_throws (e : Js.exn) :
  upsertFailure E items = Some e →
  ∃ w2 evs,
    (deleteExisting E existing;; embedChunks E p d content) w0
      = (w2, inl e) ∧
    trace w2 = (trace w0 ++ evs)%list ∧
    mutations evs = (deleteCalls E existing ++ [IndexUpsert items])%list ∧
    db w2 = db w0 ∧ clock w2 = clock w0.
Proof.
  intros Hfail.
  destruct (deleteExisting_frame E existing w0)
    as (w1 & evs1 & Hdel & Ht1 & Hm1 & Hdb1 & Hc1).
  rewrite (bind_inr _ _ _ _ _ Hdel).
  rewrite (embed_upsert_throws E p d content w1 e) by done.
  eexists _, _. split; [reflexivity|]. split; [|split].
  - cbn [trace addEvents withIndex]. rewrite Ht1, <- app_assoc. reflexivity.
  - by rewrite mutations_app, Hm1.
  - done.
Qed.

(** When the delete call succeeds, the index ends up without the old ids
    and with the new items. *)
Lemma index_stage_reindexed :
  existing ≠ [] → vectorIndex E = true →
  deleteFailure E ids = None → upsertFailure E items = None →
  index (fst ((deleteExisting E existing;; embedChunks E p d content) w0))
    = reindexed (index w0) ids items.
Proof.
  intros Hne Hv Hdel Hup.
  rewrite (bind_inr _ _ _ _ _ (deleteExisting_deleted E existing w0 Hne Hv Hdel)).
  rewrite (embed_upserted E p d d1) by done.
  cbn [fst index withIndex withDb addEvents]. by rewrite Hv.
Qed.

(** When the delete call throws, the old entries stay and the new items
    are written over or next to them. *)
Lemma index_stage_stale (e : Js.exn) :
  existing ≠ [] → vectorIndex E = true →
  deleteFailure E ids = Some e → upsertFailure E items = None →
  index (fst ((deleteExisting E existing;; embedChunks E p d content) w0))
    = foldl (fun idx item => <[ci_id item := item]> idx) (index w0) items.
Proof.
  intros Hne Hv Hdel Hup.
  rewrite (bind_inr _ _ _ _ _
             (deleteExisting_swallowed E existing w0 e Hne Hv Hdel)).
  rewrite (embed_upserted E p d d1) by done.
  cbn [fst index withIndex withDb addEvents]. by rewrite Hv.
Qed.

End IndexStage.

(** ** Delete before upsert *)

Lemma elem_of_mutations (e : Event) (evs : list Event) :
  e ∈ mutations evs ↔ e ∈ evs ∧ isIndexMutation e = true.
Proof. unfold mutations. by rewrite !list_elem_of_In, filter_In. Qed.

Lemma deleteCalls_shape (E : Env) (existing : list ExistingEmbedding) :
  deleteCalls E existing = [] ∨
  deleteCalls E existing = [IndexDelete (map ee_id existing)].
Proof. unfold deleteCalls. destruct (_ && _); [by right | by left]. Qed.

Lemma deleteCalls_issued (E : Env) (existing : list ExistingEmbedding) :
  existing ≠ [] → vectorIndex E = true →
  deleteCalls E existing = [IndexDelete (map ee_id existing)].
Proof.
  intros Hne Hv. unfold deleteCalls. rewrite Hv. by destruct existing.
Qed.

Lemma upsertCalls_shape (E : Env) (p : Payload) (d : KnowledgeBaseDocument)
    (content : string) :
  upsertCalls E p d content = [] ∨
  upsertCalls E p d content = [IndexUpsert (itemsOf E p d content)].
Proof. unfold upsertCalls. destruct (0 <? _)%nat; [by right | by left]. Qed.

(** Where an upsert call stands among events whose writes are at most one
    delete call followed by at most one upsert call: the delete call, if
    any, is before it, and no write comes after it. *)
Lemma upsert_position (evs dc uc : list Event) (j : nat)
    (items : list ChunkItem) :
  evs !! j = Some (IndexUpsert items) →
  mutations evs = (dc ++ uc)%list →
  (dc = [] ∨ ∃ ids, dc = [IndexDelete ids]) →
  (uc = [] ∨ ∃ items', uc = [IndexUpsert items']) →
  mutations (take j evs) = dc ∧ mutations (drop (S j) evs) = [].
Proof.
  intros Hj Hm Hdc Huc.
  rewrite <- (take_drop_middle evs j _ Hj), mutations_app in Hm.
  change (mutations (IndexUpsert items :: drop (S j) evs))
    with (IndexUpsert items :: mutations (drop (S j) evs)) in Hm.
  destruct (mutations (take j evs)) as [|m1 ms1] eqn:Htake;
    destruct Hdc as [->|(ids & ->)]; destruct Huc as [->|(items' & ->)];
    simpl in Hm; try discriminate.
  - by injection Hm as _ ->.
  - injection Hm as ? Hrest. destruct ms1; discriminate.
  - injection Hm as -> Hrest. destruct ms1; [|destruct ms1; discriminate].
    discriminate.
  - injection Hm as -> Hrest. destruct ms1; [|destruct ms1; discriminate].
    by injection Hrest as _ ->.
Qed.

Lemma lookup_drop_elem_of {A} (l : list A) (i j : nat) (x : A) :
  l !! i = Some x → j < i → x ∈ drop (S j) l.
Proof.
  intros Hi Hlt. apply list_elem_of_lookup. exists (i - S j).
  rewrite lookup_drop. by replace (S j + (i - S j)) with i by lia.
Qed.

Lemma elem_of_take_lookup {A} (l : list A) (j : nat) (x : A) :
  x ∈ take j l → ∃ i, i < j ∧ l !! i = Some x.
Proof.
  intros Hin. apply list_elem_of_lookup in Hin as (i & Hi).
  apply lookup_take_Some in Hi as (Hi & Hlt). eauto.
Qed.

(** An upsert leaves the entries under other ids alone. *)
Lemma upserted_other_id (base : gmap string ChunkItem)
    (items : list ChunkItem) (id : string) :
  id ∉ map ci_id items →
  foldl (fun idx item => <[ci_id item := item]> idx) base items !! id
  = base !! id.
Proof.
  revert base. induction items as [|item items IH]; intros base Hnew; [done|].
  simpl. rewrite IH.
  - apply lookup_insert_ne. intros Heq. apply Hnew. simpl.
    rewrite <- Heq. left.
  - intros Hin. apply Hnew. simpl. by right.
Qed.

Lemma reindexed_old_id (idx : gmap string ChunkItem) (ids : list string)
    (items : list ChunkItem) (id : string) :
  id ∈ ids → id ∉ map ci_id items → reindexed idx ids items !! id = None.
Proof.
  unfold reindexed. intros Hold Hnew. rewrite upserted_other_id by done.
  induction ids as [|x ids IH]; [by apply elem_of_nil in Hold|].
  simpl. destruct (decide (x = id)) as [->|Hne].
  - apply lookup_delete_eq.
  - rewrite lookup_delete_ne by done. apply IH.
    by apply elem_of_cons in Hold as [->|?].
Qed.

Lemma reindexed_new_id (idx : gmap string ChunkItem) (ids : list string)
    (items : list ChunkItem) (id : string) :
  id ∈ map ci_id items → is_Some (reindexed idx ids items !! id).
Proof.
  unfold reindexed. generalize (foldr delete idx ids).
  induction items as [|item items IH]; intros base Hin;
    [by apply elem_of_nil in Hin|].
  simpl. destruct (decide (id ∈ map ci_id items)) as [Hrest|Hrest].
  - by apply IH.
  - simpl in Hin. apply elem_of_cons in Hin as [->|?]; [|done].
    assert (Hkeep : ∀ b : gmap string ChunkItem,
              is_Some (b !! ci_id item) →
              ci_id item ∉ map ci_id items →
              is_Some (foldl (λ idx0 item0, <[ci_id item0:=item0]> idx0)
                             b items !! ci_id item)).
    { clear. induction items as [|x items IH]; intros b Hb Hn; [done|].
      simpl. apply IH.
      - destruct (decide (ci_id x = ci_id item)) as [->|Hne].
        + rewrite lookup_insert_eq. eauto.
        + by rewrite lookup_insert_ne.
      - intros Hin. apply Hn. simpl. by right. }
    apply Hkeep; [|done]. rewrite lookup_insert_eq. eauto.
Qed.

(** C6, as amended: in every run no upsert call comes before a delete
    call; when the index client is configured and the query answered a
    set of existing embeddings that is not empty, every upsert call of the
    run comes after a delete call for the ids of all of them; and when
    that delete call does not fail and the run completes, the index holds
    the new items and none of the old ids that is not the id of a new
    item.  When that delete call throws, the run completes all the same
    and every entry of the index that is not overwritten by a new item,
    stale or not, is still there.  The run completes when the database
    answers its lookup and accepts its writes, the content gives chunk
    items and the upsert does not fail. *)
Theorem delete_precedes_upsert :
  ∀ (E : Env) (p : Payload) (w : World),
    let evs := eventsSince w (fst (run E p w)) in
    deleteBeforeUpsert evs ∧
    (∀ d existing j items,
       db w !! documentId p = Some d →
       findEmbeddingsForSource E (index w) (doc_id d) knowledge_base_document
                               (organizationId p) = inr existing →
       existing ≠ [] → vectorIndex E = true →
       evs !! j = Some (IndexUpsert items) →
       ∃ i, i < j ∧ evs !! i = Some (IndexDelete (map ee_id existing))) ∧
    (∀ d bucket content existing,
       dbAvailable E p →
       owned w (documentId p) (organizationId p) d →
       extractionYields E d bucket content →
       nonBlank content = true →
       findEmbeddingsForSource E (index w) (doc_id d) knowledge_base_document
                               (organizationId p) = inr existing →
       existing ≠ [] → vectorIndex E = true →
       itemsOf E p d content ≠ [] →
       deleteFailure E (map ee_id existing) = None →
       upsertFailure E (itemsOf E p d content) = None →
       snd (run E p w)
         = inr (Succeeded (doc_id d) (length (itemsOf E p d content))) ∧
       index (fst (run E p w))
         = reindexed (index w) (map ee_id existing) (itemsOf E p d content) ∧
       (∀ id, id ∈ map ee_id existing →
              id ∉ map ci_id (itemsOf E p d content) →
              index (fst (run E p w)) !! id = None) ∧
       (∀ id, id ∈ map ci_id (itemsOf E p d content) →
              is_Some (index (fst (run E p w)) !! id))) ∧
    (∀ d bucket content existing e,
       dbAvailable E p →
       owned w (documentId p) (organizationId p) d →
       extractionYields E d bucket content →
       nonBlank content = true →
       findEmbeddingsForSource E (index w) (doc_id d) knowledge_base_document
                               (organizationId p) = inr existing →
       existing ≠ [] → vectorIndex E = true →
       itemsOf E p d content ≠ [] →
       deleteFailure E (map ee_id existing) = Some e →
       upsertFailure E (itemsOf E p d content) = None →
       snd (run E p w)
         = inr (Succeeded (doc_id d) (length (itemsOf E p d content))) ∧
       (∀ id, id ∉ map ci_id (itemsOf E p d content) →
              index (fst (run E p w)) !! id = index w !! id)).
Proof.
  intros E p w evs.
  destruct (run_frame E p w) as (w' & r & evs' & Hrun & Ht & Hshape).
  assert (Hevs : evs = evs').
  { subst evs. rewrite Hrun. by apply eventsSince_app. }
  split; [|split; [|split]].
  - intros i j ids items Hi Hj. rewrite Hevs in Hi, Hj.
    destruct Hshape as [Hnone|(d & existing & content & _ & _ & Hm)].
    { assert (Hin : IndexUpsert items ∈ mutations evs').
      { apply elem_of_mutations. split; [|done].
        by eapply list_elem_of_lookup_2. }
      rewrite Hnone in Hin. by apply elem_of_nil in Hin. }
    destruct (upsert_position evs' _ _ j items Hj Hm) as (_ & Hafter).
    { destruct (deleteCalls_shape E existing) as [->| ->]; eauto. }
    { destruct (upsertCalls_shape E p d content) as [->| ->]; eauto. }
    destruct (decide (i < j)) as [|Hge]; [done|].
    assert (Hne : i ≠ j) by (intros ->; congruence).
    assert (Hin : IndexDelete ids ∈ mutations (drop (S j) evs')).
    { apply elem_of_mutations. split; [|done].
      eapply lookup_drop_elem_of; [exact Hi|lia]. }
    rewrite Hafter in Hin. by apply elem_of_nil in Hin.
  - intros d existing j items Hrow Hq Hne Hv Hj. rewrite Hevs in Hj.
    destruct Hshape as [Hnone|(d' & existing' & content & Hrow' & Hq' & Hm)].
    { assert (Hin : IndexUpsert items ∈ mutations evs').
      { apply elem_of_mutations. split; [|done].
        by eapply list_elem_of_lookup_2. }
      rewrite Hnone in Hin. by apply elem_of_nil in Hin. }
    assert (d' = d) as -> by congruence.
    assert (existing' = existing) as -> by congruence.
    rewrite (deleteCalls_issued E existing Hne Hv) in Hm.
    destruct (upsert_position evs' _ _ j items Hj Hm) as (Hbefore & _);
      [eauto| |].
    { destruct (upsertCalls_shape E p d content) as [->| ->]; eauto. }
    assert (Hin : IndexDelete (map ee_id existing) ∈ mutations (take j evs')).
    { rewrite Hbefore. left. }
    apply elem_of_mutations in Hin as (Hin & _).
    rewrite Hevs. by apply elem_of_take_lookup.
  - intros d bucket content existing [Hlookup Hwrites] Hown Hx Hnb Hq Hne Hv
      Hitems Hdel Hup.
    assert (Hacc : writeAccepted E (doc_id d) completed)
      by (destruct Hown as (_ & -> & _); apply Hwrites).
    rewrite (run_indexed E p w d bucket content existing) by done.
    set (w0 := withDb _ _).
    assert (Hrow0 : db w0 !! doc_id d = Some (setStatus processing None d)).
    { subst w0. cbn [db withDb]. apply lookup_insert_eq. }
    destruct (index_stage_completed E p d _ content existing w0 Hrow0 Hitems
                Hacc Hup) as (w2 & evs2 & Hstage & _).
    pose proof (index_stage_reindexed E p d _ content existing w0 Hrow0
                  Hitems Hacc Hne Hv Hdel Hup) as Hidx.
    rewrite (tryCatch_inr _ _ _ _ _ Hstage). rewrite Hstage in Hidx.
    cbn [fst snd] in *. rewrite Hidx. subst w0. cbn [index withDb addEvents].
    split; [done|]. split; [done|]. split.
    + intros id. apply reindexed_old_id.
    + intros id. apply reindexed_new_id.
  - intros d bucket content existing e [Hlookup Hwrites] Hown Hx Hnb Hq Hne
      Hv Hitems Hdel Hup.
    assert (Hacc : writeAccepted E (doc_id d) completed)
      by (destruct Hown as (_ & -> & _); apply Hwrites).
    rewrite (run_indexed E p w d bucket content existing) by done.
    set (w0 := withDb _ _).
    assert (Hrow0 : db w0 !! doc_id d = Some (setStatus processing None d)).
    { subst w0. cbn [db withDb]. apply lookup_insert_eq. }
    destruct (index_stage_completed E p d _ content existing w0 Hrow0 Hitems
                Hacc Hup) as (w2 & evs2 & Hstage & _).
    pose proof (index_stage_stale E p d _ content existing w0 Hrow0 Hitems
                  Hacc e Hne Hv Hdel Hup) as Hidx.
    rewrite (tryCatch_inr _ _ _ _ _ Hstage). rewrite Hstage in Hidx.
    cbn [fst snd] in *. rewrite Hidx. subst w0. cbn [index withDb addEvents].
    split; [done|]. intros id. apply upserted_other_id.
Qed.

(** C6 in the concrete world: a document of three chunks is synced, its
    content shrinks to one chunk, and it is synced again with an index
    that works; the ids of the second and third chunk are gone. *)
Lemma delete_precedes_upsert_witness :
  let w1 := fst (run (Demo.env (Demo.repeatString "Hello world. " 100)
                               None None)
                     Demo.payload1 Demo.world0) in
  let w2 := fst (run (Demo.env "Hello world." None None) Demo.payload1 w1) in
  is_Some (index w1 !! "knowledge_base_document_doc-1_chunk2") ∧
  index w2 !! "knowledge_base_document_doc-1_chunk1" = None ∧
  index w2 !! "knowledge_base_document_doc-1_chunk2" = None ∧
  is_Some (index w2 !! "knowledge_base_document_doc-1_chunk0").
Proof.
  intros w1 w2.
  set (E := Demo.env "Hello world." None None).
  set (d := setStatus completed (Some 1706745600000%Z) Demo.doc1).
  set (existing :=
         match findEmbeddingsForSource E (index w1) "doc-1"
                 knowledge_base_document "org-1" with
         | inr l => l
         | inl _ => []
         end).
  assert (Hown : owned w1 (documentId Demo.payload1)
                   (organizationId Demo.payload1) d)
    by (vm_compute; repeat split).
  assert (Hx : extractionYields E d "knowledge-base" "Hello world.").
  { repeat split; try done. by eexists _, _. }
  assert (Hq : findEmbeddingsForSource E (index w1) (doc_id d)
                 knowledge_base_document (organizationId Demo.payload1)
               = inr existing) by (vm_compute; reflexivity).
  assert (Hne : existing ≠ []) by (vm_compute; discriminate).
  assert (Hitems : itemsOf E Demo.payload1 d "Hello world." ≠ [])
    by (vm_compute; discriminate).
  destruct (delete_precedes_upsert E Demo.payload1 w1)
    as (_ & _ & Hsync & _).
  destruct (Hsync d "knowledge-base" "Hello world." existing
              (demo_dbAvailable _ _ _ _) Hown Hx eq_refl
              Hq Hne eq_refl Hitems eq_refl eq_refl)
    as (_ & _ & Hold & Hnew).
  subst w2. fold E.
  split; [vm_compute; eexists; reflexivity|]. split; [|split].
  - apply Hold.
    + apply list_elem_of_In. vm_compute. tauto.
    + intros Hin. apply list_elem_of_In in Hin. vm_compute in Hin.
      destruct Hin as [Hin|[]]. discriminate Hin.
  - apply Hold.
    + apply list_elem_of_In. vm_compute. tauto.
    + intros Hin. apply list_elem_of_In in Hin. vm_compute in Hin.
      destruct Hin as [Hin|[]]. discriminate Hin.
  - apply Hnew. apply list_elem_of_In. vm_compute. tauto.
Defined.

(** C6, as stated, fails when the delete call throws: the failure is
    swallowed, the run completes, and the ids of the chunks the shrunken
    document no longer has are still in the index. *)
Lemma stale_ids_survive_failed_delete :
  let w1 := fst (run (Demo.env (Demo.repeatString "Hello world. " 100)
                               None None)
                     Demo.payload1 Demo.world0) in
  let E := Demo.env "Hello world." (Some (Js.Error "index unavailable"))
                    None in
  let run2 := run E Demo.payload1 w1 in
  snd run2 = inr (Succeeded "doc-1" 1) ∧
  (doc_processingStatus <$> db (fst run2) !! "doc-1") = Some completed ∧
  map ci_id (itemsOf E Demo.payload1 Demo.doc1 "Hello world.")
    = ["knowledge_base_document_doc-1_chunk0"] ∧
  (∃ ids, length ids = 3 ∧
          mutations (eventsSince w1 (fst run2)) =
          [IndexDelete ids;
           IndexUpsert (itemsOf E Demo.payload1 Demo.doc1 "Hello world.")]) ∧
  is_Some (index (fst run2) !! "knowledge_base_document_doc-1_chunk1") ∧
  is_Some (index (fst run2) !! "knowledge_base_document_doc-1_chunk2").
Proof.
  intros w1 E run2.
  split; [vm_compute; reflexivity|]. split; [vm_compute; reflexivity|].
  split; [vm_compute; reflexivity|].
  split; [|split; vm_compute; eexists; reflexivity].
  eexists. split; [|vm_compute; reflexivity]. reflexivity.
Qed.

(** ** Syncing a source that has not changed *)

(** The writes to the index from the deletion of the old embeddings on,
    whatever the database and the index do: the delete call, then the
    upsert call, and nothing from the [catch] block. *)
Lemma index_stage_frame (E : Env) (p : Payload) (d : KnowledgeBaseDocument)
    (content : string) (existing : list ExistingEmbedding) (w0 : World) :
  ∃ w2 r evs,
    tryCatch (deleteExisting E existing;; embedChunks E p d content)
             (runCatch E p) w0 = (w2, inr r) ∧
    trace w2 = (trace w0 ++ evs)%list ∧
    mutations evs = (deleteCalls E existing ++ upsertCalls E p d content)%list.
Proof.
  destruct (deleteExisting_frame E existing w0)
    as (w1 & evs1 & Hdel & Ht1 & Hm1 & _ & _).
  destruct (embedChunks_frame E p d content w1)
    as (w2 & r2 & evs2 & Hemb & Ht2 & Hm2).
  unfold tryCatch. rewrite (bind_inr _ _ _ _ _ Hdel), Hemb.
  destruct r2 as [e|r].
  - destruct (runCatch_frame E p e w2) as (w3 & evs3 & Hc & Ht3 & Hm3 & _).
    rewrite Hc. eexists _, _, _. split; [reflexivity|]. split.
    + rewrite Ht3, Ht2, Ht1, <- !app_assoc. reflexivity.
    + by rewrite !mutations_app, Hm1, Hm2, Hm3, app_nil_r.
  - eexists _, _, _. split; [reflexivity|]. split.
    + rewrite Ht2, Ht1, <- !app_assoc. reflexivity.
    + by rewrite !mutations_app, Hm1, Hm2.
Qed.

(** C1, as amended: the run does not check whether the existing
    embeddings are stale; [needsUpdate] is not among its hypotheses.  When
    the lookup is answered and the write of 'processing' accepted, the
    document has content, the query answers a set of existing embeddings
    that is not empty and the index client is configured, the writes of
    the run to the index are one delete call for the ids of all of them,
    followed by one upsert call for the chunk items of the content when
    there are any, and by nothing when there are none; so the run writes
    to the index also when every existing embedding records the
    [updatedAt] of the source ([needsUpdate] answers false).  When there
    are chunk items, the upsert succeeds and the write of 'completed' is
    accepted, the run returns success and sets the status of the document
    to 'completed'. *)
Theorem run_reprocesses_unchanged_source :
  ∀ (E : Env) (p : Payload) (w : World) (d : KnowledgeBaseDocument)
    (bucket content : string) (existing : list ExistingEmbedding),
    lookupAnswers E p →
    writeAccepted E (documentId p) processing →
    owned w (documentId p) (organizationId p) d →
    extractionYields E d bucket content →
    nonBlank content = true →
    findEmbeddingsForSource E (index w) (doc_id d) knowledge_base_document
                            (organizationId p) = inr existing →
    existing ≠ [] →
    vectorIndex E = true →
    mutations (eventsSince w (fst (run E p w)))
      = IndexDelete (map ee_id existing) ::
        (if (0 <? length (itemsOf E p d content))%nat
         then [IndexUpsert (itemsOf E p d content)]
         else []) ∧
    (needsUpdate existing (toISOString E (doc_updatedAt d)) = false →
     mutations (eventsSince w (fst (run E p w))) ≠ []) ∧
    (itemsOf E p d content ≠ [] →
     upsertFailure E (itemsOf E p d content) = None →
     writeAccepted E (documentId p) completed →
     snd (run E p w)
       = inr (Succeeded (doc_id d) (length (itemsOf E p d content))) ∧
     mutations (eventsSince w (fst (run E p w)))
       = [IndexDelete (map ee_id existing);
          IndexUpsert (itemsOf E p d content)] ∧
     db (fst (run E p w))
       = <[doc_id d := setStatus completed (Some (clock w)) d]> (db w)).
Proof.
  intros E p w d bucket content existing Hlookup Hprocessing Hown Hx Hnb Hq
    Hne Hv.
  rewrite (run_indexed E p w d bucket content existing) by done.
  set (w0 := withDb _ _).
  assert (Hmutations :
    mutations (eventsSince w
      (fst (tryCatch (deleteExisting E existing;; embedChunks E p d content)
                     (runCatch E p) w0)))
    = IndexDelete (map ee_id existing) ::
      (if (0 <? length (itemsOf E p d content))%nat
       then [IndexUpsert (itemsOf E p d content)]
       else [])).
  { destruct (index_stage_frame E p d content existing w0)
      as (w2 & r & evs & Hstage & Ht & Hm).
    rewrite Hstage. cbn [fst].
    erewrite eventsSince_app;
      [|rewrite Ht; subst w0; cbn [trace withDb addEvents];
        rewrite <- app_assoc; reflexivity].
    rewrite mutations_app, Hm, (deleteCalls_issued E existing Hne Hv).
    reflexivity. }
  split; [exact Hmutations|]. split.
  { intros _. by rewrite Hmutations. }
  intros Hitems Hup Hcompleted.
  assert (Hacc : writeAccepted E (doc_id d) completed)
    by (destruct Hown as (_ & -> & _); exact Hcompleted).
  assert (Hrow0 : db w0 !! doc_id d = Some (setStatus processing None d)).
  { subst w0. cbn [db withDb]. apply lookup_insert_eq. }
  destruct (index_stage_completed E p d _ content existing w0 Hrow0 Hitems
              Hacc Hup) as (w2 & evs2 & Hstage & Ht2 & Hm2 & Hdb2).
  rewrite (tryCatch_inr _ _ _ _ _ Hstage). cbn [fst snd].
  split; [done|]. split.
  - erewrite eventsSince_app;
      [|rewrite Ht2; subst w0; cbn [trace withDb addEvents];
        rewrite <- app_assoc; reflexivity].
    rewrite mutations_app, Hm2, (deleteCalls_issued E existing Hne Hv).
    reflexivity.
  - rewrite Hdb2. subst w0. cbn [db clock withDb addEvents].
    by rewrite insert_insert_eq.
Qed.

(** C1 in the concrete world: the document has just been synced and is
    synced again without any change. *)
Lemma run_reprocesses_unchanged_source_witness :
  let E := Demo.env "Hello world" None None in
  let w1 := fst (run E Demo.payload1 Demo.world0) in
  snd (run E Demo.payload1 w1) = inr (Succeeded "doc-1" 1) ∧
  mutations (eventsSince w1 (fst (run E Demo.payload1 w1)))
    = [IndexDelete ["knowledge_base_document_doc-1_chunk0"];
       IndexUpsert (itemsOf E Demo.payload1 Demo.doc1 "Hello world")].
Proof.
  intros E w1.
  set (d := setStatus completed (Some 1706745600000%Z) Demo.doc1).
  set (existing :=
         [{| ee_id := "knowledge_base_document_doc-1_chunk0";
             ee_updatedAt := Some "2024-01-01T00:00:00.000Z" |}]).
  assert (Hown : owned w1 (documentId Demo.payload1)
                   (organizationId Demo.payload1) d)
    by (vm_compute; repeat split).
  assert (Hx : extractionYields E d "knowledge-base" "Hello world").
  { repeat split; try done. by eexists _, _. }
  assert (Hq : findEmbeddingsForSource E (index w1) (doc_id d)
                 knowledge_base_document (organizationId Demo.payload1)
               = inr existing) by (vm_compute; reflexivity).
  assert (Hne : existing ≠ []) by discriminate.
  assert (Hitems : itemsOf E Demo.payload1 d "Hello world" ≠ [])
    by (vm_compute; discriminate).
  destruct (demo_dbAvailable "Hello world" None None Demo.payload1)
    as [Hlookup Hwrites].
  destruct (run_reprocesses_unchanged_source E Demo.payload1 w1 d
              "knowledge-base" "Hello world" existing Hlookup
              (Hwrites processing) Hown Hx eq_refl Hq Hne eq_refl)
    as (_ & _ & Hrest).
  destruct (Hrest Hitems eq_refl (Hwrites completed)) as (Hres & Hmut & _).
  split; [exact Hres|exact Hmut].
Defined.

(** C1, as stated, fails: a second sync right after a successful sync of
    an unchanged document, whose embeddings all record the [updatedAt] of
    the document, deletes them and upserts them again. *)
Lemma resync_mutates_index :
  let E := Demo.env "Hello world" None None in
  let w1 := fst (run E Demo.payload1 Demo.world0) in
  let existing :=
    [{| ee_id := "knowledge_base_document_doc-1_chunk0";
        ee_updatedAt := Some "2024-01-01T00:00:00.000Z" |}] in
  snd (run E Demo.payload1 Demo.world0) = inr (Succeeded "doc-1" 1) ∧
  findEmbeddingsForSource E (index w1) "doc-1" knowledge_base_document "org-1"
    = inr existing ∧
  (doc_updatedAt <$> db w1 !! "doc-1") = Some (doc_updatedAt Demo.doc1) ∧
  needsUpdate existing (toISOString E (doc_updatedAt Demo.doc1)) = false ∧
  snd (run E Demo.payload1 w1) = inr (Succeeded "doc-1" 1) ∧
  mutations (eventsSince w1 (fst (run E Demo.payload1 w1)))
    = [IndexDelete ["knowledge_base_document_doc-1_chunk0"];
       IndexUpsert (itemsOf E Demo.payload1 Demo.doc1 "Hello world")] ∧
  mutations (eventsSince w1 (fst (run E Demo.payload1 w1))) ≠ [].
Proof.
  intros E w1 existing.
  repeat split; try (vm_compute; reflexivity).
  vm_compute. discriminate.
Qed.

(** ** Failures of the deletion *)

Lemma indexCalls_app (a b : list Event) :
  indexCalls (a ++ b) = (indexCalls a ++ indexCalls b)%list.
Proof. apply List.filter_app. Qed.

Lemma similar_refl (w : World) : similar w w.
Proof. by repeat split. Qed.

Lemma sameOutcome_refl {A} (x : World * (Js.exn + A)) : sameOutcome x x.
Proof. split; [done|apply similar_refl]. Qed.

Lemma similar_addEvents (w w' : World) (evs evs' : list Event) :
  similar w w' → indexCalls evs = indexCalls evs' →
  dbCalls evs = dbCalls evs' →
  similar (addEvents w evs) (addEvents w' evs').
Proof.
  intros (Hdb & Hclock & Hcalls & Hdbc) Hevs Hdevs.
  repeat split; [done|done| |]; cbn [trace addEvents].
  - by rewrite !indexCalls_app, Hcalls, Hevs.
  - by rewrite !dbCalls_app, Hdbc, Hdevs.
Qed.

Section Respectful.

Context {A B : Type}.

Lemma respectful_ret (a : A) : respectful (mret a : M A).
Proof. intros w w' Hs. by split. Qed.

Lemma respectful_throw (e : Js.exn) : respectful (throw e : M A).
Proof. intros w w' Hs. by split. Qed.

Lemma respectful_bind (m : M A) (k : A → M B) :
  respectful m → (∀ a, respectful (k a)) → respectful (m ≫= k).
Proof.
  intros Hm Hk w w' Hs. destruct (Hm w w' Hs) as (Hr & Hw).
  unfold mbind, M_bind, bind.
  destruct (m w) as [w1 r1], (m w') as [w1' r1']. cbn [fst snd] in *.
  subst r1'. destruct r1 as [e|a]; [by split|]. by apply Hk.
Qed.

Lemma respectful_tryCatch (m : M A) (h : Js.exn → M A) :
  respectful m → (∀ e, respectful (h e)) → respectful (tryCatch m h).
Proof.
  intros Hm Hh w w' Hs. destruct (Hm w w' Hs) as (Hr & Hw).
  unfold tryCatch.
  destruct (m w) as [w1 r1], (m w') as [w1' r1']. cbn [fst snd] in *.
  subst r1'. destruct r1 as [e|a]; [by apply Hh|by split].
Qed.

(** Two computations that start the same way and go on with
    continuations that end the same way. *)
Lemma sameOutcome_bind (m : M A) (k k' : A → M B) (w : World) :
  (∀ a w1, m w = (w1, inr a) → sameOutcome (k a w1) (k' a w1)) →
  sameOutcome ((m ≫= k) w) ((m ≫= k') w).
Proof.
  intros Hk. unfold mbind, M_bind, bind.
  destruct (m w) as [w1 [e|a]]; [apply sameOutcome_refl|by apply Hk].
Qed.

End Respectful.

Lemma respectful_emit (e : Event) : respectful (emit e).
Proof.
  intros w w' Hs. split; [done|]. cbn [fst]. by apply similar_addEvents.
Qed.

Lemma respectful_logger (level : LogLevel) (message : string) :
  respectful (logger level message).
Proof. apply respectful_emit. Qed.

Lemma respectful_newDate : respectful newDate.
Proof.
  intros w w' Hs. rewrite !newDate_eq. split; [|done].
  destruct Hs as (_ & Hclock & _). cbn [snd]. by rewrite Hclock.
Qed.

Lemma respectful_update (E : Env) (id : string) (st : ProcessingStatus)
    (pa : option Date) :
  respectful (update E id st pa).
Proof.
  intros w w' Hs. pose proof Hs as (Hdb & Hclock & Hcalls & Hdbc).
  destruct (updateFailure E (dbCalls (trace w)) id st pa) as [e|] eqn:Hf.
  { rewrite (update_refused E id st pa w e Hf).
    rewrite (update_refused E id st pa w' e) by (by rewrite <- Hdbc).
    split; [done|]. by apply similar_addEvents. }
  destruct (db w !! id) as [d|] eqn:Hrow.
  - rewrite (update_written E id st pa w d Hf Hrow).
    rewrite (update_written E id st pa w' d)
      by (by rewrite <- ?Hdbc, <- ?Hdb).
    split; [done|]. cbn [fst].
    repeat split; cbn [db clock trace withDb addEvents];
      [by rewrite Hdb|done|by rewrite !indexCalls_app, Hcalls
      |by rewrite !dbCalls_app, Hdbc].
  - rewrite (update_absent E id st pa w Hf Hrow).
    rewrite (update_absent E id st pa w')
      by (by rewrite <- ?Hdbc, <- ?Hdb).
    split; [done|]. cbn [fst]. by apply similar_addEvents.
Qed.

Lemma respectful_batchUpsert (E : Env) (items : list ChunkItem) :
  respectful (batchUpsertEmbeddings E items).
Proof.
  intros w w' Hs. pose proof Hs as (Hdb & Hclock & Hcalls & Hdbc).
  destruct (upsertFailure E items) as [e|] eqn:Hf.
  - rewrite !(batchUpsert_throws E items _ e Hf).
    split; [done|]. cbn [fst].
    repeat split; cbn [db clock trace withIndex addEvents];
      [done|done|by rewrite !indexCalls_app, Hcalls
      |by rewrite !dbCalls_app, Hdbc].
  - rewrite !(batchUpsert_ok E items _ Hf).
    split; [done|]. cbn [fst].
    repeat split; cbn [db clock trace withIndex addEvents];
      [done|done|by rewrite !indexCalls_app, Hcalls
      |by rewrite !dbCalls_app, Hdbc].
Qed.

Create HintDb respectful.
#[local] Hint Resolve respectful_ret respectful_throw respectful_emit
  respectful_logger respectful_newDate respectful_update
  respectful_batchUpsert : respectful.

Ltac respectful :=
  repeat first
    [ solve [eauto with respectful]
    | apply respectful_tryCatch; [|intros ?]
    | apply respectful_bind; [|intros ?] ].

Lemma respectful_embedChunks (E : Env) (p : Payload)
    (d : KnowledgeBaseDocument) (content : string) :
  respectful (embedChunks E p d content).
Proof.
  unfold embedChunks. cbv zeta.
  destruct (length (chunkText E content 500 50) =? 0)%nat; [respectful|].
  match goal with
  | |- context [(0 <? ?n)%nat] => destruct (0 <? n)%nat
  end; respectful.
Qed.

Lemma respectful_runCatch (E : Env) (p : Payload) (e : Js.exn) :
  respectful (runCatch E p e).
Proof. unfold runCatch. respectful. Qed.

(** Whatever the plan for the failures of the deletion, the block ends in
    similar worlds. *)
Lemma deleteExisting_similar (E : Env) (f : list string → option Js.exn)
    (existing : list ExistingEmbedding) (w : World) :
  sameOutcome (deleteExisting (withDeleteFailure E f) existing w)
              (deleteExisting E existing w).
Proof.
  assert (Hcases : existing = [] ∨ existing ≠ [])
    by (destruct existing; [by left | by right]).
  destruct Hcases as [Hnil|Hne].
  { rewrite !deleteExisting_nothing by (by left). apply sameOutcome_refl. }
  destruct (vectorIndex E) eqn:Hv.
  2: { rewrite !deleteExisting_nothing by (by right).
       apply sameOutcome_refl. }
  assert (Hv' : vectorIndex (withDeleteFailure E f) = true) by done.
  destruct (f (map ee_id existing)) as [e'|] eqn:Hf';
    destruct (deleteFailure E (map ee_id existing)) as [e|] eqn:Hf.
  - rewrite (deleteExisting_swallowed _ existing w e' Hne Hv' Hf').
    rewrite (deleteExisting_swallowed _ existing w e Hne Hv Hf).
    apply sameOutcome_refl.
  - rewrite (deleteExisting_swallowed _ existing w e' Hne Hv' Hf').
    rewrite (deleteExisting_deleted _ existing w Hne Hv Hf).
    split; [done|]. cbn [fst]. repeat split;
      cbn [trace withIndex addEvents];
      by rewrite ?indexCalls_app, ?dbCalls_app.
  - rewrite (deleteExisting_deleted _ existing w Hne Hv' Hf').
    rewrite (deleteExisting_swallowed _ existing w e Hne Hv Hf).
    split; [done|]. cbn [fst]. repeat split;
      cbn [trace withIndex addEvents];
      by rewrite ?indexCalls_app, ?dbCalls_app.
  - rewrite (deleteExisting_deleted _ existing w Hne Hv' Hf').
    rewrite (deleteExisting_deleted _ existing w Hne Hv Hf).
    apply sameOutcome_refl.
Qed.

(** The run ends in similar worlds, with the same result. *)
Lemma run_similar (E : Env) (f : list string → option Js.exn) (p : Payload)
    (w : World) :
  sameOutcome (run (withDeleteFailure E f) p w) (run E p w).
Proof.
  unfold run. apply sameOutcome_bind. intros [] w1 _.
  assert (Htry : sameOutcome (runTry (withDeleteFailure E f) p w1)
                             (runTry E p w1)).
  { unfold runTry.
    change (findUnique (withDeleteFailure E f)) with (findUnique E).
    apply sameOutcome_bind. intros [d|] w2 _;
      [|apply sameOutcome_refl].
    unfold processDocument.
    change (update (withDeleteFailure E f)) with (update E).
    apply sameOutcome_bind. intros [] w3 _.
    apply sameOutcome_bind. intros [] w4 _.
    change (extractContentFromKnowledgeBaseDocument (withDeleteFailure E f))
      with (extractContentFromKnowledgeBaseDocument E).
    apply sameOutcome_bind. intros content w5 _.
    destruct (_ || _); [apply sameOutcome_refl|].
    apply sameOutcome_bind. intros [] w6 _.
    change (findEmbeddings (withDeleteFailure E f))
      with (findEmbeddings E).
    apply sameOutcome_bind. intros existing w7 _.
    change (embedChunks (withDeleteFailure E f)) with (embedChunks E).
    destruct (deleteExisting_similar E f existing w7) as (Hr & Hs).
    destruct (deleteExisting_frame (withDeleteFailure E f) existing w7)
      as (w8' & evs' & Hd' & _).
    destruct (deleteExisting_frame E existing w7) as (w8 & evs & Hd & _).
    rewrite Hd', Hd in Hs. cbn [fst] in Hs.
    rewrite (bind_inr _ _ _ _ _ Hd'), (bind_inr _ _ _ _ _ Hd).
    by apply respectful_embedChunks. }
  destruct Htry as (Hr & Hs). unfold tryCatch.
  destruct (runTry (withDeleteFailure E f) p w1) as [w2' r'],
           (runTry E p w1) as [w2 r].
  cbn [fst snd] in *. subst r'. destruct r as [e|r]; [|by split].
  change (runCatch (withDeleteFailure E f)) with (runCatch E).
  by apply respectful_runCatch.
Qed.

Lemma deleteOldEmbeddings_returns (E : Env)
    (embeddings : list ExistingEmbedding) (logContext : gmap string string)
    (w : World) :
  ∃ w', deleteOldEmbeddings E embeddings logContext w = (w', inr tt) ∧
        db w' = db w.
Proof.
  unfold deleteOldEmbeddings.
  destruct (_ || _); [by exists w|].
  destruct (deleteFailure E (map ee_id embeddings)) as [e|] eqn:Hf.
  - erewrite tryCatch_inl; [|by apply vectorIndex_delete_throws].
    rewrite logger_eq. by eexists.
  - erewrite tryCatch_inr; [|by apply vectorIndex_delete_ok]. by eexists.
Qed.

(** C7: a failure of the deletion of the old embeddings is caught and
    logged, and the run goes on to chunking and upsert.
    [deleteOldEmbeddings] returns normally on every input, makes no call
    on an empty list, and on a delete call that throws adds a warning to
    the log and leaves the index as it was; the block of the task that
    deletes the old embeddings never throws either; and whatever the
    failures of the deletion are, the run returns the same result, leaves
    the same table and makes the same calls of the index. *)
Theorem delete_failure_is_swallowed :
  ∀ (E : Env) (embeddings : list ExistingEmbedding)
    (logContext : gmap string string) (w : World),
    (∃ w', deleteOldEmbeddings E embeddings logContext w = (w', inr tt) ∧
           db w' = db w) ∧
    deleteOldEmbeddings E [] logContext w = (w, inr tt) ∧
    (∀ e, embeddings ≠ [] → vectorIndex E = true →
          deleteFailure E (map ee_id embeddings) = Some e →
          deleteOldEmbeddings E embeddings logContext w =
          (addEvents w [IndexDelete (map ee_id embeddings);
                        Log warn "Failed to delete old embeddings"],
           inr tt)) ∧
    (∃ w', deleteExisting E embeddings w = (w', inr tt) ∧ db w' = db w) ∧
    (∀ e, embeddings ≠ [] → vectorIndex E = true →
          deleteFailure E (map ee_id embeddings) = Some e →
          deleteExisting E embeddings w =
          (addEvents w [IndexDelete (map ee_id embeddings);
                        Log warn "Failed to delete existing embeddings"],
           inr tt)) ∧
    (∀ (f : list string → option Js.exn) (p : Payload),
       snd (run (withDeleteFailure E f) p w) = snd (run E p w) ∧
       db (fst (run (withDeleteFailure E f) p w)) = db (fst (run E p w)) ∧
       indexCalls (eventsSince w (fst (run (withDeleteFailure E f) p w)))
         = indexCalls (eventsSince w (fst (run E p w)))).
Proof.
  intros E embeddings logContext w.
  split; [apply deleteOldEmbeddings_returns|].
  split; [done|]. split; [|split; [|split]].
  - intros e Hne Hv Hf. unfold deleteOldEmbeddings. rewrite Hv.
    destruct embeddings as [|e0 rest]; [done|]. cbn [length Nat.eqb orb negb].
    erewrite tryCatch_inl; [|by apply vectorIndex_delete_throws].
    rewrite logger_eq. by autorewrite with world.
  - destruct (deleteExisting_frame E embeddings w)
      as (w1 & evs & Hd & _ & _ & Hdb & _). by exists w1.
  - intros e. apply deleteExisting_swallowed.
  - intros f p.
    destruct (run_similar E f p w) as (Hres & Hdb & _ & Hcalls & _).
    split; [done|]. split; [done|].
    destruct (run_frame (withDeleteFailure E f) p w)
      as (w1' & r' & evs' & Hrun' & Ht' & _).
    destruct (run_frame E p w) as (w1 & r & evs & Hrun & Ht & _).
    rewrite Hrun', Hrun in *. cbn [fst] in *.
    rewrite (eventsSince_app w w1' evs' Ht'), (eventsSince_app w w1 evs Ht).
    rewrite Ht', Ht, !indexCalls_app in Hcalls.
    by apply app_inv_head in Hcalls.
Qed.

(** C7 in the concrete world: the document is synced once, and synced
    again with an index whose delete call throws. *)
Lemma delete_failure_is_swallowed_witness :
  let w1 := fst (run (Demo.env "Hello world" None None) Demo.payload1
                     Demo.world0) in
  snd (run (Demo.env "Hello world" (Some (Js.Error "index unavailable"))
                     None)
           Demo.payload1 w1)
    = inr (Succeeded "doc-1" 1) ∧
  snd (deleteOldEmbeddings
         (Demo.env "Hello world" (Some (Js.Error "index unavailable")) None)
         [{| ee_id := "knowledge_base_document_doc-1_chunk0";
             ee_updatedAt := Some "2024-01-01T00:00:00.000Z" |}]
         ∅ w1) = inr tt.
Proof.
  intros w1.
  set (E := Demo.env "Hello world" None None).
  set (existing := [{| ee_id := "knowledge_base_document_doc-1_chunk0";
                       ee_updatedAt := Some "2024-01-01T00:00:00.000Z" |}]).
  split.
  - destruct (delete_failure_is_swallowed E existing ∅ w1)
      as (_ & _ & _ & _ & _ & Hsame).
    destruct (Hsame (fun _ => Some (Js.Error "index unavailable"))
                Demo.payload1) as (Hres & _).
    change (withDeleteFailure E
              (fun _ => Some (Js.Error "index unavailable")))
      with (Demo.env "Hello world" (Some (Js.Error "index unavailable"))
                     None) in Hres.
    rewrite Hres. vm_compute. reflexivity.
  - destruct (delete_failure_is_swallowed
                (Demo.env "Hello world"
                          (Some (Js.Error "index unavailable")) None)
                existing ∅ w1)
      as (_ & _ & Hcaught & _).
    rewrite (Hcaught (Js.Error "index unavailable"));
      [reflexivity|discriminate|reflexivity|reflexivity].
Defined.

(** ** Failures of the upsert and of the fetch *)

(** The run never throws. *)
Lemma run_returns (E : Env) (p : Payload) (w : World) :
  ∃ w' r, run E p w = (w', inr r).
Proof.
  destruct (run_frame E p w) as (w' & r & evs & Hrun & _). eauto.
Qed.

(** C8, as amended: when the fetch from the object store or the upsert
    into the vector index fails, the error is caught inside the run,
    which returns the failure as a value, [{ success: false, documentId,
    error }] with the message of the error; no run throws to the task
    runner.  Before it returns, the [catch] block writes the status
    'failed' with the current date as [processedAt]: the row ends
    'failed' when the database accepts that write; when the write throws
    as well, this is logged and the row stays in 'processing'. *)
Theorem run_failure_is_returned :
  ∀ (E : Env) (p : Payload) (w : World),
    (∃ w' r, run E p w = (w', inr r)) ∧
    (∀ d bucket e,
       lookupAnswers E p →
       writeAccepted E (documentId p) processing →
       owned w (documentId p) (organizationId p) d →
       fetchFails E d bucket e →
       snd (run E p w) = inr (Failed (documentId p) (Js.errorMessage e)) ∧
       (db (fst (run E p w))
          = <[doc_id d := setStatus failed (Some (clock w)) d]> (db w) ∨
        (db (fst (run E p w))
           = <[doc_id d := setStatus processing None d]> (db w) ∧
         updateFailureLogged (eventsSince w (fst (run E p w))))) ∧
       (writeAccepted E (documentId p) failed →
        db (fst (run E p w))
          = <[doc_id d := setStatus failed (Some (clock w)) d]> (db w))) ∧
    (∀ d bucket content existing e,
       lookupAnswers E p →
       writeAccepted E (documentId p) processing →
       owned w (documentId p) (organizationId p) d →
       extractionYields E d bucket content →
       nonBlank content = true →
       findEmbeddingsForSource E (index w) (doc_id d) knowledge_base_document
                               (organizationId p) = inr existing →
       itemsOf E p d content ≠ [] →
       upsertFailure E (itemsOf E p d content) = Some e →
       snd (run E p w) = inr (Failed (documentId p) (Js.errorMessage e)) ∧
       (db (fst (run E p w))
          = <[doc_id d := setStatus failed (Some (clock w)) d]> (db w) ∨
        (db (fst (run E p w))
           = <[doc_id d := setStatus processing None d]> (db w) ∧
         updateFailureLogged (eventsSince w (fst (run E p w))))) ∧
       (writeAccepted E (documentId p) failed →
        db (fst (run E p w))
          = <[doc_id d := setStatus failed (Some (clock w)) d]> (db w))).
Proof.
  intros E p w. split; [apply run_returns|]. split.
  - intros d bucket e Hlookup Hprocessing Hown Hfetch.
    rewrite (run_found E p w d Hlookup Hown).
    destruct Hown as (Hrow & Hid & Horg).
    erewrite tryCatch_inl.
    2: { unfold processDocument.
         erewrite bind_inr;
           [|apply update_found;
             [by rewrite Hid|cbn [db addEvents]; rewrite Hid; exact Hrow]].
         rewrite (bind_inr _ _ _ _ _ (logger_eq _ _ _)).
         erewrite bind_inl; [reflexivity|by apply extract_fetch_fails]. }
    match goal with
    | |- context [runCatch E p e ?w2] =>
        destruct (runCatch_status E p e w2 (setStatus processing None d))
          as (w3 & evs & Hc & Ht & Hcases & Haccepted);
          [cbn [db withDb addEvents]; rewrite <- Hid; apply lookup_insert_eq|]
    end.
    rewrite Hc. cbn [fst snd]. split; [done|].
    cbn [db clock withDb addEvents] in Hcases, Haccepted.
    rewrite <- Hid, insert_insert_eq in Hcases, Haccepted.
    split; [|intros Hacc; apply Haccepted; by rewrite ?Hid].
    destruct Hcases as [Hdb|[Hdb Hlog]]; [by left|right].
    split; [exact Hdb|].
    erewrite eventsSince_app;
      [|rewrite Ht; cbn [trace withDb addEvents]; rewrite <- !app_assoc;
        reflexivity].
    repeat apply updateFailureLogged_app. exact Hlog.
  - intros d bucket content existing e Hlookup Hprocessing Hown Hx Hnb Hq
      Hitems Hfail.
    rewrite (run_indexed E p w d bucket content existing) by done.
    set (w0 := withDb _ _).
    assert (Hrow0 : db w0 !! doc_id d = Some (setStatus processing None d)).
    { subst w0. cbn [db withDb]. apply lookup_insert_eq. }
    destruct (index_stage_upsert_throws E p d content existing w0 Hitems e
                Hfail) as (w2 & evs2 & Hstage & Ht2 & _ & Hdb2 & Hc2).
    rewrite (tryCatch_inl _ _ _ _ _ Hstage).
    destruct Hown as (Hrow & Hid & Horg).
    destruct (runCatch_status E p e w2 (setStatus processing None d))
      as (w3 & evs & Hc & Ht & Hcases & Haccepted);
      [rewrite Hdb2, <- Hid; exact Hrow0|].
    rewrite Hc. cbn [fst snd]. split; [done|].
    rewrite Hdb2, Hc2 in Hcases, Haccepted. subst w0.
    cbn [db clock withDb addEvents] in Hcases, Haccepted.
    rewrite <- Hid, insert_insert_eq in Hcases, Haccepted.
    split; [|intros Hacc; apply Haccepted; by rewrite ?Hid].
    destruct Hcases as [Hdb|[Hdb Hlog]]; [by left|right].
    split; [exact Hdb|].
    erewrite eventsSince_app;
      [|rewrite Ht, Ht2; cbn [trace withDb addEvents];
        rewrite <- !app_assoc; reflexivity].
    repeat apply updateFailureLogged_app. exact Hlog.
Qed.

(** C8 in the concrete world: the upsert fails. *)
Lemma run_failure_is_returned_witness :
  snd (run (Demo.env "Hello world" None (Some (Js.Error "index unavailable")))
           Demo.payload1 Demo.world0)
    = inr (Failed "doc-1" "index unavailable").
Proof.
  set (E := Demo.env "Hello world" None (Some (Js.Error "index unavailable"))).
  assert (Hown : owned Demo.world0 (documentId Demo.payload1)
                   (organizationId Demo.payload1) Demo.doc1)
    by (repeat split).
  assert (Hx : extractionYields E Demo.doc1 "knowledge-base" "Hello world").
  { repeat split; try done. by eexists _, _. }
  assert (Hitems : itemsOf E Demo.payload1 Demo.doc1 "Hello world" ≠ [])
    by (vm_compute; discriminate).
  destruct (demo_dbAvailable "Hello world" None
              (Some (Js.Error "index unavailable")) Demo.payload1)
    as [Hlookup Hwrites].
  destruct (run_failure_is_returned E Demo.payload1 Demo.world0)
    as (_ & _ & Hupsert).
  destruct (Hupsert Demo.doc1 "knowledge-base" "Hello world" []
              (Js.Error "index unavailable") Hlookup (Hwrites processing)
              Hown Hx eq_refl eq_refl Hitems eq_refl) as (Hres & _).
  exact Hres.
Defined.

(** C8, as stated, fails: when the upsert throws, the run marks the
    document 'failed' and then returns a value; nothing is thrown to the
    task runner, which sees a run that ended normally. *)
Lemma upsert_failure_not_rethrown :
  let E := Demo.env "Hello world" None
                    (Some (Js.Error "index unavailable")) in
  let outcome := run E Demo.payload1 Demo.world0 in
  upsertFailure E (itemsOf E Demo.payload1 Demo.doc1 "Hello world")
    = Some (Js.Error "index unavailable") ∧
  snd outcome = inr (Failed "doc-1" "index unavailable") ∧
  (doc_processingStatus <$> db (fst outcome) !! "doc-1") = Some failed ∧
  ¬ (∃ e, snd outcome = inl e).
Proof.
  intros E outcome.
  assert (Hres : snd outcome = inr (Failed "doc-1" "index unavailable"))
    by (vm_compute; reflexivity).
  split; [reflexivity|]. split; [exact Hres|].
  split; [vm_compute; reflexivity|].
  intros (e & He). rewrite Hres in He. discriminate He.
Qed.
(** ** The status a run leaves behind *)

Lemma extract_world (E : Env) (s3Key fileType : string) (w : World) :
  ∃ w' r,
    extractContentFromKnowledgeBaseDocument E s3Key fileType w = (w', r) ∧
    db w' = db w ∧ clock w' = clock w ∧ index w' = index w.
Proof.
  destruct (extract_frame E s3Key fileType w) as (evs & r & Hx & _).
  by exists (addEvents w evs), r.
Qed.

Lemma findEmbeddings_bind {B} (E : Env) (id : string) (st : SourceType)
    (org : string) (k : list ExistingEmbedding → M B) (w : World) :
  (findEmbeddings E id st org ≫= k) w =
  match findEmbeddingsForSource E (index w) id st org with
  | inl e => (addEvents w [IndexQuery id st org], inl e)
  | inr existing => k existing (addEvents w [IndexQuery id st org])
  end.
Proof.
  destruct (findEmbeddingsForSource E (index w) id st org) as [e|ex] eqn:Hq.
  - erewrite bind_inl; [done|]. by rewrite findEmbeddings_eq, Hq.
  - erewrite bind_inr; [done|]. by rewrite findEmbeddings_eq, Hq.
Qed.

Lemma embedChunks_status (E : Env) (p : Payload)
    (d d0 : KnowledgeBaseDocument) (content : string) (w : World) :
  db w !! doc_id d = Some d0 →
  ∃ w' r,
    embedChunks E p d content w = (w', r) ∧ clock w' = clock w ∧
    match r with
    | inl _ => db w' = db w
    | inr res =>
        documentOf res = doc_id d ∧
        db w' = <[doc_id d := setStatus (statusOf res) (Some (clock w)) d0]>
                  (db w)
    end.
Proof.
  intros Hrow. unfold embedChunks. fold (itemsOf E p d content).
  destruct (chunkText E content 500 50) as [|c0 cs] eqn:Hc.
  { cbn [length Nat.eqb].
    rewrite (bind_inr _ _ _ _ _ (logger_eq _ _ _)).
    rewrite (bind_inr _ _ _ _ _ (newDate_eq _)). cbv beta.
    match goal with
    | |- context [(update E ?id ?st ?pa ≫= _) ?w0] =>
        destruct (update_cases E id st pa w0 d0 Hrow) as [Hw|[e Hr]]
    end.
    - rewrite (bind_inr _ _ _ _ _ Hw). by eexists _, _.
    - rewrite (bind_inl _ _ _ _ _ Hr). by eexists _, _. }
  cbn [length Nat.eqb].
  rewrite (bind_inr _ _ _ _ _ (logger_eq _ _ _)).
  assert (Htail : ∀ w0 n,
    db w0 !! doc_id d = Some d0 →
    ∃ w1 r,
      (now ← newDate;
       update E (doc_id d) completed (Some now);;
       logger info "Successfully processed Knowledge Base document";;
       mret (Succeeded (doc_id d) n)) w0 = (w1, r) ∧
      clock w1 = clock w0 ∧
      match r with
      | inl _ => db w1 = db w0
      | inr res =>
          documentOf res = doc_id d ∧
          db w1 = <[doc_id d := setStatus (statusOf res) (Some (clock w0)) d0]>
                    (db w0)
      end).
  { intros w0 n Hrow0. rewrite (bind_inr _ _ _ _ _ (newDate_eq _)). cbv beta.
    destruct (update_cases E (doc_id d) completed (Some (clock w0)) w0 d0
                Hrow0) as [Hw|[e Hr]].
    - rewrite (bind_inr _ _ _ _ _ Hw).
      rewrite (bind_inr _ _ _ _ _ (logger_eq _ _ _)). by eexists _, _.
    - rewrite (bind_inl _ _ _ _ _ Hr). by eexists _, _. }
  destruct (itemsOf E p d content) as [|i0 more] eqn:Hi.
  { cbn [length Nat.ltb Nat.leb].
    unfold mret at 1, M_ret at 1.
    rewrite (bind_inr _ _ _ _ tt eq_refl).
    destruct (Htail (addEvents w [Log info "Created chunks for embedding"]) 0%nat
                Hrow) as (w1 & r & Hrun & Hclock & Hr).
    by exists w1, r. }
  cbn [length Nat.ltb Nat.leb].
  destruct (upsertFailure E (i0 :: more)) as [e|] eqn:Hf.
  - erewrite bind_inl;
      [|erewrite bind_inl; [reflexivity|by apply batchUpsert_throws]].
    by eexists _, _.
  - erewrite bind_inr;
      [|erewrite bind_inr; [apply logger_eq|by apply batchUpsert_ok]].
    match goal with
    | |- context [_ ?w0 = _] =>
        destruct (Htail w0 (S (length more)) Hrow)
          as (w1 & r & Hrun & Hclock & Hr)
    end.
    by exists w1, r.
Qed.

Lemma processDocument_status (E : Env) (p : Payload)
    (d d0 : KnowledgeBaseDocument) (w : World) :
  db w !! doc_id d = Some d0 →
  ∃ w' r,
    processDocument E p d w = (w', r) ∧ clock w' = clock w ∧
    match r with
    | inl _ => db w' = db w ∨
               db w' = <[doc_id d := setStatus processing None d0]> (db w)
    | inr res =>
        documentOf res = doc_id d ∧
        db w' = <[doc_id d := setStatus (statusOf res) (Some (clock w)) d0]>
                  (db w)
    end.
Proof.
  intros Hrow. unfold processDocument.
  destruct (update_cases E (doc_id d) processing None w d0 Hrow)
    as [Hw|[e Hr]].
  2: { rewrite (bind_inl _ _ _ _ _ Hr). eexists _, _.
       split; [reflexivity|]. split; [done|by left]. }
  rewrite (bind_inr _ _ _ _ _ Hw).
  rewrite (bind_inr _ _ _ _ _ (logger_eq _ _ _)).
  autorewrite with world.
  match goal with
  | |- context [(extractContentFromKnowledgeBaseDocument E ?k ?t ≫= _) ?w0] =>
      destruct (extract_world E k t w0) as (w2 & r2 & Hx & Hd2 & Hc2 & Hi2)
  end.
  cbn [db clock index withDb addEvents] in Hd2, Hc2, Hi2.
  destruct r2 as [e|content].
  { rewrite (bind_inl _ _ _ _ _ Hx). eexists _, _.
    split; [reflexivity|]. split; [done|by right]. }
  rewrite (bind_inr _ _ _ _ _ Hx). rewrite blank_nonBlank.
  assert (Hrow2 : ∀ w3, db w3 = db w2 →
            db w3 !! doc_id d = Some (setStatus processing None d0)).
  { intros w3 ->. rewrite Hd2. apply lookup_insert_eq. }
  destruct (nonBlank content); cbn [negb].
  2: { rewrite (bind_inr _ _ _ _ _ (logger_eq _ _ _)).
       rewrite (bind_inr _ _ _ _ _ (newDate_eq _)). cbv beta.
       match goal with
       | |- context [(update E ?id ?st ?pa ≫= _) ?w0] =>
           destruct (update_cases E id st pa w0
                       (setStatus processing None d0))
             as [Hw3|[e Hr3]]; [by apply Hrow2|..]
       end.
       - rewrite (bind_inr _ _ _ _ _ Hw3).
         eexists _, _. split; [reflexivity|].
         cbn [db clock withDb addEvents documentOf statusOf].
         rewrite Hc2, Hd2, insert_insert_eq, setStatus_setStatus. done.
       - rewrite (bind_inl _ _ _ _ _ Hr3).
         eexists _, _. split; [reflexivity|].
         cbn [db clock withDb addEvents]. split; [done|]. by right. }
  rewrite (bind_inr _ _ _ _ _ (logger_eq _ _ _)).
  rewrite findEmbeddings_bind.
  destruct (findEmbeddingsForSource E _ _ _ _) as [e|existing].
  { eexists _, _. split; [reflexivity|]. cbn [db clock addEvents].
    split; [done|by right]. }
  match goal with
  | |- context [(deleteExisting E existing ≫= _) ?w0] =>
      destruct (deleteExisting_frame E existing w0)
        as (w4 & evs4 & Hd4 & Ht4 & Hm4 & Hdb4 & Hc4)
  end.
  rewrite (bind_inr _ _ _ _ _ Hd4).
  cbn [db clock addEvents] in Hdb4, Hc4.
  destruct (embedChunks_status E p d (setStatus processing None d0) content w4)
    as (w5 & r5 & He5 & Hc5 & Hr5).
  { rewrite Hdb4. by apply Hrow2. }
  rewrite He5. eexists _, _. split; [reflexivity|].
  split; [by rewrite Hc5, Hc4, Hc2|].
  destruct r5 as [e|res].
  - right. by rewrite Hr5, Hdb4, Hd2.
  - destruct Hr5 as [Hid Hr5]. split; [done|].
    rewrite Hr5, Hdb4, Hd2, Hc4, Hc2, insert_insert_eq, setStatus_setStatus.
    done.
Qed.

(** The outcome of a run on a row that is there and belongs to the
    organization of the payload, whatever the database does. *)
Lemma run_owned_outcome (E : Env) (p : Payload) (w : World)
    (d : KnowledgeBaseDocument) :
  owned w (documentId p) (organizationId p) d →
  ∃ w' r,
    run E p w = (w', inr r) ∧
    documentOf r = documentId p ∧
    clock w' = clock w ∧
    (db w' = <[documentId p := setStatus (statusOf r) (Some (clock w)) d]>
               (db w) ∨
     (statusOf r = failed ∧
      updateFailureLogged (eventsSince w w') ∧
      (db w' = db w ∨
       db w' = <[documentId p := setStatus processing None d]> (db w)))) ∧
    (writeAccepted E (documentId p) failed →
     db w' = <[documentId p := setStatus (statusOf r) (Some (clock w)) d]>
               (db w)).
Proof.
  intros Hown.
  destruct (findUniqueFailure E (dbCalls (trace w)) (documentId p)
              (organizationId p)) as [e|] eqn:Hlookup.
  { destruct (run_lookup_failure E p w e Hlookup)
      as (w' & evs & Hrun & Htrace & _ & _ & _ & Hclock & Hrow & Hacc).
    destruct Hown as (Hd & _ & _). rewrite Hd in Hrow.
    exists w'. eexists. split; [exact Hrun|].
    cbn [documentOf statusOf]. split; [done|]. split; [done|].
    rewrite (eventsSince_app _ _ _ Htrace). split.
    - destruct Hrow as [Hrow|[Hrow Hlog]]; [by left|right]. eauto.
    - intros Haccepted. by apply Hacc. }
  rewrite (run_lookup_answered E p w Hlookup).
  destruct Hown as (Hrow & Hid & Horg).
  rewrite Hrow, decide_True by done.
  set (w1 := addEvents w _).
  assert (Hrow1 : db w1 !! doc_id d = Some d) by (by rewrite Hid).
  destruct (processDocument_status E p d d w1 Hrow1)
    as (w2 & r2 & Hpd & Hc2 & Hr2).
  destruct (processDocument_frame E p d w1)
    as (w2' & r2' & evs2 & Hpd' & Ht2 & _).
  rewrite Hpd in Hpd'. injection Hpd' as <- <-.
  destruct r2 as [e|res].
  - rewrite (tryCatch_inl _ _ _ _ _ Hpd).
    assert (Hrow2 : ∃ d2, db w2 !! documentId p = Some d2 ∧
                          setStatus failed (Some (clock w)) d2
                            = setStatus failed (Some (clock w)) d).
    { destruct Hr2 as [->| ->].
      - exists d. by rewrite <- Hid.
      - eexists. rewrite Hid, lookup_insert_eq. done. }
    destruct Hrow2 as (d2 & Hrow2 & Hsame).
    destruct (runCatch_status E p e w2 d2 Hrow2)
      as (w3 & evs3 & Hc & Ht3 & Hcases & Haccepted).
    rewrite Hc2 in Hcases, Haccepted. subst w1.
    cbn [clock addEvents] in Hcases, Haccepted.
    rewrite Hsame in Hcases, Haccepted.
    assert (Hsettled :
      <[documentId p := setStatus failed (Some (clock w)) d]> (db w2)
      = <[documentId p := setStatus failed (Some (clock w)) d]> (db w)).
    { destruct Hr2 as [->| ->]; [done|].
      cbn [db addEvents]. by rewrite Hid, insert_insert_eq. }
    rewrite Hsettled in Hcases, Haccepted.
    exists w3. eexists. split; [exact Hc|].
    cbn [documentOf statusOf]. split; [done|].
    split.
    { pose proof (runCatch_clock E p e w2) as [Hclock3 _].
      rewrite Hc in Hclock3. cbn [fst] in Hclock3. by rewrite Hclock3, Hc2. }
    split; [|exact Haccepted].
    destruct Hcases as [Hdb|[Hdb Hlog]]; [by left|right].
    split; [done|]. split.
    + erewrite eventsSince_app;
        [|rewrite Ht3, Ht2; cbn [trace addEvents]; rewrite <- !app_assoc;
          reflexivity].
      repeat apply updateFailureLogged_app. exact Hlog.
    + rewrite Hdb. destruct Hr2 as [->| ->]; [by left|right].
      cbn [db addEvents]. by rewrite Hid.
  - rewrite (tryCatch_inr _ _ _ _ _ Hpd). destruct Hr2 as [Hdoc Hdb].
    exists w2, res. split; [reflexivity|].
    split; [by rewrite Hdoc|]. split; [done|].
    assert (Hsettled :
      db w2 = <[documentId p := setStatus (statusOf res) (Some (clock w)) d]>
                (db w)) by (by rewrite Hdb, Hid).
    split; [by left|done].
Qed.

(** X1.  When the document is found, [run] returns a result that names
    it, and the row of the document ends with the status the result stands
    for ([completed] for a success, [failed] for a failure) and with the
    time of the run as [processedAt], unless the result is a failure and
    the write of 'failed' in the [catch] block was refused by the
    database: then the log says so, and the row is as it was before the
    run or is left in 'processing'.  When the database accepts the writes
    of 'failed' to the row, the row always ends with the status of the
    result.  Nothing else in the table changes. *)
Theorem run_settles_status :
  ∀ (E : Env) (p : Payload) (w : World) (d : KnowledgeBaseDocument),
    owned w (documentId p) (organizationId p) d →
    ∃ w' r,
      run E p w = (w', inr r) ∧
      documentOf r = documentId p ∧
      clock w' = clock w ∧
      (db w' = <[documentId p := setStatus (statusOf r) (Some (clock w)) d]>
                 (db w) ∨
       (statusOf r = failed ∧
        updateFailureLogged (eventsSince w w') ∧
        (db w' = db w ∨
         db w' = <[documentId p := setStatus processing None d]> (db w)))) ∧
      (writeAccepted E (documentId p) failed →
       db w' = <[documentId p := setStatus (statusOf r) (Some (clock w)) d]>
                 (db w)).
Proof. intros E p w d Hown. by apply run_owned_outcome. Qed.

Lemma run_settles_status_witness :
  ∃ w' r,
    run (Demo.env "Hello world" None (Some (Js.Error "index unavailable")))
        Demo.payload1 Demo.world0 = (w', inr r) ∧
    documentOf r = "doc-1" ∧
    db w' = <["doc-1" := setStatus (statusOf r) (Some (clock Demo.world0))
                                   Demo.doc1]> (db Demo.world0) ∧
    clock w' = clock Demo.world0.
Proof.
  destruct (run_settles_status
              (Demo.env "Hello world" None
                        (Some (Js.Error "index unavailable")))
              Demo.payload1 Demo.world0 Demo.doc1)
    as (w' & r & Hrun & Hdoc & Hclock & _ & Hdb).
  { unfold owned. vm_compute. repeat split. }
  exists w', r. split; [exact Hrun|]. split; [exact Hdoc|].
  split; [|exact Hclock]. by apply Hdb.
Defined.

(** What a run does to the table: nothing, or one write to the row that
    has the id of the payload. *)
Lemma run_db_shape (E : Env) (p : Payload) (w : World) :
  wellKeyed w →
  db (fst (run E p w)) = db w ∨
  ∃ d status processedAt,
    db w !! documentId p = Some d ∧
    db (fst (run E p w))
      = <[documentId p := setStatus status processedAt d]> (db w) ∧
    (writeAccepted E (documentId p) failed → status ≠ processing).
Proof.
  intros Hkeys.
  destruct (db w !! documentId p) as [d|] eqn:Hrow.
  2: { left.
       destruct (findUniqueFailure E (dbCalls (trace w)) (documentId p)
                   (organizationId p)) as [e|] eqn:Hlookup.
       - destruct (run_lookup_failure E p w e Hlookup)
           as (w' & evs & Hrun & _ & _ & _ & _ & _ & Hdb & _).
         rewrite Hrow in Hdb. rewrite Hrun. by destruct Hdb.
       - rewrite (run_not_found E p w Hlookup); [done|].
         intros d. by rewrite Hrow. }
  destruct (decide (doc_organizationId d = organizationId p)) as [Horg|Horg].
  - destruct (run_owned_outcome E p w d)
      as (w' & r & Hrun & _ & _ & Hcases & Hacc).
    { split; [done|]. split; [by apply Hkeys|done]. }
    rewrite Hrun. cbn [fst].
    destruct Hcases as [Hdb|(Hfailed & _ & [Hdb|Hdb])].
    + right. exists d, (statusOf r), (Some (clock w)).
      split; [done|]. split; [done|]. intros _. by destruct r.
    + by left.
    + right. exists d, processing, None. split; [done|]. split; [done|].
      intros Haccepted. specialize (Hacc Haccepted).
      rewrite Hdb in Hacc.
      apply (f_equal (fun m => doc_processingStatus <$> m !! documentId p))
        in Hacc.
      rewrite !lookup_insert_eq in Hacc. cbn in Hacc. by destruct r.
  - destruct (findUniqueFailure E (dbCalls (trace w)) (documentId p)
                (organizationId p)) as [e|] eqn:Hlookup.
    + destruct (run_lookup_failure E p w e Hlookup)
        as (w' & evs & Hrun & _ & _ & _ & _ & _ & Hdb & _).
      rewrite Hrow in Hdb. rewrite Hrun. cbn [fst].
      destruct Hdb as [Hdb|[Hdb _]]; [right|by left].
      by exists d, failed, (Some (clock w)).
    + left. rewrite (run_not_found E p w Hlookup); [done|].
      intros d'. rewrite Hrow. by intros [= <-].
Qed.

(** X2.  On a table whose rows are stored under their own ids, a run
    touches no row but the one that has the id of its payload, adds and
    removes none, and keeps the rows under their ids.  When the database
    accepts the writes of 'failed' to that row, the run leaves no row in
    [processing] that was not there already. *)
Theorem run_leaves_no_processing :
  ∀ (E : Env) (p : Payload) (w : World),
    wellKeyed w →
    let w' := fst (run E p w) in
    wellKeyed w' ∧
    (∀ id, id ≠ documentId p → db w' !! id = db w !! id) ∧
    (∀ id, is_Some (db w' !! id) ↔ is_Some (db w !! id)) ∧
    (writeAccepted E (documentId p) failed →
     ∀ id d', db w' !! id = Some d' → doc_processingStatus d' = processing →
              db w !! id = Some d').
Proof.
  intros E p w Hkeys w'.
  destruct (run_db_shape E p w Hkeys)
    as [Hdb|(d & status & processedAt & Hrow & Hdb & Hstatus)];
    fold w' in Hdb.
  { unfold wellKeyed. rewrite Hdb. by repeat split. }
  clearbody w'.
  split; [|split; [|split]].
  - intros id d'. rewrite Hdb.
    destruct (decide (id = documentId p)) as [->|Hne].
    + rewrite lookup_insert_eq. intros [= <-]. cbn. by apply Hkeys.
    + rewrite lookup_insert_ne by done. apply Hkeys.
  - intros id Hne. rewrite Hdb. by rewrite lookup_insert_ne.
  - intros id. rewrite Hdb. destruct (decide (id = documentId p)) as [->|Hne].
    + rewrite lookup_insert_eq, Hrow. split; eauto.
    + by rewrite lookup_insert_ne.
  - intros Hacc id d'. rewrite Hdb.
    destruct (decide (id = documentId p)) as [->|Hne].
    + rewrite lookup_insert_eq. intros [= <-]. cbn. intros Hp.
      by destruct (Hstatus Hacc).
    + by rewrite lookup_insert_ne.
Qed.

Lemma run_leaves_no_processing_witness :
  let w' := fst (run (Demo.env "Hello world" None None) Demo.payload1
                     Demo.world0) in
  wellKeyed w' ∧
  (∀ id, id ≠ "doc-1" → db w' !! id = db Demo.world0 !! id) ∧
  (∀ id, is_Some (db w' !! id) ↔ is_Some (db Demo.world0 !! id)) ∧
  (∀ id d', db w' !! id = Some d' → doc_processingStatus d' = processing →
            db Demo.world0 !! id = Some d').
Proof.
  destruct (run_leaves_no_processing (Demo.env "Hello world" None None)
              Demo.payload1 Demo.world0) as (Hkeys & Hother & Hsame & Hnone).
  { intros id d. unfold Demo.world0. cbn [db].
    intros [<- <-]%lookup_singleton_Some. reflexivity. }
  split; [exact Hkeys|]. split; [exact Hother|]. split; [exact Hsame|].
  by apply Hnone.
Defined.

(** ** Runs without configuration *)

Lemma extract_no_bucket (E : Env) (s3Key fileType : string) (w : World) :
  Js.falsy_opt (APP_AWS_KNOWLEDGE_BASE_BUCKET E) = true →
  extractContentFromKnowledgeBaseDocument E s3Key fileType w =
  (w, inl (Js.Error "Knowledge base bucket is not configured. Please set APP_AWS_KNOWLEDGE_BASE_BUCKET environment variable in Trigger.dev.")).
Proof.
  intros H. unfold extractContentFromKnowledgeBaseDocument. by rewrite H.
Qed.

Lemma extract_no_credentials (E : Env) (s3Key fileType : string) (w : World) :
  Js.falsy_opt (APP_AWS_KNOWLEDGE_BASE_BUCKET E) = false →
  Js.falsy_opt (APP_AWS_ACCESS_KEY_ID E) ||
  Js.falsy_opt (APP_AWS_SECRET_ACCESS_KEY E) = true →
  extractContentFromKnowledgeBaseDocument E s3Key fileType w =
  (w, inl (Js.Error "AWS S3 credentials are missing. Please set APP_AWS_ACCESS_KEY_ID and APP_AWS_SECRET_ACCESS_KEY environment variables in Trigger.dev.")).
Proof.
  intros Hb Hc.
  unfold extractContentFromKnowledgeBaseDocument, createS3Client.
  rewrite Hb, Hc. by erewrite bind_inl.
Qed.

Lemma externalCalls_app (a b : list Event) :
  externalCalls (a ++ b) = (externalCalls a ++ externalCalls b)%list.
Proof. apply List.filter_app. Qed.

(** What the [catch] block makes of a run that threw after the row was
    set to 'processing'. *)
Lemma run_caught (E : Env) (p : Payload) (w w2 : World)
    (d : KnowledgeBaseDocument) (e : Js.exn) (evs2 : list Event) :
  doc_id d = documentId p →
  trace w2 = (trace w ++ evs2)%list →
  db w2 = <[documentId p := setStatus processing None d]> (db w) →
  clock w2 = clock w →
  snd (runCatch E p e w2)
    = inr (Failed (documentId p) (Js.errorMessage e)) ∧
  index (fst (runCatch E p e w2)) = index w2 ∧
  externalCalls (eventsSince w (fst (runCatch E p e w2)))
    = externalCalls evs2 ∧
  mutations (eventsSince w (fst (runCatch E p e w2))) = mutations evs2 ∧
  (db (fst (runCatch E p e w2))
     = <[documentId p := setStatus failed (Some (clock w)) d]> (db w) ∨
   (db (fst (runCatch E p e w2))
      = <[documentId p := setStatus processing None d]> (db w) ∧
    updateFailureLogged (eventsSince w (fst (runCatch E p e w2))))) ∧
  (writeAccepted E (documentId p) failed →
   db (fst (runCatch E p e w2))
     = <[documentId p := setStatus failed (Some (clock w)) d]> (db w)).
Proof.
  intros Hid Ht2 Hdb2 Hc2.
  assert (Hrow2 : db w2 !! documentId p = Some (setStatus processing None d))
    by (rewrite Hdb2; apply lookup_insert_eq).
  assert (Hwritten :
    <[documentId p := setStatus failed (Some (clock w2))
                        (setStatus processing None d)]> (db w2)
    = <[documentId p := setStatus failed (Some (clock w)) d]> (db w))
    by (by rewrite Hdb2, Hc2, insert_insert_eq).
  assert (Hcases := runCatch_cases E p e w2 _ Hrow2).
  split; [by destruct Hcases as [-> | ->]|].
  split; [by destruct Hcases as [-> | ->]|].
  split.
  { destruct Hcases as [-> | ->]; cbn [fst];
      (erewrite eventsSince_app;
       [|cbn [trace withDb addEvents]; rewrite Ht2, <- app_assoc;
         reflexivity]);
      by rewrite externalCalls_app, app_nil_r. }
  split.
  { destruct Hcases as [-> | ->]; cbn [fst];
      (erewrite eventsSince_app;
       [|cbn [trace withDb addEvents]; rewrite Ht2, <- app_assoc;
         reflexivity]);
      by rewrite mutations_app, app_nil_r. }
  split.
  - destruct Hcases as [-> | ->]; cbn [fst db withDb addEvents].
    + left. exact Hwritten.
    + right. split; [exact Hdb2|].
      erewrite eventsSince_app;
        [|cbn [trace addEvents]; rewrite Ht2, <- app_assoc; reflexivity].
      apply updateFailureLogged_app. logged.
  - intros Hacc. rewrite (runCatch_found E p e w2 _ Hacc Hrow2).
    cbn [fst db withDb]. exact Hwritten.
Qed.

(** A run whose extraction throws before it reaches the object store. *)
Lemma run_extraction_throws_early (E : Env) (p : Payload) (w : World)
    (d : KnowledgeBaseDocument) (e : Js.exn) :
  lookupAnswers E p →
  writeAccepted E (documentId p) processing →
  owned w (documentId p) (organizationId p) d →
  (∀ w0, extractContentFromKnowledgeBaseDocument E (doc_s3Key d)
           (doc_fileType d) w0 = (w0, inl e)) →
  run E p w =
  runCatch E p e
    (withDb
       (addEvents w [Log info "Processing Knowledge Base document";
                     DbFindUnique (documentId p) (organizationId p);
                     DbUpdate (documentId p) processing None;
                     Log info "Extracting content from file"])
       (<[documentId p := setStatus processing None d]> (db w))).
Proof.
  intros Hlookup Hacc Hown Hx. rewrite (run_found E p w d Hlookup Hown).
  destruct Hown as (Hrow & Hid & Horg).
  erewrite tryCatch_inl.
  2: { unfold processDocument.
       erewrite bind_inr;
         [|apply (update_found _ _ _ _ _ d); by rewrite Hid].
       rewrite (bind_inr _ _ _ _ _ (logger_eq _ _ _)).
       erewrite bind_inl; [reflexivity|apply Hx]. }
  autorewrite with world. cbn [db addEvents app]. by rewrite Hid.
Qed.

(** X3.  Without a bucket, or with a bucket but without one of the
    two credentials, a run that has found its document and set it to
    'processing' fails with the message of the missing setting (the bucket
    is checked first) and reaches neither the object store nor the vector
    index.  The [catch] block then writes 'failed': the row ends so when
    the database accepts the write, and stays in 'processing', with a line
    in the log, when it does not. *)
Theorem run_not_configured :
  ∀ (E : Env) (p : Payload) (w : World) (d : KnowledgeBaseDocument),
    lookupAnswers E p →
    writeAccepted E (documentId p) processing →
    owned w (documentId p) (organizationId p) d →
    Js.falsy_opt (APP_AWS_KNOWLEDGE_BASE_BUCKET E) ||
    Js.falsy_opt (APP_AWS_ACCESS_KEY_ID E) ||
    Js.falsy_opt (APP_AWS_SECRET_ACCESS_KEY E) = true →
    snd (run E p w) =
      inr (Failed (documentId p)
             (if Js.falsy_opt (APP_AWS_KNOWLEDGE_BASE_BUCKET E)
              then "Knowledge base bucket is not configured. Please set APP_AWS_KNOWLEDGE_BASE_BUCKET environment variable in Trigger.dev."
              else "AWS S3 credentials are missing. Please set APP_AWS_ACCESS_KEY_ID and APP_AWS_SECRET_ACCESS_KEY environment variables in Trigger.dev.")) ∧
    externalCalls (eventsSince w (fst (run E p w))) = [] ∧
    index (fst (run E p w)) = index w ∧
    (db (fst (run E p w))
       = <[documentId p := setStatus failed (Some (clock w)) d]> (db w) ∨
     (db (fst (run E p w))
        = <[documentId p := setStatus processing None d]> (db w) ∧
      updateFailureLogged (eventsSince w (fst (run E p w))))) ∧
    (writeAccepted E (documentId p) failed →
     db (fst (run E p w))
       = <[documentId p := setStatus failed (Some (clock w)) d]> (db w)).
Proof.
  intros E p w d Hlookup Hprocessing Hown Hcfg.
  assert (Hearly : ∀ e,
    (∀ w0, extractContentFromKnowledgeBaseDocument E (doc_s3Key d)
             (doc_fileType d) w0 = (w0, inl e)) →
    snd (run E p w) = inr (Failed (documentId p) (Js.errorMessage e)) ∧
    externalCalls (eventsSince w (fst (run E p w))) = [] ∧
    index (fst (run E p w)) = index w ∧
    (db (fst (run E p w))
       = <[documentId p := setStatus failed (Some (clock w)) d]> (db w) ∨
     (db (fst (run E p w))
        = <[documentId p := setStatus processing None d]> (db w) ∧
      updateFailureLogged (eventsSince w (fst (run E p w))))) ∧
    (writeAccepted E (documentId p) failed →
     db (fst (run E p w))
       = <[documentId p := setStatus failed (Some (clock w)) d]> (db w))).
  { intros e Hx.
    rewrite (run_extraction_throws_early E p w d e Hlookup Hprocessing Hown
               Hx).
    destruct Hown as (_ & Hid & _).
    match goal with
    | |- context [runCatch E p e ?w2] =>
        destruct (run_caught E p w w2 d e
                    [Log info "Processing Knowledge Base document";
                     DbFindUnique (documentId p) (organizationId p);
                     DbUpdate (documentId p) processing None;
                     Log info "Extracting content from file"]
                    Hid eq_refl eq_refl eq_refl)
          as (Hres & Hindex & Hcalls & _ & Hcases & Haccepted)
    end.
    by rewrite Hres, Hindex, Hcalls. }
  destruct (Js.falsy_opt (APP_AWS_KNOWLEDGE_BASE_BUCKET E)) eqn:Hb.
  - apply (Hearly _ (fun w0 => extract_no_bucket E _ _ w0 Hb)).
  - apply (Hearly _ (fun w0 => extract_no_credentials E _ _ w0 Hb Hcfg)).
Qed.

Lemma run_not_configured_witness :
  let E := withBucket (Demo.env "Hello world" None None) None in
  snd (run E Demo.payload1 Demo.world0) =
    inr (Failed "doc-1" "Knowledge base bucket is not configured. Please set APP_AWS_KNOWLEDGE_BASE_BUCKET environment variable in Trigger.dev.") ∧
  externalCalls (eventsSince Demo.world0 (fst (run E Demo.payload1 Demo.world0)))
    = [] ∧
  index (fst (run E Demo.payload1 Demo.world0)) = index Demo.world0 ∧
  db (fst (run E Demo.payload1 Demo.world0))
    = <["doc-1" := setStatus failed (Some (clock Demo.world0)) Demo.doc1]>
        (db Demo.world0).
Proof.
  intros E.
  assert (Hlookup : lookupAnswers E Demo.payload1) by done.
  assert (Hwrites : ∀ status, writeAccepted E "doc-1" status) by done.
  destruct (run_not_configured E Demo.payload1 Demo.world0 Demo.doc1
              Hlookup (Hwrites processing))
    as (Hres & Hcalls & Hindex & _ & Hdb).
  - unfold owned. vm_compute. repeat split.
  - reflexivity.
  - split; [exact Hres|]. split; [exact Hcalls|]. split; [exact Hindex|].
    by apply Hdb.
Defined.

(** ** Failures between the query and the upsert *)

Lemma deleted_id (idx : gmap string ChunkItem) (ids : list string)
    (id : string) :
  foldr delete idx ids !! id = if decide (id ∈ ids) then None else idx !! id.
Proof.
  induction ids as [|x ids IH]; [done|]. simpl.
  destruct (decide (x = id)) as [->|Hne].
  - rewrite lookup_delete_eq. rewrite decide_True; [done|left].
  - rewrite lookup_delete_ne, IH by done.
    destruct (decide (id ∈ ids)) as [Hin|Hin].
    + rewrite decide_True; [done|by right].
    + rewrite decide_False; [done|].
      intros [->|?]%elem_of_cons; done.
Qed.

(** X4.  When the query of the existing embeddings throws, the run
    fails with the message of the error and writes nothing to the vector
    index.  The [catch] block then writes 'failed': the row ends so when
    the database accepts the write, and stays in 'processing', with a line
    in the log, when it does not. *)
Theorem run_query_failure :
  ∀ (E : Env) (p : Payload) (w : World) (d : KnowledgeBaseDocument)
    (bucket content : string) (e : Js.exn),
    lookupAnswers E p →
    writeAccepted E (documentId p) processing →
    owned w (documentId p) (organizationId p) d →
    extractionYields E d bucket content →
    nonBlank content = true →
    findEmbeddingsForSource E (index w) (doc_id d) knowledge_base_document
                            (organizationId p) = inl e →
    snd (run E p w) = inr (Failed (documentId p) (Js.errorMessage e)) ∧
    mutations (eventsSince w (fst (run E p w))) = [] ∧
    externalCalls (eventsSince w (fst (run E p w)))
      = [StorageGet bucket (doc_s3Key d);
         IndexQuery (doc_id d) knowledge_base_document (organizationId p)] ∧
    index (fst (run E p w)) = index w ∧
    (db (fst (run E p w))
       = <[documentId p := setStatus failed (Some (clock w)) d]> (db w) ∨
     (db (fst (run E p w))
        = <[documentId p := setStatus processing None d]> (db w) ∧
      updateFailureLogged (eventsSince w (fst (run E p w))))) ∧
    (writeAccepted E (documentId p) failed →
     db (fst (run E p w))
       = <[documentId p := setStatus failed (Some (clock w)) d]> (db w)).
Proof.
  intros E p w d bucket content e Hlookup Hprocessing Hown Hx Hnb Hq.
  rewrite (run_found E p w d Hlookup Hown).
  destruct Hown as (Hrow & Hid & Horg).
  erewrite tryCatch_inl.
  2: { erewrite processDocument_extracted;
         [|by rewrite Hid|cbn [db addEvents]; rewrite Hid; exact Hrow
          |exact Hx].
       rewrite Hnb. cbn [negb].
       rewrite (bind_inr _ _ _ _ _ (logger_eq _ _ _)).
       rewrite findEmbeddings_bind. cbn [index addEvents withDb].
       rewrite Hq. reflexivity. }
  autorewrite with world. cbn [db addEvents].
  match goal with
  | |- context [runCatch E p e ?w2] =>
      destruct (run_caught E p w w2 d e
                  ([Log info "Processing Knowledge Base document";
                    DbFindUnique (documentId p) (organizationId p)] ++
                   [DbUpdate (doc_id d) processing None;
                    Log info "Extracting content from file";
                    StorageGet bucket (doc_s3Key d)] ++
                   [Log info "Content extracted successfully"] ++
                   [IndexQuery (doc_id d) knowledge_base_document
                               (organizationId p)]) Hid)
        as (Hres & Hindex & Hcalls & Hmut & Hcases & Haccepted);
        [reflexivity|cbn [db withDb]; by rewrite Hid|reflexivity|]
  end.
  by rewrite Hres, Hindex, Hcalls, Hmut.
Qed.

Lemma run_query_failure_witness :
  let E := withQuery (Demo.env "Hello world" None None)
             (fun _ _ _ _ => inl (Js.Error "index unavailable")) in
  snd (run E Demo.payload1 Demo.world0)
    = inr (Failed "doc-1" "index unavailable") ∧
  mutations (eventsSince Demo.world0 (fst (run E Demo.payload1 Demo.world0)))
    = [] ∧
  externalCalls (eventsSince Demo.world0
                   (fst (run E Demo.payload1 Demo.world0)))
    = [StorageGet "knowledge-base" "org-1/handbook.txt";
       IndexQuery "doc-1" knowledge_base_document "org-1"] ∧
  index (fst (run E Demo.payload1 Demo.world0)) = index Demo.world0 ∧
  db (fst (run E Demo.payload1 Demo.world0))
    = <["doc-1" := setStatus failed (Some (clock Demo.world0)) Demo.doc1]>
        (db Demo.world0).
Proof.
  intros E.
  assert (Hlookup : lookupAnswers E Demo.payload1) by done.
  assert (Hwrites : ∀ status, writeAccepted E "doc-1" status) by done.
  destruct (run_query_failure E Demo.payload1 Demo.world0 Demo.doc1
              "knowledge-base" "Hello world" (Js.Error "index unavailable")
              Hlookup (Hwrites processing))
    as (Hres & Hmut & Hcalls & Hindex & _ & Hdb).
  - unfold owned. vm_compute. repeat split.
  - unfold extractionYields. repeat split; [done|].
    eexists _, _. repeat split.
  - vm_compute. reflexivity.
  - reflexivity.
  - split; [exact Hres|]. split; [exact Hmut|]. split; [exact Hcalls|].
    split; [exact Hindex|]. by apply Hdb.
Defined.

Lemma elem_of_filter_list {A} (f : A → bool) (l : list A) (x : A) :
  x ∈ List.filter f l → x ∈ l.
Proof. rewrite !list_elem_of_In, filter_In. tauto. Qed.

Lemma upsertInto_other (E : Env) (idx : gmap string ChunkItem)
    (items : list ChunkItem) (id : string) :
  id ∉ map ci_id items → upsertInto E idx items !! id = idx !! id.
Proof.
  intros Hid. unfold upsertInto. destruct (vectorIndex E); [|done].
  by apply upserted_other_id.
Qed.

(** An entry of the index after an upsert was there before or is one of
    the items. *)
Lemma upsertInto_origin (E : Env) (idx : gmap string ChunkItem)
    (items : list ChunkItem) (id : string) (item : ChunkItem) :
  upsertInto E idx items !! id = Some item →
  idx !! id = Some item ∨ item ∈ items.
Proof.
  unfold upsertInto. destruct (vectorIndex E); [|by left].
  revert idx. induction items as [|a items IH]; cbn; intros idx H;
    [by left|].
  apply IH in H as [H|H]; [|right; by right].
  destruct (decide (ci_id a = id)) as [Heq|Hne].
  - rewrite Heq, lookup_insert_eq in H. injection H as ->. right. left.
  - rewrite lookup_insert_ne in H by done. by left.
Qed.

(** [embedChunks] when the content gives no chunks or the upsert throws:
    the block fails, having stored what the failing upsert stored. *)
Lemma embedChunks_fails (E : Env) (p : Payload)
    (d d0 : KnowledgeBaseDocument) (content : string) (w : World) :
  db w !! doc_id d = Some d0 →
  chunkText E content 500 50 = [] ∨
  (itemsOf E p d content ≠ [] ∧
   ∃ e, upsertFailure E (itemsOf E p d content) = Some e) →
  ∃ w' r evs,
    embedChunks E p d content w = (w', r) ∧
    trace w' = (trace w ++ evs)%list ∧ clock w' = clock w ∧
    index w' =
      upsertInto E (index w)
        (List.filter (upsertedBeforeFailure E (itemsOf E p d content))
                     (itemsOf E p d content)) ∧
    ((∃ message, r = inr (Failed (doc_id d) message)) ∧
     db w' = <[doc_id d := setStatus failed (Some (clock w)) d0]> (db w)
     ∨ (∃ e, r = inl e) ∧ db w' = db w).
Proof.
  intros Hrow [Hnone|(Hitems & e & Hup)].
  - unfold embedChunks. rewrite (itemsOf_no_chunks E p d content Hnone).
    rewrite Hnone. cbn [length Nat.eqb List.filter].
    rewrite (bind_inr _ _ _ _ _ (logger_eq _ _ _)).
    rewrite (bind_inr _ _ _ _ _ (newDate_eq _)). cbv beta.
    assert (Hsame : ∀ idx, upsertInto E idx [] = idx)
      by (intros idx; unfold upsertInto; by destruct (vectorIndex E)).
    rewrite Hsame.
    match goal with
    | |- context [(update E ?id ?st ?pa ≫= _) ?w0] =>
        destruct (update_cases E id st pa w0 d0 Hrow) as [Hw|[e Hr]]
    end.
    + rewrite (bind_inr _ _ _ _ _ Hw). eexists _, _, _.
      split; [reflexivity|]. autorewrite with world.
      split; [reflexivity|]. split; [done|]. split; [done|].
      left. split; [by eexists|done].
    + rewrite (bind_inl _ _ _ _ _ Hr). eexists _, _, _.
      split; [reflexivity|]. autorewrite with world.
      split; [reflexivity|]. split; [done|]. split; [done|].
      right. split; [by eexists|done].
  - rewrite (embed_upsert_throws E p d content w e Hitems Hup).
    eexists _, _, _. split; [reflexivity|].
    split; [reflexivity|]. split; [done|]. split; [done|].
    right. split; [by eexists|done].
Qed.

(** X5.  The replacement of the embeddings of a document is not atomic:
    when the old embeddings have been deleted and the run then fails,
    because the content gives no chunks or because the upsert throws, the
    run returns a failure and the index holds the old embeddings no more:
    an old id is there only if the failed upsert stored a new item under
    it.  Of the new items the index holds those the upsert stored before
    it threw, and when it stored none the document is left without any
    embedding.  The row ends 'failed' when the database accepts that
    write, and stays in 'processing', with a line in the log, when it does
    not. *)
Theorem run_failure_after_delete :
  ∀ (E : Env) (p : Payload) (w : World) (d : KnowledgeBaseDocument)
    (bucket content : string) (existing : list ExistingEmbedding),
    lookupAnswers E p →
    writeAccepted E (documentId p) processing →
    owned w (documentId p) (organizationId p) d →
    extractionYields E d bucket content →
    nonBlank content = true →
    findEmbeddingsForSource E (index w) (doc_id d) knowledge_base_document
                            (organizationId p) = inr existing →
    existing ≠ [] → vectorIndex E = true →
    deleteFailure E (map ee_id existing) = None →
    chunkText E content 500 50 = [] ∨
    (itemsOf E p d content ≠ [] ∧
     ∃ e, upsertFailure E (itemsOf E p d content) = Some e) →
    (∃ message,
       snd (run E p w) = inr (Failed (documentId p) message)) ∧
    index (fst (run E p w))
      = upsertInto E (foldr delete (index w) (map ee_id existing))
          (List.filter (upsertedBeforeFailure E (itemsOf E p d content))
                       (itemsOf E p d content)) ∧
    (∀ id, id ∈ map ee_id existing →
           id ∉ map ci_id (itemsOf E p d content) →
           index (fst (run E p w)) !! id = None) ∧
    (∀ id item,
       index (fst (run E p w)) !! id = Some item →
       (index w !! id = Some item ∧ id ∉ map ee_id existing) ∨
       (item ∈ itemsOf E p d content ∧
        upsertedBeforeFailure E (itemsOf E p d content) item = true)) ∧
    ((∀ item, upsertedBeforeFailure E (itemsOf E p d content) item = false) →
     index (fst (run E p w)) = foldr delete (index w) (map ee_id existing) ∧
     ∀ id, id ∈ map ee_id existing →
           index (fst (run E p w)) !! id = None) ∧
    (db (fst (run E p w))
       = <[documentId p := setStatus failed (Some (clock w)) d]> (db w) ∨
     (db (fst (run E p w))
        = <[documentId p := setStatus processing None d]> (db w) ∧
      updateFailureLogged (eventsSince w (fst (run E p w))))) ∧
    (writeAccepted E (documentId p) failed →
     db (fst (run E p w))
       = <[documentId p := setStatus failed (Some (clock w)) d]> (db w)).
Proof.
  intros E p w d bucket content existing Hlookup Hprocessing Hown Hx Hnb Hq
    Hne Hv Hdel Hfail.
  set (items := itemsOf E p d content).
  set (stored := List.filter (upsertedBeforeFailure E items) items).
  assert (Hgoal :
    (∃ message, snd (run E p w) = inr (Failed (documentId p) message)) ∧
    index (fst (run E p w))
      = upsertInto E (foldr delete (index w) (map ee_id existing)) stored ∧
    (db (fst (run E p w))
       = <[documentId p := setStatus failed (Some (clock w)) d]> (db w) ∨
     (db (fst (run E p w))
        = <[documentId p := setStatus processing None d]> (db w) ∧
      updateFailureLogged (eventsSince w (fst (run E p w))))) ∧
    (writeAccepted E (documentId p) failed →
     db (fst (run E p w))
       = <[documentId p := setStatus failed (Some (clock w)) d]> (db w))).
  2: { destruct Hgoal as (Hr & Hidx & Hdb & Hacc).
       split; [exact Hr|]. split; [exact Hidx|].
       split; [|split; [|split; [|split; [exact Hdb|exact Hacc]]]].
       - intros id Hin Hnew. rewrite Hidx, upsertInto_other.
         + rewrite deleted_id. by rewrite decide_True.
         + intros Hmem. apply Hnew.
           apply list_elem_of_fmap in Hmem as (item & -> & Hitem).
           apply list_elem_of_fmap. exists item. split; [done|].
           by apply elem_of_filter_list in Hitem.
       - intros id item. rewrite Hidx.
         intros [Hold|Hnew]%upsertInto_origin.
         + left. rewrite deleted_id in Hold.
           by destruct (decide (id ∈ map ee_id existing)).
         + right. subst stored.
           apply list_elem_of_In, filter_In in Hnew as [Hin Hstored].
           by apply list_elem_of_In in Hin.
       - intros Hnothing.
         assert (Hstored : stored = []).
         { assert (Hall : ∀ l,
                     List.filter (upsertedBeforeFailure E items) l = []).
           { induction l as [|a rest IH]; [done|].
             cbn. by rewrite Hnothing. }
           apply Hall. }
         rewrite Hidx, Hstored.
         assert (Hsame : ∀ idx, upsertInto E idx [] = idx)
           by (intros idx; unfold upsertInto; by destruct (vectorIndex E)).
         rewrite Hsame. split; [done|].
         intros id Hin. rewrite deleted_id. by rewrite decide_True. }
  rewrite (run_indexed E p w d bucket content existing Hlookup Hprocessing
             Hown Hx Hnb Hq).
  destruct Hown as (Hrow & Hid & Horg).
  set (w1 := withDb _ _).
  assert (Hrow1 : db w1 !! doc_id d = Some (setStatus processing None d)).
  { subst w1. cbn [db withDb]. apply lookup_insert_eq. }
  unfold tryCatch.
  rewrite (bind_inr _ _ _ _ _
             (deleteExisting_deleted E existing w1 Hne Hv Hdel)).
  match goal with
  | |- context [embedChunks E p d content ?w2] =>
      destruct (embedChunks_fails E p d (setStatus processing None d)
                  content w2 Hrow1 Hfail)
        as (w3 & r & evs & Hemb & Ht3 & Hc3 & Hi3 & Hcases)
  end.
  rewrite Hemb. fold items in Hi3. fold stored in Hi3.
  cbn [index clock db trace withIndex withDb addEvents] in Ht3, Hc3, Hi3,
    Hcases.
  destruct Hcases as [[(message & ->) Hdb3]|[(e & ->) Hdb3]].
  - cbn [fst snd]. rewrite Hid. split; [by eexists|]. split; [exact Hi3|].
    assert (Hdb : db w3 =
      <[documentId p := setStatus failed (Some (clock w)) d]> (db w)).
    { rewrite Hdb3. subst w1. cbn [db withDb]. rewrite <- Hid.
      by rewrite insert_insert_eq. }
    split; [by left|done].
  - destruct (run_caught E p w w3 d e
                ([Log info "Processing Knowledge Base document";
                  DbFindUnique (documentId p) (organizationId p);
                  DbUpdate (doc_id d) processing None;
                  Log info "Extracting content from file";
                  StorageGet bucket (doc_s3Key d);
                  Log info "Content extracted successfully";
                  IndexQuery (doc_id d) knowledge_base_document
                             (organizationId p)] ++
                 [IndexDelete (map ee_id existing);
                  Log info "Deleted existing embeddings"] ++ evs) Hid)
      as (Hres & Hindex & _ & _ & Hdb & Hacc).
    + rewrite Ht3. subst w1. cbn [trace withDb addEvents].
      by rewrite <- !app_assoc.
    + rewrite Hdb3. subst w1. cbn [db withDb]. by rewrite Hid.
    + rewrite Hc3. by subst w1.
    + rewrite Hres, Hindex. split; [by eexists|]. split; [exact Hi3|].
      split; [exact Hdb|exact Hacc].
Qed.

Lemma run_failure_after_delete_witness :
  let w1 := fst (run (Demo.env "Hello world" None None) Demo.payload1
                     Demo.world0) in
  let E := Demo.env "Hello world" None (Some (Js.Error "index unavailable")) in
  (∃ message, snd (run E Demo.payload1 w1) = inr (Failed "doc-1" message)) ∧
  index (fst (run E Demo.payload1 w1))
    = foldr delete (index w1) ["knowledge_base_document_doc-1_chunk0"] ∧
  index w1 !! "knowledge_base_document_doc-1_chunk0" ≠ None ∧
  index (fst (run E Demo.payload1 w1))
    !! "knowledge_base_document_doc-1_chunk0" = None ∧
  snd (run (withPartialUpsert E (fun _ _ => true)) Demo.payload1 w1)
    = inr (Failed "doc-1" "index unavailable") ∧
  is_Some (index (fst (run (withPartialUpsert E (fun _ _ => true))
                           Demo.payload1 w1))
             !! "knowledge_base_document_doc-1_chunk0").
Proof.
  intros w1 E.
  assert (Hlookup : lookupAnswers E Demo.payload1) by done.
  assert (Hwrites : ∀ status, writeAccepted E "doc-1" status) by done.
  destruct (run_failure_after_delete E Demo.payload1 w1
              (setStatus completed (Some (clock Demo.world0)) Demo.doc1)
              "knowledge-base" "Hello world"
              [{| ee_id := "knowledge_base_document_doc-1_chunk0";
                  ee_updatedAt := Some "2024-01-01T00:00:00.000Z" |}]
              Hlookup (Hwrites processing))
    as (Hr & _ & _ & _ & Hnothing & _).
  - unfold owned. subst w1. vm_compute. repeat split.
  - unfold extractionYields. repeat split; [done|].
    eexists _, _. repeat split.
  - vm_compute. reflexivity.
  - subst w1. vm_compute. reflexivity.
  - done.
  - reflexivity.
  - reflexivity.
  - right. split; [vm_compute; discriminate|]. eexists. reflexivity.
  - destruct Hnothing as [Hidx Hgone]; [done|].
    split; [exact Hr|]. split; [exact Hidx|]. split.
    { subst w1. vm_compute. discriminate. }
    split; [apply Hgone; left|].
    split; [subst w1; vm_compute; reflexivity|].
    subst w1. vm_compute. eexists. reflexivity.
Defined.

(** ** The calls a run makes, and their order *)

Lemma extract_calls (E : Env) (s3Key fileType : string) (w : World) :
  ∃ evs r,
    extractContentFromKnowledgeBaseDocument E s3Key fileType w
      = (addEvents w evs, r) ∧
    ((evs = [] ∧ ∃ e, r = inl e) ∨
     ∃ bucket, APP_AWS_KNOWLEDGE_BASE_BUCKET E = Some bucket ∧
               evs = [StorageGet bucket s3Key]).
Proof.
  unfold extractContentFromKnowledgeBaseDocument, createS3Client.
  destruct (APP_AWS_KNOWLEDGE_BASE_BUCKET E) as [bucket|] eqn:Hb.
  2: { eexists [], _. split; [|left; eauto].
       unfold throw, addEvents. destruct w. cbn. by rewrite app_nil_r. }
  destruct (Js.falsy_opt (Some bucket)).
  { eexists [], _. split; [|left; eauto].
    unfold throw, addEvents. destruct w. cbn. by rewrite app_nil_r. }
  destruct (_ || _).
  { eexists [], _. split; [|left; eauto].
    unfold mbind, M_bind, bind, throw, addEvents. destruct w. cbn.
    by rewrite app_nil_r. }
  unfold mbind, M_bind, bind, emit, liftOutcome, get, put, mret, M_ret, ret,
    throw.
  cbn -[orElse].
  destruct (s3_send E _ s3Key) as [e|response];
    [eexists [_], _; split; [done|right; eauto]|].
  destruct (Body response) as [buffer|];
    eexists [_], _; (split; [done|right; eauto]).
Qed.

Lemma deleteExisting_calls (E : Env) (existing : list ExistingEmbedding)
    (w : World) :
  ∃ w1 evs,
    deleteExisting E existing w = (w1, inr tt) ∧
    trace w1 = (trace w ++ evs)%list ∧
    externalCalls evs = deleteCalls E existing ∧
    db w1 = db w.
Proof.
  unfold deleteCalls.
  assert (Hcase : existing = [] ∨ existing ≠ [])
    by (destruct existing; [by left|by right]).
  destruct Hcase as [->|Hne].
  { rewrite deleteExisting_nothing by (by left).
    exists w, []. by rewrite app_nil_r. }
  replace (0 <? length existing)%nat with true by (by destruct existing).
  destruct (vectorIndex E) eqn:Hv.
  2: { rewrite deleteExisting_nothing by (by right).
       exists w, []. by rewrite app_nil_r. }
  destruct (deleteFailure E (map ee_id existing)) as [e|] eqn:Hf.
  - rewrite (deleteExisting_swallowed E existing w e) by done.
    by eexists _, _.
  - rewrite (deleteExisting_deleted E existing w) by done.
    by eexists _, _.
Qed.

Lemma embedChunks_calls (E : Env) (p : Payload)
    (d : KnowledgeBaseDocument) (content : string) (w : World) :
  ∃ w' r evs,
    embedChunks E p d content w = (w', r) ∧
    trace w' = (trace w ++ evs)%list ∧
    externalCalls evs = upsertCalls E p d content.
Proof. by apply embedChunks_filtered. Qed.

(** The [catch] block makes no call outside the process. *)
Lemma runCatch_calls (E : Env) (p : Payload) (e : Js.exn) (w : World) :
  ∃ w' evs,
    runCatch E p e w
      = (w', inr (Failed (documentId p) (Js.errorMessage e))) ∧
    trace w' = (trace w ++ evs)%list ∧ externalCalls evs = [].
Proof.
  destruct (db w !! documentId p) as [d0|] eqn:Hrow.
  - destruct (runCatch_cases E p e w d0 Hrow) as [H|H];
      rewrite H; by eexists _, _.
  - eexists _, _. by rewrite runCatch_missing.
Qed.

(** The shapes of the external calls of a run on the document [d],
    whatever the database does. *)
Lemma processDocument_calls (E : Env) (p : Payload)
    (d : KnowledgeBaseDocument) (w : World) :
  ∃ w' r evs,
    processDocument E p d w = (w', r) ∧
    trace w' = (trace w ++ evs)%list ∧
    (externalCalls evs = [] ∨
     ∃ bucket,
       APP_AWS_KNOWLEDGE_BASE_BUCKET E = Some bucket ∧
       (externalCalls evs = [StorageGet bucket (doc_s3Key d)] ∨
        externalCalls evs =
          [StorageGet bucket (doc_s3Key d);
           IndexQuery (doc_id d) knowledge_base_document (organizationId p)] ∨
        ∃ existing content,
          findEmbeddingsForSource E (index w) (doc_id d)
            knowledge_base_document (organizationId p) = inr existing ∧
          externalCalls evs =
            (StorageGet bucket (doc_s3Key d) ::
             IndexQuery (doc_id d) knowledge_base_document (organizationId p) ::
             deleteCalls E existing ++ upsertCalls E p d content)%list)).
Proof.
  unfold processDocument.
  destruct (update_frame E (doc_id d) processing None w)
    as (w1 & r1 & Hu & Ht1 & Hi1 & Hc1).
  destruct r1 as [e|[]].
  { rewrite (bind_inl _ _ _ _ _ Hu). eexists _, _, _.
    split; [done|]. split; [exact Ht1|]. by left. }
  rewrite (bind_inr _ _ _ _ _ Hu).
  rewrite (bind_inr _ _ _ _ _ (logger_eq _ _ _)).
  match goal with
  | |- context [(extractContentFromKnowledgeBaseDocument E ?k ?t ≫= _) ?w0] =>
      destruct (extract_calls E k t w0) as (evs2 & r2 & Hx & Hcalls)
  end.
  destruct Hcalls as [[-> [e ->]]|(bucket & Hb & ->)].
  { rewrite (bind_inl _ _ _ _ _ Hx). eexists _, _, _.
    split; [done|]. cbn [trace addEvents]. rewrite Ht1, <- !app_assoc.
    split; [reflexivity|]. by left. }
  destruct r2 as [e|content].
  { rewrite (bind_inl _ _ _ _ _ Hx). eexists _, _, _.
    split; [done|]. cbn [trace addEvents]. rewrite Ht1, <- !app_assoc.
    split; [reflexivity|].
    right. exists bucket. split; [done|]. by left. }
  rewrite (bind_inr _ _ _ _ _ Hx). rewrite blank_nonBlank.
  destruct (nonBlank content); cbn [negb].
  2: { rewrite (bind_inr _ _ _ _ _ (logger_eq _ _ _)).
       rewrite (bind_inr _ _ _ _ _ (newDate_eq _)). cbv beta.
       match goal with
       | |- context [(update E ?id ?st ?pa ≫= ?k) ?w0] =>
           destruct (update_then_quiet isExternalCall E id st pa (k tt) w0
                       eq_refl (ret_quiet _ _))
             as (w3 & r3 & evs3 & Hrun3 & Ht3 & Hq3 & _)
       end.
       eexists _, _, _. split; [exact Hrun3|].
       rewrite Ht3. cbn [trace addEvents]. rewrite Ht1, <- !app_assoc.
       split; [reflexivity|].
       right. exists bucket. split; [done|]. left.
       change (externalCalls
                 ([DbUpdate (doc_id d) processing None] ++
                  [Log info "Extracting content from file"] ++
                  [StorageGet bucket (doc_s3Key d)] ++
                  [Log warn "No content extracted from document"] ++ evs3))
         with (StorageGet bucket (doc_s3Key d) :: externalCalls evs3).
       unfold externalCalls. by rewrite Hq3. }
  rewrite (bind_inr _ _ _ _ _ (logger_eq _ _ _)).
  rewrite findEmbeddings_bind. cbn [index addEvents]. rewrite Hi1.
  destruct (findEmbeddingsForSource E _ _ _ _) as [e|existing] eqn:Hq.
  { eexists _, _, _. split; [reflexivity|].
    cbn [trace addEvents]. rewrite Ht1, <- !app_assoc.
    split; [reflexivity|].
    right. exists bucket. split; [done|]. right. by left. }
  match goal with
  | |- context [(deleteExisting E existing ≫= _) ?w0] =>
      destruct (deleteExisting_calls E existing w0)
        as (w4 & evs4 & Hd4 & Ht4 & Hm4 & Hdb4)
  end.
  rewrite (bind_inr _ _ _ _ _ Hd4).
  destruct (embedChunks_calls E p d content w4)
    as (w5 & r5 & evs5 & He5 & Ht5 & Hm5).
  rewrite He5. eexists _, _, _. split; [reflexivity|].
  split.
  { rewrite Ht5, Ht4. cbn [trace addEvents]. rewrite Ht1, <- !app_assoc.
    reflexivity. }
  right. exists bucket. split; [done|]. right. right.
  exists existing, content. split; [done|].
  change (externalCalls
            ([DbUpdate (doc_id d) processing None] ++
             [Log info "Extracting content from file"] ++
             [StorageGet bucket (doc_s3Key d)] ++
             [Log info "Content extracted successfully"] ++
             [IndexQuery (doc_id d) knowledge_base_document
                         (organizationId p)] ++ evs4 ++ evs5))
    with (StorageGet bucket (doc_s3Key d) ::
          IndexQuery (doc_id d) knowledge_base_document (organizationId p) ::
          externalCalls (evs4 ++ evs5)).
  by rewrite externalCalls_app, Hm4, Hm5.
Qed.

(** X6.  The calls a run makes outside the process follow one fixed
    order: one read of the object store, for the key of the document in
    the configured bucket; then one query of the vector index; then the
    delete call for what the query answered, if any; then the upsert call
    for the chunk items, if any.  A run stops anywhere along this sequence
    but never skips ahead, so it makes at most four such calls, and none
    when the document is not found. *)
Theorem run_call_order :
  ∀ (E : Env) (p : Payload) (w : World),
    wellKeyed w →
    let calls := externalCalls (eventsSince w (fst (run E p w))) in
    (calls = [] ∨
     ∃ d bucket,
       owned w (documentId p) (organizationId p) d ∧
       APP_AWS_KNOWLEDGE_BASE_BUCKET E = Some bucket ∧
       (calls = [StorageGet bucket (doc_s3Key d)] ∨
        calls =
          [StorageGet bucket (doc_s3Key d);
           IndexQuery (doc_id d) knowledge_base_document (organizationId p)] ∨
        ∃ existing content,
          findEmbeddingsForSource E (index w) (doc_id d)
            knowledge_base_document (organizationId p) = inr existing ∧
          calls =
            (StorageGet bucket (doc_s3Key d) ::
             IndexQuery (doc_id d) knowledge_base_document (organizationId p) ::
             deleteCalls E existing ++ upsertCalls E p d content)%list)) ∧
    (length calls ≤ 4)%nat.
Proof.
  intros E p w Hkeys calls.
  assert (Hshape :
    calls = [] ∨
    ∃ d bucket,
      owned w (documentId p) (organizationId p) d ∧
      APP_AWS_KNOWLEDGE_BASE_BUCKET E = Some bucket ∧
      (calls = [StorageGet bucket (doc_s3Key d)] ∨
       calls =
         [StorageGet bucket (doc_s3Key d);
          IndexQuery (doc_id d) knowledge_base_document (organizationId p)] ∨
       ∃ existing content,
         findEmbeddingsForSource E (index w) (doc_id d)
           knowledge_base_document (organizationId p) = inr existing ∧
         calls =
           (StorageGet bucket (doc_s3Key d) ::
            IndexQuery (doc_id d) knowledge_base_document (organizationId p) ::
            deleteCalls E existing ++ upsertCalls E p d content)%list)).
  2: { split; [exact Hshape|].
       destruct Hshape as [->|(d & bucket & _ & _ & [->|[->|Hfull]])];
         cbn [length]; try lia.
       destruct Hfull as (existing & content & _ & ->). cbn [length].
       rewrite length_app.
       destruct (deleteCalls_shape E existing) as [->| ->];
         destruct (upsertCalls_shape E p d content) as [->| ->];
         cbn [length]; lia. }
  subst calls.
  destruct (findUniqueFailure E (dbCalls (trace w)) (documentId p)
              (organizationId p)) as [e0|] eqn:Hlookup.
  { left. rewrite (run_lookup_throws E p w e0 Hlookup).
    match goal with
    | |- context [runCatch E p e0 ?w1] =>
        destruct (runCatch_calls E p e0 w1) as (w3 & evs3 & Hc & Ht3 & Hm3)
    end.
    rewrite Hc. cbn [fst].
    erewrite eventsSince_app;
      [|rewrite Ht3; cbn [trace addEvents]; rewrite <- app_assoc;
        reflexivity].
    by rewrite externalCalls_app, Hm3. }
  destruct (db w !! documentId p) as [d|] eqn:Hrow.
  2: { left. rewrite (run_not_found E p w Hlookup).
       - cbn [fst]. by autorewrite with world.
       - intros d. by rewrite Hrow. }
  destruct (decide (doc_organizationId d = organizationId p)) as [Horg|Horg].
  2: { left. rewrite (run_not_found E p w Hlookup).
       - cbn [fst]. by autorewrite with world.
       - intros d'. rewrite Hrow. by intros [= <-]. }
  assert (Hown : owned w (documentId p) (organizationId p) d)
    by (split; [done|]; split; [by apply Hkeys|done]).
  rewrite (run_lookup_answered E p w Hlookup).
  rewrite Hrow, decide_True by done.
  set (w1 := addEvents w _).
  destruct (processDocument_calls E p d w1)
    as (w2 & r2 & evs2 & Hpd & Ht2 & Hcalls).
  assert (Hend : ∃ evs3,
            trace (fst (tryCatch (processDocument E p d) (runCatch E p) w1))
              = (trace w2 ++ evs3)%list ∧ externalCalls evs3 = []).
  { destruct r2 as [e|res].
    - rewrite (tryCatch_inl _ _ _ _ _ Hpd).
      destruct (runCatch_calls E p e w2) as (w3 & evs3 & Hc & Ht3 & Hm3).
      rewrite Hc. by exists evs3.
    - rewrite (tryCatch_inr _ _ _ _ _ Hpd). exists [].
      cbn [fst]. by rewrite app_nil_r. }
  destruct Hend as (evs3 & Ht3 & Hm3).
  erewrite eventsSince_app.
  2: { rewrite Ht3, Ht2. subst w1. cbn [trace addEvents].
       rewrite <- !app_assoc. reflexivity. }
  rewrite !externalCalls_app, Hm3, app_nil_r. cbn [app].
  change (externalCalls [Log info "Processing Knowledge Base document";
                         DbFindUnique (documentId p) (organizationId p)])
    with (@nil Event).
  cbn [app].
  destruct Hcalls as [Hc|(bucket & Hb & Hc)]; [by left|].
  right. exists d, bucket. split; [done|]. split; [done|].
  destruct Hc as [Hc|[Hc|(existing & content & Hq & Hc)]].
  - by left.
  - right. by left.
  - right. right. exists existing, content. split; [|done].
    subst w1. exact Hq.
Qed.

Lemma run_call_order_witness :
  let E := Demo.env "Hello world" None None in
  let calls :=
    externalCalls (eventsSince Demo.world0
                     (fst (run E Demo.payload1 Demo.world0))) in
  (length calls ≤ 4)%nat ∧
  calls = [StorageGet "knowledge-base" "org-1/handbook.txt";
           IndexQuery "doc-1" knowledge_base_document "org-1";
           IndexUpsert (itemsOf E Demo.payload1 Demo.doc1 "Hello world")].
Proof.
  intros E calls. split.
  - apply (run_call_order E Demo.payload1 Demo.world0).
    intros id d. unfold Demo.world0. cbn [db].
    intros [<- <-]%lookup_singleton_Some. reflexivity.
  - vm_compute. reflexivity.
Defined.

(** ** Ids of chunk items are pairwise distinct *)

Lemma append_inj_l (p a b : string) : p +:+ a = p +:+ b → a = b.
Proof. induction p as [|c p IH]; cbn; [done|]. intros [= H]. by apply IH. Qed.

Lemma numberToString_inj (i j : nat) :
  Js.numberToString i = Js.numberToString j → i = j.
Proof.
  unfold Js.numberToString. intros H.
  apply DecimalNat.Unsigned.to_uint_inj.
  apply (f_equal NilEmpty.uint_of_string) in H.
  rewrite !NilEmpty.usu in H. by injection H.
Qed.

Lemma chunkId_inj (idPrefix sourceId : string) (i j : nat) :
  chunkId idPrefix sourceId i = chunkId idPrefix sourceId j → i = j.
Proof.
  unfold chunkId. intros H.
  by repeat (apply append_inj_l in H); apply numberToString_inj.
Qed.

Lemma NoDup_filter_imap {A : Type} (mk : nat → string → A) (id : A → string)
    (keep : A → bool) (chunks : list string) :
  (∀ i j c c', id (mk i c) = id (mk j c') → i = j) →
  NoDup (map id (List.filter keep (imap mk chunks))).
Proof.
  revert mk. induction chunks as [|c chunks IH]; intros mk Hinj.
  { constructor. }
  cbn [imap List.filter].
  assert (Hrest : NoDup (map id (List.filter keep (imap (mk ∘ S) chunks)))).
  { apply IH. intros i j c1 c2 Heq. apply Hinj in Heq. by injection Heq. }
  destruct (keep (mk 0 c)); [|done].
  cbn [map]. constructor; [|done].
  intros (x & Hx & Hin)%list_elem_of_fmap.
  apply elem_of_filter_imap in Hin as (i & c' & _ & -> & _).
  apply Hinj in Hx. discriminate.
Qed.

Lemma length_filter_imap {A : Type} (mk : nat → string → A)
    (keep : A → bool) (chunks : list string) :
  (length (List.filter keep (imap mk chunks)) ≤ length chunks)%nat.
Proof.
  revert mk. induction chunks as [|c chunks IH]; intros mk; [done|].
  cbn [imap List.filter]. specialize (IH (mk ∘ S)).
  destruct (keep (mk 0 c)); cbn [length]; lia.
Qed.

Lemma texts_filter_imap (mk : nat → string → ChunkItem)
    (chunks : list string) :
  (∀ i c, ci_text (mk i c) = c) →
  map ci_text (List.filter hasText (imap mk chunks))
  = List.filter nonBlank chunks.
Proof.
  revert mk. induction chunks as [|c chunks IH]; intros mk Htext; [done|].
  cbn [imap List.filter]. unfold hasText at 1. rewrite Htext.
  destruct (nonBlank c); cbn [map];
    rewrite (IH (mk ∘ S)) by (intros i c'; apply Htext).
  - by rewrite Htext.
  - done.
Qed.

(** X7.  The chunk items of a text are the chunks that are not blank,
    in the order of the chunker, and no two of them have the same id: a
    dropped blank chunk leaves a gap in the numbering, never a clash.  The
    same holds for the chunk items the document task builds. *)
Theorem chunk_items_distinct :
  ∀ (chunkText : string → nat → nat → list string)
    (text sourceId : string) (sourceType : SourceType)
    (organizationId updatedAt idPrefix : string)
    (extraMetadata : gmap string string) (chunkSize overlap : nat)
    (document : KnowledgeBaseDocument) (chunks : list string),
    let items := createChunkItems chunkText text sourceId sourceType
                   organizationId updatedAt idPrefix extraMetadata
                   chunkSize overlap in
    let items' := documentChunkItems organizationId document updatedAt
                    chunks in
    NoDup (map ci_id items) ∧
    map ci_text items = List.filter nonBlank (chunkText text chunkSize overlap) ∧
    (∀ item, item ∈ items → Js.trim (ci_text item) ≠ "") ∧
    (length items ≤ length (chunkText text chunkSize overlap))%nat ∧
    NoDup (map ci_id items') ∧
    map ci_text items' = List.filter nonBlank chunks ∧
    (length items' ≤ length chunks)%nat.
Proof.
  intros. subst items items'. unfold createChunkItems, documentChunkItems.
  repeat split.
  - apply NoDup_filter_imap. intros i j c c'. cbn [ci_id].
    apply chunkId_inj.
  - by apply texts_filter_imap.
  - intros item (i & c & _ & -> & Hk)%elem_of_filter_imap.
    unfold hasText in Hk. cbn [ci_text] in *.
    intros Hblank%nonBlank_false. congruence.
  - apply length_filter_imap.
  - apply NoDup_filter_imap. intros i j c c'. cbn [ci_id]. intros H.
    by repeat (apply append_inj_l in H); apply numberToString_inj.
  - by apply texts_filter_imap.
  - apply length_filter_imap.
Qed.

Lemma chunk_items_distinct_witness :
  let items := createChunkItems (fun _ _ _ => ["a"; "  "; "b"]) "a    b" "p-1"
                 policy "org-1" "2024-01-01" "policy" ∅ 500 50 in
  NoDup (map ci_id items) ∧ map ci_text items = ["a"; "b"] ∧
  (∀ item, item ∈ items → Js.trim (ci_text item) ≠ "").
Proof.
  intros items.
  destruct (chunk_items_distinct (fun _ _ _ => ["a"; "  "; "b"]) "a    b"
              "p-1" policy "org-1" "2024-01-01" "policy" ∅ 500 50
              Demo.doc1 [])
    as (Hnd & Htexts & Hnb & _).
  split; [exact Hnd|]. split; [exact Htexts|exact Hnb].
Defined.

(** ** What the metadata of a chunk item holds *)

(** X8.  The metadata of a chunk item holds every entry of
    [extraMetadata] as given, the five fixed keys, and nothing else; the
    keys [content] and [sourceType] carry the text of the chunk and the
    source type unless [extraMetadata] has a key of that name. *)
Theorem chunk_metadata_keys :
  ∀ (chunkText : string → nat → nat → list string)
    (text sourceId : string) (sourceType : SourceType)
    (organizationId updatedAt idPrefix : string)
    (extraMetadata : gmap string string) (chunkSize overlap : nat)
    (item : ChunkItem),
    item ∈ createChunkItems chunkText text sourceId sourceType organizationId
             updatedAt idPrefix extraMetadata chunkSize overlap →
    (∀ key value, extraMetadata !! key = Some value →
                  ci_metadata item !! key = Some value) ∧
    (∀ key, is_Some (ci_metadata item !! key) ↔
            is_Some (extraMetadata !! key) ∨
            key ∈ ["organizationId"; "sourceType"; "sourceId"; "content";
                   "updatedAt"]) ∧
    (extraMetadata !! "content" = None →
     ci_metadata item !! "content" = Some (ci_text item)) ∧
    (extraMetadata !! "sourceType" = None →
     ci_metadata item !! "sourceType" = Some (sourceTypeString sourceType)).
Proof.
  intros * (i & c & _ & -> & _)%elem_of_filter_imap. cbn [ci_metadata ci_text].
  repeat split.
  - intros key value Hk. unfold chunkMetadata.
    by apply lookup_union_Some_l.
  - unfold chunkMetadata. rewrite lookup_union_is_Some.
    intros [Hx|Hfixed]; [by left|]. right.
    repeat (apply lookup_insert_is_Some in Hfixed as [<-|[_ Hfixed]];
            [set_solver|]).
    rewrite lookup_empty in Hfixed. by destruct Hfixed.
  - unfold chunkMetadata. rewrite lookup_union_is_Some.
    intros [Hx|Hfixed]; [by left|]. right.
    repeat (apply elem_of_cons in Hfixed as [->|Hfixed];
            [by rewrite ?lookup_insert_eq, ?lookup_insert_ne by done|]).
    by apply elem_of_nil in Hfixed.
  - intros Hnone. rewrite chunkMetadata_lookup by done.
    rewrite lookup_insert_ne by done. by rewrite lookup_insert_eq.
  - intros Hnone. rewrite chunkMetadata_lookup by done.
    rewrite !lookup_insert_ne by done. by rewrite lookup_insert_eq.
Qed.

Lemma chunk_metadata_keys_witness :
  let item :=
    {| ci_id := "policy_p-1_chunk0";
       ci_text := "Access is reviewed quarterly.";
       ci_metadata :=
         chunkMetadata "org-1" policy "p-1" "Access is reviewed quarterly."
                       "2024-01-01T00:00:00.000Z"
                       {[ "policyName" := "Access control" ]} |} in
  ci_metadata item !! "policyName" = Some "Access control" ∧
  ci_metadata item !! "content" = Some "Access is reviewed quarterly." ∧
  ci_metadata item !! "sourceType" = Some "policy".
Proof.
  intros item.
  destruct (chunk_metadata_keys Demo.chunkText "Access is reviewed quarterly."
              "p-1" policy "org-1" "2024-01-01T00:00:00.000Z" "policy"
              {[ "policyName" := "Access control" ]} 500 50 item)
    as (Hextra & _ & Hcontent & Htype).
  - vm_compute. left.
  - split; [by apply Hextra|]. split; [by apply Hcontent|by apply Htype].
Defined.

(** ** The staleness check along time *)

Lemma lt_irrefl (a : string) : Js.lt a a = false.
Proof.
  destruct lt_lexicographic as (H0 & H1 & Hc).
  induction a as [|x a IH]; [apply H1|].
  rewrite Hc.
  replace (Ascii.compare x x) with Eq; [done|].
  symmetry. unfold Ascii.compare. apply N.compare_refl.
Qed.

Lemma ascii_compare_trans (x y z : ascii) (c : comparison) :
  c ≠ Eq → Ascii.compare x y = c → Ascii.compare y z = c ∨ y = z →
  Ascii.compare x z = c.
Proof.
  unfold Ascii.compare. intros Hc Hxy [Hyz| ->]; [|done].
  destruct c; [done| |].
  - apply N.compare_lt_iff in Hxy, Hyz. apply N.compare_lt_iff.
    by eapply N.lt_trans.
  - apply N.compare_gt_iff in Hxy, Hyz. apply N.compare_gt_iff.
    by eapply N.lt_trans.
Qed.

Lemma ascii_compare_eq (x y : ascii) : Ascii.compare x y = Eq → x = y.
Proof.
  unfold Ascii.compare. intros H%N.compare_eq.
  by rewrite <- (ascii_N_embedding x), <- (ascii_N_embedding y), H.
Qed.

Lemma lt_trans (a b c : string) :
  Js.lt a b = true → Js.lt b c = true → Js.lt a c = true.
Proof.
  destruct lt_lexicographic as (H0 & H1 & Hc).
  revert b c. induction a as [|x a IH]; intros b c Hab Hbc.
  - rewrite H0. destruct c; [by rewrite H1 in Hbc|done].
  - destruct b as [|y b]; [by rewrite H1 in Hab|].
    destruct c as [|z c]; [by rewrite H1 in Hbc|].
    rewrite Hc in *.
    destruct (Ascii.compare x y) eqn:Hxy; [| |done].
    + apply ascii_compare_eq in Hxy as ->.
      destruct (Ascii.compare y z); [|done|done]. by eapply IH.
    + destruct (Ascii.compare y z) eqn:Hyz; [| |done].
      * apply ascii_compare_eq in Hyz as <-. by rewrite Hxy.
      * by rewrite (ascii_compare_trans x y z Lt) by auto.
Qed.

Lemma needsUpdate_false (existing : list ExistingEmbedding) (t : string) :
  needsUpdate existing t = false ↔
  existing ≠ [] ∧
  ∀ e, e ∈ existing →
       ∃ u, ee_updatedAt e = Some u ∧ u ≠ "" ∧ Js.lt u t = false.
Proof.
  unfold needsUpdate. rewrite orb_false_iff. split.
  - intros [Hlen Hall]. split; [by destruct existing|].
    intros e He. rewrite <- not_true_iff_false in Hall.
    destruct (ee_updatedAt e) as [u|] eqn:Hu.
    + exists u. split; [done|].
      split.
      * intros ->. apply Hall, existsb_exists. exists e.
        split; [by apply list_elem_of_In|]. apply isStale_iff. auto.
      * apply not_true_iff_false. intros Hlt. apply Hall, existsb_exists.
        exists e. split; [by apply list_elem_of_In|]. apply isStale_iff.
        eauto.
    + exfalso. apply Hall, existsb_exists. exists e.
      split; [by apply list_elem_of_In|]. apply isStale_iff. auto.
  - intros [Hne Hall]. split; [by destruct existing|].
    apply not_true_iff_false. intros (e & He & Hst)%existsb_exists.
    apply list_elem_of_In in He. destruct (Hall e He) as (u & Hu & Hnz & Hlt).
    apply isStale_iff in Hst as [Hst|[Hst|(u' & Hu' & Hlt')]]; congruence.
Qed.

(** X9.  The staleness check is monotone in the timestamp of the
    source: embeddings that need an update for one timestamp need it for
    every later one.  And what a sync has just written is up to date: the
    chunk items created with a timestamp, read back as existing
    embeddings, need no update for that timestamp and need one for every
    later timestamp (given at least one item, a timestamp that is not
    empty, and no [updatedAt] key in [extraMetadata]). *)
Theorem needsUpdate_monotone :
  ∀ (existing : list ExistingEmbedding) (t t' : string),
    Js.lt t t' = true →
    (needsUpdate existing t = true → needsUpdate existing t' = true) ∧
    (∀ (chunkText : string → nat → nat → list string)
       (text sourceId : string) (sourceType : SourceType)
       (organizationId idPrefix : string)
       (extraMetadata : gmap string string) (chunkSize overlap : nat),
       let items := createChunkItems chunkText text sourceId sourceType
                      organizationId t idPrefix extraMetadata chunkSize
                      overlap in
       items ≠ [] → t ≠ "" → extraMetadata !! "updatedAt" = None →
       needsUpdate (map embeddingOf items) t = false ∧
       needsUpdate (map embeddingOf items) t' = true).
Proof.
  intros existing t t' Hlt. split.
  - rewrite <- !not_false_iff_true, !needsUpdate_false.
    intros Hstale [Hne Hall]. apply Hstale. split; [done|].
    intros e He. destruct (Hall e He) as (u & Hu & Hnz & Hge).
    exists u. split; [done|]. split; [done|].
    apply not_true_iff_false. intros Hut.
    by rewrite (lt_trans u t t') in Hge.
  - intros * Hne Hnz Hnone.
    assert (Hstamp : ∀ e, e ∈ map embeddingOf items →
                          ee_updatedAt e = Some t).
    { intros e (item & -> & Hin)%list_elem_of_fmap. unfold embeddingOf.
      cbn [ee_updatedAt].
      apply elem_of_filter_imap in Hin as (i & c & _ & -> & _).
      cbn [ci_metadata]. rewrite chunkMetadata_lookup by done.
      apply lookup_insert_eq. }
    split.
    + apply needsUpdate_false. split; [by destruct items|].
      intros e He. exists t. split; [by apply Hstamp|]. split; [done|].
      apply lt_irrefl.
    + destruct items as [|item rest] eqn:Hitems; [done|].
      unfold needsUpdate. apply orb_true_iff. right.
      apply existsb_exists. exists (embeddingOf item).
      split; [left; reflexivity|].
      apply isStale_iff. right. right. exists t. split; [|done].
      apply Hstamp. left.
Qed.

Lemma needsUpdate_monotone_witness :
  let items := createChunkItems Demo.chunkText "Access is reviewed quarterly."
                 "p-1" policy "org-1" "2024-01-01T00:00:00.000Z" "policy"
                 ∅ 500 50 in
  needsUpdate (map embeddingOf items) "2024-01-01T00:00:00.000Z" = false ∧
  needsUpdate (map embeddingOf items) "2024-02-01T00:00:00.000Z" = true.
Proof.
  intros items.
  destruct (needsUpdate_monotone [] "2024-01-01T00:00:00.000Z"
              "2024-02-01T00:00:00.000Z") as [_ Hfresh].
  - vm_compute. reflexivity.
  - apply (Hfresh Demo.chunkText "Access is reviewed quarterly." "p-1" policy
             "org-1" "policy" ∅ 500 50).
    + vm_compute. discriminate.
    + discriminate.
    + reflexivity.
Defined.

(** ** What an upsert stores *)

Lemma upserted_item (base : gmap string ChunkItem) (items : list ChunkItem)
    (item : ChunkItem) :
  NoDup (map ci_id items) → item ∈ items →
  foldl (fun idx item => <[ci_id item := item]> idx) base items !! ci_id item
  = Some item.
Proof.
  revert base. induction items as [|x items IH]; intros base Hnd Hin;
    [by apply elem_of_nil in Hin|].
  cbn [map] in Hnd. apply NoDup_cons in Hnd as [Hx Hnd]. cbn [foldl].
  apply elem_of_cons in Hin as [->|Hin].
  - rewrite upserted_other_id by done. apply lookup_insert_eq.
  - by apply IH.
Qed.

Lemma upsertChunks_nothing (E : Env) (w : World) :
  upsertChunks E [] w = (w, inr tt).
Proof. done. Qed.

Lemma upsertChunks_ok (E : Env) (items : list ChunkItem) (w : World) :
  items ≠ [] → upsertFailure E items = None →
  upsertChunks E items w =
  (withIndex (addEvents w [IndexUpsert items])
     (if vectorIndex E
      then foldl (fun idx item => <[ci_id item := item]> idx) (index w) items
      else index w),
   inr tt).
Proof.
  intros Hne Hok. unfold upsertChunks.
  replace (0 <? length items)%nat with true by (by destruct items).
  by apply batchUpsert_ok.
Qed.

(** X10.  [upsertChunks] makes no call for an empty list.  For the
    chunk items of a text it makes one upsert call, after which, when the
    index is configured and the call does not fail, every item is stored
    under its id, exactly as created, and the entries under other ids are
    as before.  When the call throws, the error is thrown on, unlike a
    failure of [deleteOldEmbeddings]; the index then holds what it held
    and those of the items that the call stored before it threw: the
    entries under other ids are as before, and every entry is an old one
    or one of the items. *)
Theorem upsertChunks_stores_items :
  ∀ (E : Env) (w : World)
    (text sourceId : string) (sourceType : SourceType)
    (organizationId updatedAt idPrefix : string)
    (extraMetadata : gmap string string) (chunkSize overlap : nat),
    let items := createChunkItems (chunkText E) text sourceId sourceType
                   organizationId updatedAt idPrefix extraMetadata
                   chunkSize overlap in
    items ≠ [] →
    upsertChunks E [] w = (w, inr tt) ∧
    eventsSince w (fst (upsertChunks E items w)) = [IndexUpsert items] ∧
    (vectorIndex E = true → upsertFailure E items = None →
     snd (upsertChunks E items w) = inr tt ∧
     (∀ item, item ∈ items →
        index (fst (upsertChunks E items w)) !! ci_id item = Some item) ∧
     (∀ id, id ∉ map ci_id items →
        index (fst (upsertChunks E items w)) !! id = index w !! id)) ∧
    (∀ e, upsertFailure E items = Some e →
          snd (upsertChunks E items w) = inl e ∧
          index (fst (upsertChunks E items w))
            = upsertInto E (index w)
                (List.filter (upsertedBeforeFailure E items) items) ∧
          (∀ id, id ∉ map ci_id items →
             index (fst (upsertChunks E items w)) !! id = index w !! id) ∧
          (∀ id item,
             index (fst (upsertChunks E items w)) !! id = Some item →
             index w !! id = Some item ∨ item ∈ items)).
Proof.
  intros * Hne. split; [done|].
  assert (Hnd : NoDup (map ci_id items)).
  { apply NoDup_filter_imap. intros i j c c'. apply chunkId_inj. }
  clearbody items.
  assert (Hcall : upsertChunks E items w = batchUpsertEmbeddings E items w).
  { unfold upsertChunks.
    by replace (0 <? length items)%nat with true by (by destruct items). }
  split; [|split].
  - rewrite Hcall. destruct (upsertFailure E items) as [e|] eqn:Hf.
    + rewrite (batchUpsert_throws E items w e Hf). cbn [fst].
      by autorewrite with world.
    + rewrite (batchUpsert_ok E items w Hf). cbn [fst].
      by autorewrite with world.
  - intros Hv Hok. rewrite upsertChunks_ok by done.
    cbn [fst snd index withIndex addEvents]. rewrite Hv.
    split; [done|]. split.
    + intros item Hin. by apply upserted_item.
    + intros id Hid. by apply upserted_other_id.
  - intros e Hf. rewrite Hcall, (batchUpsert_throws E items w e Hf).
    cbn [fst snd index withIndex addEvents].
    split; [done|]. split; [done|]. split.
    + intros id Hid. apply upsertInto_other. intros Hmem. apply Hid.
      apply list_elem_of_fmap in Hmem as (item & -> & Hitem).
      apply list_elem_of_fmap. exists item. split; [done|].
      by apply elem_of_filter_list in Hitem.
    + intros id item [Hold|Hnew]%upsertInto_origin; [by left|right].
      by apply elem_of_filter_list in Hnew.
Qed.

Lemma upsertChunks_stores_items_witness :
  let E := Demo.env "" None None in
  let items := createChunkItems Demo.chunkText "Access is reviewed quarterly."
                 "p-1" policy "org-1" "2024-01-01T00:00:00.000Z" "policy"
                 ∅ 500 50 in
  eventsSince Demo.world0 (fst (upsertChunks E items Demo.world0))
    = [IndexUpsert items] ∧
  (ci_text <$> index (fst (upsertChunks E items Demo.world0))
                 !! "policy_p-1_chunk0")
    = Some "Access is reviewed quarterly.".
Proof.
  intros E items.
  destruct (upsertChunks_stores_items E Demo.world0
              "Access is reviewed quarterly." "p-1" policy "org-1"
              "2024-01-01T00:00:00.000Z" "policy" ∅ 500 50)
    as (_ & Hcall & Hstored & _).
  - vm_compute. discriminate.
  - split; [exact Hcall|].
    destruct Hstored as (_ & Hitems & _); [reflexivity|reflexivity|].
    rewrite (Hitems (mkChunkItem "policy_p-1_chunk0"
                       "Access is reviewed quarterly."
                       (chunkMetadata "org-1" policy "p-1"
                          "Access is reviewed quarterly."
                          "2024-01-01T00:00:00.000Z" ∅))).
    + reflexivity.
    + vm_compute. left.
Defined.

(** ** What a successful run stores *)

Lemma deleteExisting_index (E : Env) (existing : list ExistingEmbedding)
    (w : World) :
  ∃ w1,
    deleteExisting E existing w = (w1, inr tt) ∧
    db w1 = db w ∧ clock w1 = clock w ∧
    ∀ id, id ∉ map ee_id existing → index w1 !! id = index w !! id.
Proof.
  assert (Hcase : existing = [] ∨ existing ≠ [])
    by (destruct existing; [by left|by right]).
  destruct Hcase as [->|Hne].
  { rewrite deleteExisting_nothing by (by left). by exists w. }
  destruct (vectorIndex E) eqn:Hv.
  2: { rewrite deleteExisting_nothing by (by right). by exists w. }
  destruct (deleteFailure E (map ee_id existing)) as [e|] eqn:Hf.
  - rewrite (deleteExisting_swallowed E existing w e) by done.
    by eexists.
  - rewrite (deleteExisting_deleted E existing w) by done.
    eexists. split; [done|]. split; [done|]. split; [done|].
    intros id Hid. cbn [index withIndex addEvents].
    rewrite deleted_id. by rewrite decide_False.
Qed.

(** X11.  A run that succeeds with the index configured stores every
    chunk item it counted: each item is in the index under its id, exactly
    as built, whether or not the deletion of the old embeddings worked; no
    two items share an id, so [chunkCount] is the number of entries
    written; and an entry that is neither an old embedding of the document
    nor one of the new items is as it was.  The run succeeds when the
    database answers its lookup and accepts its writes, the content gives
    chunk items and the upsert does not fail. *)
Theorem run_stores_items :
  ∀ (E : Env) (p : Payload) (w : World) (d : KnowledgeBaseDocument)
    (bucket content : string) (existing : list ExistingEmbedding),
    dbAvailable E p →
    owned w (documentId p) (organizationId p) d →
    extractionYields E d bucket content →
    nonBlank content = true →
    findEmbeddingsForSource E (index w) (doc_id d) knowledge_base_document
                            (organizationId p) = inr existing →
    vectorIndex E = true →
    itemsOf E p d content ≠ [] →
    upsertFailure E (itemsOf E p d content) = None →
    snd (run E p w)
      = inr (Succeeded (doc_id d) (length (itemsOf E p d content))) ∧
    NoDup (map ci_id (itemsOf E p d content)) ∧
    (∀ item, item ∈ itemsOf E p d content →
       index (fst (run E p w)) !! ci_id item = Some item) ∧
    (∀ id, id ∉ map ci_id (itemsOf E p d content) →
           id ∉ map ee_id existing →
           index (fst (run E p w)) !! id = index w !! id).
Proof.
  intros E p w d bucket content existing [Hlookup Hwrites] Hown Hx Hnb Hq Hv
    Hitems Hup.
  assert (Hnd : NoDup (map ci_id (itemsOf E p d content))).
  { apply NoDup_filter_imap. intros i j c c'. cbn [ci_id]. intros H.
    by repeat (apply append_inj_l in H); apply numberToString_inj. }
  assert (Hacc : writeAccepted E (doc_id d) completed)
    by (destruct Hown as (_ & -> & _); apply Hwrites).
  rewrite (run_indexed E p w d bucket content existing Hlookup
             (Hwrites processing) Hown Hx Hnb Hq).
  set (w1 := withDb _ _).
  destruct (deleteExisting_index E existing w1)
    as (w2 & Hdel & Hdb2 & Hc2 & Hidx2).
  erewrite tryCatch_inr.
  2: { rewrite (bind_inr _ _ _ _ _ Hdel).
       apply (embed_upserted E p d (setStatus processing None d)); try done.
       rewrite Hdb2. subst w1. cbn [db withDb]. apply lookup_insert_eq. }
  cbn [fst snd index withIndex withDb addEvents]. rewrite Hv.
  split; [done|]. split; [done|]. split.
  - intros item Hin. by apply upserted_item.
  - intros id Hnew Hold. rewrite upserted_other_id by done.
    by rewrite Hidx2.
Qed.

Lemma run_stores_items_witness :
  let E := Demo.env "Hello world" None None in
  snd (run E Demo.payload1 Demo.world0) = inr (Succeeded "doc-1" 1) ∧
  (ci_text <$> index (fst (run E Demo.payload1 Demo.world0))
                 !! "knowledge_base_document_doc-1_chunk0")
    = Some "Hello world".
Proof.
  intros E.
  destruct (run_stores_items E Demo.payload1 Demo.world0 Demo.doc1
              "knowledge-base" "Hello world" [])
    as (Hr & _ & Hstored & _).
  - apply demo_dbAvailable.
  - unfold owned. vm_compute. repeat split.
  - unfold extractionYields. repeat split; [done|].
    eexists _, _. repeat split.
  - vm_compute. reflexivity.
  - vm_compute. reflexivity.
  - reflexivity.
  - vm_compute. discriminate.
  - reflexivity.
  - split; [exact Hr|]. vm_compute. reflexivity.
Defined.

(** ** The two readers of the object store *)

(** X12.  [extractContentFromS3Document] of the sync library and
    [extractContentFromKnowledgeBaseDocument] of the document task do the
    same: with the bucket and both credentials set they make the same one
    read of the object store and give the same outcome; without one of
    them both throw before any read, the bucket being checked first, and
    only the wording of that error differs. *)
Theorem extractors_agree :
  ∀ (E : Env) (s3Key fileType : string) (w : World),
    let lib := extractContentFromS3Document E s3Key fileType w in
    let task := extractContentFromKnowledgeBaseDocument E s3Key fileType w in
    fst lib = fst task ∧
    (∀ content, snd lib = inr content ↔ snd task = inr content) ∧
    (Js.falsy_opt (APP_AWS_KNOWLEDGE_BASE_BUCKET E) ||
     Js.falsy_opt (APP_AWS_ACCESS_KEY_ID E) ||
     Js.falsy_opt (APP_AWS_SECRET_ACCESS_KEY E) = false →
     lib = task ∧
     ∃ bucket, APP_AWS_KNOWLEDGE_BASE_BUCKET E = Some bucket ∧
               eventsSince w (fst lib) = [StorageGet bucket s3Key]) ∧
    (Js.falsy_opt (APP_AWS_KNOWLEDGE_BASE_BUCKET E) ||
     Js.falsy_opt (APP_AWS_ACCESS_KEY_ID E) ||
     Js.falsy_opt (APP_AWS_SECRET_ACCESS_KEY E) = true →
     lib =
       (w, inl (Js.Error
                  (if Js.falsy_opt (APP_AWS_KNOWLEDGE_BASE_BUCKET E)
                   then "Knowledge base bucket is not configured. Please set APP_AWS_KNOWLEDGE_BASE_BUCKET environment variable."
                   else "AWS S3 credentials are missing. Please set APP_AWS_ACCESS_KEY_ID and APP_AWS_SECRET_ACCESS_KEY environment variables."))) ∧
     ∃ e, task = (w, inl e)).
Proof.
  intros E s3Key fileType w lib task. subst lib task.
  unfold extractContentFromS3Document,
    extractContentFromKnowledgeBaseDocument, createKnowledgeBaseS3Client,
    createS3Client.
  destruct (APP_AWS_KNOWLEDGE_BASE_BUCKET E) as [bucket|] eqn:Hb;
    cbn [Js.falsy_opt orb default].
  2: { unfold throw. cbn [fst snd]. repeat split; try done; eauto. }
  destruct (Js.falsy bucket) eqn:Hfb; cbn [orb].
  { unfold throw. cbn [fst snd]. repeat split; try done; eauto. }
  destruct (Js.falsy_opt (APP_AWS_ACCESS_KEY_ID E) ||
            Js.falsy_opt (APP_AWS_SECRET_ACCESS_KEY E)) eqn:Hc.
  { unfold mbind, M_bind, bind, throw. cbn [fst snd].
    repeat split; try done; eauto. }
  split; [done|]. split; [done|]. split; [|done].
  intros _. split; [done|]. exists bucket. split; [done|].
  rewrite (bind_inr (mret tt) _ w w tt eq_refl).
  rewrite (bind_inr _ _ _ _ _ (emit_eq _ _)).
  unfold mbind, M_bind, bind, liftOutcome, throw, id.
  destruct (s3_send E bucket s3Key) as [e|response];
    [cbn [fst]; by rewrite eventsSince_addEvents|].
  destruct (Body response) as [buffer|]; cbn [fst];
    by rewrite eventsSince_addEvents.
Qed.

Lemma extractors_agree_witness :
  let E := Demo.env "Hello world" None None in
  extractContentFromS3Document E "org-1/handbook.txt" "text/plain" Demo.world0
  = extractContentFromKnowledgeBaseDocument E "org-1/handbook.txt"
      "text/plain" Demo.world0 ∧
  snd (extractContentFromS3Document E "org-1/handbook.txt" "text/plain"
         Demo.world0) = inr "Hello world".
Proof.
  intros E.
  destruct (extractors_agree E "org-1/handbook.txt" "text/plain" Demo.world0)
    as (_ & _ & Hsame & _).
  destruct Hsame as [Hsame _]; [reflexivity|].
  split; [exact Hsame|]. vm_compute. reflexivity.
Defined.

(** ** The two variants of [extractS3KeyFromUrl] side by side *)

(** X13.  The API variant and the web-application variant of
    [extractS3KeyFromUrl] never return different keys for one input.  On
    an input the runtime parses as a URL they do the same.  On a plain key
    they differ only in what they take for a malformed URL: a key the API
    variant returns is returned by the other unless it contains
    [amazonaws.com], and a key the web application returns is returned by
    the API unless it matches the domain pattern. *)
Theorem extractS3KeyFromUrl_variants :
  ∀ (R : Runtime) (url : string),
    (∀ k1 k2, ApiS3.extractS3KeyFromUrl R url = inr k1 →
              AppS3.extractS3KeyFromUrl R url = inr k2 → k1 = k2) ∧
    (is_Some (newURL R url) →
     ApiS3.extractS3KeyFromUrl R url = AppS3.extractS3KeyFromUrl R url) ∧
    (∀ key, ApiS3.extractS3KeyFromUrl R url = inr key →
            Js.includes (Js.toLowerCase url) "amazonaws.com" = false →
            AppS3.extractS3KeyFromUrl R url = inr key) ∧
    (∀ key, AppS3.extractS3KeyFromUrl R url = inr key →
            Regex.test ApiS3.domainPattern url = false →
            ApiS3.extractS3KeyFromUrl R url = inr key).
Proof.
  intros R url. repeat split.
  - intros k1 k2 (H1 & _)%api_key_safe (H2 & _)%app_key_safe. congruence.
  - intros [parsed Hp].
    unfold ApiS3.extractS3KeyFromUrl, AppS3.extractS3KeyFromUrl.
    by rewrite Hp.
  - intros key. unfold ApiS3.extractS3KeyFromUrl, AppS3.extractS3KeyFromUrl.
    destruct (Js.falsy url); [done|].
    destruct (newURL R url); [done|]. cbv zeta.
    destruct (Js.includes (Js.toLowerCase url) "://"); [done|].
    destruct (Regex.test ApiS3.domainPattern url); [done|].
    intros Hkey ->. exact Hkey.
  - intros key. unfold ApiS3.extractS3KeyFromUrl, AppS3.extractS3KeyFromUrl.
    destruct (Js.falsy url); [done|].
    destruct (newURL R url); [done|]. cbv zeta.
    destruct (Js.includes (Js.toLowerCase url) "://"); [done|].
    destruct (Js.includes (Js.toLowerCase url) "amazonaws.com"); [done|].
    cbn [orb]. intros Hkey ->. exact Hkey.
Qed.

Lemma extractS3KeyFromUrl_variants_witness :
  ApiS3.extractS3KeyFromUrl Demo.runtime "org_1/handbook.pdf"
    = inr "org_1/handbook.pdf" ∧
  AppS3.extractS3KeyFromUrl Demo.runtime "org_1/handbook.pdf"
    = inr "org_1/handbook.pdf".
Proof.
  assert (Hapi : ApiS3.extractS3KeyFromUrl Demo.runtime "org_1/handbook.pdf"
                 = inr "org_1/handbook.pdf") by (vm_compute; reflexivity).
  split; [exact Hapi|].
  destruct (extractS3KeyFromUrl_variants Demo.runtime "org_1/handbook.pdf")
    as (_ & _ & Happ & _).
  apply Happ; [exact Hapi|]. vm_compute. reflexivity.
Defined.

(** ** Patterns and their languages *)

Lemma append_nil_r (s : string) : s +:+ "" = s.
Proof.
  induction s as [|c s IH]; [done|].
  change (String c (s +:+ "") = String c s). by f_equal.
Qed.

Lemma append_assoc (a b c : string) : (a +:+ b) +:+ c = a +:+ (b +:+ c).
Proof.
  induction a as [|x a IH]; [done|].
  change (String x ((a +:+ b) +:+ c) = String x (a +:+ (b +:+ c))).
  by f_equal.
Qed.

Lemma append_eq_nil (a b : string) : a +:+ b = "" → a = "" ∧ b = "".
Proof. destruct a; [done|discriminate]. Qed.

Lemma append_eq_cons (a b : string) (c : ascii) (s : string) :
  a +:+ b = String c s →
  (a = "" ∧ b = String c s) ∨ ∃ a', a = String c a' ∧ s = a' +:+ b.
Proof.
  destruct a as [|x a]; [by left|]. intros H.
  change (String x (a +:+ b) = String c s) in H. injection H as -> <-.
  right. eauto.
Qed.

Section Inversion.

Import Regex.

Lemma matches_Void (s : string) : matches Void s ↔ False.
Proof. split; [|done]. intros H. inversion H. Qed.

Lemma matches_Eps (s : string) : matches Eps s ↔ s = "".
Proof.
  split; [intros H; by inversion H|intros ->; constructor].
Qed.

Lemma matches_Class (member : ascii → bool) (s : string) :
  matches (Class member) s ↔ ∃ c, s = String c "" ∧ member c = true.
Proof.
  split.
  - intros H. inversion H; subst. eauto.
  - intros (c & -> & Hc). by constructor.
Qed.

Lemma matches_Seq (r1 r2 : regex) (s : string) :
  matches (Seq r1 r2) s ↔
  ∃ s1 s2, s = s1 +:+ s2 ∧ matches r1 s1 ∧ matches r2 s2.
Proof.
  split.
  - intros H. inversion H; subst. eauto.
  - intros (s1 & s2 & -> & H1 & H2). by constructor.
Qed.

Lemma matches_Alt (r1 r2 : regex) (s : string) :
  matches (Alt r1 r2) s ↔ matches r1 s ∨ matches r2 s.
Proof.
  split.
  - intros H. inversion H; subst; auto.
  - intros [H|H]; [by apply matches_alt_l|by apply matches_alt_r].
Qed.

Lemma matches_Star (r : regex) (s : string) :
  matches (Star r) s ↔
  s = "" ∨ ∃ s1 s2, s = s1 +:+ s2 ∧ matches r s1 ∧ matches (Star r) s2.
Proof.
  split.
  - intros H. inversion H; subst; [by left|right; eauto].
  - intros [->|(s1 & s2 & -> & H1 & H2)]; by constructor.
Qed.

(** A repetition that matches a string with a first character starts with
    a round that matches that character and more. *)
Lemma matches_Star_cons (r : regex) (c : ascii) (s : string) :
  matches (Star r) (String c s) →
  ∃ s1 s2, s = s1 +:+ s2 ∧ matches r (String c s1) ∧ matches (Star r) s2.
Proof.
  intros H. remember (Star r) as r0 eqn:Hr. remember (String c s) as s0 eqn:Hs.
  revert Hs. induction H as [| | | | | |r' s1 s2 H1 _ H2 IH2]; try done.
  injection Hr as ->. intros Hs.
  apply append_eq_cons in Hs as [[-> ->]|(s1' & -> & ->)].
  - by apply IH2.
  - eauto.
Qed.

Lemma nullable_matches (r : regex) : nullable r = true ↔ matches r "".
Proof.
  induction r as [| |member|r1 IH1 r2 IH2|r1 IH1 r2 IH2|r IH]; cbn.
  - by rewrite matches_Void.
  - by rewrite matches_Eps.
  - rewrite matches_Class. split; [done|]. by intros (c & ? & _).
  - rewrite andb_true_iff, IH1, IH2, matches_Seq. split.
    + intros [H1 H2]. by exists "", "".
    + intros (s1 & s2 & Hs & H1 & H2). symmetry in Hs.
      apply append_eq_nil in Hs as [-> ->]. done.
  - by rewrite orb_true_iff, IH1, IH2, matches_Alt.
  - split; [constructor|done].
Qed.

Lemma matches_seq_smart (r1 r2 : regex) (s : string) :
  matches (seq r1 r2) s ↔ matches (Seq r1 r2) s.
Proof.
  assert (Hvoid_l : ∀ r, matches (Seq Void r) s ↔ False).
  { intros r. rewrite matches_Seq. split; [|done].
    intros (? & ? & _ & H%matches_Void & _). done. }
  assert (Hvoid_r : ∀ r, matches (Seq r Void) s ↔ False).
  { intros r. rewrite matches_Seq. split; [|done].
    intros (? & ? & _ & _ & H%matches_Void). done. }
  assert (Heps : ∀ r, matches (Seq Eps r) s ↔ matches r s).
  { intros r. rewrite matches_Seq. split.
    - intros (s1 & s2 & -> & ->%matches_Eps & H). done.
    - intros H. exists "", s. repeat split; [constructor|done]. }
  destruct r1; destruct r2; cbn [seq];
    rewrite ?Hvoid_l, ?Hvoid_r, ?Heps, ?matches_Void; done.
Qed.

Lemma matches_alt_smart (r1 r2 : regex) (s : string) :
  matches (alt r1 r2) s ↔ matches (Alt r1 r2) s.
Proof.
  rewrite matches_Alt.
  destruct r1; destruct r2; cbn [alt]; rewrite ?matches_Alt, ?matches_Void;
    tauto.
Qed.

Lemma matches_deriv (c : ascii) (r : regex) (s : string) :
  matches (deriv c r) s ↔ matches r (String c s).
Proof.
  revert s.
  induction r as [| |member|r1 IH1 r2 IH2|r1 IH1 r2 IH2|r IH]; intros s;
    cbn [deriv].
  - by rewrite !matches_Void.
  - rewrite matches_Void, matches_Eps. done.
  - rewrite matches_Class. destruct (member c) eqn:Hc.
    + rewrite matches_Eps. split.
      * intros ->. eauto.
      * by intros (c' & [= -> ->] & _).
    + rewrite matches_Void. split; [done|].
      intros (c' & [= -> ->] & Hc'). congruence.
  - assert (Hfirst : matches (seq (deriv c r1) r2) s ↔
              ∃ s1 s2, s = s1 +:+ s2 ∧ matches r1 (String c s1) ∧
                       matches r2 s2).
    { rewrite matches_seq_smart, matches_Seq.
      by setoid_rewrite IH1. }
    rewrite (matches_Seq r1 r2 (String c s)).
    destruct (nullable r1) eqn:Hn.
    + rewrite matches_alt_smart, matches_Alt, Hfirst, IH2. split.
      * intros [(s1 & s2 & -> & H1 & H2)|H2].
        -- by exists (String c s1), s2.
        -- exists "", (String c s). repeat split; [|done].
           by apply nullable_matches.
      * intros (s1 & s2 & Hs & H1 & H2). symmetry in Hs.
        apply append_eq_cons in Hs as [[-> ->]|(s1' & -> & ->)];
          [by right|left; eauto].
    + rewrite Hfirst. split.
      * intros (s1 & s2 & -> & H1 & H2). by exists (String c s1), s2.
      * intros (s1 & s2 & Hs & H1 & H2). symmetry in Hs.
        apply append_eq_cons in Hs as [[-> ->]|(s1' & -> & ->)]; [|eauto].
        apply nullable_matches in H1. congruence.
  - by rewrite matches_alt_smart, !matches_Alt, IH1, IH2.
  - rewrite matches_seq_smart, matches_Seq. split.
    + intros (s1 & s2 & -> & H1%IH & H2).
      by apply (matches_star_cons r (String c s1) s2).
    + intros (s1 & s2 & -> & H1 & H2)%matches_Star_cons.
      exists s1, s2. by rewrite IH.
Qed.

(** [test] decides the language of the pattern. *)
Lemma test_matches (r : regex) (s : string) : test r s = true ↔ matches r s.
Proof.
  revert r. induction s as [|c s IH]; intros r; cbn [test].
  - apply nullable_matches.
  - by rewrite IH, matches_deriv.
Qed.

End Inversion.

(** ** Strings, a character at a time *)

Lemma allChars_app (p : ascii → bool) (a b : string) :
  allChars p (a +:+ b) = allChars p a && allChars p b.
Proof.
  induction a as [|c a IH]; [done|].
  change (p c && allChars p (a +:+ b) = p c && allChars p a && allChars p b).
  by rewrite IH, andb_assoc.
Qed.

Lemma allChars_impl (p q : ascii → bool) (s : string) :
  (∀ c, p c = true → q c = true) → allChars p s = true → allChars q s = true.
Proof.
  intros Hpq. induction s as [|c s IH]; [done|]. cbn.
  rewrite !andb_true_iff. intros [Hc Hs]. auto.
Qed.

Lemma matches_within (p : ascii → bool) (r : Regex.regex) (s : string) :
  matches r s → within p r → allChars p s = true.
Proof.
  induction 1 as [|member c Hc|r1 r2 s1 s2 _ IH1 _ IH2|r1 r2 s _ IH
                  |r1 r2 s _ IH| |r s1 s2 _ IH1 _ IH2]; cbn [within].
  - done.
  - intros Hp. cbn. by rewrite Hp.
  - intros [H1 H2]. rewrite allChars_app, IH1, IH2; done.
  - intros [H1 _]. auto.
  - intros [_ H2]. auto.
  - done.
  - intros Hr. rewrite allChars_app, IH1, IH2; done.
Qed.

Lemma matches_lit (l s : string) : matches (Regex.lit l) s ↔ s = l.
Proof.
  revert s. induction l as [|c l IH]; intros s; cbn [Regex.lit].
  - apply matches_Eps.
  - rewrite matches_Seq. unfold Regex.char. split.
    + intros (s1 & s2 & -> & (c' & -> & Hc)%matches_Class & ->%IH).
      apply Ascii.eqb_eq in Hc as ->. done.
    + intros ->. exists (String c ""), l. repeat split; [|by apply IH].
      apply matches_class, Ascii.eqb_refl.
Qed.

Lemma matches_star_class (member : ascii → bool) (s : string) :
  allChars member s = true → matches (Regex.Star (Regex.Class member)) s.
Proof.
  induction s as [|c s IH]; [constructor|]. cbn.
  intros [Hc Hs]%andb_true_iff.
  apply (matches_star_cons _ (String c "") s); [by constructor|auto].
Qed.

Lemma matches_plus_class (member : ascii → bool) (s : string) :
  s ≠ "" → allChars member s = true →
  matches (Regex.plus (Regex.Class member)) s.
Proof.
  destruct s as [|c s]; [done|]. intros _. cbn.
  intros [Hc Hs]%andb_true_iff. unfold Regex.plus.
  apply (matches_seq _ _ (String c "") s); [by constructor|].
  by apply matches_star_class.
Qed.

Lemma matches_opt_nil (r : Regex.regex) : matches (Regex.opt r) "".
Proof. apply matches_alt_r. constructor. Qed.

Lemma length_append (a b : string) :
  String.length (a +:+ b) = (String.length a + String.length b)%nat.
Proof.
  induction a as [|c a IH]; [done|].
  change (S (String.length (a +:+ b)) = S (String.length a + String.length b)).
  by rewrite IH.
Qed.

Lemma substring_all (s : string) : String.substring 0 (String.length s) s = s.
Proof. induction s as [|c s IH]; [done|]. cbn. by rewrite IH. Qed.

Lemma substring_append (a b : string) :
  String.substring (String.length a) (String.length b) (a +:+ b) = b.
Proof.
  induction a as [|c a IH]; [apply substring_all|].
  change (String.substring (S (String.length a)) (String.length b)
            (String c (a +:+ b)) = b).
  cbn. exact IH.
Qed.

Lemma endsWith_append (a suffix : string) :
  Js.endsWith (a +:+ suffix) suffix = true.
Proof.
  unfold Js.endsWith. rewrite length_append.
  replace (String.length a + String.length suffix - String.length suffix)%nat
    with (String.length a) by lia.
  rewrite substring_append, String.eqb_refl, andb_true_r.
  apply Nat.leb_le. lia.
Qed.

Lemma toLowerCase_fixed (s : string) :
  allChars isLabelOrDot s = true → Js.toLowerCase s = s.
Proof.
  induction s as [|c s IH]; [done|]. cbn.
  intros [Hc Hs]%andb_true_iff. rewrite IH by done. f_equal.
  clear -Hc. destruct c as [[] [] [] [] [] [] [] []]; by vm_compute in Hc |- *.
Qed.

(** ** Which hosts are S3 hosts *)

Lemma isLabelOrDot_isHostChar (c : ascii) :
  isLabelOrDot c = true → isHostChar c = true.
Proof.
  unfold isLabelOrDot, isLabelChar, isHostChar, Regex.isWord.
  destruct (Regex.isLower c), (Regex.isUpper c), (Regex.isDigit c),
    (Ascii.eqb c "-"), (Ascii.eqb c "."), (Ascii.eqb c "_"); done.
Qed.

Lemma isLabelChar_wordDash (c : ascii) :
  isLabelChar c = true → Regex.isWord c || Ascii.eqb c "-" = true.
Proof.
  unfold isLabelChar, Regex.isWord.
  destruct (Regex.isLower c), (Regex.isUpper c), (Regex.isDigit c),
    (Ascii.eqb c "-"), (Ascii.eqb c "_"); done.
Qed.

Lemma isLabelChar_isLabelOrDot (c : ascii) :
  isLabelChar c = true → isLabelOrDot c = true.
Proof. unfold isLabelOrDot. by intros ->. Qed.

Lemma matches_char (c : ascii) (s : string) :
  matches (Regex.char c) s ↔ s = String c "".
Proof.
  unfold Regex.char. rewrite matches_Class. split.
  - by intros (c' & -> & ->%Ascii.eqb_eq).
  - intros ->. exists c. split; [done|apply Ascii.eqb_refl].
Qed.

(** The shape of the hosts the pattern matches. *)
Lemma s3HostPattern_shape (s : string) :
  matches s3HostPattern s →
  ∃ pre rest,
    s = pre +:+ "s3" +:+ rest +:+ ".amazonaws.com" ∧
    (pre = "" ∨ ∃ x, pre = x +:+ ".") ∧
    (rest = "" ∨ Js.startsWith rest "-" = true ∨
     Js.startsWith rest "." = true).
Proof.
  unfold s3HostPattern. cbv zeta.
  intros (p & q & -> & Hp & (v & t & -> & Hv & (o & l & -> & Ho & Hl)%matches_Seq)%matches_Seq)%matches_Seq.
  apply matches_lit in Hl as ->.
  assert (Hpre : p = "" ∨ ∃ x, p = x +:+ ".").
  { apply matches_Alt in Hp as [Hp|Hp%matches_Eps]; [|by left].
    apply matches_Seq in Hp as (x & dot & -> & _ & Hdot).
    apply matches_char in Hdot as ->. eauto. }
  assert (Hopt : o = "" ∨ Js.startsWith o "." = true).
  { apply matches_Alt in Ho as [Ho|Ho%matches_Eps]; [|by left].
    apply matches_Seq in Ho as (dot & z & -> & Hdot & _).
    apply matches_char in Hdot as ->. by right. }
  assert (Hsvc : ∃ y, v = "s3" +:+ y ∧
                      (y = "" ∨ Js.startsWith y "-" = true)).
  { apply matches_Alt in Hv as [->%matches_lit|Hv]; [by exists ""; auto|].
    apply matches_Alt in Hv as [Hv|Hv].
    { apply matches_Seq in Hv as (a & y & -> & ->%matches_lit & _).
      exists ("-" +:+ y). split; [done|by right]. }
    apply matches_Alt in Hv as [Hv|Hv].
    { apply matches_Seq in Hv as (a & y & -> & ->%matches_lit & _).
      exists ("-website" +:+ y). split; [done|by right]. }
    apply matches_Alt in Hv as [->%matches_lit| ->%matches_lit].
    - exists "-accesspoint". split; [done|by right].
    - exists "-control". split; [done|by right]. }
  destruct Hsvc as (y & -> & Hy).
  exists p, (y +:+ o). split; [by rewrite !append_assoc|].
  split; [done|].
  destruct Hy as [->|Hy].
  - destruct Hopt as [->|Ho']; [by left|right; by right].
  - right. left. destruct y as [|c y]; [done|]. exact Hy.
Qed.

Lemma s3HostPattern_within : within isHostChar s3HostPattern.
Proof.
  assert (Hchar : ∀ x, isHostChar x = true →
                       within isHostChar (Regex.char x)).
  { intros x Hx c ->%Ascii.eqb_eq. exact Hx. }
  assert (Hlit : ∀ l, allChars isHostChar l = true →
                      within isHostChar (Regex.lit l)).
  { induction l as [|x l IH]; [done|]. cbn.
    intros [Hx Hl]%andb_true_iff. split; [by apply Hchar|auto]. }
  assert (Hwd : ∀ c, Regex.isWord c || Ascii.eqb c "-" = true →
                     isHostChar c = true).
  { intros c. unfold isHostChar.
    destruct (Regex.isWord c), (Ascii.eqb c "-"), (Ascii.eqb c "."); done. }
  unfold s3HostPattern. cbv zeta. cbn [within Regex.opt Regex.plus].
  repeat split; try done; try (by apply Hchar); try (by apply Hlit).
Qed.

(** The pattern alone decides: the suffix was tested for nothing. *)
Lemma isValidS3Host_test (host : string) :
  isValidS3Host host = Regex.test s3HostPattern (Js.toLowerCase host).
Proof.
  unfold isValidS3Host. cbv zeta.
  destruct (Regex.test s3HostPattern (Js.toLowerCase host)) eqn:Ht;
    [|by destruct (negb _)].
  apply test_matches in Ht.
  destruct (s3HostPattern_shape _ Ht) as (pre & rest & -> & _).
  rewrite <- !append_assoc. by rewrite endsWith_append.
Qed.

(** X14.  A host is taken for an S3 endpoint only if, in lower case,
    it is made of word characters, dots and dashes (so it carries no
    port), ends with [.amazonaws.com], and has before that a label that
    begins with [s3] and goes on, if at all, with a dash or is followed by
    one more label: hosts of other services of the provider, and hosts
    that merely contain the name of the provider, are rejected.  The
    pattern alone decides: the test of the suffix that precedes it never
    changes the answer, and neither does the case of the host. *)
Theorem isValidS3Host_shape :
  ∀ (host : string),
    isValidS3Host host = Regex.test s3HostPattern (Js.toLowerCase host) ∧
    (isValidS3Host host = true →
     allChars isHostChar (Js.toLowerCase host) = true ∧
     ∃ pre rest,
       Js.toLowerCase host = pre +:+ "s3" +:+ rest +:+ ".amazonaws.com" ∧
       (pre = "" ∨ ∃ x, pre = x +:+ ".") ∧
       (rest = "" ∨ Js.startsWith rest "-" = true ∨
        Js.startsWith rest "." = true)).
Proof.
  intros host. split; [apply isValidS3Host_test|].
  rewrite isValidS3Host_test. intros Ht%test_matches.
  split; [|by apply s3HostPattern_shape].
  eapply matches_within; [exact Ht|apply s3HostPattern_within].
Qed.

Lemma isValidS3Host_shape_witness :
  allChars isHostChar (Js.toLowerCase "KB.s3.us-east-1.amazonaws.com") = true ∧
  isValidS3Host "ec2.amazonaws.com" = false ∧
  isValidS3Host "s3.amazonaws.com.example.org" = false ∧
  isValidS3Host "kb.s3.amazonaws.com:8443" = false.
Proof.
  split; [|by vm_compute].
  destruct (isValidS3Host_shape "KB.s3.us-east-1.amazonaws.com")
    as [_ Hshape].
  destruct Hshape as [Hchars _]; [vm_compute; reflexivity|exact Hchars].
Defined.

(** X15.  The hosts of S3 in their usual forms are taken for S3
    endpoints, whatever the bucket and the region: [bucket.s3.region],
    [bucket.s3], [s3.region] and [s3-region] before [.amazonaws.com],
    for a bucket made of lower-case letters, digits, dashes and dots and a
    region made of lower-case letters, digits and dashes. *)
Theorem isValidS3Host_accepts :
  ∀ (bucket region : string),
    bucket ≠ "" → allChars isLabelOrDot bucket = true →
    region ≠ "" → allChars isLabelChar region = true →
    isValidS3Host (bucket +:+ ".s3." +:+ region +:+ ".amazonaws.com") = true ∧
    isValidS3Host (bucket +:+ ".s3.amazonaws.com") = true ∧
    isValidS3Host ("s3." +:+ region +:+ ".amazonaws.com") = true ∧
    isValidS3Host ("s3-" +:+ region +:+ ".amazonaws.com") = true.
Proof.
  intros bucket region Hb Hbc Hr Hrc.
  assert (Hrc' : allChars isLabelOrDot region = true)
    by (eapply allChars_impl; [apply isLabelChar_isLabelOrDot|done]).
  assert (Hprefix : matches
            (Regex.opt (Regex.Seq
               (Regex.plus (Regex.Class
                  (fun c => Regex.isWord c || Ascii.eqb c "." ||
                            Ascii.eqb c "-")))
               (Regex.char "."))) (bucket +:+ ".")).
  { apply matches_alt_l, matches_seq; [|by apply matches_char].
    apply matches_plus_class; [done|].
    eapply allChars_impl; [apply isLabelOrDot_isHostChar|done]. }
  assert (Hregion : matches
            (Regex.opt (Regex.Seq (Regex.char ".")
               (Regex.plus (Regex.Class
                  (fun c => Regex.isWord c || Ascii.eqb c "-")))))
            ("." +:+ region)).
  { apply matches_alt_l, matches_seq; [by apply matches_char|].
    apply matches_plus_class; [done|].
    eapply allChars_impl; [apply isLabelChar_wordDash|done]. }
  assert (Hdash : matches
            (Regex.Seq (Regex.lit "s3-")
               (Regex.plus (Regex.Class
                  (fun c => Regex.isWord c || Ascii.eqb c "-"))))
            ("s3-" +:+ region)).
  { apply matches_seq; [by apply matches_lit|].
    apply matches_plus_class; [done|].
    eapply allChars_impl; [apply isLabelChar_wordDash|done]. }
  assert (Hs3 : ∀ r, matches (Regex.Alt (Regex.lit "s3") r) "s3")
    by (intros r; by apply matches_alt_l, matches_lit).
  assert (Hend : matches (Regex.lit ".amazonaws.com") ".amazonaws.com")
    by (by apply matches_lit).
  assert (Hvalid : ∀ s, allChars isLabelOrDot s = true →
                        matches s3HostPattern s → isValidS3Host s = true).
  { intros s Hs Hm. rewrite isValidS3Host_test.
    rewrite toLowerCase_fixed by done. by apply test_matches. }
  repeat split; apply Hvalid;
    rewrite ?allChars_app, ?Hbc, ?Hrc'; try done;
    unfold s3HostPattern; cbv zeta.
  - replace (bucket +:+ ".s3." +:+ region +:+ ".amazonaws.com")
      with ((bucket +:+ ".") +:+ "s3" +:+ ("." +:+ region) +:+ ".amazonaws.com")
      by (by rewrite !append_assoc).
    by repeat apply matches_seq.
  - replace (bucket +:+ ".s3.amazonaws.com")
      with ((bucket +:+ ".") +:+ "s3" +:+ "" +:+ ".amazonaws.com")
      by (by rewrite !append_assoc).
    repeat apply matches_seq; try done. apply matches_opt_nil.
  - replace ("s3." +:+ region +:+ ".amazonaws.com")
      with ("" +:+ "s3" +:+ ("." +:+ region) +:+ ".amazonaws.com")
      by (by rewrite !append_assoc).
    repeat apply matches_seq; try done. apply matches_opt_nil.
  - replace ("s3-" +:+ region +:+ ".amazonaws.com")
      with ("" +:+ ("s3-" +:+ region) +:+ "" +:+ ".amazonaws.com")
      by (by rewrite !append_assoc).
    repeat apply matches_seq; try done; try apply matches_opt_nil.
    by apply matches_alt_r, matches_alt_l.
Qed.

Lemma isValidS3Host_accepts_witness :
  isValidS3Host "my-bucket.s3.eu-west-1.amazonaws.com" = true ∧
  isValidS3Host "my-bucket.s3.amazonaws.com" = true ∧
  isValidS3Host "s3.eu-west-1.amazonaws.com" = true ∧
  isValidS3Host "s3-eu-west-1.amazonaws.com" = true.
Proof.
  apply (isValidS3Host_accepts "my-bucket" "eu-west-1");
    [discriminate|reflexivity|discriminate|reflexivity].
Defined.

(** ** Plain keys that look like domains *)

Lemma string_snoc (s : string) :
  s ≠ "" → ∃ init last, s = init +:+ String last "".
Proof.
  induction s as [|c s IH]; [done|]. intros _.
  destruct s as [|c' s'].
  - by exists "", c.
  - destruct IH as (init & last & Hs); [done|].
    exists (String c init), last.
    change (String c (String c' s') = String c (init +:+ String last "")).
    by rewrite Hs.
Qed.

(** A run of letters and digits is a label of the domain pattern. *)
Lemma matches_label (name : string) :
  name ≠ "" → allChars isAlnum name = true →
  matches
    (Regex.Seq (Regex.Class isAlnum)
       (Regex.opt
          (Regex.Seq
             (Regex.Star (Regex.Class (fun c => isAlnum c || Ascii.eqb c "-")))
             (Regex.Class isAlnum)))) name.
Proof.
  destruct name as [|c rest]; [done|]. intros _. cbn.
  intros [Hc Hrest]%andb_true_iff.
  apply (matches_seq _ _ (String c "") rest); [by constructor|].
  destruct rest as [|c' rest']; [apply matches_opt_nil|].
  destruct (string_snoc (String c' rest')) as (init & last & Hs); [done|].
  rewrite Hs in *. rewrite allChars_app in Hrest.
  apply andb_true_iff in Hrest as [Hinit Hlast].
  apply matches_alt_l, matches_seq.
  - apply matches_star_class. eapply allChars_impl; [|exact Hinit].
    by intros x ->.
  - constructor. cbn in Hlast. by rewrite andb_true_r in Hlast.
Qed.

Lemma domainPattern_matches (name ext rest : string) :
  name ≠ "" → allChars isAlnum name = true →
  allChars isAlpha ext = true → (2 ≤ String.length ext)%nat →
  rest = "" ∨ Js.startsWith rest "/" = true →
  Regex.test ApiS3.domainPattern (name +:+ "." +:+ ext +:+ rest) = true.
Proof.
  intros Hne Hname Hext Hlen Hrest. apply test_matches.
  unfold ApiS3.domainPattern. cbv zeta.
  destruct ext as [|a [|b ext']]; [cbn in Hlen; lia|cbn in Hlen; lia|].
  cbn in Hext. apply andb_true_iff in Hext as [Ha Hext].
  apply andb_true_iff in Hext as [Hb Hext].
  replace (name +:+ "." +:+ String a (String b ext') +:+ rest)
    with (name +:+ "" +:+ "." +:+ String a "" +:+ String b "" +:+
          ext' +:+ rest) by done.
  apply matches_seq; [by apply matches_label|].
  apply matches_seq; [constructor|].
  apply matches_seq; [by apply matches_char|].
  apply matches_seq; [by constructor|].
  apply matches_seq; [by constructor|].
  apply matches_seq; [by apply matches_star_class|].
  destruct Hrest as [->|Hslash]; [apply matches_alt_r; constructor|].
  destruct rest as [|c rest']; [done|].
  unfold Js.startsWith in Hslash. rewrite isPrefix_cons in Hslash.
  apply andb_true_iff in Hslash as [<-%Ascii.eqb_eq _].
  apply matches_alt_l.
  apply (matches_seq _ _ (String "/" "") rest'); [by apply matches_char|].
  apply matches_star_class. clear. by induction rest'.
Qed.

Lemma includes_char_false (s : string) (c : ascii) (needle : string) :
  allChars (fun x => negb (Ascii.eqb c x)) s = true →
  Js.includes s (String c needle) = false.
Proof.
  induction s as [|x s IH]; [done|]. cbn [allChars].
  intros [Hx Hs]%andb_true_iff. rewrite includes_cons, isPrefix_cons.
  apply negb_true_iff in Hx. rewrite Hx. cbn [andb orb]. auto.
Qed.

Lemma includes_char_iff (s : string) (c : ascii) :
  Js.includes s (String c "") = false ↔
  allChars (fun x => negb (Ascii.eqb c x)) s = true.
Proof.
  split; [|apply includes_char_false].
  induction s as [|x s IH]; [done|].
  rewrite includes_cons, isPrefix_cons. cbn [allChars Js.isPrefix].
  rewrite andb_true_r. intros [Hx Hs]%orb_false_iff.
  by rewrite Hx, IH.
Qed.

(** A dot of the input comes before its first slash when the domain
    pattern matches. *)
Lemma dot_before_slash (u t seg rest : string) :
  allChars (fun x => negb (Ascii.eqb "/" x)) u = true →
  allChars (fun x => negb (Ascii.eqb "." x)) seg = true →
  rest = "" ∨ Js.startsWith rest "/" = true →
  u +:+ "." +:+ t = seg +:+ rest → False.
Proof.
  revert seg. induction u as [|x u IH]; intros seg Hu Hseg Hrest Heq.
  - destruct seg as [|c seg].
    + change ("." +:+ t = rest) in Heq. subst rest.
      destruct Hrest as [?|?]; done.
    + injection Heq as <- _. cbn in Hseg. done.
  - cbn [allChars] in Hu. apply andb_true_iff in Hu as [Hx Hu].
    destruct seg as [|c seg].
    + change (String x (u +:+ "." +:+ t) = rest) in Heq. subst rest.
      destruct Hrest as [?|Hslash]; [done|].
      unfold Js.startsWith in Hslash. rewrite isPrefix_cons in Hslash.
      apply andb_true_iff in Hslash as [Hslash _].
      by rewrite Hslash in Hx.
    + injection Heq as <- Heq. cbn [allChars] in Hseg.
      apply andb_true_iff in Hseg as [_ Hseg]. by eapply IH.
Qed.

Lemma domainPattern_needs_dot (seg rest : string) :
  Js.includes seg "." = false →
  rest = "" ∨ Js.startsWith rest "/" = true →
  Regex.test ApiS3.domainPattern (seg +:+ rest) = false.
Proof.
  intros Hdot%includes_char_iff Hrest.
  apply not_true_iff_false. intros Hm%test_matches.
  unfold ApiS3.domainPattern in Hm. cbv zeta in Hm.
  apply matches_Seq in Hm as (l & s1 & Hs & Hl & Hm).
  apply matches_Seq in Hm as (d & s2 & -> & Hd & Hm).
  apply matches_Seq in Hm as (dot & t & -> & ->%matches_char & _).
  apply (dot_before_slash (l +:+ d) t seg rest); try done.
  - rewrite allChars_app. apply andb_true_iff. split.
    + eapply matches_within; [exact Hl|]. cbn [within Regex.opt].
      repeat split; try done; intros c; unfold Regex.isLower, Regex.isUpper,
        Regex.isDigit, Regex.between;
        destruct c as [[] [] [] [] [] [] [] []]; by vm_compute.
    + eapply matches_within; [exact Hd|]. cbn [within Regex.opt Regex.char].
      repeat split; try done; intros c; unfold Regex.isLower, Regex.isUpper,
        Regex.isDigit, Regex.between;
        destruct c as [[] [] [] [] [] [] [] []]; by vm_compute.
  - rewrite append_assoc. by rewrite Hs.
Qed.

(** X16.  A plain key that begins like a domain name, a run of
    letters and digits, a dot, and two letters or more up to a slash or to
    the end, as any file name with an extension at the top level
    ([report.pdf]), is refused by the API variant as a domain-like
    pattern, while the web-application variant returns it as it is. *)
Theorem domain_like_key_rejected :
  ∀ (R : Runtime) (name ext rest : string),
    let url := name +:+ "." +:+ ext +:+ rest in
    name ≠ "" → allChars isAlnum name = true →
    allChars isAlpha ext = true → (2 ≤ String.length ext)%nat →
    rest = "" ∨ Js.startsWith rest "/" = true →
    newURL R url = None →
    Js.includes (Js.toLowerCase url) "://" = false →
    ApiS3.extractS3KeyFromUrl R url
      = inl (Js.Error "Invalid input: Domain-like pattern detected in S3 key") ∧
    (Js.includes (Js.toLowerCase url) "amazonaws.com" = false →
     hasTraversal url = false →
     AppS3.extractS3KeyFromUrl R url = inr url).
Proof.
  intros R name ext rest url Hne Hname Hext Hlen Hrest Hnew Hscheme.
  assert (Hshape : ∃ c tail, url = String c tail ∧ isAlnum c = true).
  { subst url. destruct name as [|c name']; [done|].
    exists c, (name' +:+ "." +:+ ext +:+ rest). split; [done|].
    cbn in Hname. by apply andb_true_iff in Hname as [? _]. }
  split.
  - unfold ApiS3.extractS3KeyFromUrl.
    destruct Hshape as (c & tail & Hurl & _). rewrite Hurl at 1.
    cbn [Js.falsy]. rewrite Hnew. cbv zeta. rewrite Hscheme.
    subst url. by rewrite domainPattern_matches.
  - intros Haws Htrav. unfold AppS3.extractS3KeyFromUrl.
    destruct Hshape as (c & tail & Hurl & Hc). rewrite Hurl at 1.
    cbn [Js.falsy]. rewrite Hnew. cbv zeta.
    rewrite Hscheme, Haws, Htrav. cbn [orb].
    rewrite Hurl. unfold Js.startsWith. rewrite isPrefix_cons.
    replace (Ascii.eqb "/" c) with false; [done|].
    symmetry. apply not_true_iff_false. intros <-%Ascii.eqb_eq. done.
Qed.

Lemma domain_like_key_rejected_witness :
  ApiS3.extractS3KeyFromUrl Demo.runtime "report.pdf"
    = inl (Js.Error "Invalid input: Domain-like pattern detected in S3 key") ∧
  AppS3.extractS3KeyFromUrl Demo.runtime "report.pdf" = inr "report.pdf".
Proof.
  destruct (domain_like_key_rejected Demo.runtime "report" "pdf" "")
    as [Hapi Happ];
    [discriminate|reflexivity|reflexivity|cbn; lia|by left|reflexivity
    |reflexivity|].
  split; [exact Hapi|]. apply Happ; reflexivity.
Defined.

(** X17.  A plain key whose first segment, the part before the first
    slash, has no dot never matches the domain pattern; on such a key that
    does not contain [amazonaws.com] the two variants do the same. *)
Theorem dotless_segment_not_domain_like :
  ∀ (R : Runtime) (seg rest : string),
    Js.includes seg "." = false →
    rest = "" ∨ Js.startsWith rest "/" = true →
    Regex.test ApiS3.domainPattern (seg +:+ rest) = false ∧
    (Js.includes (Js.toLowerCase (seg +:+ rest)) "amazonaws.com" = false →
     ApiS3.extractS3KeyFromUrl R (seg +:+ rest)
     = AppS3.extractS3KeyFromUrl R (seg +:+ rest)).
Proof.
  intros R seg rest Hdot Hrest.
  assert (Hd := domainPattern_needs_dot seg rest Hdot Hrest).
  split; [exact Hd|]. intros Haws.
  unfold ApiS3.extractS3KeyFromUrl, AppS3.extractS3KeyFromUrl.
  by rewrite Hd, Haws, orb_false_r.
Qed.

Lemma dotless_segment_not_domain_like_witness :
  Regex.test ApiS3.domainPattern "org_1/handbook.pdf" = false ∧
  ApiS3.extractS3KeyFromUrl Demo.runtime "org_1/handbook.pdf"
  = AppS3.extractS3KeyFromUrl Demo.runtime "org_1/handbook.pdf".
Proof.
  destruct (dotless_segment_not_domain_like Demo.runtime "org_1"
              "/handbook.pdf") as [Hd Hsame];
    [reflexivity|by right|].
  split; [exact Hd|]. apply Hsame. reflexivity.
Defined.

(** ** Sanitised file names and header values *)

Lemma allChars_replaceOutside (keep : ascii → bool) (by_ : ascii)
    (s : string) :
  allChars (fun c => keep c || Ascii.eqb c by_) (Api.replaceOutside keep by_ s)
  = true.
Proof.
  induction s as [|c s IH]; [done|]. cbn [Api.replaceOutside allChars].
  rewrite IH, andb_true_r. destruct (keep c) eqn:Hc.
  - by rewrite Hc.
  - by rewrite Ascii.eqb_refl, orb_true_r.
Qed.

Lemma replaceOutside_fixed (keep : ascii → bool) (by_ : ascii) (s : string) :
  allChars keep s = true → Api.replaceOutside keep by_ s = s.
Proof.
  induction s as [|c s IH]; [done|]. cbn [Api.replaceOutside allChars].
  intros [Hc Hs]%andb_true_iff. by rewrite Hc, IH.
Qed.

Lemma length_replaceOutside (keep : ascii → bool) (by_ : ascii) (s : string) :
  String.length (Api.replaceOutside keep by_ s) = String.length s.
Proof. induction s as [|c s IH]; [done|]. cbn. by rewrite IH. Qed.

Lemma replaceOutside_idem (keep : ascii → bool) (by_ : ascii) (s : string) :
  Api.replaceOutside keep by_ (Api.replaceOutside keep by_ s)
  = Api.replaceOutside keep by_ s.
Proof.
  induction s as [|c s IH]; [done|]. cbn [Api.replaceOutside].
  rewrite IH. f_equal. destruct (keep c) eqn:Hc; [by rewrite Hc|].
  by destruct (keep by_).
Qed.

(** A needle that ends with a character that [b] does not have is not
    found in [b], and is found in [a +:+ b] only inside [a]. *)
Lemma isPrefix_absent (last : ascii) (init b : string) :
  allChars (fun x => negb (Ascii.eqb last x)) b = true →
  Js.isPrefix (init +:+ String last "") b = false.
Proof.
  revert b. induction init as [|c init IH]; intros b Hb.
  - destruct b as [|y b]; [done|].
    change (Js.isPrefix (String last "") (String y b) = false).
    rewrite isPrefix_cons. cbn [allChars] in Hb.
    apply andb_true_iff in Hb as [Hy _]. apply negb_true_iff in Hy.
    by rewrite Hy.
  - destruct b as [|y b]; [done|].
    change (Js.isPrefix (String c (init +:+ String last "")) (String y b)
            = false).
    rewrite isPrefix_cons. cbn [allChars] in Hb.
    apply andb_true_iff in Hb as [_ Hb]. by rewrite IH, andb_false_r.
Qed.

Lemma isPrefix_app_absent (last : ascii) (init a b : string) :
  allChars (fun x => negb (Ascii.eqb last x)) b = true →
  Js.isPrefix (init +:+ String last "") (a +:+ b)
  = Js.isPrefix (init +:+ String last "") a.
Proof.
  intros Hb. revert a. induction init as [|c init IH]; intros a.
  - destruct a as [|x a].
    + change (Js.isPrefix ("" +:+ String last "") b
              = Js.isPrefix (String last "") "").
      by rewrite isPrefix_absent.
    + change (Js.isPrefix (String last "") (String x (a +:+ b))
              = Js.isPrefix (String last "") (String x a)).
      by rewrite !isPrefix_cons.
  - destruct a as [|x a].
    + change (Js.isPrefix (String c init +:+ String last "") b = false).
      by apply isPrefix_absent.
    + change (Js.isPrefix (String c (init +:+ String last ""))
                          (String x (a +:+ b))
              = Js.isPrefix (String c (init +:+ String last "")) (String x a)).
      by rewrite !isPrefix_cons, IH.
Qed.

Lemma includes_absent (last : ascii) (init b : string) :
  allChars (fun x => negb (Ascii.eqb last x)) b = true →
  Js.includes b (init +:+ String last "") = false.
Proof.
  induction b as [|y b IH]; intros Hb.
  - cbn. by destruct init.
  - rewrite includes_cons, isPrefix_absent by done.
    cbn [allChars] in Hb. apply andb_true_iff in Hb as [_ Hb]. by apply IH.
Qed.

Lemma includes_app_absent (last : ascii) (init a b : string) :
  allChars (fun x => negb (Ascii.eqb last x)) b = true →
  Js.includes (a +:+ b) (init +:+ String last "")
  = Js.includes a (init +:+ String last "").
Proof.
  intros Hb. induction a as [|x a IH].
  - change (Js.includes b (init +:+ String last "")
            = Js.includes "" (init +:+ String last "")).
    rewrite includes_absent by done. cbn. by destruct init.
  - change (Js.includes (String x (a +:+ b)) (init +:+ String last "")
            = Js.includes (String x a) (init +:+ String last "")).
    rewrite !includes_cons, IH. f_equal.
    by apply (isPrefix_app_absent last init (String x a)).
Qed.

Lemma hasTraversal_app_safe (a b : string) :
  allChars (fun x => negb (Ascii.eqb "/" x)) b = true →
  allChars (fun x => negb (Ascii.eqb "\" x)) b = true →
  hasTraversal (a +:+ b) = hasTraversal a.
Proof.
  intros Hslash Hback. unfold hasTraversal.
  pose proof (includes_app_absent "/" ".." a b Hslash) as H1.
  pose proof (includes_app_absent "\" ".." a b Hback) as H2.
  change (".." +:+ String "/" "") with "../" in H1.
  change (".." +:+ String "\" "") with "..\" in H2.
  by rewrite H1, H2.
Qed.

Lemma sanitizeFileName_chars (fileName : string) (c : ascii) :
  Api.isFileNameChar c = false → Ascii.eqb "_" c = false →
  allChars (fun x => negb (Ascii.eqb c x)) (Api.sanitizeFileName fileName)
  = true.
Proof.
  intros Hc Hu. unfold Api.sanitizeFileName.
  eapply allChars_impl; [|apply allChars_replaceOutside].
  intros x Hx. cbv beta in Hx. apply negb_true_iff, not_true_iff_false.
  intros <-%Ascii.eqb_eq.
  rewrite Ascii.eqb_sym in Hu. by rewrite Hc, Hu in Hx.
Qed.

Lemma sanitizeFileName_traversal (fileName : string) :
  allChars (fun x => negb (Ascii.eqb "/" x)) (Api.sanitizeFileName fileName)
    = true ∧
  allChars (fun x => negb (Ascii.eqb "\" x)) (Api.sanitizeFileName fileName)
    = true.
Proof. split; by apply sanitizeFileName_chars. Qed.

(** X18.  [sanitizeFileName] keeps the length of the name, gives only
    letters, digits, dots, dashes and underscores, leaves a name made of
    such characters as it is, and is idempotent.  Its result has no slash
    and no backslash, so appended to a prefix, as in the key of an
    uploaded object, it adds no path traversal to the prefix. *)
Theorem sanitizeFileName_safe :
  ∀ (fileName : string),
    String.length (Api.sanitizeFileName fileName) = String.length fileName ∧
    allChars (fun c => Api.isFileNameChar c || Ascii.eqb c "_")
             (Api.sanitizeFileName fileName) = true ∧
    Api.sanitizeFileName (Api.sanitizeFileName fileName)
      = Api.sanitizeFileName fileName ∧
    (allChars Api.isFileNameChar fileName = true →
     Api.sanitizeFileName fileName = fileName) ∧
    Js.includes (Api.sanitizeFileName fileName) "/" = false ∧
    Js.includes (Api.sanitizeFileName fileName) "\" = false ∧
    (∀ prefix, hasTraversal (prefix +:+ Api.sanitizeFileName fileName)
               = hasTraversal prefix).
Proof.
  intros fileName.
  assert (Hslash := sanitizeFileName_chars fileName "/" eq_refl eq_refl).
  assert (Hback := sanitizeFileName_chars fileName "\" eq_refl eq_refl).
  repeat split.
  - apply length_replaceOutside.
  - apply allChars_replaceOutside.
  - apply replaceOutside_idem.
  - apply replaceOutside_fixed.
  - by apply (includes_absent "/" "" _ Hslash).
  - by apply (includes_absent "\" "" _ Hback).
  - intros prefix. by apply hasTraversal_app_safe.
Qed.

Lemma sanitizeFileName_safe_witness :
  Api.sanitizeFileName "../../etc/passwd" = ".._.._etc_passwd" ∧
  Api.sanitizeFileName "Q3 report (final).pdf" = "Q3_report__final_.pdf" ∧
  Api.sanitizeFileName "handbook-v2.pdf" = "handbook-v2.pdf".
Proof.
  split; [reflexivity|]. split; [reflexivity|].
  destruct (sanitizeFileName_safe "handbook-v2.pdf") as (_ & _ & _ & Hfix & _).
  by apply Hfix.
Defined.

(** ** Header values *)

Lemma allChars_removeAll (p drop : ascii → bool) (s : string) :
  (∀ c, drop c = false → p c = true) →
  allChars p (Api.removeAll drop s) = true.
Proof.
  intros Hp. induction s as [|c s IH]; [done|]. cbn [Api.removeAll].
  destruct (drop c) eqn:Hc; [done|]. cbn [allChars]. by rewrite Hp, IH.
Qed.

Lemma removeAll_fixed (drop : ascii → bool) (s : string) :
  allChars (fun c => negb (drop c)) s = true → Api.removeAll drop s = s.
Proof.
  induction s as [|c s IH]; [done|]. cbn [Api.removeAll allChars].
  intros [Hc Hs]%andb_true_iff. apply negb_true_iff in Hc.
  by rewrite Hc, IH.
Qed.

Lemma length_removeAll (drop : ascii → bool) (s : string) :
  (String.length (Api.removeAll drop s) ≤ String.length s)%nat.
Proof.
  induction s as [|c s IH]; [done|]. cbn [Api.removeAll].
  destruct (drop c); cbn [String.length]; lia.
Qed.

Lemma allChars_trimStart (p : ascii → bool) (s : string) :
  allChars p s = true → allChars p (Js.trimStart s) = true.
Proof.
  induction s as [|c s IH]; [done|]. cbn [Js.trimStart].
  destruct (Js.isWhiteSpace c); [|done]. cbn [allChars].
  intros [_ Hs]%andb_true_iff. auto.
Qed.

Lemma allChars_trimEnd (p : ascii → bool) (s : string) :
  allChars p s = true → allChars p (Js.trimEnd s) = true.
Proof.
  induction s as [|c s IH]; [done|]. cbn [Js.trimEnd allChars].
  intros [Hc Hs]%andb_true_iff. specialize (IH Hs).
  destruct (Js.trimEnd s) as [|k kept].
  - destruct (Js.isWhiteSpace c); [done|]. cbn. by rewrite Hc.
  - cbn [allChars] in *. by rewrite Hc, IH.
Qed.

Lemma length_trimStart (s : string) :
  (String.length (Js.trimStart s) ≤ String.length s)%nat.
Proof.
  induction s as [|c s IH]; [done|]. cbn [Js.trimStart].
  destruct (Js.isWhiteSpace c); cbn [String.length]; lia.
Qed.

Lemma length_trimEnd (s : string) :
  (String.length (Js.trimEnd s) ≤ String.length s)%nat.
Proof.
  induction s as [|c s IH]; [done|]. cbn [Js.trimEnd].
  destruct (Js.trimEnd s) as [|k kept].
  - destruct (Js.isWhiteSpace c); cbn [String.length]; lia.
  - cbn [String.length] in *. lia.
Qed.

Lemma trimEnd_cons (c : ascii) (rest : string) :
  Js.trimEnd (String c rest) =
  match Js.trimEnd rest with
  | EmptyString => if Js.isWhiteSpace c then EmptyString
                   else String c EmptyString
  | kept => String c kept
  end.
Proof. reflexivity. Qed.

Lemma trimEnd_idem (s : string) : Js.trimEnd (Js.trimEnd s) = Js.trimEnd s.
Proof.
  induction s as [|c s IH]; [done|]. rewrite (trimEnd_cons c s).
  destruct (Js.trimEnd s) as [|k kept] eqn:Hk.
  - destruct (Js.isWhiteSpace c) eqn:Hc; [done|].
    rewrite trimEnd_cons. cbn [Js.trimEnd]. by rewrite Hc.
  - rewrite trimEnd_cons, IH. done.
Qed.

Lemma trimStart_trimmed (s : string) : trimmedStart (Js.trimStart s).
Proof.
  induction s as [|c s IH]; [done|]. cbn [Js.trimStart].
  by destruct (Js.isWhiteSpace c) eqn:Hc.
Qed.

Lemma trimStart_fixed (s : string) : trimmedStart s → Js.trimStart s = s.
Proof. destruct s as [|c s]; [done|]. cbn. by intros ->. Qed.

Lemma trimEnd_trimmed (s : string) : trimmedStart s → trimmedStart (Js.trimEnd s).
Proof.
  destruct s as [|c s]; [done|]. cbn [trimmedStart Js.trimEnd]. intros Hc.
  destruct (Js.trimEnd s); [by rewrite Hc|done].
Qed.

Lemma trim_idem (s : string) : Js.trim (Js.trim s) = Js.trim s.
Proof.
  unfold Js.trim.
  rewrite (trimStart_fixed (Js.trimEnd (Js.trimStart s))).
  - apply trimEnd_idem.
  - apply trimEnd_trimmed, trimStart_trimmed.
Qed.

Lemma isPrintable_not_control (c : ascii) :
  Api.isPrintable c = true → negb (Api.isControl c) = true.
Proof. destruct c as [[] [] [] [] [] [] [] []]; by vm_compute. Qed.

(** X19.  [sanitizeHeaderValue] gives printable ASCII only, with no
    white space at either end, never a longer string than it was given,
    and is idempotent: a value it has produced is a value it leaves as it
    is. *)
Theorem sanitizeHeaderValue_printable :
  ∀ (value : string),
    allChars Api.isPrintable (Api.sanitizeHeaderValue value) = true ∧
    Js.trim (Api.sanitizeHeaderValue value) = Api.sanitizeHeaderValue value ∧
    (String.length (Api.sanitizeHeaderValue value) ≤ String.length value)%nat ∧
    Api.sanitizeHeaderValue (Api.sanitizeHeaderValue value)
      = Api.sanitizeHeaderValue value.
Proof.
  intros value.
  assert (Hprint : allChars Api.isPrintable (Api.sanitizeHeaderValue value)
                   = true).
  { unfold Api.sanitizeHeaderValue, Js.trim. cbv zeta.
    apply allChars_trimEnd, allChars_trimStart.
    eapply allChars_impl; [|apply allChars_replaceOutside].
    intros c [Hc| ->%Ascii.eqb_eq]%orb_true_iff; done. }
  split; [exact Hprint|]. split; [|split].
  - unfold Api.sanitizeHeaderValue. cbv zeta. apply trim_idem.
  - unfold Api.sanitizeHeaderValue, Js.trim. cbv zeta.
    etransitivity; [apply length_trimEnd|].
    etransitivity; [apply length_trimStart|].
    rewrite length_replaceOutside. apply length_removeAll.
  - unfold Api.sanitizeHeaderValue at 1. cbv zeta.
    rewrite removeAll_fixed.
    2: { eapply allChars_impl; [apply isPrintable_not_control|done]. }
    rewrite replaceOutside_fixed by done.
    unfold Api.sanitizeHeaderValue. cbv zeta. apply trim_idem.
Qed.

(** ** Running the service *)

Lemma api_bind_inr {A B} (m : Api.M A) (k : A → Api.M B) (w w' : Api.World)
    (a : A) :
  m w = (w', inr a) → (m ≫= k) w = k a w'.
Proof. intros H. unfold mbind, Api.M_bind, Api.bind. by rewrite H. Qed.

Lemma api_bind_inl {A B} (m : Api.M A) (k : A → Api.M B) (w w' : Api.World)
    (e : Api.exn) :
  m w = (w', inl e) → (m ≫= k) w = (w', inl e).
Proof. intros H. unfold mbind, Api.M_bind, Api.bind. by rewrite H. Qed.

Lemma api_tryCatch_inr {A} (m : Api.M A) (h : Api.exn → Api.M A)
    (w w' : Api.World) (a : A) :
  m w = (w', inr a) → Api.tryCatch m h w = (w', inr a).
Proof. intros H. unfold Api.tryCatch. by rewrite H. Qed.

Lemma api_tryCatch_inl {A} (m : Api.M A) (h : Api.exn → Api.M A)
    (w w' : Api.World) (e : Api.exn) :
  m w = (w', inl e) → Api.tryCatch m h w = h e w'.
Proof. intros H. unfold Api.tryCatch. by rewrite H. Qed.

Lemma api_emit_eq (e : Api.Event) (w : Api.World) :
  Api.emit e w = (Api.addEvents w [e], inr tt).
Proof. reflexivity. Qed.

Lemma api_logger_eq (level : LogLevel) (message : string) (w : Api.World) :
  Api.logger level message w
  = (Api.addEvents w [Api.Log level message], inr tt).
Proof. reflexivity. Qed.

Lemma api_console_eq (message : string) (w : Api.World) :
  Api.console_error message w
  = (Api.addEvents w [Api.Console message], inr tt).
Proof. reflexivity. Qed.

Lemma api_get_eq (w : Api.World) : Api.get w = (w, inr w).
Proof. reflexivity. Qed.

Lemma api_dateNow_eq (w : Api.World) : Api.dateNow w = (w, inr (Api.clock w)).
Proof. reflexivity. Qed.

Lemma api_addEvents_addEvents (w : Api.World) (a b : list Api.Event) :
  Api.addEvents (Api.addEvents w a) b = Api.addEvents w (a ++ b).
Proof. unfold Api.addEvents. cbn. by rewrite app_assoc. Qed.

Lemma api_addEvents_withAttachments (w : Api.World) (rows : list Api.Attachment)
    (a : list Api.Event) :
  Api.addEvents (Api.withAttachments w rows) a
  = Api.withAttachments (Api.addEvents w a) rows.
Proof. reflexivity. Qed.

Lemma api_addEvents_withQuestionnaires (w : Api.World)
    (rows : list Api.Questionnaire) (a : list Api.Event) :
  Api.addEvents (Api.withQuestionnaires w rows) a
  = Api.withQuestionnaires (Api.addEvents w a) rows.
Proof. reflexivity. Qed.

Create Rewrite HintDb api.
#[local] Hint Rewrite api_addEvents_addEvents api_addEvents_withAttachments
  api_addEvents_withQuestionnaires : api.

Lemma api_eventsSince_addEvents (w : Api.World) (evs : list Api.Event) :
  Api.eventsSince w (Api.addEvents w evs) = evs.
Proof.
  unfold Api.eventsSince, Api.addEvents. cbn. by rewrite drop_app_length.
Qed.

Lemma api_eventsSince_withAttachments (w w' : Api.World)
    (rows : list Api.Attachment) :
  Api.eventsSince w (Api.withAttachments w' rows) = Api.eventsSince w w'.
Proof. reflexivity. Qed.

Lemma api_eventsSince_withQuestionnaires (w w' : Api.World)
    (rows : list Api.Questionnaire) :
  Api.eventsSince w (Api.withQuestionnaires w' rows) = Api.eventsSince w w'.
Proof. reflexivity. Qed.

#[local] Hint Rewrite api_eventsSince_withAttachments
  api_eventsSince_withQuestionnaires api_eventsSince_addEvents : api.

Lemma api_findAttachment_eq (id org : string) (w : Api.World) :
  Api.findAttachment id org w =
  (Api.addEvents w [Api.FindAttachment id org],
   inr (List.find (Api.isRow id org) (Api.attachments w))).
Proof. reflexivity. Qed.

Lemma api_s3_put_eq (E : Api.Env) (bucket key body type : string)
    (metadata : gmap string string) (w : Api.World) :
  Api.s3_put E bucket key body type metadata w =
  (Api.addEvents w [Api.PutObject bucket key body type metadata],
   match Api.putObjectFailure E bucket key with
   | Some e => inl (Api.Raised e)
   | None => inr tt
   end).
Proof.
  unfold Api.s3_put. rewrite (api_bind_inr _ _ _ _ _ (api_emit_eq _ _)).
  by destruct (Api.putObjectFailure E bucket key).
Qed.

Lemma api_s3_delete_eq (E : Api.Env) (bucket key : string) (w : Api.World) :
  Api.s3_delete E bucket key w =
  (Api.addEvents w [Api.DeleteObject bucket key],
   match Api.deleteObjectFailure E bucket key with
   | Some e => inl (Api.Raised e)
   | None => inr tt
   end).
Proof.
  unfold Api.s3_delete. rewrite (api_bind_inr _ _ _ _ _ (api_emit_eq _ _)).
  by destruct (Api.deleteObjectFailure E bucket key).
Qed.

Lemma api_s3_get_eq (E : Api.Env) (bucket key : string) (w : Api.World) :
  Api.s3_get E bucket key w =
  (Api.addEvents w [Api.GetObject bucket key],
   match Api.getObject E bucket key with
   | inl e => inl (Api.Raised e)
   | inr response => inr response
   end).
Proof. reflexivity. Qed.

Lemma api_generateSignedUrl_eq (E : Api.Env) (key : string) (w : Api.World) :
  Api.generateSignedUrl E key w =
  (Api.addEvents w [Api.SignUrl (Api.bucketName E) key Api.SIGNED_URL_EXPIRY],
   match Api.getSignedUrl E (Api.bucketName E) key Api.SIGNED_URL_EXPIRY with
   | inl e => inl (Api.Raised e)
   | inr url => inr url
   end).
Proof. reflexivity. Qed.

Lemma api_createAttachment_eq (E : Api.Env) (name url : string)
    (type : Api.AttachmentType) (entityId entityType organizationId : string)
    (w : Api.World) :
  let row := {| Api.att_id := Api.newId E w; Api.att_name := name;
                Api.att_url := url; Api.att_type := type;
                Api.att_entityId := entityId;
                Api.att_entityType := entityType;
                Api.att_organizationId := organizationId;
                Api.att_createdAt := Api.clock w |} in
  Api.createAttachment E name url type entityId entityType organizationId w =
  match Api.createAttachmentFailure E with
  | Some e => (Api.addEvents w [Api.CreateAttachment row], inl (Api.Raised e))
  | None =>
      (Api.withAttachments (Api.addEvents w [Api.CreateAttachment row])
                           (Api.attachments w ++ [row]),
       inr row)
  end.
Proof.
  intros row. unfold Api.createAttachment.
  rewrite (api_bind_inr _ _ _ _ _ (api_get_eq _)).
  rewrite (api_bind_inr _ _ _ _ _ (api_emit_eq _ _)).
  by destruct (Api.createAttachmentFailure E).
Qed.

(** The three checks of [uploadAttachment], and what it does once they
    are passed. *)
Lemma uploadAttachment_checked (E : Api.Env)
    (organizationId entityId entityType : string)
    (uploadDto : Api.UploadAttachmentDto) (userId : option string)
    (w : Api.World) :
  let key := Api.uploadKey E w organizationId entityId entityType uploadDto in
  let put := Api.uploadPut E w organizationId entityId entityType uploadDto
                           userId in
  let row := Api.uploadRow E w organizationId entityId entityType uploadDto
                           userId in
  let failed := inl (Api.InternalServerErrorException
                       "Failed to upload attachment") in
  let console := Api.Console "Error uploading attachment:" in
  Api.uploadAttachment E organizationId entityId entityType uploadDto userId w
  =
  if Api.blockedExtension uploadDto then
    (Api.addEvents w [console],
     inl (Api.BadRequestException
            ("File extension '." +:+
             Js.toLowerCase (Api.pop (Api.split "." (Api.up_fileName uploadDto)))
             +:+ "' is not allowed for security reasons")))
  else if Api.blockedMimeType uploadDto then
    (Api.addEvents w [console],
     inl (Api.BadRequestException
            ("File type '" +:+ Api.up_fileType uploadDto +:+
             "' is not allowed for security reasons")))
  else if Api.tooLarge E uploadDto then
    (Api.addEvents w [console],
     inl (Api.BadRequestException
            "File size exceeds maximum allowed size of 10MB"))
  else
    match Api.putObjectFailure E (Api.bucketName E) key with
    | Some _ => (Api.addEvents w [put; console], failed)
    | None =>
        match Api.createAttachmentFailure E with
        | Some _ =>
            (Api.addEvents w [put; Api.CreateAttachment row; console], failed)
        | None =>
            match Api.getSignedUrl E (Api.bucketName E) key
                                   Api.SIGNED_URL_EXPIRY with
            | inl _ =>
                (Api.withAttachments
                   (Api.addEvents w
                      [put; Api.CreateAttachment row;
                       Api.SignUrl (Api.bucketName E) key
                                   Api.SIGNED_URL_EXPIRY; console])
                   (Api.attachments w ++ [row]),
                 failed)
            | inr downloadUrl =>
                (Api.withAttachments
                   (Api.addEvents w
                      [put; Api.CreateAttachment row;
                       Api.SignUrl (Api.bucketName E) key
                                   Api.SIGNED_URL_EXPIRY])
                   (Api.attachments w ++ [row]),
                 inr {| Api.res_id := Api.att_id row;
                        Api.res_name := Api.up_fileName uploadDto;
                        Api.res_type :=
                          Api.mapFileTypeToAttachmentType
                            (Api.up_fileType uploadDto);
                        Api.res_downloadUrl := downloadUrl;
                        Api.res_createdAt := Api.clock w;
                        Api.res_size :=
                          Api.byteLength
                            (Api.fromBase64 E (Api.up_fileData uploadDto)) |})
            end
        end
    end.
Proof.
  intros key put row failed console. unfold Api.uploadAttachment.
  fold (Api.blockedExtension uploadDto). cbv zeta.
  change (Api.includes Api.BLOCKED_EXTENSIONS _) with
    (Api.includes Api.BLOCKED_EXTENSIONS
       (Js.toLowerCase (Api.pop (Api.split "." (Api.up_fileName uploadDto))))).
  fold (Api.blockedExtension uploadDto).
  fold (Api.blockedMimeType uploadDto). fold (Api.tooLarge E uploadDto).
  destruct (Api.blockedExtension uploadDto).
  { erewrite api_tryCatch_inl; [|reflexivity].
    by rewrite (api_bind_inr _ _ _ _ _ (api_console_eq _ _)). }
  destruct (Api.blockedMimeType uploadDto).
  { erewrite api_tryCatch_inl; [|reflexivity].
    by rewrite (api_bind_inr _ _ _ _ _ (api_console_eq _ _)). }
  destruct (Api.tooLarge E uploadDto).
  { erewrite api_tryCatch_inl; [|reflexivity].
    by rewrite (api_bind_inr _ _ _ _ _ (api_console_eq _ _)). }
  unfold Api.tryCatch at 1.
  rewrite (api_bind_inr _ _ _ _ _ (api_get_eq _)).
  rewrite (api_bind_inr _ _ _ _ _ (api_dateNow_eq _)).
  change (Api.objectKey organizationId entityType entityId (Api.clock w)
            (Api.randomHex E w)
            (Api.sanitizeFileName (Api.up_fileName uploadDto))) with key.
  unfold mbind at 1, Api.M_bind at 1, Api.bind at 1.
  rewrite api_s3_put_eq.
  change (Api.PutObject _ _ _ _ _) with put.
  destruct (Api.putObjectFailure E (Api.bucketName E) key) as [e|].
  { rewrite (api_bind_inr _ _ _ _ _ (api_console_eq _ _)).
    by autorewrite with api. }
  unfold mbind at 1, Api.M_bind at 1, Api.bind at 1.
  rewrite api_createAttachment_eq. cbv zeta.
  change (Api.mkAttachment (Api.newId E (Api.addEvents w [put])) _ _ _ _ _ _ _)
    with row.
  destruct (Api.createAttachmentFailure E) as [e|].
  { rewrite (api_bind_inr _ _ _ _ _ (api_console_eq _ _)).
    by autorewrite with api. }
  unfold mbind at 1, Api.M_bind at 1, Api.bind at 1.
  rewrite api_generateSignedUrl_eq.
  destruct (Api.getSignedUrl E (Api.bucketName E) key Api.SIGNED_URL_EXPIRY)
    as [e|downloadUrl].
  { rewrite (api_bind_inr _ _ _ _ _ (api_console_eq _ _)).
    by autorewrite with api. }
  by autorewrite with api.
Qed.

(** ** What an upload checks *)

Lemma split_not_nil (sep : ascii) (s : string) : Api.split sep s ≠ [].
Proof.
  induction s as [|c s IH]; [done|]. cbn [Api.split].
  destruct (Ascii.eqb c sep); [done|]. by destruct (Api.split sep s).
Qed.

Lemma split_without (sep : ascii) (s : string) :
  allChars (fun x => negb (Ascii.eqb sep x)) s = true → Api.split sep s = [s].
Proof.
  induction s as [|c s IH]; [done|]. cbn [Api.split allChars].
  intros [Hc Hs]%andb_true_iff. apply negb_true_iff in Hc.
  rewrite Ascii.eqb_sym in Hc. by rewrite Hc, IH.
Qed.

Lemma split_app (sep : ascii) (a b : string) :
  ∃ segments, segments ≠ [] ∧
    Api.split sep (a +:+ String sep b) = (segments ++ Api.split sep b)%list.
Proof.
  induction a as [|c a (segments & Hne & IH)].
  - exists [""]. split; [done|].
    change (Api.split sep (String sep b) = "" :: Api.split sep b).
    cbn [Api.split]. by rewrite Ascii.eqb_refl.
  - change (String c a +:+ String sep b) with (String c (a +:+ String sep b)).
    cbn [Api.split]. rewrite IH.
    destruct (Ascii.eqb c sep).
    + by exists ("" :: segments).
    + destruct segments as [|segment more]; [done|].
      by exists (String c segment :: more).
Qed.

Lemma last_app_ne {A} (l l' : list A) (d : A) :
  l' ≠ [] → List.last (l ++ l') d = List.last l' d.
Proof.
  intros Hne. induction l as [|x l IH]; [done|].
  cbn [app List.last]. rewrite IH.
  destruct (l ++ l')%list eqn:Happ; [|done].
  by apply app_eq_nil in Happ as [_ ->].
Qed.

(** [name.split('.').pop()] is what follows the last dot, or the whole
    name when it has no dot. *)
Lemma pop_split_extension (base ext : string) :
  Js.includes ext "." = false →
  Api.pop (Api.split "." ext) = ext ∧
  Api.pop (Api.split "." (base +:+ "." +:+ ext)) = ext.
Proof.
  intros Hdot%includes_char_iff.
  assert (Hext : Api.pop (Api.split "." ext) = ext)
    by (by rewrite split_without).
  split; [done|].
  destruct (split_app "." base ext) as (segments & _ & Hsplit).
  change (base +:+ "." +:+ ext) with (base +:+ String "." ext).
  unfold Api.pop in *. rewrite Hsplit, last_app_ne; [done|].
  apply split_not_nil.
Qed.

Lemma includes_elem_of (array : list string) (s : string) :
  Api.includes array s = true ↔ s ∈ array.
Proof.
  unfold Api.includes. rewrite existsb_exists. split.
  - intros (x & Hin & ->%String.eqb_eq). by apply list_elem_of_In.
  - intros Hin. exists s. split; [by apply list_elem_of_In|].
    apply String.eqb_refl.
Qed.

(** X20.  The extension check of [uploadAttachment] reads what follows
    the last dot of the file name, or the whole name when it has no dot,
    without regard to case: when that is a blocked extension the upload is
    refused as a bad request before anything is decoded, stored or
    recorded.  A name that ends with a dot has no extension for the check
    and is never refused by it. *)
Theorem uploadAttachment_blocks_extension :
  ∀ (E : Api.Env) (organizationId entityId entityType : string)
    (uploadDto : Api.UploadAttachmentDto) (userId : option string)
    (w : Api.World) (ext : string),
    Js.includes ext "." = false →
    Js.toLowerCase ext ∈ Api.BLOCKED_EXTENSIONS →
    (Api.up_fileName uploadDto = ext ∨
     ∃ base, Api.up_fileName uploadDto = base +:+ "." +:+ ext) →
    Api.uploadAttachment E organizationId entityId entityType uploadDto
                         userId w =
    (Api.addEvents w [Api.Console "Error uploading attachment:"],
     inl (Api.BadRequestException
            ("File extension '." +:+ Js.toLowerCase ext +:+
             "' is not allowed for security reasons"))) ∧
    (∀ base fileType fileData,
       Api.blockedExtension
         {| Api.up_fileName := base +:+ "."; Api.up_fileType := fileType;
            Api.up_fileData := fileData |} = false).
Proof.
  intros E organizationId entityId entityType uploadDto userId w ext
         Hdot Hblocked Hname.
  split.
  - assert (Hpop : Api.pop (Api.split "." (Api.up_fileName uploadDto)) = ext).
    { destruct (pop_split_extension "" ext Hdot) as [Hwhole _].
      destruct Hname as [->|[base ->]]; [done|].
      by destruct (pop_split_extension base ext Hdot) as [_ Hlast]. }
    rewrite uploadAttachment_checked. cbv zeta.
    unfold Api.blockedExtension. cbv zeta. rewrite Hpop.
    replace (Api.includes Api.BLOCKED_EXTENSIONS (Js.toLowerCase ext))
      with true by (symmetry; by apply includes_elem_of).
    replace (Js.falsy (Js.toLowerCase ext)) with false; [done|].
    symmetry. apply falsy_false. intros Hempty. rewrite Hempty in Hblocked.
    by vm_compute in Hblocked; repeat
      (apply elem_of_cons in Hblocked as [Hblocked|Hblocked];
       [discriminate|]); apply elem_of_nil in Hblocked.
  - intros base fileType fileData. unfold Api.blockedExtension.
    cbv zeta. cbn [Api.up_fileName].
    destruct (pop_split_extension base "" eq_refl) as [_ Hlast].
    change (base +:+ "." +:+ "") with (base +:+ ".") in Hlast.
    by rewrite Hlast.
Qed.

Lemma uploadAttachment_blocks_extension_witness :
  Api.uploadAttachment (ApiDemo.env "") "org_1" "tsk_1" "task"
    {| Api.up_fileName := "Quarterly.Report.EXE";
       Api.up_fileType := "application/pdf"; Api.up_fileData := "" |}
    None ApiDemo.world0 =
  (Api.addEvents ApiDemo.world0 [Api.Console "Error uploading attachment:"],
   inl (Api.BadRequestException
          "File extension '.exe' is not allowed for security reasons")).
Proof.
  apply (uploadAttachment_blocks_extension (ApiDemo.env "") "org_1" "tsk_1"
           "task"
           {| Api.up_fileName := "Quarterly.Report.EXE";
              Api.up_fileType := "application/pdf"; Api.up_fileData := "" |}
           None ApiDemo.world0 "EXE").
  - reflexivity.
  - vm_compute. left.
  - right. by exists "Quarterly.Report".
Defined.

(** ** What an upload leaves behind *)

(** X21.  [uploadAttachment] ends in one of three ways.  It refuses the
    upload as a bad request, exactly when one of its three checks fails,
    and then nothing was stored or recorded.  Or it returns the response
    for the new row, after one put of the object, the creation of a row
    whose [url] is the key of that object and whose organization is the
    caller's, and the signing of that key, in this order.  Or it fails
    with 'Failed to upload attachment', whatever was thrown: the object
    was then put or at least sent, no call deletes it again, and the row
    may or may not have been created. *)
Theorem uploadAttachment_outcomes :
  ∀ (E : Api.Env) (organizationId entityId entityType : string)
    (uploadDto : Api.UploadAttachmentDto) (userId : option string)
    (w : Api.World),
    let key := Api.uploadKey E w organizationId entityId entityType
                             uploadDto in
    let put := Api.uploadPut E w organizationId entityId entityType uploadDto
                             userId in
    let row := Api.uploadRow E w organizationId entityId entityType uploadDto
                             userId in
    ∃ w' r,
      Api.uploadAttachment E organizationId entityId entityType uploadDto
                           userId w = (w', r) ∧
      Api.questionnaires w' = Api.questionnaires w ∧
      match r with
      | inl (Api.BadRequestException _) =>
          Api.passesChecks E uploadDto = false ∧
          w' = Api.addEvents w [Api.Console "Error uploading attachment:"]
      | inl (Api.InternalServerErrorException message) =>
          message = "Failed to upload attachment" ∧
          Api.passesChecks E uploadDto = true ∧
          (∃ evs, Api.trace w' = (Api.trace w ++ put :: evs)%list ∧
                  List.filter Api.isDeleteObject evs = []) ∧
          (Api.attachments w' = Api.attachments w ∨
           Api.attachments w' = (Api.attachments w ++ [row])%list)
      | inl (Api.Raised _) => False
      | inr response =>
          Api.passesChecks E uploadDto = true ∧
          Api.trace w' =
            (Api.trace w ++
             [put; Api.CreateAttachment row;
              Api.SignUrl (Api.bucketName E) key Api.SIGNED_URL_EXPIRY])%list ∧
          Api.attachments w' = (Api.attachments w ++ [row])%list ∧
          Api.att_url row = key ∧
          Api.att_organizationId row = organizationId ∧
          Api.res_id response = Api.att_id row ∧
          Api.res_size response
            = Api.byteLength (Api.fromBase64 E (Api.up_fileData uploadDto))
      end.
Proof.
  intros E organizationId entityId entityType uploadDto userId w key put row.
  rewrite uploadAttachment_checked. cbv zeta. unfold Api.passesChecks.
  fold key. fold put. fold row.
  destruct (Api.blockedExtension uploadDto); [by eexists _, _|].
  destruct (Api.blockedMimeType uploadDto); [by eexists _, _|].
  destruct (Api.tooLarge E uploadDto); [by eexists _, _|].
  destruct (Api.putObjectFailure E (Api.bucketName E) key).
  { eexists _, _. split; [reflexivity|]. split; [done|].
    split; [done|]. split; [done|]. split; [|by left].
    by exists [Api.Console "Error uploading attachment:"]. }
  destruct (Api.createAttachmentFailure E).
  { eexists _, _. split; [reflexivity|]. split; [done|].
    split; [done|]. split; [done|]. split; [|by left].
    by eexists [_; _]. }
  destruct (Api.getSignedUrl E (Api.bucketName E) key Api.SIGNED_URL_EXPIRY).
  { eexists _, _. split; [reflexivity|]. split; [done|].
    split; [done|]. split; [done|]. split; [|by right].
    by eexists [_; _; _]. }
  eexists _, _. split; [reflexivity|]. done.
Qed.

Lemma uploadAttachment_outcomes_witness :
  ∃ response,
    snd (Api.uploadAttachment (ApiDemo.env "") "org_1" "tsk_1" "task"
           ApiDemo.upload1 (Some "usr_1") ApiDemo.world0) = inr response ∧
    Api.res_id response = "id_0" ∧ Api.res_size response = 33%N ∧
    map Api.att_url (Api.attachments ApiDemo.world1) =
      ["org_1/attachments/task/tsk_1/1706745600000-00112233445566778899aabbccddeeff-Security_questionnaire__v2_.txt"].
Proof.
  destruct (uploadAttachment_outcomes (ApiDemo.env "") "org_1" "tsk_1" "task"
              ApiDemo.upload1 (Some "usr_1") ApiDemo.world0)
    as (w' & r & Hrun & _ & Hr).
  unfold ApiDemo.world1. rewrite Hrun. cbn [fst snd].
  assert (Hok : ∃ response, r = inr response).
  { assert (Hsnd : snd (Api.uploadAttachment (ApiDemo.env "") "org_1" "tsk_1"
                          "task" ApiDemo.upload1 (Some "usr_1")
                          ApiDemo.world0) = r) by (by rewrite Hrun).
    vm_compute in Hsnd. rewrite <- Hsnd. eauto. }
  destruct Hok as [response ->]. exists response.
  destruct Hr as (_ & _ & Hrows & _ & _ & Hid & Hsize).
  split; [done|]. split; [by rewrite Hid|]. split; [by rewrite Hsize|].
  rewrite Hrows. vm_compute. reflexivity.
Defined.

(** ** From the key of an upload to the key of a read *)

Lemma string_of_uint_digits (d : Decimal.uint) :
  allChars Regex.isDigit (NilEmpty.string_of_uint d) = true.
Proof. induction d; cbn; done. Qed.

Lemma allChars_toLowerCase (p q : ascii → bool) (s : string) :
  (∀ c, p c = true → q (Js.lowerChar c) = true) →
  allChars p s = true → allChars q (Js.toLowerCase s) = true.
Proof.
  intros Hpq. induction s as [|c s IH]; [done|].
  cbn [allChars Js.toLowerCase]. intros [Hc Hs]%andb_true_iff.
  by rewrite Hpq, IH.
Qed.

Lemma objectKey_chars (organizationId entityType entityId : string)
    (timestamp : N) (fileId fileName : string) :
  allChars Api.isIdChar organizationId = true →
  allChars Api.isIdChar entityType = true →
  allChars Api.isIdChar entityId = true →
  allChars Api.isIdChar fileId = true →
  let stem := organizationId +:+ "/attachments/" +:+ entityType +:+ "/" +:+
              entityId +:+ "/" +:+ Api.numberToString timestamp +:+ "-" +:+
              fileId +:+ "-" in
  Api.objectKey organizationId entityType entityId timestamp fileId
                (Api.sanitizeFileName fileName)
    = stem +:+ Api.sanitizeFileName fileName ∧
  allChars (fun x => negb (Ascii.eqb "." x)) stem = true ∧
  allChars Api.isKeyChar
    (Api.objectKey organizationId entityType entityId timestamp fileId
                   (Api.sanitizeFileName fileName)) = true.
Proof.
  intros Horg Htype Hid Hfile stem.
  assert (Hdigits : allChars Api.isIdChar (Api.numberToString timestamp)
                    = true).
  { eapply allChars_impl; [|apply string_of_uint_digits].
    intros c Hc. unfold Api.isIdChar, Regex.isWord. by rewrite Hc, !orb_true_r. }
  assert (Hnodot : ∀ s, allChars Api.isIdChar s = true →
                        allChars (fun x => negb (Ascii.eqb "." x)) s = true).
  { intros s. apply allChars_impl. intros c Hc.
    apply negb_true_iff, not_true_iff_false. intros <-%Ascii.eqb_eq.
    by vm_compute in Hc. }
  assert (Hkey : ∀ s, allChars Api.isIdChar s = true →
                      allChars Api.isKeyChar s = true).
  { intros s. apply allChars_impl. intros c Hc. unfold Api.isKeyChar.
    by rewrite Hc. }
  split; [|split].
  - unfold Api.objectKey. subst stem. by rewrite !append_assoc.
  - subst stem. rewrite !allChars_app.
    rewrite (Hnodot organizationId), (Hnodot entityType), (Hnodot entityId),
      (Hnodot (Api.numberToString timestamp)), (Hnodot fileId) by done.
    reflexivity.
  - unfold Api.objectKey. rewrite !allChars_app.
    rewrite (Hkey organizationId), (Hkey entityType), (Hkey entityId),
      (Hkey (Api.numberToString timestamp)), (Hkey fileId) by done.
    change (allChars Api.isKeyChar "/attachments/") with true.
    change (allChars Api.isKeyChar "/") with true.
    change (allChars Api.isKeyChar "-") with true. cbn [andb].
    eapply allChars_impl; [|apply allChars_replaceOutside].
    intros c. unfold Api.isFileNameChar, Api.isKeyChar, Api.isIdChar, Regex.isWord,
      isAlnum, isAlpha.
    destruct (Regex.isLower c), (Regex.isUpper c), (Regex.isDigit c),
      (Ascii.eqb c "."), (Ascii.eqb c "-"), (Ascii.eqb c "_"),
      (Ascii.eqb c "/"); done.
Qed.

Lemma isKeyChar_lower_no_colon (c : ascii) :
  Api.isKeyChar c = true → negb (Ascii.eqb ":" (Js.lowerChar c)) = true.
Proof. destruct c as [[] [] [] [] [] [] [] []]; by vm_compute. Qed.

Lemma api_plain_key_accepted (R : Runtime) (url : string) (c : ascii)
    (tail : string) :
  url = String c tail → Ascii.eqb "/" c = false →
  newURL R url = None →
  Js.includes (Js.toLowerCase url) "://" = false →
  Regex.test ApiS3.domainPattern url = false →
  hasTraversal url = false →
  ApiS3.extractS3KeyFromUrl R url = inr url.
Proof.
  intros -> Hc Hnew Hscheme Hdomain Htrav. unfold ApiS3.extractS3KeyFromUrl.
  cbn [Js.falsy]. rewrite Hnew. cbv zeta. rewrite Hscheme, Hdomain, Htrav.
  unfold Js.startsWith. rewrite isPrefix_cons, Hc. done.
Qed.

Lemma objectKey_extractable :
  ∀ (R : Runtime) (organizationId entityType entityId : string)
    (timestamp : N) (fileId fileName : string),
    let key := Api.objectKey organizationId entityType entityId timestamp
                             fileId (Api.sanitizeFileName fileName) in
    organizationId ≠ "" →
    allChars Api.isIdChar organizationId = true →
    allChars Api.isIdChar entityType = true →
    allChars Api.isIdChar entityId = true →
    allChars Api.isIdChar fileId = true →
    newURL R key = None →
    hasTraversal key = false ∧
    ApiS3.extractS3KeyFromUrl R key = inr key.
Proof.
  intros R organizationId entityType entityId timestamp fileId fileName key
         Hne Horg Htype Hid Hfile Hnew.
  destruct (objectKey_chars organizationId entityType entityId timestamp
              fileId fileName Horg Htype Hid Hfile)
    as (Hkey & Hstem & Hchars).
  fold key in Hkey, Hchars.
  set (stem := organizationId +:+ "/attachments/" +:+ entityType +:+ "/" +:+
               entityId +:+ "/" +:+ Api.numberToString timestamp +:+ "-" +:+
               fileId +:+ "-") in *.
  assert (Htrav : hasTraversal key = false).
  { rewrite Hkey.
    destruct (sanitizeFileName_traversal fileName) as [Hslash Hback].
    rewrite hasTraversal_app_safe by done.
    unfold hasTraversal.
    by rewrite (includes_char_false stem "." "./"),
               (includes_char_false stem "." ".\"). }
  split; [exact Htrav|].
  assert (Hfirst : ∃ c tail, organizationId = String c tail ∧
                             Api.isIdChar c = true).
  { destruct organizationId as [|c tail]; [done|]. exists c, tail.
    cbn in Horg. by apply andb_true_iff in Horg as [? _]. }
  destruct Hfirst as (c & tail & Horg' & Hc).
  assert (Hshape : key = String c (tail +:+ "/attachments/" +:+ entityType
                     +:+ "/" +:+ entityId +:+ "/" +:+
                     Api.numberToString timestamp +:+ "-" +:+ fileId +:+ "-"
                     +:+ Api.sanitizeFileName fileName)).
  { subst key. unfold Api.objectKey. by rewrite Horg'. }
  assert (Hdomain : Regex.test ApiS3.domainPattern key = false).
  { subst key. unfold Api.objectKey.
    apply domainPattern_needs_dot; [|by right].
    apply includes_char_iff. eapply allChars_impl; [|exact Horg].
    intros x Hx. apply negb_true_iff, not_true_iff_false.
    intros <-%Ascii.eqb_eq. by vm_compute in Hx. }
  apply (api_plain_key_accepted R key c _ Hshape); try done.
  - apply not_true_iff_false. intros <-%Ascii.eqb_eq. by vm_compute in Hc.
  - apply (includes_char_false (Js.toLowerCase key) ":" "//").
    eapply allChars_toLowerCase; [apply isKeyChar_lower_no_colon|done].
Qed.

(** X22.  The key under which [uploadAttachment] stores an object,
    built from identifiers made of word characters and dashes (the
    organization's not empty), is a key [extractS3KeyFromUrl] of the API
    returns as it is whenever the runtime does not parse it as a URL: it
    has no scheme, its first segment has no dot, and the sanitised file
    name at its end cannot bring a path traversal into it. *)
Theorem uploaded_key_is_extractable :
  ∀ (R : Runtime) (organizationId entityType entityId : string)
    (timestamp : N) (fileId fileName : string),
    let key := Api.objectKey organizationId entityType entityId timestamp
                             fileId (Api.sanitizeFileName fileName) in
    organizationId ≠ "" →
    allChars Api.isIdChar organizationId = true →
    allChars Api.isIdChar entityType = true →
    allChars Api.isIdChar entityId = true →
    allChars Api.isIdChar fileId = true →
    newURL R key = None →
    hasTraversal key = false ∧
    ApiS3.extractS3KeyFromUrl R key = inr key.
Proof.
  intros. by apply objectKey_extractable.
Qed.

Lemma uploaded_key_is_extractable_witness :
  ApiS3.extractS3KeyFromUrl Demo.runtime
    (Api.objectKey "org_1" "task" "tsk_1" 1706745600000
       "00112233445566778899aabbccddeeff"
       (Api.sanitizeFileName "../../etc/passwd"))
  = inr "org_1/attachments/task/tsk_1/1706745600000-00112233445566778899aabbccddeeff-.._.._etc_passwd".
Proof.
  destruct (uploaded_key_is_extractable Demo.runtime "org_1" "task" "tsk_1"
              1706745600000 "00112233445566778899aabbccddeeff"
              "../../etc/passwd") as [_ Hkey];
    [discriminate|reflexivity|reflexivity|reflexivity|reflexivity
    |reflexivity|].
  rewrite Hkey. vm_compute. reflexivity.
Defined.

(** ** Reading an attachment back *)

Lemma api_liftOutcome_eq {A} (r : Js.exn + A) (w : Api.World) :
  Api.liftOutcome r w =
  (w, match r with
      | inl e => inl (Api.Raised e)
      | inr a => inr a
      end).
Proof. reflexivity. Qed.

Lemma api_bind_eq {A B} (m : Api.M A) (k : A → Api.M B) (w : Api.World) :
  (m ≫= k) w =
  match m w with
  | (w', inl e) => (w', inl e)
  | (w', inr a) => k a w'
  end.
Proof. reflexivity. Qed.

(** What [extractContentFromAttachment] does, step by step. *)
Lemma extractContentFromAttachment_eq (E : Api.Env)
    (attachmentId organizationId : string) (w : Api.World) :
  let found := Api.addEvents w [Api.FindAttachment attachmentId
                                                   organizationId] in
  Api.extractContentFromAttachment E attachmentId organizationId w =
  match List.find (Api.isRow attachmentId organizationId)
                  (Api.attachments w) with
  | None => (found, inl (Api.Raised (Js.Error "Attachment not found")))
  | Some attachment =>
      match Api.APP_AWS_BUCKET_NAME E with
      | None =>
          (found, inl (Api.Raised (Js.Error "APP_AWS_BUCKET_NAME environment variable is not set in Trigger.dev.")))
      | Some bucket =>
          if Js.falsy bucket then
            (found, inl (Api.Raised (Js.Error "APP_AWS_BUCKET_NAME environment variable is not set in Trigger.dev.")))
          else
            match ApiS3.extractS3KeyFromUrl (Api.runtime E)
                                            (Api.att_url attachment) with
            | inl e => (found, inl (Api.Raised e))
            | inr key =>
                if Js.falsy_opt (Api.APP_AWS_ACCESS_KEY_ID E) ||
                   Js.falsy_opt (Api.APP_AWS_SECRET_ACCESS_KEY E)
                then (found, inl (Api.Raised (Js.Error "AWS S3 credentials are missing. Please set APP_AWS_ACCESS_KEY_ID and APP_AWS_SECRET_ACCESS_KEY environment variables in Trigger.dev.")))
                else
                  (Api.addEvents w [Api.FindAttachment attachmentId
                                                       organizationId;
                                    Api.GetObject bucket key],
                   match Api.getObject E bucket key with
                   | inl e => inl (Api.Raised e)
                   | inr response =>
                       match Body response with
                       | None =>
                           inl (Api.Raised (Js.Error "Failed to retrieve attachment from S3"))
                       | Some buffer =>
                           let fileType :=
                             orElse (ContentType response)
                               (match Api.att_type attachment with
                                | Api.image => "image/png"
                                | _ => "application/pdf"
                                end) in
                           match Api.extractContentFromFile E
                                   (Api.toBase64 E buffer) fileType with
                           | inl e => inl (Api.Raised e)
                           | inr content => inr (content, fileType)
                           end
                       end
                   end)
            end
      end
  end.
Proof.
  intros found. unfold Api.extractContentFromAttachment.
  rewrite (api_bind_inr _ _ _ _ _ (api_findAttachment_eq _ _ _)).
  fold found. cbn [Api.attachments Api.addEvents].
  destruct (List.find _ _) as [attachment|]; [|done].
  destruct (Api.APP_AWS_BUCKET_NAME E) as [bucket|]; [|done].
  cbn [Js.falsy_opt default]. destruct (Js.falsy bucket); [done|].
  rewrite api_bind_eq, api_liftOutcome_eq.
  destruct (ApiS3.extractS3KeyFromUrl _ _) as [e|key]; [done|].
  unfold Api.createS3Client.
  destruct (_ || _); [done|].
  rewrite (api_bind_inr _ _ found found tt eq_refl).
  rewrite api_bind_eq, api_s3_get_eq. unfold id.
  destruct (Api.getObject E bucket key) as [e|response];
    [subst found; by autorewrite with api|].
  destruct (Body response) as [buffer|];
    [|subst found; by autorewrite with api].
  cbv zeta. rewrite api_bind_eq, api_liftOutcome_eq.
  destruct (Api.extractContentFromFile E _ _);
    subst found; by autorewrite with api.
Qed.

Lemma find_isRow_Some (id org : string) (rows : list Api.Attachment)
    (a : Api.Attachment) :
  List.find (Api.isRow id org) rows = Some a →
  a ∈ rows ∧ Api.att_id a = id ∧ Api.att_organizationId a = org.
Proof.
  intros [Hin Hrow]%find_some. split; [by apply list_elem_of_In|].
  unfold Api.isRow in Hrow.
  by apply andb_true_iff in Hrow as [->%String.eqb_eq ->%String.eqb_eq].
Qed.

(** X23.  [extractContentFromAttachment] reads only what belongs to
    the organization it is given: without a row with that id in that
    organization it throws 'Attachment not found' and reads nothing; and
    an object it reads is in the configured bucket, under the key that the
    [url] of such a row stands for, a key that is not empty and has no
    path traversal.  It reads at most one object and changes no table. *)
Theorem attachment_read_is_scoped :
  ∀ (E : Api.Env) (attachmentId organizationId : string) (w : Api.World),
    let out := Api.extractContentFromAttachment E attachmentId
                 organizationId w in
    (List.find (Api.isRow attachmentId organizationId) (Api.attachments w)
       = None →
     out = (Api.addEvents w [Api.FindAttachment attachmentId organizationId],
            inl (Api.Raised (Js.Error "Attachment not found")))) ∧
    (∀ bucket key,
       Api.GetObject bucket key ∈ Api.eventsSince w (fst out) →
       Api.APP_AWS_BUCKET_NAME E = Some bucket ∧
       key ≠ "" ∧ hasTraversal key = false ∧
       ∃ attachment,
         attachment ∈ Api.attachments w ∧
         Api.att_id attachment = attachmentId ∧
         Api.att_organizationId attachment = organizationId ∧
         derivedKey (Api.runtime E) (Api.att_url attachment) = Some key) ∧
    (length (List.filter Api.isGetObject (Api.eventsSince w (fst out))) ≤ 1)%nat ∧
    Api.attachments (fst out) = Api.attachments w ∧
    Api.questionnaires (fst out) = Api.questionnaires w.
Proof.
  intros E attachmentId organizationId w out. subst out.
  rewrite extractContentFromAttachment_eq. cbv zeta.
  set (found := Api.addEvents w [Api.FindAttachment attachmentId
                                                    organizationId]).
  assert (Hquiet :
    ∀ e : Api.exn,
      (∀ bucket key,
         Api.GetObject bucket key
           ∈ Api.eventsSince w
               (fst (found, inl e : Api.exn + (string * string))) →
         Api.APP_AWS_BUCKET_NAME E = Some bucket ∧
         key ≠ "" ∧ hasTraversal key = false ∧
         ∃ attachment,
           attachment ∈ Api.attachments w ∧
           Api.att_id attachment = attachmentId ∧
           Api.att_organizationId attachment = organizationId ∧
           derivedKey (Api.runtime E) (Api.att_url attachment) = Some key) ∧
      (length (List.filter Api.isGetObject
                 (Api.eventsSince w
                    (fst (found, inl e : Api.exn + (string * string)))))
       ≤ 1)%nat ∧
      Api.attachments (fst (found, inl e : Api.exn + (string * string)))
        = Api.attachments w ∧
      Api.questionnaires (fst (found, inl e : Api.exn + (string * string)))
        = Api.questionnaires w).
  { intros e. cbn [fst]. subst found. rewrite api_eventsSince_addEvents.
    split; [|split; [cbn; lia|done]].
    intros bucket key [Heq|Hin%elem_of_nil]%elem_of_cons; done. }
  destruct (List.find _ _) as [attachment|] eqn:Hfind;
    [|split; [done|apply Hquiet]].
  split; [done|].
  apply find_isRow_Some in Hfind as (Hin & Hid & Horg).
  destruct (Api.APP_AWS_BUCKET_NAME E) as [bucket|] eqn:Hb; [|apply Hquiet].
  destruct (Js.falsy bucket); [apply Hquiet|].
  destruct (ApiS3.extractS3KeyFromUrl _ _) as [e|key] eqn:Hkey;
    [apply Hquiet|].
  destruct (_ || _); [apply Hquiet|].
  cbn [fst]. rewrite api_eventsSince_addEvents.
  apply api_key_safe in Hkey as (Hderived & Hne & Htrav).
  split; [|split; [cbn; lia|done]].
  intros bucket' key' Hev.
  apply elem_of_cons in Hev as [Heq|Hev]; [done|].
  apply elem_of_cons in Hev as [[= -> ->]|Hev%elem_of_nil]; [|done].
  split; [done|]. split; [done|]. split; [done|]. by exists attachment.
Qed.

Lemma attachment_read_is_scoped_witness :
  snd (Api.extractContentFromAttachment (ApiDemo.env "") "id_0" "org_2"
         ApiDemo.world1)
    = inl (Api.Raised (Js.Error "Attachment not found")) ∧
  List.filter Api.isGetObject
    (Api.eventsSince ApiDemo.world1
       (fst (Api.extractContentFromAttachment (ApiDemo.env "") "id_0" "org_2"
               ApiDemo.world1))) = [].
Proof.
  destruct (attachment_read_is_scoped (ApiDemo.env "") "id_0" "org_2"
              ApiDemo.world1) as (Hnone & _).
  rewrite Hnone by (vm_compute; reflexivity).
  split; [reflexivity|]. cbn [fst]. by rewrite api_eventsSince_addEvents.
Defined.

Lemma find_app_fresh (id org : string) (rows : list Api.Attachment)
    (row : Api.Attachment) :
  id ∉ map Api.att_id rows →
  List.find (Api.isRow id org) (rows ++ [row]) =
  if Api.isRow id org row then Some row else None.
Proof.
  induction rows as [|a rows IH]; intros Hfresh; [done|].
  cbn [app List.find]. destruct (Api.isRow id org a) eqn:Ha.
  - exfalso. apply Hfresh. unfold Api.isRow in Ha.
    apply andb_true_iff in Ha as [<-%String.eqb_eq _]. cbn. left.
  - apply IH. intros Hin. apply Hfresh. cbn. by right.
Qed.

(** X24.  What [uploadAttachment] stores, [extractContentFromAttachment]
    reads back.  After an upload that succeeds, with a new id for its row
    and identifiers made of word characters and dashes, the task given the
    id of the response and the organization of the upload finds the row
    and reads one object: the one in the bucket and under the key of the
    put of the upload.  Given any other organization it throws 'Attachment
    not found'. *)
Theorem uploaded_attachment_is_read_back :
  ∀ (E : Api.Env) (organizationId entityId entityType : string)
    (uploadDto : Api.UploadAttachmentDto) (userId : option string)
    (w : Api.World) (bucket downloadUrl : string),
    let key := Api.uploadKey E w organizationId entityId entityType
                             uploadDto in
    let row := Api.uploadRow E w organizationId entityId entityType uploadDto
                             userId in
    let upload := Api.uploadAttachment E organizationId entityId entityType
                                       uploadDto userId w in
    Api.passesChecks E uploadDto = true →
    Api.APP_AWS_BUCKET_NAME E = Some bucket → bucket ≠ "" →
    Js.falsy_opt (Api.APP_AWS_ACCESS_KEY_ID E) = false →
    Js.falsy_opt (Api.APP_AWS_SECRET_ACCESS_KEY E) = false →
    Api.putObjectFailure E bucket key = None →
    Api.createAttachmentFailure E = None →
    Api.getSignedUrl E bucket key Api.SIGNED_URL_EXPIRY = inr downloadUrl →
    Api.att_id row ∉ map Api.att_id (Api.attachments w) →
    organizationId ≠ "" →
    allChars Api.isIdChar organizationId = true →
    allChars Api.isIdChar entityType = true →
    allChars Api.isIdChar entityId = true →
    allChars Api.isIdChar (Api.randomHex E w) = true →
    newURL (Api.runtime E) key = None →
    (∃ response, snd upload = inr response ∧
                 Api.res_id response = Api.att_id row) ∧
    Api.eventsSince w (fst upload) =
      [Api.uploadPut E w organizationId entityId entityType uploadDto userId;
       Api.CreateAttachment row;
       Api.SignUrl bucket key Api.SIGNED_URL_EXPIRY] ∧
    Api.eventsSince (fst upload)
      (fst (Api.extractContentFromAttachment E (Api.att_id row)
              organizationId (fst upload))) =
      [Api.FindAttachment (Api.att_id row) organizationId;
       Api.GetObject bucket key] ∧
    (∀ other, other ≠ organizationId →
       snd (Api.extractContentFromAttachment E (Api.att_id row) other
              (fst upload))
       = inl (Api.Raised (Js.Error "Attachment not found"))).
Proof.
  intros E organizationId entityId entityType uploadDto userId w bucket
         downloadUrl key row upload Hchecks Hbucket Hne Hid Hsecret Hput
         Hcreate Hsign Hfresh Horg Horgc Htype Hent Hhex Hnew.
  assert (Hname : Api.bucketName E = bucket)
    by (unfold Api.bucketName; by rewrite Hbucket).
  assert (Hup : upload =
    (Api.withAttachments
       (Api.addEvents w
          [Api.uploadPut E w organizationId entityId entityType uploadDto
                         userId;
           Api.CreateAttachment row;
           Api.SignUrl bucket key Api.SIGNED_URL_EXPIRY])
       (Api.attachments w ++ [row]),
     inr {| Api.res_id := Api.att_id row;
            Api.res_name := Api.up_fileName uploadDto;
            Api.res_type :=
              Api.mapFileTypeToAttachmentType (Api.up_fileType uploadDto);
            Api.res_downloadUrl := downloadUrl;
            Api.res_createdAt := Api.clock w;
            Api.res_size :=
              Api.byteLength
                (Api.fromBase64 E (Api.up_fileData uploadDto)) |})).
  { subst upload. rewrite uploadAttachment_checked. cbv zeta.
    unfold Api.passesChecks in Hchecks.
    apply andb_true_iff in Hchecks as [Hchecks Hsize].
    apply andb_true_iff in Hchecks as [Hext Hmime].
    apply negb_true_iff in Hext, Hmime, Hsize.
    rewrite Hext, Hmime, Hsize. fold key. fold row.
    by rewrite Hname, Hput, Hcreate, Hsign. }
  clearbody upload. subst upload. cbn [fst snd].
  split; [eauto|]. split.
  { by autorewrite with api. }
  assert (Hkey : ApiS3.extractS3KeyFromUrl (Api.runtime E) (Api.att_url row)
                 = inr key).
  { by apply objectKey_extractable. }
  assert (Hfalsy : Js.falsy bucket = false) by (by apply falsy_false).
  split.
  - rewrite extractContentFromAttachment_eq. cbv zeta.
    cbn [Api.attachments Api.withAttachments].
    rewrite find_app_fresh by done.
    replace (Api.isRow (Api.att_id row) organizationId row) with true.
    2: { unfold Api.isRow. cbn [Api.att_organizationId Api.uploadRow row].
         by rewrite !String.eqb_refl. }
    rewrite Hbucket, Hfalsy, Hkey, Hid, Hsecret. cbn [orb fst].
    by autorewrite with api.
  - intros other Hother. rewrite extractContentFromAttachment_eq. cbv zeta.
    cbn [Api.attachments Api.withAttachments].
    rewrite find_app_fresh by done.
    replace (Api.isRow (Api.att_id row) other row) with false; [done|].
    symmetry. unfold Api.isRow.
    replace (String.eqb (Api.att_organizationId row) other) with false;
      [by rewrite andb_false_r|].
    symmetry. apply not_true_iff_false. intros Heq%String.eqb_eq.
    by apply Hother.
Qed.

Lemma uploaded_attachment_is_read_back_witness :
  Api.eventsSince ApiDemo.world1
    (fst (Api.extractContentFromAttachment (ApiDemo.env "") "id_0" "org_1"
            ApiDemo.world1)) =
  [Api.FindAttachment "id_0" "org_1";
   Api.GetObject "attachments"
     "org_1/attachments/task/tsk_1/1706745600000-00112233445566778899aabbccddeeff-Security_questionnaire__v2_.txt"].
Proof.
  destruct (uploaded_attachment_is_read_back (ApiDemo.env "") "org_1" "tsk_1"
              "task" ApiDemo.upload1 (Some "usr_1") ApiDemo.world0
              "attachments"
              "https://signed.example/attachments/org_1/attachments/task/tsk_1/1706745600000-00112233445566778899aabbccddeeff-Security_questionnaire__v2_.txt")
    as (_ & _ & Hread & _); [..|exact Hread];
    try reflexivity; try discriminate.
  vm_compute. intros Hin. by apply elem_of_nil in Hin.
Defined.

(** ** Deleting and signing, one organization at a time *)

Lemma api_deleteAttachmentRow_eq (E : Api.Env) (id org : string)
    (w : Api.World) :
  Api.deleteAttachmentRow E id org w =
  match Api.deleteAttachmentFailure E with
  | Some e => (Api.addEvents w [Api.DeleteAttachment id org],
               inl (Api.Raised e))
  | None =>
      if existsb (Api.isRow id org) (Api.attachments w) then
        (Api.withAttachments (Api.addEvents w [Api.DeleteAttachment id org])
           (List.filter (fun a => negb (Api.isRow id org a))
                        (Api.attachments w)),
         inr tt)
      else (Api.addEvents w [Api.DeleteAttachment id org],
            inl (Api.Raised (Js.Error "Record to delete does not exist.")))
  end.
Proof.
  unfold Api.deleteAttachmentRow.
  rewrite (api_bind_inr _ _ _ _ _ (api_emit_eq _ _)).
  destruct (Api.deleteAttachmentFailure E); [done|].
  rewrite (api_bind_inr _ _ _ _ _ (api_get_eq _)).
  cbn [Api.attachments Api.addEvents].
  by destruct (existsb _ _).
Qed.

Lemma deleteAttachment_eq (E : Api.Env) (organizationId attachmentId : string)
    (w : Api.World) :
  let find := Api.FindAttachment attachmentId organizationId in
  let console := Api.Console "Error deleting attachment:" in
  let failed := inl (Api.InternalServerErrorException
                       "Failed to delete attachment") in
  Api.deleteAttachment E organizationId attachmentId w =
  match List.find (Api.isRow attachmentId organizationId)
                  (Api.attachments w) with
  | None => (Api.addEvents w [find; console],
             inl (Api.BadRequestException "Attachment not found"))
  | Some attachment =>
      let delete := Api.DeleteObject (Api.bucketName E)
                                     (Api.att_url attachment) in
      match Api.deleteObjectFailure E (Api.bucketName E)
                                    (Api.att_url attachment) with
      | Some _ => (Api.addEvents w [find; delete; console], failed)
      | None =>
          match Api.deleteAttachmentFailure E with
          | Some _ =>
              (Api.addEvents w
                 [find; delete;
                  Api.DeleteAttachment attachmentId organizationId; console],
               failed)
          | None =>
              (Api.withAttachments
                 (Api.addEvents w
                    [find; delete;
                     Api.DeleteAttachment attachmentId organizationId])
                 (List.filter
                    (fun a => negb (Api.isRow attachmentId organizationId a))
                    (Api.attachments w)),
               inr tt)
          end
      end
  end.
Proof.
  intros find console failed. unfold Api.deleteAttachment, Api.tryCatch.
  rewrite (api_bind_inr _ _ _ _ _ (api_findAttachment_eq _ _ _)).
  destruct (List.find _ _) as [attachment|] eqn:Hfind.
  2: { unfold Api.throw at 1.
       rewrite (api_bind_inr _ _ _ _ _ (api_console_eq _ _)).
       by autorewrite with api. }
  cbv zeta. rewrite api_bind_eq, api_s3_delete_eq.
  destruct (Api.deleteObjectFailure E _ _).
  { rewrite (api_bind_inr _ _ _ _ _ (api_console_eq _ _)).
    by autorewrite with api. }
  rewrite api_deleteAttachmentRow_eq.
  destruct (Api.deleteAttachmentFailure E).
  { rewrite (api_bind_inr _ _ _ _ _ (api_console_eq _ _)).
    by autorewrite with api. }
  cbn [Api.attachments Api.addEvents].
  replace (existsb (Api.isRow attachmentId organizationId)
                   (Api.attachments w)) with true.
  - by autorewrite with api.
  - symmetry. apply existsb_exists. exists attachment.
    by apply find_some in Hfind.
Qed.

(** X25.  [deleteAttachment] deletes for one organization only.
    Without a row with that id in that organization it refuses with
    'Attachment not found' and deletes nothing.  The object it deletes is
    the one the [url] of such a row names, and it is deleted before the
    row: when the object store refuses, the row stays; when the database
    then fails, the row stays without its object.  Every row of another
    organization, or with another id, is still there afterwards, and what
    is thrown is a bad request or 'Failed to delete attachment'. *)
Theorem deleteAttachment_scoped :
  ∀ (E : Api.Env) (organizationId attachmentId : string) (w : Api.World),
    let out := Api.deleteAttachment E organizationId attachmentId w in
    (List.find (Api.isRow attachmentId organizationId) (Api.attachments w)
       = None →
     out = (Api.addEvents w
              [Api.FindAttachment attachmentId organizationId;
               Api.Console "Error deleting attachment:"],
            inl (Api.BadRequestException "Attachment not found"))) ∧
    (∀ bucket key,
       Api.DeleteObject bucket key ∈ Api.eventsSince w (fst out) →
       bucket = Api.bucketName E ∧
       ∃ attachment,
         attachment ∈ Api.attachments w ∧
         Api.att_id attachment = attachmentId ∧
         Api.att_organizationId attachment = organizationId ∧
         Api.att_url attachment = key) ∧
    (∀ i j,
       Api.eventsSince w (fst out) !! i
         = Some (Api.DeleteAttachment attachmentId organizationId) →
       (∃ bucket key,
          Api.eventsSince w (fst out) !! j
            = Some (Api.DeleteObject bucket key)) →
       j < i) ∧
    (∀ attachment,
       attachment ∈ Api.attachments w →
       Api.isRow attachmentId organizationId attachment = false →
       attachment ∈ Api.attachments (fst out)) ∧
    (snd out = inr tt →
     Api.attachments (fst out) =
       List.filter (fun a => negb (Api.isRow attachmentId organizationId a))
                   (Api.attachments w)) ∧
    (∀ e, snd out = inl e →
       Api.attachments (fst out) = Api.attachments w ∧
       (e = Api.BadRequestException "Attachment not found" ∨
        e = Api.InternalServerErrorException "Failed to delete attachment")).
Proof.
  intros E organizationId attachmentId w out. subst out.
  rewrite deleteAttachment_eq. cbv zeta.
  destruct (List.find _ _) as [attachment|] eqn:Hfind.
  2: { cbn [fst snd]. autorewrite with api.
       split; [done|]. split; [|split; [|split; [|split]]].
       - intros bucket key Hev.
         repeat (apply elem_of_cons in Hev as [Heq|Hev]; [done|]).
         by apply elem_of_nil in Hev.
       - intros [|[|i]] j Hi; done.
       - done.
       - done.
       - intros e He. injection He as <-. auto. }
  split; [done|].
  apply find_isRow_Some in Hfind as (Hin & Hid & Horg).
  assert (Hkept : ∀ a, a ∈ Api.attachments w →
            Api.isRow attachmentId organizationId a = false →
            a ∈ List.filter
                  (fun a => negb (Api.isRow attachmentId organizationId a))
                  (Api.attachments w)).
  { intros a Ha Hrow. apply list_elem_of_In, filter_In.
    split; [by apply list_elem_of_In|by rewrite Hrow]. }
  assert (Hobject : ∀ bucket key evs,
            Api.DeleteObject bucket key
              ∈ Api.FindAttachment attachmentId organizationId ::
                Api.DeleteObject (Api.bucketName E) (Api.att_url attachment) ::
                evs →
            (∀ b k, Api.DeleteObject b k ∉ evs) →
            bucket = Api.bucketName E ∧
            ∃ attachment,
              attachment ∈ Api.attachments w ∧
              Api.att_id attachment = attachmentId ∧
              Api.att_organizationId attachment = organizationId ∧
              Api.att_url attachment = key).
  { intros bucket key evs Hev Hnone.
    apply elem_of_cons in Hev as [Heq|Hev]; [done|].
    apply elem_of_cons in Hev as [[= -> ->]|Hev]; [|by apply Hnone in Hev].
    split; [done|]. by exists attachment. }
  destruct (Api.deleteObjectFailure E _ _) as [failure|].
  { cbn [fst snd]. autorewrite with api.
    split; [|split; [|split; [|split]]].
    - intros bucket key Hev. apply (Hobject _ _ _ Hev).
      intros b k Hk. apply elem_of_cons in Hk as [Heq|Hk]; [done|].
      by apply elem_of_nil in Hk.
    - intros [|[|[|i]]] j Hi; done.
    - done.
    - done.
    - intros e He. injection He as <-. auto. }
  destruct (Api.deleteAttachmentFailure E) as [failure|].
  { cbn [fst snd]. autorewrite with api.
    split; [|split; [|split; [|split]]].
    - intros bucket key Hev. apply (Hobject _ _ _ Hev).
      intros b k Hk.
      repeat (apply elem_of_cons in Hk as [Heq|Hk]; [done|]).
      by apply elem_of_nil in Hk.
    - intros [|[|[|[|i]]]] [|[|[|[|j]]]] Hi (b & k & Hj);
        try done; cbn in *; lia.
    - done.
    - done.
    - intros e He. injection He as <-. auto. }
  cbn [fst snd]. autorewrite with api.
  split; [|split; [|split; [|split]]].
  - intros bucket key Hev. apply (Hobject _ _ _ Hev).
    intros b k Hk. apply elem_of_cons in Hk as [Heq|Hk]; [done|].
    by apply elem_of_nil in Hk.
  - intros [|[|[|i]]] [|[|[|j]]] Hi (b & k & Hj); try done; cbn in *; lia.
  - exact Hkept.
  - done.
  - done.
Qed.

Lemma deleteAttachment_scoped_witness :
  snd (Api.deleteAttachment (ApiDemo.env "") "org_2" "id_0" ApiDemo.world1)
    = inl (Api.BadRequestException "Attachment not found") ∧
  snd (Api.deleteAttachment (ApiDemo.env "") "org_1" "id_0" ApiDemo.world1)
    = inr tt ∧
  Api.attachments
    (fst (Api.deleteAttachment (ApiDemo.env "") "org_1" "id_0"
            ApiDemo.world1)) = [].
Proof.
  destruct (deleteAttachment_scoped (ApiDemo.env "") "org_2" "id_0"
              ApiDemo.world1) as (Hnone & _).
  rewrite Hnone by (vm_compute; reflexivity).
  split; [reflexivity|]. split; vm_compute; reflexivity.
Defined.

Lemma getAttachmentDownloadUrl_eq (E : Api.Env)
    (organizationId attachmentId : string) (w : Api.World) :
  let find := Api.FindAttachment attachmentId organizationId in
  let console := Api.Console "Error generating download URL:" in
  Api.getAttachmentDownloadUrl E organizationId attachmentId w =
  match List.find (Api.isRow attachmentId organizationId)
                  (Api.attachments w) with
  | None => (Api.addEvents w [find; console],
             inl (Api.BadRequestException "Attachment not found"))
  | Some attachment =>
      let sign := Api.SignUrl (Api.bucketName E) (Api.att_url attachment)
                              Api.SIGNED_URL_EXPIRY in
      match Api.getSignedUrl E (Api.bucketName E) (Api.att_url attachment)
                             Api.SIGNED_URL_EXPIRY with
      | inl _ =>
          (Api.addEvents w [find; sign; console],
           inl (Api.InternalServerErrorException
                  "Failed to generate download URL"))
      | inr downloadUrl =>
          (Api.addEvents w [find; sign],
           inr (downloadUrl, Api.SIGNED_URL_EXPIRY))
      end
  end.
Proof.
  intros find console. unfold Api.getAttachmentDownloadUrl, Api.tryCatch.
  rewrite (api_bind_inr _ _ _ _ _ (api_findAttachment_eq _ _ _)).
  destruct (List.find _ _) as [attachment|] eqn:Hfind.
  2: { unfold Api.throw at 1.
       rewrite (api_bind_inr _ _ _ _ _ (api_console_eq _ _)).
       by autorewrite with api. }
  cbv zeta. rewrite api_bind_eq, api_generateSignedUrl_eq.
  destruct (Api.getSignedUrl E _ _ _).
  - rewrite (api_bind_inr _ _ _ _ _ (api_console_eq _ _)).
    by autorewrite with api.
  - by autorewrite with api.
Qed.

(** X26.  [getAttachmentDownloadUrl] signs for one organization only:
    without a row with that id in that organization it refuses with
    'Attachment not found' and signs nothing; the key it signs is the
    [url] of such a row, in the bucket of the service, for 900 seconds,
    the validity it returns with the URL.  It changes no table, and what
    it throws is a bad request or 'Failed to generate download URL'. *)
Theorem getAttachmentDownloadUrl_scoped :
  ∀ (E : Api.Env) (organizationId attachmentId : string) (w : Api.World),
    let out := Api.getAttachmentDownloadUrl E organizationId attachmentId w in
    (List.find (Api.isRow attachmentId organizationId) (Api.attachments w)
       = None →
     out = (Api.addEvents w
              [Api.FindAttachment attachmentId organizationId;
               Api.Console "Error generating download URL:"],
            inl (Api.BadRequestException "Attachment not found"))) ∧
    (∀ bucket key expiresIn,
       Api.SignUrl bucket key expiresIn ∈ Api.eventsSince w (fst out) →
       bucket = Api.bucketName E ∧ expiresIn = 900 ∧
       ∃ attachment,
         attachment ∈ Api.attachments w ∧
         Api.att_id attachment = attachmentId ∧
         Api.att_organizationId attachment = organizationId ∧
         Api.att_url attachment = key) ∧
    (∀ downloadUrl expiresIn,
       snd out = inr (downloadUrl, expiresIn) → expiresIn = 900) ∧
    (∀ e, snd out = inl e →
       e = Api.BadRequestException "Attachment not found" ∨
       e = Api.InternalServerErrorException "Failed to generate download URL") ∧
    Api.attachments (fst out) = Api.attachments w.
Proof.
  intros E organizationId attachmentId w out. subst out.
  rewrite getAttachmentDownloadUrl_eq. cbv zeta.
  destruct (List.find _ _) as [attachment|] eqn:Hfind.
  2: { cbn [fst snd]. autorewrite with api.
       split; [done|]. split; [|split; [|split]].
       - intros bucket key expiresIn Hev.
         repeat (apply elem_of_cons in Hev as [Heq|Hev]; [done|]).
         by apply elem_of_nil in Hev.
       - done.
       - intros e He. injection He as <-. auto.
       - done. }
  split; [done|].
  apply find_isRow_Some in Hfind as (Hin & Hid & Horg).
  assert (Hsign : ∀ bucket key expiresIn evs,
            Api.SignUrl bucket key expiresIn
              ∈ Api.FindAttachment attachmentId organizationId ::
                Api.SignUrl (Api.bucketName E) (Api.att_url attachment)
                            Api.SIGNED_URL_EXPIRY :: evs →
            (∀ b k x, Api.SignUrl b k x ∉ evs) →
            bucket = Api.bucketName E ∧ expiresIn = 900 ∧
            ∃ attachment,
              attachment ∈ Api.attachments w ∧
              Api.att_id attachment = attachmentId ∧
              Api.att_organizationId attachment = organizationId ∧
              Api.att_url attachment = key).
  { intros bucket key expiresIn evs Hev Hnone.
    apply elem_of_cons in Hev as [Heq|Hev]; [done|].
    apply elem_of_cons in Hev as [[= -> -> ->]|Hev];
      [|by apply Hnone in Hev].
    split; [done|]. split; [done|]. by exists attachment. }
  destruct (Api.getSignedUrl E _ _ _) as [failure|downloadUrl].
  - cbn [fst snd]. autorewrite with api. split; [|split; [|split]].
    + intros bucket key expiresIn Hev. apply (Hsign _ _ _ _ Hev).
      intros b k x Hk. apply elem_of_cons in Hk as [Heq|Hk]; [done|].
      by apply elem_of_nil in Hk.
    + done.
    + intros e He. injection He as <-. auto.
    + done.
  - cbn [fst snd]. autorewrite with api. split; [|split; [|split]].
    + intros bucket key expiresIn Hev. apply (Hsign _ _ _ _ Hev).
      intros b k x Hk. by apply elem_of_nil in Hk.
    + by intros url expiresIn [= _ <-].
    + done.
    + done.
Qed.

Lemma getAttachmentDownloadUrl_scoped_witness :
  snd (Api.getAttachmentDownloadUrl (ApiDemo.env "") "org_2" "id_0"
         ApiDemo.world1)
    = inl (Api.BadRequestException "Attachment not found") ∧
  snd <$> (match snd (Api.getAttachmentDownloadUrl (ApiDemo.env "") "org_1"
                        "id_0" ApiDemo.world1) with
           | inr answer => Some answer
           | inl _ => None
           end) = Some 900.
Proof.
  destruct (getAttachmentDownloadUrl_scoped (ApiDemo.env "") "org_2" "id_0"
              ApiDemo.world1) as (Hnone & _).
  rewrite Hnone by (vm_compute; reflexivity).
  split; [reflexivity|]. vm_compute. reflexivity.
Defined.

(** ** The questionnaire task *)

Lemma api_addEvents_nil (w : Api.World) : Api.addEvents w [] = w.
Proof. destruct w. unfold Api.addEvents. cbn. by rewrite app_nil_r. Qed.

(** The extraction of the content only adds to the trace. *)
Lemma extractContent_frame (E : Api.Env) (payload : Api.Payload)
    (w : Api.World) :
  ∃ evs r,
    Api.extractContent E payload w = (Api.addEvents w evs, r) ∧
    List.filter Api.isCreateQuestionnaire evs = [].
Proof.
  unfold Api.extractContent.
  assert (Hthrow : ∀ message,
            ∃ evs r,
              (Api.throwError message : Api.M string) w
                = (Api.addEvents w evs, r) ∧
              List.filter Api.isCreateQuestionnaire evs = []).
  { intros message. eexists [], _. by rewrite api_addEvents_nil. }
  destruct (Api.p_inputType payload) as [| | | |name].
  - destruct (_ || _); [apply Hthrow|].
    rewrite api_liftOutcome_eq. eexists [], _.
    by rewrite api_addEvents_nil.
  - destruct (Js.falsy_opt _); [apply Hthrow|].
    unfold Api.extractContentFromUrl.
    destruct (Js.falsy_opt _); [apply Hthrow|].
    unfold Api.tryCatch.
    rewrite (api_bind_inr _ _ _ _ _ (api_emit_eq _ _)), api_liftOutcome_eq.
    destruct (Api.firecrawl E _); by eexists _, _.
  - destruct (Js.falsy_opt _); [apply Hthrow|].
    rewrite api_bind_eq, extractContentFromAttachment_eq. cbv zeta.
    repeat case_match; simplify_eq; eexists _, _; split; try reflexivity;
      done.
  - destruct (_ || _); [apply Hthrow|].
    rewrite api_bind_eq.
    unfold Api.extractContentFromS3Key, Api.createS3Client.
    destruct (Js.falsy_opt (Api.APP_AWS_QUESTIONNAIRE_UPLOAD_BUCKET E)).
    { eexists [], _. by rewrite api_addEvents_nil. }
    destruct (_ || _).
    { eexists [], _. rewrite api_addEvents_nil. split; reflexivity. }
    rewrite (api_bind_inr _ _ w w tt eq_refl).
    rewrite api_bind_eq, api_s3_get_eq.
    destruct (Api.getObject E _ _) as [e|response]; [by eexists _, _|].
    destruct (Body response) as [buffer|]; [|by eexists _, _].
    cbv zeta. rewrite api_bind_eq, api_liftOutcome_eq.
    destruct (Api.extractContentFromFile E _ _); by eexists _, _.
  - apply Hthrow.
Qed.

Lemma api_createQuestionnaire_eq (E : Api.Env) (payload : Api.Payload)
    (questionsAndAnswers : list Api.QuestionAnswer) (w : Api.World) :
  let row := Api.questionnaireData E payload questionsAndAnswers
               (Api.clock w) (Api.newId E w) in
  Api.createQuestionnaire E payload questionsAndAnswers w =
  match Api.createQuestionnaireFailure E with
  | Some e => (Api.addEvents w [Api.CreateQuestionnaire row],
               inl (Api.Raised e))
  | None =>
      (Api.withQuestionnaires
         (Api.addEvents w [Api.CreateQuestionnaire row])
         (Api.questionnaires w ++ [row]),
       inr row)
  end.
Proof.
  intros row. unfold Api.createQuestionnaire.
  rewrite (api_bind_inr _ _ _ _ _ (api_dateNow_eq _)).
  rewrite (api_bind_inr _ _ _ _ _ (api_get_eq _)).
  rewrite (api_bind_inr _ _ _ _ _ (api_emit_eq _ _)).
  by destruct (Api.createQuestionnaireFailure E).
Qed.

(** What [run] does with the outcome of the extraction. *)
Lemma parse_run_eq (E : Api.Env) (payload : Api.Payload) (w : Api.World) :
  let started :=
    Api.addEvents w [Api.Log info "Starting parse questionnaire task"] in
  let failure := Api.Log error "Failed to parse questionnaire" in
  Api.run E payload w =
  match Api.extractContent E payload started with
  | (w1, inl e) =>
      (Api.addEvents w1 [failure],
       inl (Api.asError e "Failed to parse questionnaire"))
  | (w1, inr content) =>
      match Api.parseQuestionsAndAnswers E content with
      | inl e =>
          (Api.addEvents w1
             [Api.Log info "Content extracted successfully"; failure],
           inl (Api.asError (Api.Raised e) "Failed to parse questionnaire"))
      | inr questionsAndAnswers =>
          let w2 :=
            Api.addEvents w1
              [Api.Log info "Content extracted successfully";
               Api.Log info "Questions and answers parsed"] in
          let row := Api.questionnaireData E payload questionsAndAnswers
                       (Api.clock w2) (Api.newId E w2) in
          match Api.createQuestionnaireFailure E with
          | Some _ =>
              (Api.addEvents w2
                 [Api.CreateQuestionnaire row;
                  Api.Log error "Failed to create questionnaire record"],
               inr {| Api.success := true;
                      Api.questionnaireId := "";
                      Api.questionsAndAnswers := questionsAndAnswers;
                      Api.extractedContent :=
                        String.substring 0 1000 content |})
          | None =>
              (Api.withQuestionnaires
                 (Api.addEvents w2
                    [Api.CreateQuestionnaire row;
                     Api.Log info "Questionnaire record created"])
                 (Api.questionnaires w2 ++ [row]),
               inr {| Api.success := true;
                      Api.questionnaireId := Api.qn_id row;
                      Api.questionsAndAnswers := questionsAndAnswers;
                      Api.extractedContent :=
                        String.substring 0 1000 content |})
          end
      end
  end.
Proof.
  intros started failure. unfold Api.run.
  rewrite (api_bind_inr _ _ _ _ _ (api_logger_eq _ _ _)). fold started.
  unfold Api.tryCatch at 1. rewrite api_bind_eq.
  destruct (Api.extractContent E payload started) as [w1 [e|content]].
  { by rewrite (api_bind_inr _ _ _ _ _ (api_logger_eq _ _ _)). }
  rewrite (api_bind_inr _ _ _ _ _ (api_logger_eq _ _ _)).
  rewrite api_bind_eq, api_liftOutcome_eq.
  destruct (Api.parseQuestionsAndAnswers E content) as [e|qas].
  { rewrite (api_bind_inr _ _ _ _ _ (api_logger_eq _ _ _)).
    by autorewrite with api. }
  rewrite (api_bind_inr _ _ _ _ _ (api_logger_eq _ _ _)).
  autorewrite with api. cbn [app].
  rewrite api_bind_eq. unfold Api.tryCatch.
  rewrite api_bind_eq, api_createQuestionnaire_eq. cbv zeta.
  destruct (Api.createQuestionnaireFailure E).
  - rewrite (api_bind_inr _ _ _ _ _ (api_logger_eq _ _ _)).
    by autorewrite with api.
  - rewrite (api_bind_inr _ _ _ _ _ (api_logger_eq _ _ _)).
    by autorewrite with api.
Qed.

(** X27.  The task checks that the fields of its input type are there
    before it does anything else: file data and file type for a file, the
    URL for a URL, the attachment id for an attachment, the key and the
    file type for an S3 object.  When one is missing or empty, or the
    input type is none of the four, the run throws the error that says
    so, having called nothing and created nothing. *)
Theorem parse_run_requires_input :
  ∀ (E : Api.Env) (payload : Api.Payload) (w : Api.World),
    let missing message :=
      Api.run E payload w =
      (Api.addEvents w [Api.Log info "Starting parse questionnaire task";
                        Api.Log error "Failed to parse questionnaire"],
       inl (Api.Raised (Js.Error message))) in
    (Api.p_inputType payload = Api.InputFile →
     Js.falsy_opt (Api.p_fileData payload) ||
     Js.falsy_opt (Api.p_fileType payload) = true →
     missing "File data and file type are required for file input") ∧
    (Api.p_inputType payload = Api.InputUrl →
     Js.falsy_opt (Api.p_url payload) = true →
     missing "URL is required for URL input") ∧
    (Api.p_inputType payload = Api.InputAttachment →
     Js.falsy_opt (Api.p_attachmentId payload) = true →
     missing "Attachment ID is required for attachment input") ∧
    (Api.p_inputType payload = Api.InputS3 →
     Js.falsy_opt (Api.p_s3Key payload) ||
     Js.falsy_opt (Api.p_fileType payload) = true →
     missing "S3 key and file type are required for S3 input") ∧
    (∀ name, Api.p_inputType payload = Api.InputOther name →
             missing ("Unsupported input type: " +:+ name)).
Proof.
  intros E payload w missing. subst missing. cbv beta.
  assert (Hthrown : ∀ message,
            (∀ w0, Api.extractContent E payload w0
                   = (w0, inl (Api.Raised (Js.Error message)))) →
            Api.run E payload w =
            (Api.addEvents w [Api.Log info "Starting parse questionnaire task";
                              Api.Log error "Failed to parse questionnaire"],
             inl (Api.Raised (Js.Error message)))).
  { intros message Hx. rewrite parse_run_eq. cbv zeta. rewrite Hx.
    by autorewrite with api. }
  split; [|split; [|split; [|split]]].
  - intros Htype Hmissing. apply Hthrown. intros w0.
    unfold Api.extractContent. by rewrite Htype, Hmissing.
  - intros Htype Hmissing. apply Hthrown. intros w0.
    unfold Api.extractContent. by rewrite Htype, Hmissing.
  - intros Htype Hmissing. apply Hthrown. intros w0.
    unfold Api.extractContent. by rewrite Htype, Hmissing.
  - intros Htype Hmissing. apply Hthrown. intros w0.
    unfold Api.extractContent. by rewrite Htype, Hmissing.
  - intros name Htype. apply Hthrown. intros w0.
    unfold Api.extractContent. by rewrite Htype.
Qed.

Lemma parse_run_requires_input_witness :
  Api.run (ApiDemo.env "")
    {| Api.p_inputType := Api.InputAttachment;
       Api.p_organizationId := "org_1";
       Api.p_fileData := None; Api.p_fileName := None;
       Api.p_fileType := None; Api.p_url := None;
       Api.p_attachmentId := Some ""; Api.p_s3Key := None |}
    ApiDemo.world1 =
  (Api.addEvents ApiDemo.world1
     [Api.Log info "Starting parse questionnaire task";
      Api.Log error "Failed to parse questionnaire"],
   inl (Api.Raised
          (Js.Error "Attachment ID is required for attachment input"))).
Proof.
  destruct (parse_run_requires_input (ApiDemo.env "")
              {| Api.p_inputType := Api.InputAttachment;
                 Api.p_organizationId := "org_1";
                 Api.p_fileData := None; Api.p_fileName := None;
                 Api.p_fileType := None; Api.p_url := None;
                 Api.p_attachmentId := Some ""; Api.p_s3Key := None |}
              ApiDemo.world1) as (_ & _ & Hattachment & _).
  by apply Hattachment.
Defined.

Lemma length_substring_le (n m : nat) (s : string) :
  (String.length (String.substring n m s) ≤ m)%nat.
Proof.
  revert n m. induction s as [|c s IH]; intros n m.
  - destruct n, m; cbn; lia.
  - destruct n as [|n].
    + destruct m as [|m]; [cbn; lia|].
      cbn [String.substring String.length]. specialize (IH 0%nat m). lia.
    + cbn [String.substring]. apply IH.
Qed.

Lemma substring_isPrefix (m : nat) (s : string) :
  Js.isPrefix (String.substring 0 m s) s = true.
Proof.
  revert m. induction s as [|c s IH]; intros m.
  - by destruct m.
  - destruct m as [|m]; [done|]. cbn [String.substring].
    rewrite isPrefix_cons, Ascii.eqb_refl. apply IH.
Qed.

(** X28.  A run that returns has parsed the questions of the content
    it extracted: the extraction for the payload, made right after the
    first log line, gave a content; the run reports success, the questions
    and answers the parser gave for that content, and the first thousand
    characters of that content.  The record of the questionnaire is at most one new row, for
    the organization of the payload, with as many questions as were parsed
    and a count of answered questions of zero; when its creation fails the
    run returns all the same, with an empty questionnaire id and nothing
    added to the table.  No attachment is touched. *)
Theorem parse_result_shape :
  ∀ (E : Api.Env) (payload : Api.Payload) (w w' : Api.World)
    (result : Api.ParseResult),
    Api.run E payload w = (w', inr result) →
    Api.success result = true ∧
    (∃ content extracted,
       Api.extractContent E payload
         (Api.addEvents w [Api.Log info "Starting parse questionnaire task"])
         = (extracted, inr content) ∧
       Api.parseQuestionsAndAnswers E content
         = inr (Api.questionsAndAnswers result) ∧
       Api.extractedContent result = String.substring 0 1000 content ∧
       Js.isPrefix (Api.extractedContent result) content = true) ∧
    (String.length (Api.extractedContent result) ≤ 1000)%nat ∧
    Api.attachments w' = Api.attachments w ∧
    ((Api.createQuestionnaireFailure E ≠ None ∧
      Api.questionnaireId result = "" ∧
      Api.questionnaires w' = Api.questionnaires w) ∨
     (Api.createQuestionnaireFailure E = None ∧
      ∃ row,
        Api.questionnaires w' = (Api.questionnaires w ++ [row])%list ∧
        Api.qn_id row = Api.questionnaireId result ∧
        Api.qn_organizationId row = Api.p_organizationId payload ∧
        Api.qn_status row = "completed" ∧
        Api.qn_totalQuestions row = length (Api.questionsAndAnswers result) ∧
        Api.qn_answeredQuestions row = 0%nat ∧
        Api.qn_questions row
          = Api.questionRecords (Api.questionsAndAnswers result))).
Proof.
  intros E payload w w' result. rewrite parse_run_eq. cbv zeta.
  destruct (extractContent_frame E payload
              (Api.addEvents w
                 [Api.Log info "Starting parse questionnaire task"]))
    as (evs & r & Hextract & _).
  rewrite Hextract.
  destruct r as [e|content]; [done|].
  destruct (Api.parseQuestionsAndAnswers E content) as [e|qas] eqn:Hparse;
    [done|].
  destruct (Api.createQuestionnaireFailure E) as [failure|] eqn:Hcreate.
  - intros [= <- <-]. cbn [Api.success Api.extractedContent
      Api.questionsAndAnswers Api.questionnaireId].
    split; [done|]. split.
    { exists content. eexists. split; [reflexivity|].
      split; [done|]. split; [done|]. apply substring_isPrefix. }
    split; [apply length_substring_le|]. split; [done|]. by left.
  - intros [= <- <-]. cbn [Api.success Api.extractedContent
      Api.questionsAndAnswers Api.questionnaireId].
    split; [done|]. split.
    { exists content. eexists. split; [reflexivity|].
      split; [done|]. split; [done|]. apply substring_isPrefix. }
    split; [apply length_substring_le|]. split; [done|]. right.
    split; [done|]. eexists. split; [reflexivity|]. done.
Qed.

Lemma parse_result_shape_witness :
  ∃ result,
    snd (Api.run (ApiDemo.env "Do you encrypt data at rest? Yes.")
           {| Api.p_inputType := Api.InputAttachment;
              Api.p_organizationId := "org_1";
              Api.p_fileData := None; Api.p_fileName := None;
              Api.p_fileType := None; Api.p_url := None;
              Api.p_attachmentId := Some "id_0"; Api.p_s3Key := None |}
           ApiDemo.world1) = inr result ∧
    Api.success result = true ∧
    (String.length (Api.extractedContent result) ≤ 1000)%nat.
Proof.
  set (E := ApiDemo.env "Do you encrypt data at rest? Yes.").
  set (payload := {| Api.p_inputType := Api.InputAttachment;
                     Api.p_organizationId := "org_1";
                     Api.p_fileData := None; Api.p_fileName := None;
                     Api.p_fileType := None; Api.p_url := None;
                     Api.p_attachmentId := Some "id_0";
                     Api.p_s3Key := None |}).
  destruct (Api.run E payload ApiDemo.world1) as [w' r] eqn:Hrun.
  assert (Hok : ∃ result, r = inr result).
  { assert (Hsnd : snd (Api.run E payload ApiDemo.world1) = r)
      by (by rewrite Hrun).
    vm_compute in Hsnd. rewrite <- Hsnd. eauto. }
  destruct Hok as [result ->]. exists result. split; [done|].
  destruct (parse_result_shape E payload ApiDemo.world1 w' result Hrun)
    as (Hsuccess & _ & Hlength & _).
  by split.
Defined.

(** X29.  The questions recorded with a questionnaire are the parsed
    ones, one for one and in their order: the record at a position has
    that position as its index and the question as parsed; it is
    [generated] with the answer when the answer is there and not empty,
    and [untouched] with no answer otherwise. *)
Theorem questionRecords_follow_answers :
  ∀ (questionsAndAnswers : list Api.QuestionAnswer),
    length (Api.questionRecords questionsAndAnswers)
      = length questionsAndAnswers ∧
    (∀ index qa,
       questionsAndAnswers !! index = Some qa →
       ∃ record,
         Api.questionRecords questionsAndAnswers !! index = Some record ∧
         Api.qr_questionIndex record = index ∧
         Api.qr_question record = Api.qa_question qa ∧
         match Api.qa_answer qa with
         | Some (String c rest) =>
             Api.qr_status record = Api.generated ∧
             Api.qr_answer record = Some (String c rest)
         | _ =>
             Api.qr_status record = Api.untouched ∧
             Api.qr_answer record = None
         end) ∧
    (∀ record,
       record ∈ Api.questionRecords questionsAndAnswers →
       (Api.qr_status record = Api.generated ↔ Api.qr_answer record ≠ None)).
Proof.
  intros questionsAndAnswers. unfold Api.questionRecords.
  split; [apply length_imap|]. split.
  - intros index qa Hqa. eexists. rewrite list_lookup_imap, Hqa.
    split; [reflexivity|]. cbn [Api.qr_questionIndex Api.qr_question
      Api.qr_status Api.qr_answer].
    split; [done|]. split; [done|].
    unfold Api.orOption. by destruct (Api.qa_answer qa) as [[|c rest]|].
  - intros record (index & qa & -> & _)%elem_of_lookup_imap.
    cbn [Api.qr_status Api.qr_answer]. unfold Api.orOption.
    by destruct (Api.qa_answer qa) as [[|c rest]|].
Qed.

Lemma questionRecords_follow_answers_witness :
  map Api.qr_status
    (Api.questionRecords
       [ {| Api.qa_question := "Do you encrypt data at rest?";
            Api.qa_answer := Some "Yes." |};
         {| Api.qa_question := "Do you have a SOC 2 report?";
            Api.qa_answer := Some "" |};
         {| Api.qa_question := "Who is your DPO?";
            Api.qa_answer := None |} ])
  = [Api.generated; Api.untouched; Api.untouched] ∧
  length
    (Api.questionRecords
       [ {| Api.qa_question := "Do you encrypt data at rest?";
            Api.qa_answer := Some "Yes." |};
         {| Api.qa_question := "Do you have a SOC 2 report?";
            Api.qa_answer := Some "" |};
         {| Api.qa_question := "Who is your DPO?";
            Api.qa_answer := None |} ]) = 3%nat.
Proof.
  split; [reflexivity|].
  by destruct (questionRecords_follow_answers
                 [ {| Api.qa_question := "Do you encrypt data at rest?";
                      Api.qa_answer := Some "Yes." |};
                   {| Api.qa_question := "Do you have a SOC 2 report?";
                      Api.qa_answer := Some "" |};
                   {| Api.qa_question := "Who is your DPO?";
                      Api.qa_answer := None |} ]) as [-> _].
Defined.

Lemma asError_instanceOfError (e : Api.exn) (message : string) :
  Api.instanceOfError (Api.asError e message) = true ∧
  (Api.instanceOfError e = true → Api.asError e message = e).
Proof. unfold Api.asError. by destruct (Api.instanceOfError e) eqn:He. Qed.

(** X30.  What a failed run throws is always an [Error]; the last thing
    the run did was to log 'Failed to parse questionnaire'; and it has
    neither asked for a questionnaire to be created nor changed the
    questionnaires or the attachments. *)
Theorem parse_run_failure_is_thrown :
  ∀ (E : Api.Env) (payload : Api.Payload) (w w' : Api.World) (e : Api.exn),
    Api.run E payload w = (w', inl e) →
    Api.instanceOfError e = true ∧
    (∃ evs,
       Api.eventsSince w w' =
         (evs ++ [Api.Log error "Failed to parse questionnaire"])%list ∧
       List.filter Api.isCreateQuestionnaire evs = []) ∧
    Api.questionnaires w' = Api.questionnaires w ∧
    Api.attachments w' = Api.attachments w.
Proof.
  intros E payload w w' e. rewrite parse_run_eq. cbv zeta.
  destruct (extractContent_frame E payload
              (Api.addEvents w
                 [Api.Log info "Starting parse questionnaire task"]))
    as (evs & r & -> & Hnone).
  destruct r as [e0|content].
  - intros [= <- <-]. split; [apply asError_instanceOfError|].
    split; [|done]. autorewrite with api.
    exists (Api.Log info "Starting parse questionnaire task" :: evs).
    split; [done|]. exact Hnone.
  - destruct (Api.parseQuestionsAndAnswers E content) as [e0|qas].
    + intros [= <- <-]. split; [apply asError_instanceOfError|].
      split; [|done]. autorewrite with api.
      exists (Api.Log info "Starting parse questionnaire task" ::
              evs ++ [Api.Log info "Content extracted successfully"]).
      split; [cbn [app]; f_equal; by rewrite <- ?app_assoc|].
      cbn [List.filter Api.isCreateQuestionnaire].
      by rewrite List.filter_app, Hnone.
    + by destruct (Api.createQuestionnaireFailure E).
Qed.

Lemma parse_run_failure_is_thrown_witness :
  snd (Api.run (ApiDemo.env "")
         {| Api.p_inputType := Api.InputAttachment;
            Api.p_organizationId := "org_2";
            Api.p_fileData := None; Api.p_fileName := None;
            Api.p_fileType := None; Api.p_url := None;
            Api.p_attachmentId := Some "id_0"; Api.p_s3Key := None |}
         ApiDemo.world1)
    = inl (Api.Raised (Js.Error "Attachment not found")) ∧
  Api.questionnaires
    (fst (Api.run (ApiDemo.env "")
            {| Api.p_inputType := Api.InputAttachment;
               Api.p_organizationId := "org_2";
               Api.p_fileData := None; Api.p_fileName := None;
               Api.p_fileType := None; Api.p_url := None;
               Api.p_attachmentId := Some "id_0"; Api.p_s3Key := None |}
            ApiDemo.world1)) = [].
Proof.
  set (payload := {| Api.p_inputType := Api.InputAttachment;
                     Api.p_organizationId := "org_2";
                     Api.p_fileData := None; Api.p_fileName := None;
                     Api.p_fileType := None; Api.p_url := None;
                     Api.p_attachmentId := Some "id_0";
                     Api.p_s3Key := None |}).
  destruct (Api.run (ApiDemo.env "") payload ApiDemo.world1) as [w' r]
    eqn:Hrun.
  assert (Hr : r = inl (Api.Raised (Js.Error "Attachment not found"))).
  { assert (Hsnd : snd (Api.run (ApiDemo.env "") payload ApiDemo.world1) = r)
      by (by rewrite Hrun).
    vm_compute in Hsnd. by rewrite <- Hsnd. }
  subst r. split; [done|].
  destruct (parse_run_failure_is_thrown (ApiDemo.env "") payload
              ApiDemo.world1 w' _ Hrun) as (_ & _ & Hq & _).
  cbn [fst]. rewrite Hq. vm_compute. reflexivity.
Defined.
